(* ===== verification/_CoqProject ===== *)
-Q . S2P
Prelude.v
GoStrings.v
Sentry.v
Recorder.v
Channel.v
Event.v
Resp.v
Parser.v
Grammar.v
RateLimit.v
GoTime.v
Retry.v
Alert.v
Json.v
Channels.v
Encode.v
Sinks.v
Output.v
Role.v
Gate.v
Monitor.v
Metrics.v
ServeMux.v
Server.v
GoDuration.v
Config.v
App.v
Lifecycle.v
Session.v
Refinement.v
Shutdown.v
Delivery.v
Startup.v
