(* ===== verification/Prelude.v ===== *)
(** * Redis Watcher: a verification development

    Redis Watcher is a daemon that reads the command stream of a Redis server
    (the MONITOR command), turns every line into an audit event and hands the
    event to metrics, to outputs and to an alert engine.

    ** The program

    - [internal/config] reads a YAML file, fills in defaults, applies overrides
      from the environment and validates the whole.
    - [internal/app] builds every other component from the configuration and
      runs the dispatcher, the loop that takes events from the MONITOR client.
    - [internal/monitor] holds one connection at a time: dial, AUTH, MONITOR,
      then a loop that parses each line and puts the event in a bounded queue.
      Sessions are repeated with an exponential backoff, only while the role
      gate is active.
    - [internal/role] asks Redis for its replication role at intervals; the gate
      is active on a master, or always when the configuration says so.
    - [internal/output] puts each sink (standard output, a rotated file, a
      socket) behind a bounded queue with its own goroutine.
    - [internal/alert] matches events against commands and patterns, limits the
      alerts of each (command, source) pair and sends each alert to every channel
      (Telegram, webhook, Pushgateway) with bounded retries.
    - [internal/metrics] is the Prometheus registry and the state behind
      /readyz; [internal/resp] the Redis protocol; [internal/event] the record
      they all share.

    ** The files

    - [Prelude]: errors, results, machine integers, calls on an interface.
    - [GoStrings], [GoTime], [GoDuration], [Json], [Channel]: the parts of Go's
      standard library the program calls -- strings and strconv, the RFC 3339
      layouts, ParseDuration and ParseBool, encoding/json on the values that are
      marshalled, buffered channels; and [ServeMux], the patterns of net/http's
      multiplexer, their conflicts and the choice of a handler.
    - [Sentry] (sentryx/sentryx.go, but for Init): the calls on the Sentry SDK;
      [Recorder] (sentryx/sentryxtest): the transport the tests record them with.
    - [Event] (event/event.go), [Resp] (resp/resp.go), [Parser]
      (monitor/parser.go), [Monitor] (monitor/client.go), [Role] (role/role.go);
      [Grammar]: the lines the parser accepts, as a relation.
    - [Gate]: Wait, subscribe and notify of role/role.go with the gate watcher of
      monitor/client.go, one atomic step at a time, as a step relation.
    - [RateLimit], [Retry], [Alert] (alert/alert.go), [Channels]
      (alert/telegram.go, webhook.go, pushgateway.go).
    - [Encode] and [Output] (output/output.go), [Sinks] (output/stdout.go,
      file.go, network.go).
    - [Metrics] (metrics/metrics.go, the handlers of server.go), [Server]
      (NewServer and Run of metrics/server.go, collectors.go).
    - [Config] (config/config.go), [App] (app/app.go, logging/logging.go, the
      set-up of sentryx/sentryx.go, cmd/redis-watcher/main.go).
    - [Lifecycle]: app.Run after the construction.  The state [world] holds every
      component with the point its goroutine has reached, the context, the
      signals and the calls made on the registry; a [label] is one atomic step of
      one goroutine ([exec], [step]), and [launch] the state the goroutines start
      from.  [Session] relates its client to the sessions of [Monitor];
      [Refinement] relates the whole to the components; [Shutdown] and [Delivery]
      are about its end; [Startup] goes from the configuration to [launch], and reads the
      queues the way a scrape does.

    A definition has the name of the function, method or type it models, and
    its comment gives the Go signature.  A struct is a record.  A method is a
    function from its receiver to the new receiver; the calls it makes on
    another component are returned in order as a trace of actions ([action],
    [out_action], [mon_action], [registry_call]), and a component that is called
    is a handler of those calls (class [Handler]), so that clients and servers
    are related by running the trace of the one on the other.  Fallible functions
    return a [result]: a value, an error, or a panic of the Go runtime.  [None]
    stands for a goroutine that blocks for ever, or for a loop given too little
    fuel.  What a component cannot decide -- the answer of a peer, the clock,
    which case of a select is taken -- is an argument, one value per use, over
    which the theorems quantify.

    ** Bounds and fuel

    Counters are 64-bit and wrap ([incr64] and the reductions modulo 2^64);
    durations are int64 nanoseconds with wrap-around ([int64]), and the time
    between two instants saturates.  [Monitor.readLoop] runs its loop with one
    more unit of fuel than the stream has bytes: each iteration consumes at
    least the line feed it stops at, and [Monitor.readLoop_accounts] shows that
    the loop ends.  [GoDuration.ParseDuration] runs its loop over the terms with
    the length of the text, each term consuming at least its unit.  The other
    recursions are structural.  The runs of [Lifecycle] have no bound; the measure
    [Shutdown.work] bounds what is left of one once no input comes: two for every
    running consumer, one for every other goroutine, one per event in the queue
    of an output or of the engine, and for an event that is to be fanned out to n
    outputs 2n+4.  [Monitor.Run] recurses over the rounds its
    environment describes; what it has done after any number of rounds is what
    the theorems are about.

    ** What is shown

    - The whole program, in every interleaving of its goroutines.  Every component
      goes through a sequence of its own operations, on exactly the events
      recorded in the metrics and in order ([Refinement.daemon_runs_components]),
      so that what is shown of a component holds in the running program; the
      accounts of the outputs, of the client and of its statistics add up to the
      counters of the registry ([Refinement.daemon_accounts]); the atomic steps
      of the client cover every run of its sessions
      ([Session.client_runs_sessions]); a scrape reads the length of every queue
      at that moment and its configured capacity, and is refused when two enabled
      outputs have the same type ([Startup.scrape_reads_queues]).  A shutdown takes at most [Shutdown.work]
      steps and ends with the return of Run when the queues drop
      ([Shutdown.shutdown_terminates]); when they block it may wait for a second
      signal ([Shutdown.shutdown_hangs]).  An output that drains after the
      dispatcher has returned loses nothing ([Delivery.orderly_shutdown]); before,
      an event may be lost ([Delivery.late_event_lost]).  A drain
      always ends, and delivers its queue in order but for what a failed write or
      the deadline leaves ([Shutdown.drain_delivers]); its steps are those of the
      loop of [Output] ([Shutdown.drain_step_by_step]).
    - The stream.  A line printed in MONITOR's format is parsed back into its
      event ([Parser.Parse_monitor_line]); the quoted arguments accepted are
      exactly the words of a grammar ([Parser.parseQuotedArgs_spec]), and the
      lines accepted those of a grammar of lines, which says what each denotes
      ([Grammar.Parse_accepts_iff]); a session accounts for every frame
      of its stream ([Monitor.readLoop_accounts]), leaves the connection gauge
      down ([Monitor.runOnce_gauge]), and reconnects with the bounded backoff
      ([Monitor.Run_backoff], [Monitor.Run_dial_failure]).
    - The protocol.  A command written is read back
      ([Resp.WriteCommand_read_back]); the lengths on which the bulk reader
      panics are characterised ([Resp.ReadBulkString_panics_iff]).
    - The role.  A probe learns what Redis answers ([Role.queryRole_learns]) and
      the state follows the answers ([Role.Run_follows_answers]).  In every
      interleaving a caller of Wait is woken ([Gate.Wait_no_lost_wakeup]) and a
      session that subscribed while active is told of a demotion
      ([Gate.session_told_of_demotion]); one that subscribed after it is not
      ([Gate.stale_session_reachable]).
    - Outputs.  Every event submitted is written, dropped, failed or still
      queued, in order ([Output.consumer_conservation]); the failing state, its
      gauge and the reports change together
      ([Output.consumer_reports_transitions]); consumers do not affect each other
      ([Output.Dispatch_independent]); the network sink leaks no connection
      ([Sinks.NetSink_no_leak]); a JSON record is one line, and the line breaks
      of a text record are counted ([Encode.encode_json_one_line],
      [Encode.encode_text_breaks]).
    - Alerts.  The rate limiter over any window ([RateLimit.rate_limit_any_window],
      [RateLimit.rate_limit_window_not_sliding]); every attempt, sleep and report
      of a dispatch ([Retry.sendOne_accounting], [Retry.sendOne_backoff],
      [Retry.sendOne_delivers]); channels that fail do not affect the others
      ([Alert.handle_channels_independent]); an alert is one Sentry transaction
      with one finished span per channel and one capture per failed channel
      ([Alert.handle_one_transaction]); which events raise nothing
      ([Alert.handle_silent], [Alert.match_ignores_subcommand_entries]); the queue
      ([Alert.engine_queue_conservation]); the text patterns are matched against
      loses nothing ([Event.CommandLine_inj]); the channels' requests
      ([Channels.webhook_headers_lookup], [Channels.Pushgateway_Send_iff]).
    - Metrics.  The Prometheus client panics on a label value that is not valid
      UTF-8: on which answers and lines of a peer that happens, every other call
      being on a registered metric with one value per label
      ([Metrics.peer_text_panics]); the counters count
      ([Metrics.Record_counts]); /readyz tells the last state of every component
      ([Metrics.readyz_iff]); each path is served by its endpoint
      ([Server.Server_routes]).
    - Configuration and wiring.  Validation rejects or establishes the invariant
      the components need, and is idempotent ([Config.Validate_wf],
      [Config.Load_wf]); when the construction then succeeds, and that every part
      is built as configured, field by field ([App.build_as_configured]);
      the dispatcher fans every event out ([App.dispatch_all_fans_out]); on which
      metrics paths the start panics ([Startup.start_panics_iff]); when the
      queues have distinct names ([App.queue_names_distinct_iff]).

    ** Outside the model

    The Sentry SDK (the calls made on it are values), the Prometheus client (a
    class with laws and an instance), HTTP clients, sockets, the listener of the
    metrics server, the file system, log rotation, YAML, regular expressions and
    the Unicode tables beyond ASCII (the classes [UnicodeCase] and
    [UnicodeNames]) are parameters of the definitions that use them.  Not
    modelled: the text of log messages, flag parsing, the redirections of the
    multiplexer, the collector of process metrics, and locks, except where their
    sections interleave ([Gate]).  The operations on the registry are taken to
    return; [Metrics.call_panics] tells when the Prometheus client would panic
    instead, which ends the process.

    In [Lifecycle] a step of a goroutine is atomic from one channel operation to
    the next: a write to a sink, a dispatch with its retries and a probe are one
    step each, which the timeouts of the code bound.  The client makes any of its
    calls, and returns from Run, wherever it is not in the select that sends an
    event: the steps of [client_step] allow more than the sessions do.  That Run
    does return once the context is done rests on the goroutine of runOnce that
    closes the connection.  Queues
    have at least one place, as Validate requires. *)

From Stdlib Require Export Ascii ZArith Lia.
From stdpp Require Export base tactics option list strings gmap sets pretty.

Declare Scope watcher_scope.
Delimit Scope watcher_scope with watcher.
Open Scope watcher_scope.

Create HintDb watcher.
Create Rewrite HintDb str.

(** ** Go errors *)

(** The sentinel errors of the standard library the program meets. *)
Inductive sentinel : Type :=
| EOF                 (* io.EOF *)
| UnexpectedEOF       (* io.ErrUnexpectedEOF *)
| Canceled            (* context.Canceled *)
| DeadlineExceeded    (* context.DeadlineExceeded *)
| ErrSyntax           (* strconv.ErrSyntax *)
| ErrRange.           (* strconv.ErrRange *)

#[export] Instance sentinel_eq_dec : EqDecision sentinel.
Proof. solve_decision. Defined.

(** An error value: the format and the string arguments of an
    [errors.New]/[fmt.Errorf] call are kept apart instead of being rendered,
    so that every error path of the source is a distinct value. *)
#[warnings="-register-all"]
Inductive goerror : Type :=
| Sentinel (s : sentinel)
| NetTimeout                                        (* net.errTimeout *)
| NetError (what : string)                          (* any other I/O error *)
| Errorf (fmt : string) (args : list string)        (* no %w verb *)
| Wrapf (fmt : string) (args : list string) (inner : goerror)   (* one %w *)
| Join (errs : list goerror).                       (* errors.Join *)

(** [errors.Is(err, target)]: walks the [Unwrap] chain.  The error of a dial
    that timed out, [net.errTimeout], answers true for
    [context.DeadlineExceeded] (its [Is] method). *)
Fixpoint errors_Is (e : goerror) (target : sentinel) : bool :=
  match e with
  | Sentinel s => bool_decide (s = target)
  | NetTimeout => bool_decide (target = DeadlineExceeded)
  | NetError _ => false
  | Errorf _ _ => false
  | Wrapf _ _ inner => errors_Is inner target
  | Join errs => existsb (λ e', errors_Is e' target) errs
  end.

(** The result of a Go call returning [(T, error)]; [Panics] is the result of
    a call that panics. *)
Inductive result (A : Type) : Type :=
| Ok (a : A)
| Err (e : goerror)
| Panics.
Arguments Ok {A} a.
Arguments Err {A} e.
Arguments Panics {A}.

#[export] Instance result_ret : MRet result := λ A a, Ok a.
#[export] Instance result_bind : MBind result := λ A B f m,
  match m with Ok a => f a | Err e => Err e | Panics => Panics end.

(** [if err != nil { return ..., fmt.Errorf("...: %w", err) }] *)
Definition wrapf {A} (fmt : string) (args : list string) (m : result A) : result A :=
  match m with Ok a => Ok a | Err e => Err (Wrapf fmt args e) | Panics => Panics end.

Definition is_ok {A} (m : result A) : bool :=
  match m with Ok _ => true | _ => false end.

Definition is_Ok {A} (m : result A) : Prop := ∃ a, m = Ok a.

(** ** Interfaces

    A Go interface a component calls is the type of its method calls; a state
    that implements it says what each call does to it. *)
Class Handler (call S : Type) := handle_call : call → S → S.

Definition run_calls {call S} `{Handler call S} (cs : list call) (s : S) : S :=
  foldl (λ s c, handle_call c s) s cs.

(** The implementations that ignore every call (noopSink, a nil sink). *)
#[export] Instance noop_handler call : Handler call unit := λ _ s, s.

Lemma run_calls_app {call S} `{Handler call S} cs1 cs2 (s : S) :
  run_calls (cs1 ++ cs2) s = run_calls cs2 (run_calls cs1 s).
Proof. apply foldl_app. Qed.

(** ** Machine integers *)

Definition int64_min : Z := -2 ^ 63.
Definition int64_max : Z := 2 ^ 63 - 1.

(** The value of an int64 arithmetic expression: wraps around. *)
Definition int64 (z : Z) : Z := (z + 2 ^ 63) mod 2 ^ 64 - 2 ^ 63.

Definition in_int64 (z : Z) : Prop := (int64_min ≤ z ≤ int64_max)%Z.

Abbreviation duration := Z (only parsing).   (* time.Duration, in nanoseconds *)
Definition Millisecond : duration := 1000000.
Definition Second : duration := 1000000000.
Definition Minute : duration := 60000000000.

(** ** Tactics *)

(** Case analysis on the discriminee of the first match/if found. *)
Ltac break_match :=
  match goal with
  | |- context [match ?x with _ => _ end] => destruct x eqn:?
  | H : context [match ?x with _ => _ end] |- _ => destruct x eqn:?
  end.

(** Splits a successful [result] bind chain in a hypothesis. *)
Ltac ok_inv :=
  repeat match goal with
  | H : Ok _ = Ok _ |- _ => injection H as H; try subst
  | H : Err _ = Ok _ |- _ => discriminate H
  | H : Panics = Ok _ |- _ => discriminate H
  | H : mbind _ ?m = Ok _ |- _ =>
      let E := fresh "E" in
      destruct m eqn:E; [cbn [mbind result_bind] in H | discriminate H | discriminate H]
  | H : wrapf _ _ ?m = Ok _ |- _ =>
      let E := fresh "E" in
      destruct m eqn:E; [cbn [wrapf] in H | discriminate H | discriminate H]
  end.

(** ** Generic lemmas *)

Lemma int64_id z : in_int64 z → int64 z = z.
Proof.
  unfold in_int64, int64, int64_min, int64_max. intros H.
  rewrite Z.mod_small; lia.
Qed.

Lemma int64_range z : in_int64 (int64 z).
Proof.
  unfold in_int64, int64, int64_min, int64_max.
  pose proof (Z.mod_pos_bound (z + 2 ^ 63) (2 ^ 64) ltac:(lia)). lia.
Qed.

#[export] Hint Resolve int64_range : watcher.
