(* ===== verification/GoStrings.v ===== *)
(** * Go strings, [strings] and [strconv]

    A Go string is a byte sequence: a [string] of Rocq, whose characters are
    the 8-bit [ascii].  This file models the functions of Go's packages
    [strings] and [strconv] that the program calls, and proves the lemmas the
    components share about them.  The non-ASCII part of the Unicode case
    tables is the class [UnicodeCase]. *)

From S2P Require Export Prelude.

#[global] Arguments String.append !s1 s2 : simpl nomatch.

Local Open Scope char_scope.

(** The characters that cannot be written in a string literal. *)
Definition DQUOTE : ascii := "034".
Definition BACKSLASH : ascii := "\".
Definition TAB : ascii := "009".
Definition LF : ascii := "010".
Definition CR : ascii := "013".
Definition SP : ascii := " ".
Definition CRLF : string := String CR (String LF EmptyString).

(** ** Slices: [s[:n]], [s[n:]] for [n <= len(s)] *)

Fixpoint str_take (n : nat) (s : string) : string :=
  match n, s with
  | S n', String c s' => String c (str_take n' s')
  | _, _ => EmptyString
  end.

Fixpoint str_drop (n : nat) (s : string) : string :=
  match n, s with
  | S n', String _ s' => str_drop n' s'
  | _, _ => s
  end.

Abbreviation len := String.length (only parsing).

(** A byte as a number. *)
Definition byte_val (c : ascii) : Z := Z.of_N (N_of_ascii c).

(** ** Package strings *)

Fixpoint IndexByte (s : string) (c : ascii) : option nat :=
  match s with
  | EmptyString => None
  | String a s' => if decide (a = c) then Some 0 else S <$> IndexByte s' c
  end.

Fixpoint LastIndexByte (s : string) (c : ascii) : option nat :=
  match s with
  | EmptyString => None
  | String a s' =>
      match LastIndexByte s' c with
      | Some i => Some (S i)
      | None => if decide (a = c) then Some 0 else None
      end
  end.

Fixpoint str_existsb (p : ascii → bool) (s : string) : bool :=
  match s with
  | EmptyString => false
  | String a s' => p a || str_existsb p s'
  end.

Definition str_forallb (p : ascii → bool) (s : string) : bool :=
  negb (str_existsb (λ c, negb (p c)) s).

(** [strings.ContainsAny(s, chars)] and the cutset tests, for ASCII sets. *)
Definition in_set (chars : list ascii) (c : ascii) : bool := bool_decide (c ∈ chars).
Definition ContainsAny (s : string) (chars : list ascii) : bool := str_existsb (in_set chars) s.
Definition contains_byte (s : string) (c : ascii) : bool := str_existsb (λ a, bool_decide (a = c)) s.

Fixpoint TrimLeft (s : string) (cutset : list ascii) : string :=
  match s with
  | EmptyString => EmptyString
  | String a s' => if in_set cutset a then TrimLeft s' cutset else s
  end.

Fixpoint TrimRight (s : string) (cutset : list ascii) : string :=
  match s with
  | EmptyString => EmptyString
  | String a s' =>
      match TrimRight s' cutset with
      | EmptyString => if in_set cutset a then EmptyString else String a EmptyString
      | t => String a t
      end
  end.

Definition HasPrefix (s pre : string) : bool := String.prefix pre s.

Definition TrimPrefix (s pre : string) : string :=
  if HasPrefix s pre then str_drop (len pre) s else s.

(** [strings.Split(s, sep)] for a non-empty separator: [skip] bytes of a
    separator remain to be passed over, [cur] is the field being read. *)
Fixpoint split_go (sep : string) (skip : nat) (cur s : string) : list string :=
  match s with
  | EmptyString => [cur]
  | String a s' =>
      match skip with
      | S k => split_go sep k cur s'
      | O => if HasPrefix s sep then cur :: split_go sep (len sep - 1) EmptyString s'
             else split_go sep 0 (cur +:+ String a EmptyString) s'
      end
  end.
Definition Split (s sep : string) : list string := split_go sep 0 EmptyString s.

(** [strings.TrimSpace]: strips the white space runes at both ends.  The
    runes of [unicode.IsSpace] outside ASCII are U+0085, U+00A0, U+1680,
    U+2000 to U+200A, U+2028, U+2029, U+202F, U+205F and U+3000; they are
    recognised by their UTF-8 encodings. *)
Definition is_ascii_space (c : ascii) : bool :=
  let v := byte_val c in ((9 <=? v) && (v <=? 13) || (v =? 32))%Z.

Definition is_space2 (a b : ascii) : bool :=
  ((byte_val a =? 194) && ((byte_val b =? 133) || (byte_val b =? 160)))%Z.

Definition is_space3 (a b c : ascii) : bool :=
  let x := byte_val a in let y := byte_val b in let z := byte_val c in
  (((x =? 225) && (y =? 154) && (z =? 128))
   || ((x =? 226) && (y =? 128) &&
       (((128 <=? z) && (z <=? 138)) || (z =? 168) || (z =? 169) || (z =? 175)))
   || ((x =? 226) && (y =? 129) && (z =? 159))
   || ((x =? 227) && (y =? 128) && (z =? 128)))%Z.

Fixpoint trim_space_left (s : string) : string :=
  match s with
  | String a s1 =>
      if is_ascii_space a then trim_space_left s1
      else match s1 with
           | String b s2 =>
               if is_space2 a b then trim_space_left s2
               else match s2 with
                    | String c s3 => if is_space3 a b c then trim_space_left s3 else s
                    | EmptyString => s
                    end
           | EmptyString => s
           end
  | EmptyString => EmptyString
  end.

Definition all_space (s : string) : bool := bool_decide (trim_space_left s = EmptyString).

Fixpoint trim_space_right (s : string) : string :=
  match s with
  | EmptyString => EmptyString
  | String a s' => if all_space s then EmptyString else String a (trim_space_right s')
  end.

Definition TrimSpace (s : string) : string := trim_space_right (trim_space_left s).

(** [strings.ToUpper] and [strings.ToLower]: a byte map on ASCII strings; on
    the others, the Unicode case mapping. *)
Class UnicodeCase := {
  unicode_to_upper : string → string;
  unicode_to_lower : string → string
}.

(** An instance for the concrete examples, whose strings are ASCII. *)
Definition example_case : UnicodeCase :=
  {| unicode_to_upper s := s; unicode_to_lower s := s |}.

Definition is_ascii (s : string) : bool := str_forallb (λ c, byte_val c <? 128)%Z s.

Fixpoint str_map (f : ascii → ascii) (s : string) : string :=
  match s with EmptyString => EmptyString | String a s' => String (f a) (str_map f s') end.

Definition upper_byte (c : ascii) : ascii :=
  let v := byte_val c in
  if ((97 <=? v) && (v <=? 122))%Z then ascii_of_N (N_of_ascii c - 32) else c.
Definition lower_byte (c : ascii) : ascii :=
  let v := byte_val c in
  if ((65 <=? v) && (v <=? 90))%Z then ascii_of_N (N_of_ascii c + 32) else c.

Definition ToUpper `{UnicodeCase} (s : string) : string :=
  if is_ascii s then str_map upper_byte s else unicode_to_upper s.
Definition ToLower `{UnicodeCase} (s : string) : string :=
  if is_ascii s then str_map lower_byte s else unicode_to_lower s.

(** ** Package strconv *)

Definition num_error (fn s : string) (e : sentinel) : goerror := Wrapf fn [s] (Sentinel e).

(** The value of a digit character in bases up to 36. *)
Definition digit_val (c : ascii) : option Z :=
  let v := byte_val c in
  (if (48 <=? v) && (v <=? 57) then Some (v - 48)
   else if (97 <=? v) && (v <=? 122) then Some (v - 97 + 10)
   else if (65 <=? v) && (v <=? 90) then Some (v - 65 + 10)
   else None)%Z.

(** The digit loop of [strconv.ParseUint], for a base other than 0 (where an
    underscore is not a digit).  [n] is the value so far. *)
Fixpoint parse_uint_loop (base maxval n : Z) (s : string) : Z + sentinel :=
  match s with
  | EmptyString => inl n
  | String c s' =>
      match digit_val c with
      | None => inr ErrSyntax
      | Some d =>
          if (base <=? d)%Z then inr ErrSyntax
          else if (maxval <? n * base + d)%Z then inr ErrRange
          else parse_uint_loop base maxval (n * base + d)%Z s'
      end
  end.

Definition parse_uint (base bits : Z) (s : string) : Z + sentinel :=
  match s with
  | EmptyString => inr ErrSyntax
  | _ => parse_uint_loop base (2 ^ bits - 1) 0 s
  end.

Definition ParseUint (s : string) (base bits : Z) : result Z :=
  match parse_uint base bits s with
  | inl n => Ok n
  | inr e => Err (num_error "ParseUint" s e)
  end.

(** [strconv.ParseInt(s, 10, 64)] and, on a 64-bit platform, [strconv.Atoi]. *)
Definition parse_int (s : string) : Z + sentinel :=
  let '(neg, digits) :=
    match s with
    | String "+" s' => (false, s')
    | String "-" s' => (true, s')
    | _ => (false, s)
    end in
  match parse_uint 10 64 digits with
  | inr e => inr e
  | inl un =>
      if negb neg && (2 ^ 63 <=? un)%Z then inr ErrRange
      else if neg && (2 ^ 63 <? un)%Z then inr ErrRange
      else inl (if neg then - un else un)%Z
  end.

Definition ParseInt (s : string) : result Z :=
  match parse_int s with
  | inl n => Ok n
  | inr e => Err (num_error "ParseInt" s e)
  end.

Definition Atoi (s : string) : result Z :=
  match parse_int s with
  | inl n => Ok n
  | inr e => Err (num_error "Atoi" s e)
  end.

(** [strconv.Itoa], the [%d] verb. *)
Definition Itoa (z : Z) : string := pretty z.

(** ** Lemmas on strings *)

Local Close Scope char_scope.

Lemma str_app_assoc (a b c : string) : (a +:+ b) +:+ c = a +:+ (b +:+ c).
Proof. induction a as [|x a IH]; [done|]. cbn. by f_equal. Qed.

Lemma str_app_nil_r (a : string) : a +:+ "" = a.
Proof. induction a as [|x a IH]; [done|]. cbn. by f_equal. Qed.

Lemma str_app_cons x (a b : string) : String x a +:+ b = String x (a +:+ b).
Proof. done. Qed.

Lemma str_app_nil_l (a : string) : "" +:+ a = a.
Proof. done. Qed.

#[export] Hint Rewrite str_app_assoc str_app_nil_r str_app_cons str_app_nil_l : str.

Lemma str_length_app (a b : string) : len (a +:+ b) = len a + len b.
Proof. induction a as [|x a IH]; [done|]. cbn. by f_equal. Qed.

Lemma str_take_app (a b : string) : str_take (len a) (a +:+ b) = a.
Proof. induction a as [|x a IH]; [by destruct b|]. cbn. by f_equal. Qed.

Lemma str_drop_app (a b : string) : str_drop (len a) (a +:+ b) = b.
Proof. induction a as [|x a IH]; [by destruct b|]. cbn. done. Qed.

(** Slicing one byte further: past the separator [c]. *)
Lemma str_drop_app_S (a b : string) c : str_drop (S (len a)) (a +:+ String c b) = b.
Proof. induction a as [|x a IH]; [done|]. cbn. done. Qed.

Lemma str_drop_0 s : str_drop 0 s = s.
Proof. by destruct s. Qed.

Lemma str_take_drop n s : str_take n s +:+ str_drop n s = s.
Proof.
  revert s; induction n as [|n IH]; intros [|c s]; try done.
  cbn. by f_equal.
Qed.

Lemma str_take_length n s : n ≤ len s → len (str_take n s) = n.
Proof. revert s; induction n as [|n IH]; intros [|c s] ?; cbn in *; try lia. rewrite IH; lia. Qed.

Lemma str_take_all s n : len s ≤ n → str_take n s = s.
Proof.
  revert n; induction s as [|c s IH]; intros [|n] Hn; cbn in *; try done; [lia|].
  f_equal. apply IH. lia.
Qed.

#[global] Arguments contains_byte : simpl never.
#[global] Arguments str_take !n !s : simpl nomatch.
#[global] Arguments str_drop !n !s : simpl nomatch.

Lemma str_existsb_app p a b : str_existsb p (a +:+ b) = str_existsb p a || str_existsb p b.
Proof. induction a as [|x a IH]; [done|]. cbn. by rewrite IH, orb_assoc. Qed.

Lemma contains_byte_cons c x s :
  contains_byte (String x s) c = bool_decide (x = c) || contains_byte s c.
Proof. done. Qed.

Lemma contains_byte_app a b c :
  contains_byte (a +:+ b) c = contains_byte a c || contains_byte b c.
Proof. apply str_existsb_app. Qed.

(** Looking for the first [c] of [a ++ [c] ++ b] when [a] has none. *)
Lemma IndexByte_app a c b :
  contains_byte a c = false → IndexByte (a +:+ String c b) c = Some (len a).
Proof.
  induction a as [|x a IH]; intros Ha; cbn.
  - by rewrite decide_True.
  - rewrite contains_byte_cons in Ha. apply orb_false_iff in Ha as [Hx Ha].
    apply bool_decide_eq_false in Hx. rewrite decide_False by done.
    by rewrite IH.
Qed.

Lemma IndexByte_None a c : contains_byte a c = false → IndexByte a c = None.
Proof.
  induction a as [|x a IH]; intros Ha; cbn; [done|].
  rewrite contains_byte_cons in Ha. apply orb_false_iff in Ha as [Hx Ha].
  apply bool_decide_eq_false in Hx. rewrite decide_False by done. by rewrite IH.
Qed.

Lemma IndexByte_None_inv a c : IndexByte a c = None → contains_byte a c = false.
Proof.
  induction a as [|x a IH]; cbn; [done|]. case_decide as Hx; [done|]. rewrite fmap_None. intros Ha.
  by rewrite contains_byte_cons, bool_decide_false, IH.
Qed.

(** What an index found says about the string. *)
Lemma IndexByte_Some s c i :
  IndexByte s c = Some i →
  s = str_take i s +:+ String c (str_drop (S i) s) ∧ contains_byte (str_take i s) c = false
  ∧ i < len s.
Proof.
  revert i; induction s as [|x s IH]; intros i H; cbn in H; [done|].
  case_decide as Hx.
  - simplify_eq. cbn. split_and!; [|done|lia]. by destruct s.
  - apply fmap_Some in H as (j & Hj & ->). destruct (IH j Hj) as (H1 & H2 & H3).
    cbn. split_and!; [| |lia].
    + f_equal. exact H1.
    + rewrite contains_byte_cons, bool_decide_false by done. done.
Qed.

Lemma LastIndexByte_None a c : contains_byte a c = false → LastIndexByte a c = None.
Proof.
  induction a as [|x a IH]; intros Ha; cbn; [done|].
  rewrite contains_byte_cons in Ha. apply orb_false_iff in Ha as [Hx Ha].
  apply bool_decide_eq_false in Hx. rewrite IH by done. by rewrite decide_False.
Qed.

Lemma LastIndexByte_app a c b :
  contains_byte b c = false → LastIndexByte (a +:+ String c b) c = Some (len a).
Proof.
  intros Hb. induction a as [|x a IH]; cbn.
  - rewrite LastIndexByte_None by done. by rewrite decide_True.
  - by rewrite IH.
Qed.

Lemma TrimRight_app_last a c cutset :
  in_set cutset c = false → TrimRight (a +:+ String c "") cutset = a +:+ String c "".
Proof.
  intros Hc. induction a as [|x a IH]; cbn.
  - by rewrite Hc.
  - rewrite IH. by destruct a.
Qed.

Lemma TrimRight_app_cut a b cutset :
  str_existsb (λ c, negb (in_set cutset c)) b = false →
  TrimRight (a +:+ b) cutset = TrimRight a cutset.
Proof.
  intros Hb. assert (Hb' : TrimRight b cutset = "").
  { induction b as [|x b IH]; [done|]. cbn in *. apply orb_false_iff in Hb as [Hx Hb].
    rewrite (IH Hb). by destruct (in_set cutset x). }
  induction a as [|x a IH]; cbn; [done|]. by rewrite IH.
Qed.

Lemma HasPrefix_cons x s c p :
  HasPrefix (String x s) (String c p) = bool_decide (c = x) && HasPrefix s p.
Proof.
  unfold HasPrefix. cbn [String.prefix].
  destruct (ascii_dec c x); [by rewrite bool_decide_true|by rewrite bool_decide_false].
Qed.

Lemma HasPrefix_nil s : HasPrefix s "" = true.
Proof. by destruct s. Qed.

Lemma prefix_app a b : HasPrefix (a +:+ b) a = true.
Proof.
  unfold HasPrefix. induction a as [|x a IH]; [by destruct b|]. cbn.
  destruct (ascii_dec x x); done.
Qed.

Lemma prefix_spec s p : HasPrefix s p = true → s = p +:+ str_drop (len p) s.
Proof.
  unfold HasPrefix. revert s; induction p as [|x p IH]; intros s H.
  - by destruct s.
  - destruct s as [|y s]; cbn in H; [done|]. destruct (ascii_dec x y) as [->|]; [|done].
    cbn. f_equal. by apply IH.
Qed.

Lemma str_app_inj_r (a b c : string) : a +:+ c = b +:+ c → a = b.
Proof.
  revert b; induction a as [|x a IH]; intros [|y b] H; try done.
  - apply (f_equal len) in H. cbn in H. rewrite str_length_app in H. lia.
  - apply (f_equal len) in H. cbn in H. rewrite str_length_app in H. lia.
  - injection H as -> H. f_equal. by apply IH.
Qed.

(** ** Lemmas on numbers *)

Lemma digit_val_pretty x :
  (x < 10)%N → digit_val (pretty_N_char x) = Some (Z.of_N x).
Proof.
  intros H. assert (x ∈ [0;1;2;3;4;5;6;7;8;9]%N) as Hx.
  { repeat (rewrite elem_of_cons). lia. }
  repeat (apply elem_of_cons in Hx as [->|Hx]; [reflexivity|]). set_solver.
Qed.

(** Reading back what [pretty_N_go] prints in front of [s]. *)
Lemma parse_pretty_N_go maxval x s :
  (Z.of_N x ≤ maxval)%Z →
  parse_uint_loop 10 maxval 0 (pretty_N_go x s) = parse_uint_loop 10 maxval (Z.of_N x) s.
Proof.
  revert s. induction (N.lt_wf_0 x) as [x _ IH]; intros s Hmax.
  destruct (decide (x = 0%N)) as [->|Hx]; [done|].
  rewrite pretty_N_go_step by lia. rewrite IH; [|by apply N.div_lt; lia|].
  - cbn [parse_uint_loop]. rewrite digit_val_pretty by (apply N.mod_lt; lia).
    pose proof (N.mod_lt x 10 ltac:(lia)).
    pose proof (N.div_mod x 10 ltac:(lia)) as E.
    assert (Z.of_N (x `div` 10) * 10 + Z.of_N (x `mod` 10) = Z.of_N x)%Z as -> by lia.
    rewrite (proj2 (Z.leb_gt _ _)) by lia. rewrite (proj2 (Z.ltb_ge _ _)) by lia. done.
  - pose proof (N.div_lt x 10 ltac:(lia) ltac:(lia)). lia.
Qed.

Lemma pretty_N_nonempty (n : N) : ∃ c s, pretty n = String c s ∧ digit_val c ≠ None.
Proof.
  unfold pretty, pretty_N. case_decide as Hn; [by exists "0"%char, ""|].
  assert (Hgo : ∀ m s, (∃ c t, s = String c t ∧ digit_val c ≠ None) →
    ∃ c t, pretty_N_go m s = String c t ∧ digit_val c ≠ None).
  { intros m. induction (N.lt_wf_0 m) as [m _ IH]; intros s Hs.
    destruct (decide (m = 0%N)) as [->|Hm]; [done|].
    rewrite pretty_N_go_step by lia. apply IH; [by apply N.div_lt; lia|].
    eexists _, _. split; [done|]. rewrite digit_val_pretty by (apply N.mod_lt; lia). done. }
  rewrite pretty_N_go_step by lia. apply Hgo.
  eexists _, _. split; [done|]. rewrite digit_val_pretty by (apply N.mod_lt; lia). done.
Qed.

Lemma parse_uint_pretty (n : N) bits :
  (0 ≤ bits)%Z → (Z.of_N n < 2 ^ bits)%Z → parse_uint 10 bits (pretty n) = inl (Z.of_N n).
Proof.
  intros Hb Hn. unfold parse_uint. destruct (pretty_N_nonempty n) as (c & s & E & _).
  rewrite E, <- E. unfold pretty, pretty_N. case_decide as H0.
  - subst n. cbn [parse_uint_loop]. change (digit_val "0") with (Some 0%Z).
    cbn [Z.mul Z.add Z.leb Z.compare]. rewrite (proj2 (Z.ltb_ge _ _)) by lia. done.
  - rewrite parse_pretty_N_go by lia. done.
Qed.

Lemma Itoa_nonneg (z : Z) : (0 ≤ z)%Z → Itoa z = pretty (Z.to_N z).
Proof. intros H. unfold Itoa, pretty, pretty_Z. destruct z; [done|done|lia]. Qed.

Lemma Itoa_neg (z : Z) : (z < 0)%Z → Itoa z = String "-" (pretty (Z.to_N (- z))).
Proof. intros H. unfold Itoa, pretty at 1, pretty_Z. destruct z; [lia|lia|done]. Qed.

(** The first character of a printed non-negative number is a digit. *)
Lemma Itoa_head (z : Z) :
  (0 ≤ z)%Z → ∃ c s, Itoa z = String c s ∧ digit_val c ≠ None.
Proof. intros H. rewrite Itoa_nonneg by done. apply pretty_N_nonempty. Qed.

Lemma parse_int_digits c s :
  digit_val c ≠ None →
  parse_int (String c s) =
    match parse_uint 10 64 (String c s) with
    | inr e => inr e
    | inl un => if (2 ^ 63 <=? un)%Z then inr ErrRange else inl un
    end.
Proof.
  intros Hc. unfold parse_int.
  assert ((if decide (c = "+"%char) then true else if decide (c = "-"%char) then true else false) = false) as Hs.
  { case_decide; [subst; by destruct Hc|]. case_decide; [subst; by destruct Hc|done]. }
  destruct c as [[] [] [] [] [] [] [] []]; try discriminate Hs; cbn [andb negb];
    destruct (parse_uint _ _ _); try done; by destruct (_ <=? _)%Z.
Qed.

(** Printing then parsing an int64 gives it back. *)
Lemma parse_int_Itoa z : in_int64 z → parse_int (Itoa z) = inl z.
Proof.
  unfold in_int64, int64_min, int64_max. intros Hz.
  destruct (Z.lt_ge_cases z 0) as [Hneg|Hpos].
  - rewrite Itoa_neg by done. cbn [parse_int].
    rewrite parse_uint_pretty by lia. cbn [negb andb].
    rewrite (proj2 (Z.ltb_ge _ _)) by lia. f_equal. lia.
  - destruct (Itoa_head z Hpos) as (c & s & E & Hc). rewrite E, parse_int_digits by done.
    rewrite <- E, Itoa_nonneg by done. rewrite parse_uint_pretty by lia.
    rewrite (proj2 (Z.leb_gt _ _)) by lia. f_equal. lia.
Qed.

Lemma Atoi_Itoa z : in_int64 z → Atoi (Itoa z) = Ok z.
Proof. intros Hz. unfold Atoi. by rewrite parse_int_Itoa. Qed.

(** What a successful parse returns is an int64. *)
Lemma parse_uint_loop_bound base maxval n s v :
  (0 ≤ n ≤ maxval)%Z → (0 ≤ base)%Z → parse_uint_loop base maxval n s = inl v → (0 ≤ v ≤ maxval)%Z.
Proof.
  intros Hn Hb. revert n Hn; induction s as [|c s IH]; intros n Hn H; cbn in H.
  - simplify_eq. done.
  - destruct (digit_val c) as [d|] eqn:Hd; [|done].
    assert (0 ≤ d)%Z. { unfold digit_val in Hd. repeat break_match; simplify_eq; lia. }
    destruct (base <=? d)%Z; [done|]. destruct (maxval <? n * base + d)%Z eqn:Hm; [done|].
    apply Z.ltb_ge in Hm. apply (IH (n * base + d)%Z); [nia|done].
Qed.

Lemma parse_int_range s v : parse_int s = inl v → in_int64 v.
Proof.
  unfold parse_int, in_int64, int64_min, int64_max. intros H.
  set (p := match s with String "+" s' => (false, s') | String "-" s' => (true, s') | _ => (false, s) end) in H.
  change (match p with (neg, digits) =>
    match parse_uint 10 64 digits with
    | inr e => inr e
    | inl un =>
        if negb neg && (2 ^ 63 <=? un)%Z then inr ErrRange
        else if neg && (2 ^ 63 <? un)%Z then inr ErrRange
        else inl (if neg then - un else un)%Z
    end end = inl v) in H.
  destruct p as [neg digits]. destruct (parse_uint 10 64 digits) as [un|] eqn:E; [|done].
  assert (0 ≤ un)%Z.
  { unfold parse_uint in E. destruct digits; [done|].
    apply parse_uint_loop_bound in E; lia. }
  destruct neg; cbn [negb andb] in H; repeat case_match; simplify_eq; lia.
Qed.

(** A printed number has no byte that is not a digit. *)
Lemma pretty_N_go_no x s c :
  digit_val c = None → contains_byte s c = false → contains_byte (pretty_N_go x s) c = false.
Proof.
  intros Hc. revert s. induction (N.lt_wf_0 x) as [x _ IH]; intros s Hs.
  destruct (decide (x = 0%N)) as [->|Hx]; [done|].
  rewrite pretty_N_go_step by lia. apply IH; [by apply N.div_lt; lia|].
  rewrite contains_byte_cons, Hs, orb_false_r. apply bool_decide_eq_false. intros <-.
  rewrite digit_val_pretty in Hc by (apply N.mod_lt; lia). done.
Qed.

Lemma Itoa_no z c : (0 ≤ z)%Z → digit_val c = None → contains_byte (Itoa z) c = false.
Proof.
  intros Hz Hc. rewrite Itoa_nonneg by done. unfold pretty, pretty_N. case_decide.
  - rewrite contains_byte_cons, orb_false_r. apply bool_decide_eq_false. by intros <-.
  - by apply pretty_N_go_no.
Qed.
