(* ===== verification/Sentry.v ===== *)
(** * Error reports and spans ([internal/sentryx/sentryx.go])

    The wrapper every component reports through.  The Sentry SDK is outside:
    what the wrapper does is the sequence of calls it makes on it
    ([sdk_call]).  Init is in App, with the configuration it reads. *)

From S2P Require Export GoStrings.

(** A Go value of type [any], as the program passes it to Sentry.  The text of
    an error ([err.Error()]) stands for itself. *)
Inductive any : Type :=
| AString (s : string)
| AInt (z : Z)
| AErrorText (e : goerror).

(** A hub of the SDK: the DSN of its client, when it has one. *)
Record hub : Type := mkHub { hub_client : option string }.

Inductive sdk_call : Type :=
| sdk_StartSpan (op : string)
| sdk_StartTransaction (name : string)
| sdk_Description (description : string)
| sdk_Op (op : string)
| sdk_SetData (key : string) (value : any)
| sdk_SetTag (key value : string)
| sdk_Status (ok : bool)
| sdk_Finish
| sdk_CaptureException (err : goerror) (details : option (gmap string any))
| sdk_Recover (value : any)
| sdk_Flush (timeout : duration).

Definition has_dsn (h : hub) : bool :=
  match hub_client h with Some dsn => negb (bool_decide (dsn = "")) | None => false end.

(** func Enabled() bool; [current] is [sentry.CurrentHub()]. *)
Definition Enabled (current : option hub) : bool :=
  match current with Some h => has_dsn h | None => false end.

(** The loop over [kv] of Capture: pairs, those whose key is not a string
    skipped, a key without value ignored. *)
Fixpoint kv_details (kv : list any) (details : gmap string any) : gmap string any :=
  match kv with
  | AString k :: v :: kv' => kv_details kv' (<[k := v]> details)
  | _ :: _ :: kv' => kv_details kv' details
  | _ => details
  end.

(** func Capture(ctx, err error, kv ...any); [ctx_hub] is the hub bound to the
    context. *)
Definition Capture (ctx_hub current : option hub) (err : option goerror) (kv : list any) : list sdk_call :=
  match err with
  | None => []
  | Some err =>
      match (match ctx_hub with Some h => Some h | None => current end) with
      | None => []
      | Some h =>
          if negb (has_dsn h) then []
          else
            let details := kv_details kv ∅ in
            [sdk_CaptureException err (if decide (0 < size details) then Some details else None)]
      end
  end.

(** func Report(err error, kv ...any) *)
Definition Report (current : option hub) (err : option goerror) (kv : list any) : list sdk_call :=
  Capture None current err kv.

(** func StartSpan(ctx, op, description string); [parent] tells whether the
    context carries a span. *)
Definition StartSpan (parent : bool) (op description : string) : list sdk_call :=
  if parent then [sdk_StartSpan op; sdk_Description description]
  else [sdk_StartTransaction description; sdk_Op op].

(** The callback StartSpan returns. *)
Definition FinishSpan (err : option goerror) : list sdk_call :=
  match err with
  | Some e => [sdk_Status false; sdk_SetData "error" (AErrorText e)]
  | None => [sdk_Status true]
  end ++ [sdk_Finish].

(** func SetSpanData(ctx, key string, value any), func SetSpanTag(ctx, key,
    value string) *)
Definition SetSpanData (span : bool) (key : string) (value : any) : list sdk_call :=
  if span then [sdk_SetData key value] else [].
Definition SetSpanTag (span : bool) (key value : string) : list sdk_call :=
  if span then [sdk_SetTag key value] else [].

(** func WrapHTTP(h http.Handler) http.Handler: [sentryhttp_Handle] is the
    handler of the SDK around another, with its Repanic option. *)
Definition WrapHTTP {handler : Type} (sentryhttp_Handle : bool → handler → handler) (current : option hub) (h : handler)
    : handler := if negb (Enabled current) then h else sentryhttp_Handle true h.

(** func Recover(), deferred: the value being recovered, if the goroutine
    panics; the second result is the panic that goes on. *)
Definition Recover (current : option hub) (recovered : option any) : list sdk_call * option any :=
  match recovered with
  | None => ([], None)
  | Some r =>
      (match current with Some _ => [sdk_Recover r; sdk_Flush (2 * Second)] | None => [] end, Some r)
  end.

(** ** The calls of the other packages *)

(** A call on this package, as it stands in the traces of the components.  A
    span is opened on the context of the innermost one still open. *)
Inductive sentryx_call : Type :=
| CallStartSpan (op description : string)
| CallFinishSpan (err : option goerror)
| CallSetSpanData (key : string) (value : any)
| CallSetSpanTag (key value : string)
| CallCapture (err : option goerror) (kv : list (string * any))
| CallReport (err : option goerror) (kv : list (string * any)).

Definition tags_kv (tags : list (string * any)) : list any := tags ≫= λ '(k, v), [AString k; v].

(** What they make of the SDK, [depth] spans being open. *)
Fixpoint sdk_calls (ctx_hub current : option hub) (depth : nat) (cs : list sentryx_call) : list sdk_call :=
  match cs with
  | [] => []
  | c :: cs' =>
      let span := (0 <? depth)%nat in
      match c with
      | CallStartSpan op d => StartSpan span op d ++ sdk_calls ctx_hub current (S depth) cs'
      | CallFinishSpan err => FinishSpan err ++ sdk_calls ctx_hub current (pred depth) cs'
      | CallSetSpanData k v => SetSpanData span k v ++ sdk_calls ctx_hub current depth cs'
      | CallSetSpanTag k v => SetSpanTag span k v ++ sdk_calls ctx_hub current depth cs'
      | CallCapture err kv => Capture ctx_hub current err (tags_kv kv) ++ sdk_calls ctx_hub current depth cs'
      | CallReport err kv => Report current err (tags_kv kv) ++ sdk_calls ctx_hub current depth cs'
      end
  end.

(** ** Lemmas *)

(** The details of string keys: the pairs, the last one of a key winning. *)
Lemma kv_details_tags tags : ∀ d k,
  kv_details (tags_kv tags) d !! k =
    match List.find (λ '(k', _), bool_decide (k' = k)) (rev tags) with Some (_, v) => Some v | None => d !! k end.
Proof.
  induction tags as [|[k' v'] tags IH]; intros d k; [done|].
  change (tags_kv ((k', v') :: tags)) with (AString k' :: v' :: tags_kv tags). cbn [kv_details]. rewrite IH. clear IH.
  cbn [rev]. induction (rev tags) as [|[k1 v1] l IH]; cbn [app List.find].
  - destruct (decide (k' = k)) as [->|Hne].
    + by rewrite bool_decide_true, lookup_insert_eq.
    + by rewrite bool_decide_false, lookup_insert_ne.
  - by destruct (bool_decide (k1 = k)).
Qed.

(** The spans of a sequence of calls are closed innermost first, and data and
    tags are set inside a span: the depth reached from [depth], if so. *)
Fixpoint span_depth (cs : list sentryx_call) (depth : nat) : option nat :=
  match cs with
  | [] => Some depth
  | CallStartSpan _ _ :: cs' => span_depth cs' (S depth)
  | CallFinishSpan _ :: cs' => match depth with O => None | S d => span_depth cs' d end
  | (CallSetSpanData _ _ | CallSetSpanTag _ _) :: cs' =>
      match depth with O => None | S _ => span_depth cs' depth end
  | (CallCapture _ _ | CallReport _ _) :: cs' => span_depth cs' depth
  end.

Lemma sdk_calls_app ctx_hub current cs : ∀ d d' cs',
  span_depth cs d = Some d' →
  sdk_calls ctx_hub current d (cs ++ cs') = sdk_calls ctx_hub current d cs ++ sdk_calls ctx_hub current d' cs'.
Proof.
  induction cs as [|c cs IH]; intros d d' cs' Hd; cbn [app sdk_calls]; [by injection Hd as <-|].
  destruct c; cbn [span_depth] in Hd; try (destruct d as [|d]; [discriminate Hd|]; cbn [pred]);
    rewrite <- app_assoc; f_equal; by apply IH.
Qed.

Lemma span_depth_app cs : ∀ d d' cs', span_depth cs d = Some d' → span_depth (cs ++ cs') d = span_depth cs' d'.
Proof.
  induction cs as [|c cs IH]; intros d d' cs' Hd; cbn [app]; [by injection Hd as <-|].
  destruct c; cbn [span_depth] in Hd |- *; try (destruct d as [|d]; [discriminate Hd|]); by apply IH.
Qed.

(** What the SDK sees. *)
Definition is_transaction (c : sdk_call) : bool := match c with sdk_StartTransaction _ => true | _ => false end.
Definition is_child (c : sdk_call) : bool := match c with sdk_StartSpan _ => true | _ => false end.
Definition is_finish (c : sdk_call) : bool := match c with sdk_Finish => true | _ => false end.
Definition is_exception (c : sdk_call) : bool := match c with sdk_CaptureException _ _ => true | _ => false end.
Definition seen (p : sdk_call → bool) (cs : list sdk_call) : nat := length (List.filter p cs).

Lemma seen_app p cs1 cs2 : seen p (cs1 ++ cs2) = seen p cs1 + seen p cs2.
Proof. unfold seen. by rewrite List.filter_app, length_app. Qed.

(** Whether a capture reaches the SDK. *)
Definition reaches (ctx_hub current : option hub) : bool := Enabled (match ctx_hub with Some h => Some h | None => current end).

Lemma seen_Capture ctx_hub current err kv :
  seen is_exception (Capture ctx_hub current (Some err) kv) = (if reaches ctx_hub current then 1 else 0) ∧
  seen is_transaction (Capture ctx_hub current (Some err) kv) = 0 ∧
  seen is_child (Capture ctx_hub current (Some err) kv) = 0 ∧
  seen is_finish (Capture ctx_hub current (Some err) kv) = 0.
Proof.
  unfold Capture, reaches, Enabled.
  destruct (match ctx_hub with Some h => Some h | None => current end) as [h|]; [|done].
  by destruct (has_dsn h).
Qed.
