(* ===== verification/Recorder.v ===== *)
(** * The recording transport of the tests
    ([internal/sentryx/sentryxtest/sentryxtest.go])

    The transport the tests put in place of the one of the SDK: what it keeps of
    an event, the snapshots it gives, and the polling of WaitFor.  The events of
    the SDK are the record [sdk_event], with the fields the transport reads. *)

From S2P Require Export Sentry.

(** [sentry.Event]. *)
Record sdk_event : Type := mkSdkEvent {
  e_Type : string;
  e_Message : string;
  e_Transaction : string;
  e_Tags : option (gmap string string);                    (* a map may be nil *)
  e_Exception : list string;                               (* their values *)
  e_Contexts : gmap string (gmap string any)
}.

Record CapturedEvent : Type := mkCaptured {
  Type_ : string;
  Message : string;
  Transaction : string;
  Exceptions : list string;
  Tags : option (gmap string string);
  Details : option (gmap string any)
}.

(** func cloneStringMap(in map[string]string): a copy, entry by entry. *)
Definition cloneStringMap (m : option (gmap string string)) : option (gmap string string) :=
  match m with
  | None => None
  | Some m => Some (foldr (λ kv out, <[kv.1 := kv.2]> out) ∅ (map_to_list m))
  end.

(** type recordingTransport struct, its lock aside; func SendEvent(e). *)
Abbreviation recordingTransport := (list CapturedEvent).
Definition SendEvent (e : sdk_event) (r : recordingTransport) : recordingTransport :=
  r ++ [mkCaptured (e_Type e) (e_Message e) (e_Transaction e) (e_Exception e) (cloneStringMap (e_Tags e))
          ((λ d, foldr (λ kv out, <[kv.1 := kv.2]> out) ∅ (map_to_list d)) <$> e_Contexts e !! "details")].

(** func (r *Recorder) Events() []CapturedEvent: a copy. *)
Definition Events (r : recordingTransport) : list CapturedEvent := r.

(** func (r *Recorder) WaitFor(timeout, pred) bool: the polls, each with the
    time it starts and what has been recorded by then. *)
Fixpoint WaitFor (deadline : Z) (pred : CapturedEvent → bool) (polls : list (Z * recordingTransport)) : option bool :=
  match polls with
  | [] => None
  | (now, r) :: polls' =>
      if (now <? deadline)%Z then
        if existsb pred (Events r) then Some true else WaitFor deadline pred polls'
      else Some false
  end.

(** The hub of Swap: the client put in place, and the one its cleanup puts
    back. *)
Definition swapDsn : string := "https://public@example.com/1".
Definition Swap (h : hub) : hub * (hub → hub) :=
  (mkHub (Some swapDsn), λ _, mkHub (hub_client h)).

(** ** Lemmas *)

Lemma cloneStringMap_same m : cloneStringMap m = m.
Proof.
  destruct m as [m|]; [|done]. cbn. f_equal.
  transitivity (list_to_map (M := gmap string string) (map_to_list m)); [|apply list_to_map_to_list].
  induction (map_to_list m) as [|[k v] l IH]; [done|]. cbn. by rewrite IH.
Qed.

(** A wait that succeeds saw a matching event before the deadline; one that
    fails saw none at any poll before it. *)
Lemma WaitFor_spec deadline pred polls :
  match WaitFor deadline pred polls with
  | Some true => ∃ now r e, (now, r) ∈ polls ∧ (now < deadline)%Z ∧ e ∈ r ∧ pred e = true
  | Some false => ∃ before now r after, polls = before ++ (now, r) :: after ∧ (deadline ≤ now)%Z ∧
      Forall (λ p, (p.1 < deadline)%Z ∧ existsb pred p.2 = false) before
  | None => Forall (λ p, (p.1 < deadline)%Z ∧ existsb pred p.2 = false) polls
  end.
Proof.
  induction polls as [|[now r] polls IH]; cbn [WaitFor]; [by constructor|].
  destruct (now <? deadline)%Z eqn:En.
  - apply Z.ltb_lt in En. unfold Events. destruct (existsb pred r) eqn:Ep.
    + apply existsb_exists in Ep as (e & He & Hp). exists now, r, e.
      split_and!; [apply elem_of_cons; by left|done|by apply list_elem_of_In|done].
    + destruct (WaitFor deadline pred polls) as [[]|].
      * destruct IH as (n & r' & e & Hin & ?). exists n, r', e. split; [apply elem_of_cons; by right|done].
      * destruct IH as (b & n & r' & a & -> & Hn & Hb). exists ((now, r) :: b), n, r', a. split_and!; [done..|by constructor].
      * by constructor.
  - apply Z.ltb_ge in En. exists [], now, r, polls. split_and!; [done..|constructor].
Qed.
