(* ===== verification/Channel.v ===== *)
(** * Go buffered channels

    The bounded queues between the goroutines of the pipeline: sends that
    block or drop when the buffer is full, receives in order.  The lemmas on a
    channel used by a producer that drops and one consumer are shared by the
    MONITOR client, the output consumers and the alert engine. *)

From S2P Require Export Prelude.

Record chan (A : Type) : Type := mkChan { ch_buf : list A; ch_cap : nat }.
Arguments mkChan {A}.
Arguments ch_buf {A}.
Arguments ch_cap {A}.

(** [make(chan A, n)] *)
Definition make_chan (A : Type) (n : nat) : chan A := mkChan [] n.

(** [c <- x]: [None] when the send would block. *)
Definition chan_send {A} (x : A) (c : chan A) : option (chan A) :=
  if length (ch_buf c) <? ch_cap c then Some (mkChan (ch_buf c ++ [x]) (ch_cap c)) else None.

(** [x := <-c]: [None] when the receive would block. *)
Definition chan_recv {A} (c : chan A) : option (A * chan A) :=
  match ch_buf c with
  | [] => None
  | x :: rest => Some (x, mkChan rest (ch_cap c))
  end.

(** [len(c)] *)
Definition chan_len {A} (c : chan A) : nat := length (ch_buf c).

Definition chan_wf {A} (c : chan A) : Prop := length (ch_buf c) ≤ ch_cap c.

(** A producer that drops when the buffer is full and one consumer: the
    elements accepted, dropped and taken over a sequence of operations. *)
Inductive chan_op (A : Type) : Type := Offer (x : A) | Take.
Arguments Offer {A}.
Arguments Take {A}.

Record chan_log (A : Type) : Type := mkLog { accepted : list A; rejected : list A; taken : list A }.
Arguments mkLog {A}.
Arguments accepted {A}.
Arguments rejected {A}.
Arguments taken {A}.

Fixpoint chan_run {A} (ops : list (chan_op A)) (c : chan A) : chan_log A * chan A :=
  match ops with
  | [] => (mkLog [] [] [], c)
  | Offer x :: ops' =>
      match chan_send x c with
      | Some c' => let '(l, c'') := chan_run ops' c' in
                   (mkLog (x :: accepted l) (rejected l) (taken l), c'')
      | None => let '(l, c'') := chan_run ops' c in
                (mkLog (accepted l) (x :: rejected l) (taken l), c'')
      end
  | Take :: ops' =>
      match chan_recv c with
      | Some (x, c') => let '(l, c'') := chan_run ops' c' in
                        (mkLog (accepted l) (rejected l) (x :: taken l), c'')
      | None => chan_run ops' c
      end
  end.

Definition offers {A} (ops : list (chan_op A)) : list A :=
  omap (λ op, match op with Offer x => Some x | Take => None end) ops.

(** ** Lemmas *)

Section Channel.
Context {A : Type}.
Implicit Types (c : chan A) (x : A).

Lemma make_chan_wf n : chan_wf (make_chan A n).
Proof. unfold chan_wf. cbn. lia. Qed.

Lemma chan_send_Some x c c' :
  chan_send x c = Some c' → ch_buf c' = ch_buf c ++ [x] ∧ ch_cap c' = ch_cap c
                            ∧ length (ch_buf c) < ch_cap c.
Proof.
  unfold chan_send. destruct (_ <? _) eqn:E; [|done]. intros [= <-].
  apply Nat.ltb_lt in E. done.
Qed.

Lemma chan_send_None x c : chan_send x c = None ↔ ch_cap c ≤ length (ch_buf c).
Proof. unfold chan_send. destruct (_ <? _) eqn:E; [apply Nat.ltb_lt in E|apply Nat.ltb_ge in E]; split; (done || lia). Qed.

Lemma chan_send_wf x c c' : chan_send x c = Some c' → chan_wf c'.
Proof.
  intros (H1 & H2 & H3)%chan_send_Some. unfold chan_wf. rewrite H1, H2, length_app. cbn. lia.
Qed.

Lemma chan_recv_Some x c c' :
  chan_recv c = Some (x, c') → ch_buf c = x :: ch_buf c' ∧ ch_cap c' = ch_cap c.
Proof. unfold chan_recv. destruct c as [[|y b] n]; [done|]. cbn. by intros [= <- <-]. Qed.

Lemma chan_recv_wf x c c' : chan_recv c = Some (x, c') → chan_wf c → chan_wf c'.
Proof. intros (H1 & H2)%chan_recv_Some. unfold chan_wf. rewrite H1, H2. cbn. lia. Qed.

(** A fully drained channel was emptied in order. *)
Lemma chan_recv_None c : chan_recv c = None ↔ ch_buf c = [].
Proof. unfold chan_recv. by destruct (ch_buf c). Qed.

(** What was in the channel or accepted is what was taken, in order, or is
    still in the channel. *)
Lemma chan_run_fifo ops : ∀ c,
  let '(l, c') := chan_run ops c in ch_buf c ++ accepted l = taken l ++ ch_buf c'.
Proof.
  induction ops as [|[x|] ops IH]; intros c; cbn [chan_run].
  - cbn. by rewrite app_nil_r.
  - destruct (chan_send x c) as [c'|] eqn:E.
    + specialize (IH c'). destruct (chan_run ops c') as [l c'']. cbn.
      apply chan_send_Some in E as (Eb & _ & _). rewrite Eb in IH. rewrite <- IH.
      by rewrite <- app_assoc.
    + specialize (IH c). by destruct (chan_run ops c) as [l c''].
  - destruct (chan_recv c) as [[x c']|] eqn:E; [|apply IH].
    specialize (IH c'). destruct (chan_run ops c') as [l c'']. cbn.
    apply chan_recv_Some in E as (-> & _). cbn. by rewrite IH.
Qed.

(** Every offer is accepted or rejected, in order, and the buffer never holds
    more than its capacity. *)
Lemma chan_run_offers ops : ∀ c,
  let '(l, c') := chan_run ops c in
  length (offers ops) = length (accepted l) + length (rejected l) ∧
  accepted l `sublist_of` offers ops ∧ ch_cap c' = ch_cap c.
Proof.
  induction ops as [|[x|] ops IH]; intros c; cbn [chan_run].
  - done.
  - destruct (chan_send x c) as [c'|] eqn:E.
    + specialize (IH c'). destruct (chan_run ops c') as [l c'']. cbn.
      apply chan_send_Some in E as (_ & E & _). destruct IH as (H1 & H2 & H3).
      split_and!; [unfold offers in *; cbn; lia|by constructor|congruence].
    + specialize (IH c). destruct (chan_run ops c) as [l c'']. cbn.
      destruct IH as (H1 & H2 & H3).
      split_and!; [unfold offers in *; cbn; lia|by constructor|done].
  - destruct (chan_recv c) as [[x c']|] eqn:E; [|apply IH].
    specialize (IH c'). destruct (chan_run ops c') as [l c'']. cbn.
    apply chan_recv_Some in E as (_ & E). destruct IH as (H1 & H2 & H3).
    split_and!; [done|done|congruence].
Qed.

Lemma chan_run_app ops1 ops2 c :
  chan_run (ops1 ++ ops2) c =
    let '(l1, c1) := chan_run ops1 c in
    let '(l2, c2) := chan_run ops2 c1 in
    (mkLog (accepted l1 ++ accepted l2) (rejected l1 ++ rejected l2) (taken l1 ++ taken l2), c2).
Proof.
  revert c. induction ops1 as [|[x|] ops1 IH]; intros c; cbn [app chan_run].
  - by destruct (chan_run ops2 c) as [[] c2].
  - destruct (chan_send x c) as [c'|]; rewrite IH;
      [destruct (chan_run ops1 c') as [l1 c1]|destruct (chan_run ops1 c) as [l1 c1]];
      by destruct (chan_run ops2 c1) as [l2 c2].
  - destruct (chan_recv c) as [[x c']|]; [|apply IH]. rewrite IH.
    destruct (chan_run ops1 c') as [l1 c1]. by destruct (chan_run ops2 c1) as [l2 c2].
Qed.

Lemma chan_run_wf ops : ∀ c, chan_wf c → chan_wf (chan_run ops c).2.
Proof.
  induction ops as [|[x|] ops IH]; intros c Hc; cbn [chan_run]; [done| |].
  - destruct (chan_send x c) as [c'|] eqn:E.
    + specialize (IH c' (chan_send_wf _ _ _ E)). by destruct (chan_run ops c').
    + specialize (IH c Hc). by destruct (chan_run ops c).
  - destruct (chan_recv c) as [[x c']|] eqn:E; [|by apply IH].
    specialize (IH c' (chan_recv_wf _ _ _ E Hc)). by destruct (chan_run ops c').
Qed.
End Channel.

#[export] Hint Resolve make_chan_wf chan_send_wf chan_recv_wf : watcher.
