(* ===== verification/Event.v ===== *)
(** * The audit event ([internal/event/event.go])

    The record every component passes on, with its two renderings:
    [FullCommand], used to name the command of an alert, and [CommandLine],
    the text the alert patterns are matched against.  [CommandLine] is shown
    to lose nothing of the argument list: a reference reader recovers it. *)

From S2P Require Export GoStrings.

(** [time.Time] as the program builds it, by [time.Unix(sec, nsec).UTC()]:
    seconds since the epoch (an int64) and nanoseconds within the second. *)
Record time : Type := mkTime { t_sec : Z; t_nsec : Z }.

#[export] Instance time_eq_dec : EqDecision time.
Proof. solve_decision. Defined.

(** [time.Unix]: brings [nsec] within [0, 999999999].  Go's division of
    integers truncates towards zero. *)
Definition Unix (sec nsec : Z) : time :=
  if ((nsec <? 0) || (1000000000 <=? nsec))%Z then
    let n := (nsec ÷ 1000000000)%Z in
    let sec := int64 (sec + n) in
    let nsec := (nsec - n * 1000000000)%Z in
    if (nsec <? 0)%Z then mkTime (int64 (sec - 1)) (nsec + 1000000000) else mkTime sec nsec
  else mkTime sec nsec.

(** type Source struct *)
Record Source : Type := mkSource { IP : string; Port : string }.

#[export] Instance Source_eq_dec : EqDecision Source.
Proof. solve_decision. Defined.

(** type Event struct *)
Record Event : Type := mkEvent {
  Timestamp : time;
  DB : Z;
  EvSource : Source;
  Command : string;
  Subcommand : string;
  Args : list string
}.

#[export] Instance Event_eq_dec : EqDecision Event.
Proof. solve_decision. Defined.

(** func (e *Event) FullCommand() string *)
Definition FullCommand (e : Event) : string :=
  if decide (Subcommand e = "") then Command e
  else Command e +:+ " " +:+ Subcommand e.

(** The loop that escapes the double quotes and backslashes of an argument. *)
Fixpoint escape_bytes (a : string) : string :=
  match a with
  | EmptyString => EmptyString
  | String c a' =>
      if bool_decide (c = DQUOTE) || bool_decide (c = BACKSLASH)
      then String BACKSLASH (String c (escape_bytes a'))
      else String c (escape_bytes a')
  end.

Definition quoted_chars : list ascii := [SP; TAB; CR; LF; DQUOTE].

(** One argument of the command line: quoted when it contains white space or
    a double quote. *)
Definition command_line_arg (a : string) : string :=
  if ContainsAny a quoted_chars
  then String DQUOTE (escape_bytes a +:+ String DQUOTE "")
  else a.

Fixpoint command_line_args (args : list string) : string :=
  match args with
  | [] => ""
  | a :: args' => String SP (command_line_arg a +:+ command_line_args args')
  end.

(** func (e *Event) CommandLine() string *)
Definition CommandLine (e : Event) : string := Command e +:+ command_line_args (Args e).

(** ** Reference reader of the argument part of a command line *)

Fixpoint read_quoted (s : string) : option (string * string) :=
  match s with
  | EmptyString => None
  | String c s' =>
      if decide (c = DQUOTE) then Some ("", s')
      else if decide (c = BACKSLASH) then
        match s' with
        | EmptyString => None
        | String d s'' => '(a, r) ← read_quoted s''; Some (String d a, r)
        end
      else '(a, r) ← read_quoted s'; Some (String c a, r)
  end.

Fixpoint read_raw (s : string) : string * string :=
  match s with
  | EmptyString => ("", "")
  | String c s' =>
      if decide (c = SP) then ("", s)
      else let '(a, r) := read_raw s' in (String c a, r)
  end.

Definition read_arg (s : string) : option (string * string) :=
  match s with
  | String c s' => if decide (c = DQUOTE) then read_quoted s' else Some (read_raw s)
  | EmptyString => Some ("", "")
  end.

(** One unit of fuel per argument. *)
Fixpoint read_args (fuel : nat) (s : string) : option (list string) :=
  match s, fuel with
  | EmptyString, _ => Some []
  | String c s', S fuel' =>
      if decide (c = SP) then '(a, r) ← read_arg s'; args ← read_args fuel' r; Some (a :: args)
      else None
  | _, O => None
  end.

(** ** Lemmas *)

(** What follows an argument: nothing, or a space. *)
Definition arg_end (r : string) : Prop := r = "" ∨ ∃ s, r = String SP s.

Lemma arg_end_args args : arg_end (command_line_args args).
Proof. destruct args; [by left|right; by eexists]. Qed.

#[export] Hint Resolve arg_end_args : watcher.

Lemma read_quoted_escape a r :
  read_quoted (escape_bytes a +:+ String DQUOTE r) = Some (a, r).
Proof.
  induction a as [|c a IH]; [done|]. cbn [escape_bytes].
  destruct (decide (c = DQUOTE ∨ c = BACKSLASH)) as [Hc|Hc].
  - assert (bool_decide (c = DQUOTE) || bool_decide (c = BACKSLASH) = true) as ->
      by (destruct Hc as [->| ->]; done).
    cbn [String.append read_quoted]. rewrite decide_False, decide_True by done. by rewrite IH.
  - apply Decidable.not_or in Hc as [H1 H2].
    rewrite !bool_decide_false by done. cbn [orb String.append read_quoted].
    rewrite !decide_False by done. by rewrite IH.
Qed.

Lemma read_raw_app a r :
  contains_byte a SP = false → arg_end r → read_raw (a +:+ r) = (a, r).
Proof.
  intros Ha Hr. induction a as [|c a IH].
  - destruct Hr as [->|[s ->]]; done.
  - rewrite contains_byte_cons in Ha. apply orb_false_iff in Ha as [Hc Ha].
    apply bool_decide_eq_false in Hc. cbn [String.append read_raw].
    rewrite decide_False by done. by rewrite (IH Ha).
Qed.

Lemma ContainsAny_contains s chars c :
  ContainsAny s chars = false → c ∈ chars → contains_byte s c = false.
Proof.
  intros Hs Hc. induction s as [|x s IH]; [done|].
  cbn in Hs. apply orb_false_iff in Hs as [Hx Hs].
  rewrite contains_byte_cons, IH by done. rewrite orb_false_r.
  apply bool_decide_eq_false. intros ->. unfold in_set in Hx.
  by apply bool_decide_eq_false in Hx.
Qed.

Lemma read_arg_command_line a r :
  arg_end r → read_arg (command_line_arg a +:+ r) = Some (a, r).
Proof.
  intros Hr. unfold command_line_arg. destruct (ContainsAny a quoted_chars) eqn:E.
  - cbn. rewrite str_app_assoc. apply read_quoted_escape.
  - assert (Hraw : contains_byte a SP = false) by (eapply ContainsAny_contains; [done|set_solver]).
    assert (Hq : contains_byte a DQUOTE = false) by (eapply ContainsAny_contains; [done|set_solver]).
    pose proof (read_raw_app a r Hraw Hr) as H. unfold read_arg.
    destruct a as [|c a].
    + destruct Hr as [->|[s ->]]; done.
    + rewrite contains_byte_cons in Hq. apply orb_false_iff in Hq as [Hc _].
      apply bool_decide_eq_false in Hc. cbn [String.append] in *.
      rewrite decide_False by done. by rewrite H.
Qed.

Lemma read_args_command_line args fuel :
  length args ≤ fuel → read_args fuel (command_line_args args) = Some args.
Proof.
  revert fuel; induction args as [|a args IH]; intros [|fuel] Hf; cbn in Hf; try done; [lia|].
  cbn [command_line_args read_args]. rewrite decide_True by done.
  rewrite read_arg_command_line by auto with watcher. cbn.
  rewrite IH by lia. done.
Qed.

Lemma command_line_args_inj args1 args2 :
  command_line_args args1 = command_line_args args2 → args1 = args2.
Proof.
  intros H. set (n := length args1 + length args2).
  assert (Some args1 = Some args2) as [= ->]; [|done].
  rewrite <- (read_args_command_line args1 n) by lia.
  rewrite <- (read_args_command_line args2 n) by lia. by rewrite H.
Qed.

Lemma str_app_inj_l (a b c : string) : c +:+ a = c +:+ b → a = b.
Proof. induction c as [|x c IH]; [done|]. intros [= H]. auto. Qed.

(** ** Properties *)

(** The command line loses nothing -- two events of the same command with
    the same command line have the same arguments: quoting and escaping keep
    apart arguments that contain blanks, quotes and backslashes, so an alert
    pattern cannot be shown one command as another. *)
Theorem CommandLine_inj (e1 e2 : Event) :
  Command e1 = Command e2 → CommandLine e1 = CommandLine e2 → Args e1 = Args e2.
Proof.
  unfold CommandLine. intros Hc Hl. rewrite Hc in Hl. by apply command_line_args_inj, (str_app_inj_l _ _ (Command e2)).
Qed.

Lemma CommandLine_inj_witness :
  CommandLine (mkEvent (mkTime 0 0) 0 (mkSource "" "") "SET" "" ["a b"])
  ≠ CommandLine (mkEvent (mkTime 0 0) 0 (mkSource "" "") "SET" "" ["a"; "b"]).
Proof.
  intros H. apply (CommandLine_inj (mkEvent (mkTime 0 0) 0 (mkSource "" "") "SET" "" ["a b"])
    (mkEvent (mkTime 0 0) 0 (mkSource "" "") "SET" "" ["a"; "b"]) eq_refl) in H. discriminate H.
Defined.
