(* ===== verification/Resp.v ===== *)
(** * The RESP subset ([internal/resp/resp.go])

    Writing a command, reading a status reply and a bulk string.  A
    [bufio.Reader] over a connection is the bytes the peer sends before the
    stream ends and the error it ends with; a [bufio.Writer] is the bytes sent
    so far and, when the connection no longer takes bytes, the error of its
    writes.  A command written is read back by the bulk reader, replies are
    classified, and the bulk reader is shown to panic exactly on the lengths
    the Go runtime refuses to allocate. *)

From S2P Require Export GoStrings.

(** ** Connections *)

Record reader : Type := mkReader { r_buf : string; r_err : goerror }.
Record writer : Type := mkWriter { w_out : string; w_err : option goerror }.
Record conn : Type := mkConn { c_reader : reader; c_writer : writer }.

(** [(line including delim, rest)]; [None] when there is no [delim]. *)
Fixpoint split_after (delim : ascii) (s : string) : option (string * string) :=
  match s with
  | EmptyString => None
  | String c s' =>
      if decide (c = delim) then Some (String c "", s')
      else '(l, r) ← split_after delim s'; Some (String c l, r)
  end.

(** [r.ReadString(delim)]: the error of the stream when it ends first. *)
Definition ReadString (delim : ascii) (r : reader) : result (string * reader) :=
  match split_after delim (r_buf r) with
  | Some (line, rest) => Ok (line, mkReader rest (r_err r))
  | None => Err (r_err r)
  end.

(** [io.ReadFull(r, buf)] with [len(buf) = n]. *)
Definition ReadFull (n : nat) (r : reader) : result (string * reader) :=
  if n <=? len (r_buf r) then Ok (str_take n (r_buf r), mkReader (str_drop n (r_buf r)) (r_err r))
  else if decide (r_buf r = "") then Err (r_err r)
  else match r_err r with
       | Sentinel EOF => Err (Sentinel UnexpectedEOF)
       | e => Err e
       end.

(** [make([]byte, n)] panics for a negative length or one above the size of
    the address space of the Go runtime on a 64-bit platform (2^48 bytes). *)
Definition max_alloc : Z := 2 ^ 48.
Definition make_bytes (n : Z) : result nat :=
  if ((n <? 0) || (max_alloc <? n))%Z then Panics else Ok (Z.to_nat n).

(** ** Operations *)

Definition crlf_cutset : list ascii := [CR; LF].

(** [fmt.Fprintf(w, "$%d\r\n%s\r\n", len(a), a)] *)
Definition bulk_bytes (a : string) : string :=
  String "$" (Itoa (Z.of_nat (len a)) +:+ CRLF +:+ a +:+ CRLF).

Fixpoint bulks_bytes (args : list string) : string :=
  match args with [] => "" | a :: args' => bulk_bytes a +:+ bulks_bytes args' end.

(** func WriteCommand(w *bufio.Writer, args ...string) error *)
Definition WriteCommand (w : writer) (args : list string) : result writer :=
  match w_err w with
  | Some e => Err e
  | None =>
      Ok (mkWriter (w_out w +:+ String "*" (Itoa (Z.of_nat (length args)) +:+ CRLF)
                            +:+ bulks_bytes args) None)
  end.

(** func ReadSimpleString(r *bufio.Reader) error *)
Definition ReadSimpleString (r : reader) : result reader :=
  '(line, r) ← ReadString LF r;
  match TrimRight line crlf_cutset with
  | EmptyString => Err (Errorf "empty response" [])
  | String "+" _ => Ok r
  | String "-" msg => Err (Errorf msg [])
  | line => Err (Errorf "unexpected response: %s" [line])
  end.

(** func ReadBulkString(r *bufio.Reader) (string, error) *)
Definition ReadBulkString (r : reader) : result (string * reader) :=
  '(head, r) ← ReadString LF r;
  match TrimRight head crlf_cutset with
  | EmptyString => Err (Errorf "empty bulk header" [])
  | String c body as head =>
      if decide (c = "-"%char) then Err (Errorf body [])
      else if decide (c ≠ "$"%char) then Err (Errorf "expected bulk string, got %q" [head])
      else
        n ← wrapf "invalid bulk length %q" [head] (Atoi body);
        if (n <? 0)%Z then Err (Sentinel EOF)
        else
          size ← make_bytes (int64 (n + 2));
          '(buf, r) ← ReadFull size r;
          Ok (str_take (Z.to_nat n) buf, r)
  end.

(** func AuthArgs(user, pass string) []string *)
Definition AuthArgs (user pass : string) : list string :=
  if decide (user ≠ "") then ["AUTH"; user; pass] else ["AUTH"; pass].

(** ** Reference reader of a command: the array header, then its bulk strings *)

Fixpoint read_bulks (n : nat) (r : reader) : result (list string * reader) :=
  match n with
  | O => Ok ([], r)
  | S n' =>
      '(a, r) ← ReadBulkString r;
      '(args, r) ← read_bulks n' r;
      Ok (a :: args, r)
  end.

Definition read_command (r : reader) : result (list string * reader) :=
  '(head, r) ← ReadString LF r;
  match TrimRight head crlf_cutset with
  | String "*" body => n ← Atoi body; read_bulks (Z.to_nat n) r
  | _ => Err (Errorf "not an array" [])
  end.

(** ** Lemmas *)

Lemma split_after_app delim a b :
  contains_byte a delim = false →
  split_after delim (a +:+ String delim b) = Some (a +:+ String delim "", b).
Proof.
  induction a as [|x a IH]; intros Ha; cbn [String.append split_after].
  - by rewrite decide_True.
  - rewrite contains_byte_cons in Ha. apply orb_false_iff in Ha as [Hx Ha].
    apply bool_decide_eq_false in Hx. rewrite decide_False by done. by rewrite (IH Ha).
Qed.

(** A line without line feed nor trailing carriage return, as [ReadString]
    followed by [TrimRight] sees it. *)
Lemma read_line a b e :
  contains_byte a LF = false →
  ReadString LF (mkReader (a +:+ CRLF +:+ b) e) = Ok (a +:+ CRLF, mkReader b e).
Proof.
  intros Ha. unfold ReadString. cbn [r_buf r_err].
  assert (a +:+ CRLF +:+ b = (a +:+ String CR "") +:+ String LF b) as ->
    by (by rewrite str_app_assoc).
  rewrite split_after_app by (rewrite contains_byte_app, Ha; done).
  by rewrite str_app_assoc.
Qed.

Lemma trim_crlf a c :
  in_set crlf_cutset c = false →
  TrimRight ((a +:+ String c "") +:+ CRLF) crlf_cutset = a +:+ String c "".
Proof.
  intros Hc. rewrite TrimRight_app_cut by done. by apply TrimRight_app_last.
Qed.

(** The last character of a printed length is not cut by the trimming. *)
Lemma pretty_N_go_app x s : pretty_N_go x s = pretty_N_go x "" +:+ s.
Proof.
  revert s. induction (N.lt_wf_0 x) as [x _ IH]; intros s.
  destruct (decide (x = 0%N)) as [->|Hx]; [done|].
  rewrite (pretty_N_go_step x s), (pretty_N_go_step x "") by lia.
  assert (x `div` 10 < x)%N by (by apply N.div_lt; lia).
  rewrite (IH _ ltac:(done) (String _ s)), (IH _ ltac:(done) (String _ "")).
  by rewrite str_app_assoc.
Qed.

Lemma pretty_N_last (n : N) :
  ∃ a c, pretty n = a +:+ String c "" ∧ in_set crlf_cutset c = false.
Proof.
  unfold pretty, pretty_N. case_decide; [by exists "", "0"%char|].
  rewrite pretty_N_go_step by lia. rewrite pretty_N_go_app.
  eexists _, _. split; [done|]. unfold pretty_N_char. by repeat case_match.
Qed.

(** A header line of a RESP frame: a type byte and a length. *)
Lemma trim_header c n :
  TrimRight (String c (Itoa (Z.of_nat n)) +:+ CRLF) crlf_cutset = String c (Itoa (Z.of_nat n)).
Proof.
  rewrite Itoa_nonneg by lia. destruct (pretty_N_last (Z.to_N (Z.of_nat n))) as (a & d & -> & Hd).
  exact (trim_crlf (String c a) d Hd).
Qed.

Lemma read_header c n b e :
  bool_decide (c = LF) = false →
  ReadString LF (mkReader (String c (Itoa (Z.of_nat n) +:+ CRLF +:+ b)) e)
  = Ok (String c (Itoa (Z.of_nat n)) +:+ CRLF, mkReader b e).
Proof.
  intros Hc. apply (read_line (String c (Itoa (Z.of_nat n)))).
  rewrite contains_byte_cons, Hc. apply Itoa_no; [lia|done].
Qed.

(** A bulk string that fits in memory is read back, whatever follows. *)
Lemma read_bulk_bytes a rest e :
  (Z.of_nat (len a) + 2 ≤ max_alloc)%Z →
  ReadBulkString (mkReader (bulk_bytes a +:+ rest) e) = Ok (a, mkReader rest e).
Proof.
  unfold max_alloc. intros Hlen. unfold ReadBulkString, bulk_bytes.
  cbn [String.append]. rewrite !str_app_assoc. rewrite read_header by done.
  cbn [mbind result_bind]. rewrite trim_header. cbn [decide].
  rewrite decide_False by done. rewrite decide_False by (intros []; done).
  assert (Hin : in_int64 (Z.of_nat (len a))) by (unfold in_int64, int64_min, int64_max; lia).
  rewrite Atoi_Itoa by done. cbn [wrapf mbind result_bind].
  rewrite (proj2 (Z.ltb_ge _ _)) by lia.
  rewrite int64_id by (unfold in_int64, int64_min, int64_max; lia).
  unfold make_bytes, max_alloc. rewrite (proj2 (Z.ltb_ge _ _)) by lia.
  rewrite (proj2 (Z.ltb_ge _ _)) by lia. cbn [orb mbind result_bind].
  assert (Z.to_nat (Z.of_nat (len a) + 2) = len (a +:+ CRLF)) as ->
    by (rewrite str_length_app; cbn; lia).
  unfold ReadFull. cbn [r_buf r_err]. rewrite <- str_app_assoc.
  rewrite (proj2 (Nat.leb_le _ _)) by (rewrite !str_length_app; lia).
  rewrite str_take_app, str_drop_app. cbn [mbind result_bind].
  by rewrite Nat2Z.id, str_take_app.
Qed.

Lemma read_bulks_bytes args rest e :
  Forall (λ a, Z.of_nat (len a) + 2 ≤ max_alloc)%Z args →
  read_bulks (length args) (mkReader (bulks_bytes args +:+ rest) e) = Ok (args, mkReader rest e).
Proof.
  intros H. induction H as [|a args Ha _ IH]; [done|]. cbn [length read_bulks bulks_bytes].
  rewrite str_app_assoc, read_bulk_bytes by done. cbn [mbind result_bind]. by rewrite IH.
Qed.

(** Allocating the buffer of a bulk of length [n]: [n + 2] wraps around for
    the largest lengths, and is then refused as a negative length. *)
Lemma make_bulk_buffer n :
  in_int64 n → (0 ≤ n)%Z →
  make_bytes (int64 (n + 2)) =
    if (max_alloc <? n + 2)%Z then Panics else Ok (Z.to_nat (n + 2)).
Proof.
  unfold make_bytes, max_alloc, in_int64, int64_min, int64_max. intros Hr Hn.
  destruct (Z.lt_ge_cases (n + 2) (2 ^ 63)) as [Hs|Hs].
  - rewrite int64_id by (unfold in_int64, int64_min, int64_max; lia).
    by rewrite (proj2 (Z.ltb_ge _ _)) by lia.
  - assert (Hw : (int64 (n + 2) < 0)%Z).
    { unfold int64. replace (n + 2 + 2 ^ 63)%Z with (n + 2 - 2 ^ 63 + 1 * 2 ^ 64)%Z by lia.
      rewrite Z.mod_add by lia. rewrite Z.mod_small by lia. lia. }
    rewrite (proj2 (Z.ltb_lt _ _) Hw). cbn [orb]. by rewrite (proj2 (Z.ltb_lt _ _)) by lia.
Qed.

(** ** Properties *)

(** Round trip of commands -- whatever arguments [WriteCommand] sends over
    a fresh connection, a RESP reader built on the program's own
    [ReadBulkString] recovers exactly these arguments, binary data included,
    and stops at the first byte after the command. *)
Theorem WriteCommand_read_back (args : list string) (w : writer) (rest : string) (e : goerror) :
  Forall (λ a, Z.of_nat (len a) + 2 ≤ max_alloc)%Z args →
  (Z.of_nat (length args) ≤ int64_max)%Z →
  WriteCommand (mkWriter "" None) args = Ok w →
  read_command (mkReader (w_out w +:+ rest) e) = Ok (args, mkReader rest e).
Proof.
  unfold int64_max. intros Hargs Hn Hw. cbn in Hw. injection Hw as <-. cbn [w_out].
  unfold read_command. cbn [String.append]. rewrite !str_app_assoc.
  rewrite read_header by done. cbn [mbind result_bind]. rewrite trim_header.
  rewrite Atoi_Itoa by (unfold in_int64, int64_min, int64_max; lia).
  cbn [mbind result_bind]. rewrite Nat2Z.id. by apply read_bulks_bytes.
Qed.

Lemma WriteCommand_read_back_witness :
  ∃ w, WriteCommand (mkWriter "" None) ["AUTH"; "user"; CRLF] = Ok w ∧
       read_command (mkReader (w_out w +:+ "+OK") (Sentinel EOF))
       = Ok (["AUTH"; "user"; CRLF], mkReader "+OK" (Sentinel EOF)).
Proof.
  eexists. split; [reflexivity|].
  apply (WriteCommand_read_back ["AUTH"; "user"; CRLF]).
  - repeat constructor; vm_compute; discriminate.
  - vm_compute; discriminate.
  - reflexivity.
Defined.

(** C35: the bulk reader panics exactly when the reply is a well-formed bulk
    header whose length, plus the two bytes of the terminator, is more than
    the Go runtime can allocate; the length sent by the peer is not bounded
    before the buffer is made. *)
Theorem ReadBulkString_panics_iff (r : reader) :
  ReadBulkString r = Panics ↔
  ∃ line rest body n,
    split_after LF (r_buf r) = Some (line, rest) ∧
    TrimRight line crlf_cutset = String "$" body ∧
    parse_int body = inl n ∧ (max_alloc < n + 2)%Z.
Proof.
  unfold ReadBulkString, ReadString. destruct r as [buf err]. cbn [r_buf r_err].
  destruct (split_after LF buf) as [[line rest]|]; cbn [mbind result_bind];
    [|split; [done|intros (?&?&?&?&?&?); done]].
  destruct (TrimRight line crlf_cutset) as [|c body] eqn:Et;
    [split; [done|intros (?&?&?&?&?&?&_); congruence]|].
  case_decide; [split; [done|intros (?&?&?&?&?&?&_); congruence]|].
  case_decide as Hd; [split; [done|intros (?&?&?&?&?&?&_); destruct Hd; congruence]|].
  subst c. unfold Atoi.
  destruct (parse_int body) as [n|] eqn:Ep; cbn [wrapf mbind result_bind];
    [|split; [done|intros (?&?&?&?&?&?&?&_); congruence]].
  pose proof (parse_int_range _ _ Ep) as Hr.
  assert (Hiff : (∃ l r' b m, Some (line, rest) = Some (l, r') ∧
      TrimRight l crlf_cutset = String "$" b ∧ parse_int b = inl m ∧ (max_alloc < m + 2)%Z)
      ↔ (max_alloc < n + 2)%Z).
  { split; [intros (l&r'&b&m&?&?&?&?); congruence|]. intros. by exists line, rest, body, n. }
  rewrite Hiff; clear Hiff.
  destruct (n <? 0)%Z eqn:Hn.
  - apply Z.ltb_lt in Hn. unfold max_alloc. split; [done|lia].
  - apply Z.ltb_ge in Hn. rewrite make_bulk_buffer by done.
    destruct (max_alloc <? n + 2)%Z eqn:Hm; [apply Z.ltb_lt in Hm; done|apply Z.ltb_ge in Hm].
    split; [|lia]. cbn [mbind result_bind]. unfold ReadFull. repeat case_match; done.
Qed.
