(* ===== verification/Parser.v ===== *)
(** * Parsing a MONITOR line ([internal/monitor/parser.go])

    [Parse] and its helpers, with the grammar of the quoted arguments as a
    relation ([args_text]): the parser accepts exactly the words of the
    grammar and returns the arguments they denote, and a line written in the
    format of MONITOR is parsed back into the event it was written from. *)

From S2P Require Export Event Resp.

(** ** Operations *)

(** var commandsWithSubcommand *)
Definition commandsWithSubcommand : gset string :=
  list_to_set ["CLIENT"; "CONFIG"; "ACL"; "SCRIPT"; "DEBUG"; "CLUSTER"; "COMMAND";
               "FUNCTION"; "LATENCY"; "MEMORY"; "MODULE"; "OBJECT"; "PUBSUB";
               "SLOWLOG"; "XGROUP"; "XINFO"].

(** func parseTimestamp(s string) (time.Time, error) *)
Definition parseTimestamp (s : string) : result time :=
  let '(secStr, fracStr) :=
    match IndexByte s "." with
    | None => (s, "")
    | Some dot => (str_take dot s, str_drop (S dot) s)
    end in
  sec ← wrapf "invalid timestamp %q" [s] (ParseInt secStr);
  if (sec <? 0)%Z then Err (Errorf "negative timestamp: %s" [s])
  else if decide (fracStr = "") then Ok (Unix sec 0)
  else
    let fracStr := if 9 <? len fracStr then str_take 9 fracStr else fracStr in
    f ← wrapf "invalid timestamp fraction %q" [fracStr] (ParseInt fracStr);
    let nsec := Nat.iter (9 - len fracStr) (λ f, int64 (f * 10)) f in
    Ok (Unix sec nsec).

(** func splitHostPort(addr string) (string, string) *)
Definition split_last_colon (addr : string) : string * string :=
  match LastIndexByte addr ":" with
  | None => (addr, "")
  | Some last => (str_take last addr, str_drop (S last) addr)
  end.

Definition splitHostPort (addr : string) : string * string :=
  match addr with
  | EmptyString => ("", "")
  | String "[" _ =>
      match IndexByte addr "]" with
      | Some end_ =>
          let ip := str_drop 1 (str_take end_ addr) in
          match str_drop (S end_) addr with
          | String ":" port => (ip, port)
          | _ => (ip, "")
          end
      | None => split_last_colon addr
      end
  | _ => split_last_colon addr
  end.

Definition blanks : list ascii := [SP; TAB].

(** The look-ahead of parseBracket: blanks, then a quote or the end. *)
Definition closes (s : string) : bool :=
  match TrimLeft s blanks with
  | EmptyString => true
  | String c _ => bool_decide (c = DQUOTE)
  end.

(** The loop of parseBracket: the index of the bracket that closes the
    segment, [i] being the index of the first byte of [s]. *)
Fixpoint find_close (i : nat) (s : string) : option nat :=
  match s with
  | EmptyString => None
  | String c s' =>
      if decide (c ≠ "]"%char) then find_close (S i) s'
      else if closes s' then Some i else find_close (S i) s'
  end.

(** func parseBracket(rest string) (int, event.Source, string, error) *)
Definition parseBracket (rest : string) : result (Z * Source * string) :=
  match rest with
  | String "[" rest1 =>
      match find_close 1 rest1 with
      | None => Err (Errorf "missing ']' in db/source segment" [])
      | Some closeIdx =>
          let body := str_drop 1 (str_take closeIdx rest) in
          let remainder := TrimLeft (str_drop (S closeIdx) rest) blanks in
          match IndexByte body SP with
          | None => Err (Errorf "missing space in bracket segment %q" [body])
          | Some sp =>
              db ← wrapf "invalid db %q" [str_take sp body] (Atoi (str_take sp body));
              let '(ip, port) := splitHostPort (str_drop (S sp) body) in
              Ok (db, mkSource ip port, remainder)
          end
      end
  | _ => Err (Errorf "missing '[' before db/source: %q" [rest])
  end.

(** The byte an escape other than [\x] stands for. *)
Definition unescape (next : ascii) : ascii :=
  if decide (next = "n"%char) then LF
  else if decide (next = "r"%char) then CR
  else if decide (next = "t"%char) then TAB
  else if decide (next = "a"%char) then "007"%char
  else if decide (next = "b"%char) then "008"%char
  else next.

(** [strconv.ParseUint(s[i+1:i+3], 16, 8)] *)
Definition hex_byte (h1 h2 : ascii) : option ascii :=
  match parse_uint 16 8 (String h1 (String h2 "")) with
  | inl v => Some (ascii_of_N (Z.to_N v))
  | inr _ => None
  end.

Definition append_byte (sb : string) (c : ascii) : string := sb +:+ String c "".

(** The loop of parseQuotedArgs.  [sb] is the string builder when [inQuote]
    holds, [args] the arguments closed so far, [i] the position in the line. *)
Fixpoint parse_quoted_loop (args : list string) (sb : option string) (i : Z) (s : string)
    : result (list string) :=
  match sb, s with
  | None, EmptyString => Ok args
  | Some _, EmptyString => Err (Errorf "unterminated quoted string" [])
  | None, String c s1 =>
      if decide (c = SP ∨ c = TAB) then parse_quoted_loop args None (i + 1) s1
      else if decide (c = DQUOTE) then parse_quoted_loop args (Some "") (i + 1) s1
      else Err (Errorf "unexpected character %q at position %d" [String c ""; Itoa i])
  | Some sb, String c s1 =>
      if decide (c = BACKSLASH) then
        match s1 with
        | String next s2 =>
            if decide (next = "x"%char) then
              match s2 with
              | String h1 (String h2 s4) =>
                  match hex_byte h1 h2 with
                  | Some v => parse_quoted_loop args (Some (append_byte sb v)) (i + 4) s4
                  | None => parse_quoted_loop args (Some (append_byte sb next)) (i + 2) s2
                  end
              | _ => parse_quoted_loop args (Some (append_byte sb next)) (i + 2) s2
              end
            else parse_quoted_loop args (Some (append_byte sb (unescape next))) (i + 2) s2
        | EmptyString => parse_quoted_loop args (Some (append_byte sb c)) (i + 1) s1
        end
      else if decide (c = DQUOTE) then parse_quoted_loop (args ++ [sb]) None (i + 1) s1
      else parse_quoted_loop args (Some (append_byte sb c)) (i + 1) s1
  end.

(** func parseQuotedArgs(s string) ([]string, error) *)
Definition parseQuotedArgs (s : string) : result (list string) :=
  parse_quoted_loop [] None 0 s.

(** The subcommand of a command that routes by its first argument. *)
Definition subcommand_of `{UnicodeCase} (cmd : string) (args : list string) : string :=
  match args with
  | a :: _ => if decide (cmd ∈ commandsWithSubcommand) then ToUpper a else ""
  | [] => ""
  end.

(** func Parse(line string) ( *event.Event, error) *)
Definition Parse `{UnicodeCase} (line : string) : result Event :=
  let original := line in
  let line := TrimRight line crlf_cutset in
  match line with
  | EmptyString => Err (Errorf "empty line" [])
  | String c line1 =>
      let line := if decide (c = "+"%char) then line1 else line in
      match IndexByte line SP with
      | None | Some O =>
          Err (Errorf "invalid format: no space after timestamp: %q" [original])
      | Some spaceIdx =>
          ts ← parseTimestamp (str_take spaceIdx line);
          let rest := str_drop (S spaceIdx) line in
          '(db, src, rest) ← parseBracket rest;
          args ← wrapf "parse args" [] (parseQuotedArgs rest);
          match args with
          | [] => Err (Errorf "no command in line" [])
          | arg0 :: args =>
              let cmd := ToUpper arg0 in
              Ok (mkEvent ts db src cmd (subcommand_of cmd args) args)
          end
      end
  end.

(** ** The grammar of the arguments

    [quoted s d r]: read from inside the quotes, [s] denotes the bytes [d] up
    to its closing quote, after which [r] is left. *)
Inductive quoted : string → string → string → Prop :=
| quoted_close r : quoted (String DQUOTE r) "" r
| quoted_plain c s d r :
    c ≠ DQUOTE → c ≠ BACKSLASH → quoted s d r → quoted (String c s) (String c d) r
| quoted_escape c s d r :
    c ≠ "x"%char → quoted s d r →
    quoted (String BACKSLASH (String c s)) (String (unescape c) d) r
| quoted_hex h1 h2 v s d r :
    hex_byte h1 h2 = Some v → quoted s d r →
    quoted (String BACKSLASH (String "x" (String h1 (String h2 s)))) (String v d) r
| quoted_bare_x s d r :
    (∀ h1 h2 s', s = String h1 (String h2 s') → hex_byte h1 h2 = None) →
    quoted s d r →
    quoted (String BACKSLASH (String "x" s)) (String "x" d) r.

(** [args_text s l]: the text [s] denotes the arguments [l]. *)
Inductive args_text : string → list string → Prop :=
| args_end : args_text "" []
| args_blank c s l : c = SP ∨ c = TAB → args_text s l → args_text (String c s) l
| args_arg s d r l : quoted s d r → args_text r l → args_text (String DQUOTE s) (d :: l).

#[export] Hint Constructors quoted args_text : watcher.

(** ** Lemmas: the argument loop and its grammar *)

Lemma append_byte_app sb c d : append_byte sb c +:+ d = sb +:+ String c d.
Proof. unfold append_byte. by rewrite str_app_assoc. Qed.

(** One step of the loop on an escape that is not a well-formed [\x]. *)
Lemma loop_bare_x args sb i s :
  (∀ h1 h2 s', s = String h1 (String h2 s') → hex_byte h1 h2 = None) →
  parse_quoted_loop args (Some sb) i (String BACKSLASH (String "x" s))
  = parse_quoted_loop args (Some (append_byte sb "x")) (i + 2) s.
Proof.
  intros Hs. cbn [parse_quoted_loop]. rewrite !decide_True by done.
  destruct s as [|h1 [|h2 s]]; try done. by rewrite (Hs h1 h2 s).
Qed.

Lemma loop_hex args sb i h1 h2 v s :
  hex_byte h1 h2 = Some v →
  parse_quoted_loop args (Some sb) i (String BACKSLASH (String "x" (String h1 (String h2 s))))
  = parse_quoted_loop args (Some (append_byte sb v)) (i + 4) s.
Proof. intros Hs. cbn [parse_quoted_loop]. rewrite !decide_True by done. by rewrite Hs. Qed.

Lemma loop_escape args sb i c s :
  c ≠ "x"%char →
  parse_quoted_loop args (Some sb) i (String BACKSLASH (String c s))
  = parse_quoted_loop args (Some (append_byte sb (unescape c))) (i + 2) s.
Proof.
  intros Hc. cbn [parse_quoted_loop]. rewrite decide_True by done. by rewrite decide_False.
Qed.

Lemma loop_plain args sb i c s :
  c ≠ DQUOTE → c ≠ BACKSLASH →
  parse_quoted_loop args (Some sb) i (String c s)
  = parse_quoted_loop args (Some (append_byte sb c)) (i + 1) s.
Proof. intros H1 H2. cbn [parse_quoted_loop]. by rewrite !decide_False. Qed.

Lemma loop_close args sb i s :
  parse_quoted_loop args (Some sb) i (String DQUOTE s)
  = parse_quoted_loop (args ++ [sb]) None (i + 1) s.
Proof. cbn [parse_quoted_loop]. rewrite decide_False by done. by rewrite decide_True. Qed.

Lemma loop_quoted s d r :
  quoted s d r → ∀ args sb i, ∃ i',
  parse_quoted_loop args (Some sb) i s = parse_quoted_loop (args ++ [sb +:+ d]) None i' r.
Proof.
  induction 1 as [r|c s d r H1 H2 _ IH|c s d r Hc _ IH|h1 h2 v s d r Hh _ IH|s d r Hx _ IH];
    intros args sb i.
  - rewrite loop_close, str_app_nil_r. by eexists.
  - rewrite loop_plain by done. destruct (IH args (append_byte sb c) (i + 1)%Z) as [i' ->].
    rewrite append_byte_app. by eexists.
  - rewrite loop_escape by done. edestruct IH as [i' ->]. rewrite append_byte_app. by eexists.
  - erewrite loop_hex by done. edestruct IH as [i' ->]. rewrite append_byte_app. by eexists.
  - rewrite loop_bare_x by done. edestruct IH as [i' ->]. rewrite append_byte_app. by eexists.
Qed.

Lemma loop_complete s l :
  args_text s l → ∀ args i, parse_quoted_loop args None i s = Ok (args ++ l).
Proof.
  induction 1 as [|c s l Hc _ IH|s d r l Hq _ IH]; intros args i.
  - cbn. by rewrite app_nil_r.
  - cbn [parse_quoted_loop]. by rewrite decide_True.
  - cbn [parse_quoted_loop]. rewrite decide_False by (intros []; done). rewrite decide_True by done.
    destruct (loop_quoted _ _ _ Hq args "" (i + 1)%Z) as [i' ->].
    rewrite IH. by rewrite <- app_assoc.
Qed.

(** What an accepted text denotes, read from a given state of the loop. *)
Definition loop_result (args : list string) (sb : option string) (s : string)
    (l : list string) : Prop :=
  match sb with
  | None => ∃ l', args_text s l' ∧ l = args ++ l'
  | Some sb => ∃ d r l', quoted s d r ∧ args_text r l' ∧ l = args ++ (sb +:+ d) :: l'
  end.

(** The builder is a prefix of the argument being read. *)
Lemma loop_result_byte args sb c (s s' : string) l :
  (∀ d r, quoted s d r → quoted s' (String c d) r) →
  loop_result args (Some (append_byte sb c)) s l → loop_result args (Some sb) s' l.
Proof.
  intros Hq (d & r & l' & Hs & Hr & ->). exists (String c d), r, l'.
  split_and!; [by apply Hq|done|]. by rewrite append_byte_app.
Qed.

Lemma loop_sound s : ∀ args sb i l,
  parse_quoted_loop args sb i s = Ok l → loop_result args sb s l.
Proof.
  remember (len s) as n eqn:Hn. revert s Hn.
  induction (lt_wf n) as [n _ IH]; intros s -> args sb i l H.
  assert (IH' : ∀ s', len s' < len s → ∀ args sb i,
    parse_quoted_loop args sb i s' = Ok l → loop_result args sb s' l)
    by (intros s' Hl ??? E; eapply IH; [exact Hl|done|exact E]).
  clear IH. destruct s as [|c s1]; destruct sb as [sb|]; cbn [parse_quoted_loop] in H; try done.
  - simplify_eq. exists []. split; [constructor|by rewrite app_nil_r].
  - destruct (decide (c = BACKSLASH)) as [->|Hb].
    + destruct s1 as [|next s2]; [by cbn in H|].
      destruct (decide (next = "x"%char)) as [->|Hx].
      * destruct s2 as [|h1 [|h2 s4]]; [by cbn in H|..].
        { apply IH' in H; [|cbn; lia]. eapply loop_result_byte, H.
          intros. apply quoted_bare_x; [done|]. done. }
        destruct (hex_byte h1 h2) as [v|] eqn:Hh.
        { apply IH' in H; [|cbn; lia]. eapply loop_result_byte, H. auto with watcher. }
        apply IH' in H; [|cbn; lia]. eapply loop_result_byte, H.
        intros. apply quoted_bare_x; [|done]. intros. by simplify_eq.
      * apply IH' in H; [|cbn; lia]. eapply loop_result_byte, H. auto with watcher.
    + destruct (decide (c = DQUOTE)) as [->|Hq].
      * apply IH' in H as (l' & Hl & ->); [|cbn; lia].
        exists "", s1, l'. rewrite <- app_assoc, str_app_nil_r. auto with watcher.
      * apply IH' in H; [|cbn; lia]. eapply loop_result_byte, H. auto with watcher.
  - destruct (decide (c = SP ∨ c = TAB)) as [Hc|Hc].
    + apply IH' in H as (l' & Hl & ->); [|cbn; lia]. exists l'. auto with watcher.
    + destruct (decide (c = DQUOTE)) as [->|]; [|done].
      apply IH' in H as (d & r & l' & Hd & Hr & ->); [|cbn; lia].
      exists (d :: l'). split; [by econstructor|done].
Qed.

(** ** Lemmas: the fields of a line *)

(** The digit of weight [10^k] of [u], and a six-digit fraction. *)
Definition digit_char (u : Z) : ascii := pretty_N_char (Z.to_N u).
Definition pad6 (u : Z) : string :=
  String (digit_char ((u / 100000) `mod` 10)) (String (digit_char ((u / 10000) `mod` 10))
  (String (digit_char ((u / 1000) `mod` 10)) (String (digit_char ((u / 100) `mod` 10))
  (String (digit_char ((u / 10) `mod` 10)) (String (digit_char (u `mod` 10)) ""))))).

Lemma digit_val_char x : (0 ≤ x < 10)%Z → digit_val (digit_char x) = Some x.
Proof. intros H. unfold digit_char. rewrite digit_val_pretty by lia. f_equal. lia. Qed.

Lemma parse_digit_char base maxval n x s :
  (0 ≤ x < 10)%Z → (base = 10)%Z → (n * 10 + x ≤ maxval)%Z →
  parse_uint_loop base maxval n (String (digit_char x) s)
  = parse_uint_loop base maxval (n * 10 + x) s.
Proof.
  intros Hx -> Hm. cbn [parse_uint_loop]. rewrite digit_val_char by done.
  rewrite (proj2 (Z.leb_gt _ _)) by lia. by rewrite (proj2 (Z.ltb_ge _ _)) by lia.
Qed.

Lemma parse_int_pad6 u : (0 ≤ u < 1000000)%Z → parse_int (pad6 u) = inl u.
Proof.
  intros Hu. unfold pad6. pose proof (Z.mod_pos_bound (u / 100000) 10 ltac:(lia)).
  rewrite parse_int_digits by (rewrite digit_val_char by done; done).
  unfold parse_uint.
  rewrite !parse_digit_char by
    (first [done | apply Z.mod_pos_bound; lia | Z.to_euclidean_division_equations; lia]).
  cbn [parse_uint_loop].
  replace (((((_ * 10 + _) * 10 + _) * 10 + _) * 10 + _) * 10 + _)%Z with u
    by (Z.to_euclidean_division_equations; lia).
  by rewrite (proj2 (Z.leb_gt _ _)) by lia.
Qed.

Lemma parseTimestamp_micro sec usec :
  (0 ≤ sec ≤ int64_max)%Z → (0 ≤ usec < 1000000)%Z →
  parseTimestamp (Itoa sec +:+ "." +:+ pad6 usec) = Ok (mkTime sec (usec * 1000)).
Proof.
  unfold int64_max. intros Hs Hu. unfold parseTimestamp. cbn [String.append].
  rewrite IndexByte_app by (apply Itoa_no; [lia|done]).
  rewrite str_take_app, str_drop_app_S. unfold ParseInt.
  rewrite parse_int_Itoa by (unfold in_int64, int64_min, int64_max; lia).
  cbn [wrapf mbind result_bind]. rewrite (proj2 (Z.ltb_ge _ _)) by lia.
  rewrite decide_False by done. change (len (pad6 usec)) with 6. cbn [Nat.ltb Nat.leb].
  rewrite parse_int_pad6 by done. cbn [wrapf mbind result_bind].
  change (9 - len (pad6 usec)) with 3. cbn [Nat.iter nat_rect].
  rewrite (int64_id (usec * 10)), (int64_id (usec * 10 * 10)), (int64_id (usec * 10 * 10 * 10))
    by (unfold in_int64, int64_min, int64_max; lia).
  unfold Unix. rewrite (proj2 (Z.ltb_ge _ _)) by lia. rewrite (proj2 (Z.leb_gt _ _)) by lia.
  cbn [orb]. do 2 f_equal. lia.
Qed.

(** Blanks, then a byte that is neither a blank nor a quote. *)
Lemma closes_false p s :
  contains_byte p DQUOTE = false → closes (p +:+ String "]" s) = false.
Proof.
  unfold closes. intros Hp. induction p as [|c p IH]; [done|].
  rewrite contains_byte_cons in Hp. apply orb_false_iff in Hp as [Hc Hp].
  cbn [String.append TrimLeft]. destruct (in_set blanks c); [by apply IH|done].
Qed.

Lemma find_close_app p s i :
  contains_byte p DQUOTE = false → closes s = true →
  find_close i (p +:+ String "]" s) = Some (i + len p).
Proof.
  intros Hp Hs. revert i; induction p as [|c p IH]; intros i; cbn [String.append find_close].
  - rewrite decide_False by (intros []; done). rewrite Hs. f_equal. cbn. lia.
  - rewrite contains_byte_cons in Hp. apply orb_false_iff in Hp as [_ Hp].
    rewrite closes_false by done. rewrite (IH Hp).
    assert (S i + len p = i + len (String c p)) as <- by (cbn; lia). by case_decide.
Qed.

Lemma parseBracket_printed db addr rest :
  (0 ≤ db ≤ int64_max)%Z → contains_byte addr DQUOTE = false → closes rest = true →
  parseBracket ("[" +:+ Itoa db +:+ " " +:+ addr +:+ "]" +:+ rest)
  = Ok (db, mkSource (splitHostPort addr).1 (splitHostPort addr).2, TrimLeft rest blanks).
Proof.
  unfold int64_max. intros Hdb Ha Hr. set (body := Itoa db +:+ " " +:+ addr).
  assert ("[" +:+ Itoa db +:+ " " +:+ addr +:+ "]" +:+ rest
          = String "[" (body +:+ String "]" rest)) as ->
    by (unfold body; cbn [String.append]; by rewrite !str_app_assoc).
  unfold parseBracket.
  rewrite find_close_app; [|unfold body; rewrite contains_byte_app, Itoa_no by (lia || done); done|done].
  cbn [Nat.add str_take str_drop]. rewrite str_take_app, str_drop_app_S, str_drop_0.
  unfold body. cbn [String.append]. rewrite IndexByte_app by (apply Itoa_no; [lia|done]).
  rewrite str_take_app, str_drop_app_S.
  rewrite Atoi_Itoa by (unfold in_int64, int64_min, int64_max; lia).
  cbn [wrapf mbind result_bind]. by destruct (splitHostPort addr).
Qed.

(** ** The MONITOR line format

    [repr] is the quoting of Redis ([sdscatrepr]), which is not part of this
    repository: all that is used is that what it writes between quotes
    denotes the bytes it was given. *)
Section MonitorLine.
Context `{UnicodeCase}.
Variable repr : string → string.
Hypothesis repr_quoted : ∀ a r, quoted (repr a +:+ String DQUOTE r) a r.

Fixpoint print_args (args : list string) : string :=
  match args with
  | [] => ""
  | a :: args' => String SP (String DQUOTE (repr a +:+ String DQUOTE (print_args args')))
  end.

(** [+<sec>.<usec> [<db> <addr>] "arg" "arg" ...\r\n] *)
Definition monitor_line (sec usec db : Z) (addr : string) (args : list string) : string :=
  "+" +:+ (Itoa sec +:+ "." +:+ pad6 usec) +:+ " "
  +:+ ("[" +:+ Itoa db +:+ " " +:+ addr +:+ "]" +:+ print_args args) +:+ CRLF.

Lemma print_args_text args : args_text (print_args args) args.
Proof.
  induction args as [|a args IH]; cbn [print_args]; [constructor|].
  apply args_blank; [by left|]. eapply args_arg; [apply repr_quoted|exact IH].
Qed.

Lemma args_text_blank_inv c s l : c = SP ∨ c = TAB → args_text (String c s) l → args_text s l.
Proof. intros Hc. inversion 1; subst; [done|destruct Hc; done]. Qed.

(** The text left after the closing bracket. *)
Lemma print_args_closes args : args ≠ [] → closes (print_args args) = true.
Proof. by destruct args. Qed.

Lemma print_args_trim a args :
  TrimLeft (print_args (a :: args)) blanks
  = String DQUOTE (repr a +:+ String DQUOTE (print_args args)).
Proof. done. Qed.

(** A line with arguments ends with a quote. *)
Lemma print_args_last args : args ≠ [] → ∃ s, print_args args = s +:+ String DQUOTE "".
Proof.
  induction args as [|a args IH]; [done|]. intros _. cbn [print_args].
  destruct args as [|a' args].
  - exists (String SP (String DQUOTE (repr a))). cbn. by rewrite ?str_app_assoc.
  - destruct IH as [s ->]; [done|].
    exists (String SP (String DQUOTE (repr a +:+ String DQUOTE s))). cbn. by rewrite !str_app_assoc.
Qed.

Lemma trim_line s args :
  args ≠ [] → TrimRight (s +:+ print_args args +:+ CRLF) crlf_cutset = s +:+ print_args args.
Proof.
  intros Ha. destruct (print_args_last args Ha) as [t ->].
  rewrite <- !str_app_assoc. by apply trim_crlf.
Qed.

Lemma monitor_line_parts sec usec db addr args :
  args ≠ [] →
  TrimRight (monitor_line sec usec db addr args) crlf_cutset
  = String "+" ((Itoa sec +:+ "." +:+ pad6 usec)
      +:+ String SP ("[" +:+ Itoa db +:+ " " +:+ addr +:+ "]" +:+ print_args args)).
Proof.
  intros Ha. unfold monitor_line.
  pose proof (trim_line ("+" +:+ (Itoa sec +:+ "." +:+ pad6 usec) +:+ " "
    +:+ "[" +:+ Itoa db +:+ " " +:+ addr +:+ "]") args Ha) as E.
  cbn [String.append] in *. rewrite ?str_app_assoc in *. cbn [String.append] in *.
  rewrite ?str_app_assoc in *. cbn [String.append] in *. rewrite ?str_app_assoc in *. exact E.
Qed.

Lemma timestamp_no_space sec usec :
  (0 ≤ sec)%Z → (0 ≤ usec < 1000000)%Z →
  contains_byte (Itoa sec +:+ "." +:+ pad6 usec) SP = false.
Proof.
  intros Hs Hu. rewrite !contains_byte_app, Itoa_no by (lia || done). cbn [orb].
  assert (Hd : ∀ x, bool_decide (digit_char x = SP) = false).
  { intros x. apply bool_decide_eq_false. unfold digit_char, pretty_N_char. by repeat case_match. }
  unfold pad6. rewrite !contains_byte_cons, !Hd. done.
Qed.

(** C1: round trip of MONITOR lines -- a line written in the format of
    MONITOR (a microsecond timestamp, the database and the peer address in
    brackets, the command and its arguments quoted by Redis) is accepted by
    [Parse], which returns the event it was written from: the exact timestamp,
    database, peer and argument bytes, and the upper-cased command. *)
Theorem Parse_monitor_line (sec usec db : Z) (addr arg0 : string) (args : list string) :
  (0 ≤ sec ≤ int64_max)%Z → (0 ≤ usec < 1000000)%Z → (0 ≤ db ≤ int64_max)%Z →
  contains_byte addr DQUOTE = false →
  Parse (monitor_line sec usec db addr (arg0 :: args))
  = Ok (mkEvent (mkTime sec (usec * 1000)) db
          (mkSource (splitHostPort addr).1 (splitHostPort addr).2)
          (ToUpper arg0) (subcommand_of (ToUpper arg0) args) args).
Proof.
  intros Hs Hu Hdb Ha. unfold Parse. rewrite monitor_line_parts by done.
  rewrite decide_True by done.
  rewrite IndexByte_app by (apply timestamp_no_space; lia).
  destruct (len (Itoa sec +:+ "." +:+ pad6 usec)) as [|n] eqn:Hlen.
  { rewrite !str_length_app in Hlen. cbn in Hlen. lia. }
  rewrite <- Hlen, str_take_app, str_drop_app_S.
  rewrite parseTimestamp_micro by done. cbn [mbind result_bind].
  rewrite parseBracket_printed by (done || by apply print_args_closes).
  cbn [mbind result_bind]. rewrite print_args_trim. unfold parseQuotedArgs.
  rewrite (loop_complete _ (arg0 :: args)); [done|].
  apply (args_text_blank_inv SP); [by left|]. apply (print_args_text (arg0 :: args)).
Qed.
End MonitorLine.

(** The quoting of Redis, as its documentation describes it, used only to
    instantiate the theorem above. *)
Definition hex_digit (n : Z) : ascii :=
  ascii_of_N (Z.to_N (if (n <? 10)%Z then 48 + n else 87 + n)).
Fixpoint example_repr (a : string) : string :=
  match a with
  | EmptyString => ""
  | String c a' =>
      (if decide (c = BACKSLASH ∨ c = DQUOTE) then String BACKSLASH (String c "")
       else if decide (c = LF) then "\n" else if decide (c = CR) then "\r"
       else if decide (c = TAB) then "\t"
       else if ((32 <=? byte_val c) && (byte_val c <? 127))%Z then String c ""
       else String BACKSLASH (String "x" (String (hex_digit (byte_val c / 16))
              (String (hex_digit (byte_val c `mod` 16)) "")))) +:+ example_repr a'
  end.

Lemma hex_digit_byte c :
  hex_byte (hex_digit (byte_val c / 16)) (hex_digit (byte_val c `mod` 16)) = Some c.
Proof. destruct c as [[] [] [] [] [] [] [] []]; vm_compute; reflexivity. Qed.

Lemma example_repr_quoted a r : quoted (example_repr a +:+ String DQUOTE r) a r.
Proof.
  induction a as [|c a IH]; cbn [example_repr]; [constructor|].
  assert (Hx : ∀ d, d ≠ "x"%char → unescape d = c →
    quoted (String BACKSLASH (String d (example_repr a +:+ String DQUOTE r))) (String c a) r).
  { intros d Hd <-. by constructor. }
  rewrite str_app_assoc. repeat case_decide; subst; cbn [String.append].
  - destruct H as [-> | ->]; by apply Hx.
  - by apply Hx.
  - by apply Hx.
  - by apply Hx.
  - destruct ((32 <=? byte_val c) && (byte_val c <? 127))%Z; cbn [String.append].
    + constructor; [naive_solver..|exact IH].
    + constructor; [apply hex_digit_byte|exact IH].
Qed.

Lemma Parse_monitor_line_witness :
  @Parse example_case (monitor_line example_repr 1583789992 940458 0 "[::1]:54302" ["set"; CRLF])
  = Ok (mkEvent (mkTime 1583789992 940458000) 0 (mkSource "::1" "54302") "SET" "" [CRLF]).
Proof.
  rewrite (@Parse_monitor_line example_case example_repr example_repr_quoted);
    [vm_compute; reflexivity|split; vm_compute; discriminate|split; [vm_compute; discriminate|
     vm_compute; reflexivity]|split; vm_compute; discriminate|vm_compute; reflexivity].
Defined.

(** C17: the argument parser accepts exactly the texts of the grammar
    [args_text] and returns the arguments they denote: double-quoted words
    separated by blanks, with the escapes of the C notation
    (newline, return, tab, bell, backspace, quote, backslash, \xHH), a lone \x
    or an unknown escape standing for the letter itself. *)
Theorem parseQuotedArgs_spec (s : string) (l : list string) :
  parseQuotedArgs s = Ok l ↔ args_text s l.
Proof.
  split; intros H.
  - by apply loop_sound in H as (l' & Hl & ->).
  - by apply (loop_complete _ _ H).
Qed.

(** ** The peer address *)

Lemma splitHostPort_plain a : HasPrefix a "[" = false → splitHostPort a = split_last_colon a.
Proof.
  destruct a as [|c a]; [done|]. rewrite HasPrefix_cons. cbn [splitHostPort].
  destruct c as [[] [] [] [] [] [] [] []]; try done. by destruct a.
Qed.

(** The peer address is split as Redis prints it: a bracketed IPv6
    address loses its brackets, an address of any other form is cut at its
    last colon, and one without a colon has no port. *)
Theorem splitHostPort_forms (ip port : string) :
  contains_byte ip "]" = false →
  contains_byte port ":" = false →
  HasPrefix ip "[" = false → HasPrefix port "[" = false →
  splitHostPort ("[" +:+ ip +:+ "]:" +:+ port) = (ip, port) ∧
  splitHostPort (ip +:+ ":" +:+ port) = (ip, port) ∧
  splitHostPort port = (port, "").
Proof.
  intros Hip Hport Hpre Hp. split_and!.
  - cbn [String.append splitHostPort]. cbn [IndexByte]. rewrite decide_False by done.
    rewrite IndexByte_app by done. cbn [fmap option_fmap option_map str_take str_drop].
    by rewrite str_take_app, str_drop_0, str_drop_app_S.
  - assert (Hpre' : HasPrefix (ip +:+ ":" +:+ port) "[" = false).
    { destruct ip as [|c ip]; [done|]. cbn [String.append].
      rewrite HasPrefix_cons, HasPrefix_nil in *. done. }
    rewrite splitHostPort_plain by done.
    unfold split_last_colon. cbn [String.append].
    rewrite LastIndexByte_app by done. by rewrite str_take_app, str_drop_app_S.
  - rewrite splitHostPort_plain by done. unfold split_last_colon. by rewrite LastIndexByte_None.
Qed.

Lemma splitHostPort_forms_witness :
  splitHostPort "[::1]:54302" = ("::1", "54302") ∧
  splitHostPort "::1:54302" = ("::1", "54302") ∧ splitHostPort "54302" = ("54302", "").
Proof. apply (splitHostPort_forms "::1" "54302"); reflexivity. Defined.

(** The sign accepted in the fraction: a negative instant passes the guard
    against negative timestamps. *)
Example parseTimestamp_negative_fraction :
  parseTimestamp "0.-5" = Ok (mkTime (-1) 950000000).
Proof. reflexivity. Qed.
