(* ===== verification/Grammar.v ===== *)
(** * The lines [Parse] accepts ([internal/monitor/parser.go])

    A grammar of MONITOR lines, as a relation between texts and the events they
    denote, independent of the parser: no index, no look-ahead, the bytes that
    delimit the fields and what each field denotes.  [Parse] accepts exactly
    its words. *)

From S2P Require Export Parser.

(** ** The grammar *)

(** An instant, in nanoseconds since the epoch. *)
Definition instant (t : time) : Z := t_sec t * 1000000000 + t_nsec t.

(** A fraction of a second denotes nanoseconds: its first nine bytes are a
    decimal number, scaled to nine digits. *)
Inductive fraction_text : string → Z → Prop :=
| fraction_none : fraction_text "" 0
| fraction_some c s v :
    let digits := str_take 9 (String c s) in
    ParseInt digits = Ok v → fraction_text (String c s) (v * 10 ^ Z.of_nat (9 - len digits)).

(** [sec] or [sec.frac]: a number of seconds that is not negative, and a
    fraction. *)
Inductive stamp_text : string → time → Prop :=
| stamp_whole s sec :
    ParseInt s = Ok sec → (0 ≤ sec)%Z → contains_byte s "." = false → stamp_text s (mkTime sec 0)
| stamp_frac s f sec nanos t :
    ParseInt s = Ok sec → (0 ≤ sec)%Z → contains_byte s "." = false → fraction_text f nanos →
    instant t = (sec * 1000000000 + nanos)%Z → (0 ≤ t_nsec t < 1000000000)%Z →
    stamp_text (s +:+ "." +:+ f) t.

(** [stamp \[db addr\] "arg" ...]: the bracket closed is the first one that only
    blanks separate from a quote or the end of the line. *)
Inductive line_text `{UnicodeCase} : string → Event → Prop :=
| line_intro stamp t dbtxt db addr tail cmd args :
    stamp_text stamp t → contains_byte stamp SP = false →
    Atoi dbtxt = Ok db → contains_byte dbtxt SP = false →
    (∀ a b, dbtxt +:+ " " +:+ addr = a +:+ "]" +:+ b → closes (b +:+ "]" +:+ tail) = false) →
    args_text tail (cmd :: args) →
    line_text (stamp +:+ " [" +:+ dbtxt +:+ " " +:+ addr +:+ "]" +:+ tail)
      (mkEvent t db (mkSource (splitHostPort addr).1 (splitHostPort addr).2) (ToUpper cmd)
         (match args with
          | sub :: _ => if decide (ToUpper cmd ∈ commandsWithSubcommand) then ToUpper sub else ""
          | [] => ""
          end) args).

(** ** Lemmas: the timestamp *)

Lemma wrapf_Ok {A} fmt args (m : result A) a : wrapf fmt args m = Ok a ↔ m = Ok a.
Proof. by destruct m. Qed.

Lemma parse_uint_loop_size maxval s : ∀ n v,
  (0 ≤ n)%Z → parse_uint_loop 10 maxval n s = inl v → (0 ≤ v < (n + 1) * 10 ^ Z.of_nat (len s))%Z.
Proof.
  induction s as [|c s IH]; intros n v Hn; cbn [parse_uint_loop].
  - intros [= ->]. cbn. lia.
  - destruct (digit_val c) as [d|] eqn:Hd; [|done].
    assert (0 ≤ d)%Z by (unfold digit_val in Hd; repeat break_match; simplify_eq; lia).
    destruct (10 <=? d)%Z eqn:H10; [done|]. apply Z.leb_gt in H10.
    destruct (maxval <? n * 10 + d)%Z; [done|]. intros Hv%IH; [|lia].
    change (len (String c s)) with (S (len s)). rewrite Nat2Z.inj_succ, Z.pow_succ_r by lia.
    pose proof (Z.pow_pos_nonneg 10 (Z.of_nat (len s)) ltac:(lia) ltac:(lia)). nia.
Qed.

Lemma parse_uint_size s v : parse_uint 10 64 s = inl v → (0 ≤ v < 10 ^ Z.of_nat (len s))%Z.
Proof.
  intros H. assert (Hl : parse_uint_loop 10 (2 ^ 64 - 1) 0 s = inl v) by (destruct s; [done|exact H]).
  apply parse_uint_loop_size in Hl; lia.
Qed.

(** A number has fewer digits than bytes. *)
Lemma ParseInt_size s v : ParseInt s = Ok v → (- 10 ^ Z.of_nat (len s) < v < 10 ^ Z.of_nat (len s))%Z.
Proof.
  unfold ParseInt, parse_int. intros H.
  set (p := match s with String "+" s' => (false, s') | String "-" s' => (true, s') | _ => (false, s) end) in H.
  assert (Hp : len p.2 ≤ len s).
  { unfold p. destruct s as [|c s]; [done|]. destruct c as [[] [] [] [] [] [] [] []]; cbn; lia. }
  destruct p as [neg digits]. cbn [snd] in Hp.
  destruct (parse_uint 10 64 digits) as [un|] eqn:E; [|done]. apply parse_uint_size in E.
  assert (10 ^ Z.of_nat (len digits) ≤ 10 ^ Z.of_nat (len s))%Z by (apply Z.pow_le_mono_r; lia).
  destruct neg; cbn [negb andb] in H; repeat case_match; simplify_eq; lia.
Qed.

Lemma ParseInt_range s v : ParseInt s = Ok v → in_int64 v.
Proof. unfold ParseInt. destruct (parse_int s) eqn:E; [|done]. intros [= <-]. by eapply parse_int_range. Qed.

(** Padding to nine digits does not overflow. *)
Lemma pad_nanos v n k :
  (- 10 ^ Z.of_nat n < v < 10 ^ Z.of_nat n)%Z → n + k ≤ 9 →
  Nat.iter k (λ f, int64 (f * 10)) v = (v * 10 ^ Z.of_nat k)%Z ∧
  (- 10 ^ Z.of_nat (n + k) < v * 10 ^ Z.of_nat k < 10 ^ Z.of_nat (n + k))%Z.
Proof.
  intros Hv. induction k as [|k IH]; intros Hk.
  - rewrite Nat.add_0_r. cbn. lia.
  - destruct IH as [IH Hb]; [lia|]. rewrite Nat.iter_succ, IH.
    assert (10 ^ Z.of_nat (n + k) ≤ 10 ^ 8)%Z by (apply Z.pow_le_mono_r; lia).
    rewrite int64_id by (unfold in_int64, int64_min, int64_max; lia).
    rewrite <- plus_n_Sm, !Nat2Z.inj_succ, !Z.pow_succ_r by lia. lia.
Qed.

Lemma Unix_instant sec nsec :
  (0 ≤ sec ≤ int64_max)%Z → (- 1000000000 < nsec < 1000000000)%Z →
  instant (Unix sec nsec) = (sec * 1000000000 + nsec)%Z ∧ (0 ≤ t_nsec (Unix sec nsec) < 1000000000)%Z.
Proof.
  unfold int64_max. intros Hs Hn. unfold Unix, instant. destruct (Z.ltb_spec nsec 0); cbn [orb].
  - assert (nsec ÷ 1000000000 = 0)%Z as -> by (apply Z.quot_small_iff; lia).
    rewrite Z.mul_0_l, Z.sub_0_r, Z.add_0_r, (proj2 (Z.ltb_lt nsec 0)) by lia.
    rewrite (int64_id sec), int64_id by (unfold in_int64, int64_min, int64_max; lia). cbn [t_sec t_nsec]. lia.
  - rewrite (proj2 (Z.leb_gt _ _)) by lia. cbn [t_sec t_nsec]. lia.
Qed.

Lemma instant_inj t t' :
  instant t = instant t' → (0 ≤ t_nsec t < 1000000000)%Z → (0 ≤ t_nsec t' < 1000000000)%Z → t = t'.
Proof. destruct t as [s n], t' as [s' n']. unfold instant. cbn. intros. f_equal; lia. Qed.

(** The fraction, as the parser computes it. *)
Definition fraction_nanos (f : string) : result Z :=
  if decide (f = "") then Ok 0%Z
  else v ← ParseInt (str_take 9 f); Ok (Nat.iter (9 - len (str_take 9 f)) (λ f, int64 (f * 10)) v).

Lemma str_take_len n s : len (str_take n s) = Nat.min n (len s).
Proof. revert s; induction n as [|n IH]; intros [|c s]; cbn; [done..|]. by rewrite IH. Qed.

Lemma fraction_nanos_spec f nanos :
  fraction_nanos f = Ok nanos ↔ fraction_text f nanos.
Proof.
  unfold fraction_nanos. destruct f as [|c f].
  - rewrite decide_True by done. split; [intros [= <-]; constructor|by inversion 1].
  - rewrite decide_False by done.
    assert (Hpad : ∀ v, ParseInt (str_take 9 (String c f)) = Ok v →
      Nat.iter (9 - len (str_take 9 (String c f))) (λ f, int64 (f * 10)) v
      = (v * 10 ^ Z.of_nat (9 - len (str_take 9 (String c f))))%Z).
    { intros v Hv. apply (pad_nanos v (len (str_take 9 (String c f)))); [by apply ParseInt_size|].
      pose proof (str_take_len 9 (String c f)). lia. }
    split.
    + destruct (ParseInt _) as [v| |] eqn:E; [|done..]. cbn [mbind result_bind]. intros [= <-].
      rewrite Hpad by done. by constructor.
    + inversion 1 as [|c' s' v digits Hv]; subst. unfold digits in *. rewrite Hv. cbn [mbind result_bind]. by rewrite Hpad.
Qed.

Lemma fraction_bound f nanos : fraction_text f nanos → (- 1000000000 < nanos < 1000000000)%Z.
Proof.
  destruct 1 as [|c s v digits Hv]; [lia|]. pose proof (str_take_len 9 (String c s)) as Hl. fold digits in Hl.
  apply ParseInt_size in Hv. destruct (pad_nanos v (len digits) (9 - len digits) Hv) as [_ Hb]; [lia|].
  assert (10 ^ Z.of_nat (len digits + (9 - len digits)) = 1000000000)%Z as E by (replace (_ + _) with 9 by lia; done).
  lia.
Qed.

(** parseTimestamp on the two halves. *)
Lemma parseTimestamp_halves (s f : string) (dot : bool) :
  contains_byte s "." = false → (dot = false → f = "") →
  ∀ t, parseTimestamp (if dot then s +:+ "." +:+ f else s) = Ok t ↔
    ∃ sec nanos, ParseInt s = Ok sec ∧ (0 ≤ sec)%Z ∧ fraction_nanos f = Ok nanos ∧ t = Unix sec nanos.
Proof.
  intros Hs Hf t. unfold parseTimestamp.
  assert (match IndexByte (if dot then s +:+ "." +:+ f else s) "." with
          | None => (if dot then s +:+ "." +:+ f else s, "")
          | Some i => (str_take i (if dot then s +:+ "." +:+ f else s), str_drop (S i) (if dot then s +:+ "." +:+ f else s))
          end = (s, f)) as ->.
  { destruct dot; [|by rewrite IndexByte_None, Hf]. cbn [String.append].
    by rewrite IndexByte_app, str_take_app, str_drop_app_S. }
  destruct (ParseInt s) as [sec| |]; cbn [wrapf mbind result_bind]; [|naive_solver..].
  destruct (Z.ltb_spec sec 0); [split; [done|naive_solver lia]|]. unfold fraction_nanos.
  destruct (decide (f = "")) as [->|Hne]; [naive_solver|].
  assert ((if 9 <? len f then str_take 9 f else f) = str_take 9 f) as ->.
  { destruct (Nat.ltb_spec 9 (len f)); [done|]. by rewrite str_take_all. }
  destruct (ParseInt (str_take 9 f)) as [v| |]; cbn [wrapf mbind result_bind]; naive_solver.
Qed.

Lemma parseTimestamp_spec s t : parseTimestamp s = Ok t ↔ stamp_text s t.
Proof.
  split.
  - intros H. assert (Hsplit : ∃ a f dot, contains_byte a "." = false ∧ (dot = false → f = "") ∧
      s = if dot : bool then a +:+ "." +:+ f else a).
    { destruct (IndexByte s ".") as [i|] eqn:E.
      - apply IndexByte_Some in E as (E & Hi & _). by exists (str_take i s), (str_drop (S i) s), true.
      - exists s, "", false. split_and!; [|done..]. by apply IndexByte_None_inv. }
    destruct Hsplit as (a & f & dot & Ha & Hf & ->).
    apply (parseTimestamp_halves a f dot Ha Hf) in H as (sec & nanos & Hsec & H0 & Hn & ->).
    apply fraction_nanos_spec in Hn. pose proof (fraction_bound _ _ Hn) as Hb. pose proof (ParseInt_range _ _ Hsec) as [_ Hr].
    destruct (Unix_instant sec nanos) as [Hi Hw]; [lia|lia|]. destruct dot; [by eapply stamp_frac|].
    rewrite Hf in Hn by done. inversion Hn; subst. by apply stamp_whole.
  - inversion 1 as [s' sec Hsec H0 Hs|a f sec nanos t' Hsec H0 Ha Hf Hi Hw]; subst.
    + apply (parseTimestamp_halves s "" false Hs); [done|]. by exists sec, 0%Z.
    + pose proof (fraction_bound _ _ Hf) as Hb. pose proof (ParseInt_range _ _ Hsec) as [_ Hr].
      apply (parseTimestamp_halves a f true Ha); [done|]. exists sec, nanos. split_and!; [done..| |].
      * by apply fraction_nanos_spec.
      * destruct (Unix_instant sec nanos) as [Hi' Hw']; [lia|lia|]. apply instant_inj; [congruence|done..].
Qed.

(** ** Lemmas: the bracket *)

Lemma find_close_spec s : ∀ i j,
  find_close i s = Some j ↔
    ∃ a b, s = a +:+ "]" +:+ b ∧ j = i + len a ∧ closes b = true ∧
      ∀ x y, a = x +:+ "]" +:+ y → closes (y +:+ "]" +:+ b) = false.
Proof.
  induction s as [|c s IH]; intros i j; cbn [find_close].
  - split; [done|]. by intros ([|] & b & ? & _).
  - assert (Hrec : c ≠ "]"%char ∨ closes s = false → find_close (S i) s = Some j ↔
      ∃ a b, String c s = a +:+ "]" +:+ b ∧ j = i + len a ∧ closes b = true ∧
        ∀ x y, a = x +:+ "]" +:+ y → closes (y +:+ "]" +:+ b) = false).
    { intros Hc. rewrite IH. split.
      - intros (a & b & -> & -> & Hb & Ha). exists (String c a), b. split_and!; [done|cbn; lia|done|].
        intros [|x' x] y E; cbn in E; injection E as E1 E2; [subst|by eapply Ha]. destruct Hc as [|Hc]; [done|]. by subst.
      - intros ([|c' a] & b & E & -> & Hb & Ha); cbn in E; injection E as -> E.
        + subst. destruct Hc as [|Hc]; [done|congruence].
        + exists a, b. split_and!; [done|cbn; lia|done|]. intros x y ->. by apply (Ha (String c' x)). }
    case_decide as Hc; [apply Hrec; by left|subst c].
    destruct (closes s) eqn:Hcl; [|apply Hrec; by right]. split.
    + intros [= <-]. exists "", s. split_and!; [done|cbn; lia|done|]. by intros [|] y.
    + intros ([|c' a] & b & E & -> & Hb & Ha); cbn in E.
      * f_equal. cbn. lia.
      * injection E as E1 E2. subst. specialize (Ha "" a eq_refl). cbn in Ha. congruence.
Qed.

Lemma parseBracket_spec rest db src r :
  parseBracket rest = Ok (db, src, r) ↔
    ∃ dbtxt addr tail, rest = "[" +:+ dbtxt +:+ " " +:+ addr +:+ "]" +:+ tail ∧
      Atoi dbtxt = Ok db ∧ contains_byte dbtxt SP = false ∧ closes tail = true ∧
      (∀ a b, dbtxt +:+ " " +:+ addr = a +:+ "]" +:+ b → closes (b +:+ "]" +:+ tail) = false) ∧
      src = mkSource (splitHostPort addr).1 (splitHostPort addr).2 ∧ r = TrimLeft tail blanks.
Proof.
  assert (Hbody : ∀ body tail, closes tail = true →
    (∀ a b, body = a +:+ "]" +:+ b → closes (b +:+ "]" +:+ tail) = false) →
    parseBracket (String "[" (body +:+ "]" +:+ tail)) =
      match IndexByte body SP with
      | None => Err (Errorf "missing space in bracket segment %q" [body])
      | Some sp =>
          db ← wrapf "invalid db %q" [str_take sp body] (Atoi (str_take sp body));
          let '(ip, port) := splitHostPort (str_drop (S sp) body) in
          Ok (db, mkSource ip port, TrimLeft tail blanks)
      end).
  { intros body tail Ht Hb. unfold parseBracket.
    assert (find_close 1 (body +:+ "]" +:+ tail) = Some (S (len body))) as ->
      by (apply find_close_spec; by exists body, tail).
    cbn [String.append str_take str_drop]. by rewrite str_take_app, str_drop_app_S, str_drop_0. }
  split.
  - intros H. destruct rest as [|c rest]; [done|].
    destruct (decide (c = "["%char)) as [->|Hc]; [|by destruct c as [[] [] [] [] [] [] [] []]].
    destruct (find_close 1 rest) as [j|] eqn:Ej; [|unfold parseBracket in H; by rewrite Ej in H].
    apply find_close_spec in Ej as (body & tail & -> & -> & Ht & Hb). rewrite Hbody in H by done.
    destruct (IndexByte body SP) as [sp|] eqn:Es; [|done].
    assert (∃ dbtxt addr, body = dbtxt +:+ " " +:+ addr ∧ contains_byte dbtxt SP = false ∧ sp = len dbtxt)
      as (dbtxt & addr & -> & Hno & ->).
    { apply IndexByte_Some in Es as (E & Hno & Hlt). exists (str_take sp body), (str_drop (S sp) body).
      split_and!; [exact E|done|]. rewrite str_take_length by lia. done. }
    cbn [String.append] in H. rewrite str_take_app, str_drop_app_S in H.
    destruct (Atoi dbtxt) as [d| |] eqn:Ed; [|done..]. cbn [wrapf mbind result_bind] in H.
    exists dbtxt, addr, tail. destruct (splitHostPort addr) as [ip port]. injection H as <- <- <-.
    split_and!; try done. cbn [String.append]. by rewrite str_app_assoc.
  - intros (dbtxt & addr & tail & -> & Hdb & Hno & Ht & Hb & -> & ->). cbn [String.append].
    pose proof (Hbody (dbtxt +:+ " " +:+ addr) tail Ht Hb) as E. rewrite !str_app_assoc in E. cbn [String.append] in E.
    rewrite E. rewrite IndexByte_app by done. rewrite str_take_app, str_drop_app_S, Hdb. cbn [wrapf mbind result_bind].
    by destruct (splitHostPort addr).
Qed.

(** Blanks before the arguments mean nothing. *)
Lemma args_text_TrimLeft tail l : args_text (TrimLeft tail blanks) l ↔ args_text tail l.
Proof.
  induction tail as [|c tail IH]; [done|]. cbn [TrimLeft]. destruct (in_set blanks c) eqn:Hc; [|done].
  assert (Hb : c = SP ∨ c = TAB).
  { unfold in_set, blanks in Hc. apply bool_decide_eq_true in Hc. set_solver. }
  rewrite IH. split; [by apply args_blank|by apply args_text_blank_inv].
Qed.
Lemma args_text_closes tail a l : args_text tail (a :: l) → closes tail = true.
Proof.
  rewrite <- args_text_TrimLeft. unfold closes.
  assert (Hh : ∀ s, match TrimLeft s blanks with EmptyString => True | String c _ => c ≠ SP ∧ c ≠ TAB end).
  { intros s. induction s as [|c s IH]; [done|]. cbn [TrimLeft]. destruct (in_set blanks c) eqn:Hc; [done|].
    unfold in_set, blanks in Hc. apply bool_decide_eq_false in Hc. set_solver. }
  specialize (Hh tail). destruct (TrimLeft tail blanks) as [|c s]; [by inversion 1|].
  inversion 1; subst; [naive_solver|]. by apply bool_decide_eq_true.
Qed.

(** ** Lemmas: the line *)

(** Parse after the marker. *)
Definition parse_body `{UnicodeCase} (body : string) : result Event :=
  match IndexByte body SP with
  | None | Some O => Err (Errorf "" [])
  | Some spaceIdx =>
      ts ← parseTimestamp (str_take spaceIdx body);
      '(db, src, rest) ← parseBracket (str_drop (S spaceIdx) body);
      args ← parseQuotedArgs rest;
      match args with
      | [] => Err (Errorf "" [])
      | arg0 :: args => Ok (mkEvent ts db src (ToUpper arg0) (subcommand_of (ToUpper arg0) args) args)
      end
  end.

Lemma parse_body_stamp `{UnicodeCase} stamp rest :
  contains_byte stamp SP = false → stamp ≠ "" →
  parse_body (stamp +:+ String SP rest) =
    (ts ← parseTimestamp stamp;
     '(db, src, rest) ← parseBracket rest;
     args ← parseQuotedArgs rest;
     match args with
     | [] => Err (Errorf "" [])
     | arg0 :: args => Ok (mkEvent ts db src (ToUpper arg0) (subcommand_of (ToUpper arg0) args) args)
     end).
Proof.
  intros Hs Hne. unfold parse_body. rewrite IndexByte_app by done.
  destruct (len stamp) as [|n] eqn:El; [by destruct stamp|]. by rewrite <- El, str_take_app, str_drop_app_S.
Qed.

Lemma stamp_text_nonempty s t : stamp_text s t → s ≠ "".
Proof. intros [s' sec Hs _ _|a f sec nanos t' Hs _ _ _ _ _]; [by destruct s'|by destruct a]. Qed.

Lemma parse_body_spec `{UnicodeCase} body ev : parse_body body = Ok ev ↔ line_text body ev.
Proof.
  split.
  - intros Hp. destruct (IndexByte body SP) as [i|] eqn:Ei; [|by unfold parse_body in Hp; rewrite Ei in Hp].
    assert (stamp_ne : str_take i body ≠ "").
    { intros E. pose proof Ei as Ei0. apply IndexByte_Some in Ei as (_ & _ & Hl). apply (f_equal len) in E. rewrite str_take_length in E by lia.
      cbn in E. subst i. unfold parse_body in Hp. rewrite Ei0 in Hp. discriminate Hp. }
    apply IndexByte_Some in Ei as (E & Hno & _). rewrite E in Hp. rewrite E.
    revert stamp_ne Hno Hp. generalize (str_take i body) (str_drop (S i) body). clear E i body.
    intros stamp rest Hne Hno. rewrite parse_body_stamp by done.
    destruct (parseTimestamp stamp) as [t| |] eqn:Et; [|done..]. cbn [mbind result_bind].
    destruct (parseBracket rest) as [[[db src] r]| |] eqn:Eb; [|done..]. cbn [mbind result_bind].
    destruct (parseQuotedArgs r) as [[|cmd args]| |] eqn:Ea; [done| |done..]. cbn [mbind result_bind]. intros [= <-].
    apply parseTimestamp_spec in Et. apply parseBracket_spec in Eb as (dbtxt & addr & tail & -> & Hdb & Hsp & _ & Hb & -> & ->).
    apply loop_sound in Ea as (l & Hl & Ec). cbn in Ec. subst l. rewrite args_text_TrimLeft in Hl.
    exact (line_intro stamp t dbtxt db addr tail cmd args Et Hno Hdb Hsp Hb Hl).
  - destruct 1 as [stamp t dbtxt db addr tail cmd args Ht Hno Hdb Hsp Hb Hargs].
    change (" [" +:+ dbtxt +:+ " " +:+ addr +:+ "]" +:+ tail)
      with (String SP ("[" +:+ dbtxt +:+ " " +:+ addr +:+ "]" +:+ tail)).
    rewrite parse_body_stamp by (done || by eapply stamp_text_nonempty).
    rewrite (proj2 (parseTimestamp_spec _ _) Ht). cbn [mbind result_bind].
    rewrite (proj2 (parseBracket_spec _ db (mkSource (splitHostPort addr).1 (splitHostPort addr).2) (TrimLeft tail blanks)))
      by (exists dbtxt, addr, tail; split_and!; try done; by eapply args_text_closes).
    cbn [mbind result_bind]. unfold parseQuotedArgs. rewrite (loop_complete _ (cmd :: args)) by (by apply args_text_TrimLeft).
    done.
Qed.

(** ** Properties *)

(** C37: [Parse] accepts exactly the MONITOR lines, and returns what they denote
    -- whatever the bytes of the line, once its line ending and one optional
    marker are taken off: a timestamp whose seconds are not negative and whose
    fraction counts to the nanosecond, the database, the peer address up to the
    bracket that closes the segment, and the quoted arguments, at least one; the
    command is the first argument in upper case, and the subcommand the second,
    for the commands that route by it. *)
Theorem Parse_accepts_iff `{UnicodeCase} (line : string) (ev : Event) :
  Parse line = Ok ev ↔
  ∃ body, line_text body ev ∧
    (TrimRight line crlf_cutset = "+" +:+ body ∨
     TrimRight line crlf_cutset = body ∧ HasPrefix body "+" = false).
Proof.
  assert (Hbody : Parse line = Ok ev ↔
    match TrimRight line crlf_cutset with
    | EmptyString => False
    | String c l => parse_body (if decide (c = "+"%char) then l else String c l) = Ok ev
    end).
  { unfold Parse. destruct (TrimRight line crlf_cutset) as [|c l]; [done|]. unfold parse_body.
    set (body := if decide (c = "+"%char) then l else String c l). clearbody body.
    destruct (IndexByte body SP) as [[|i]|]; [done| |done].
    destruct (parseTimestamp _) as [t| |]; [|done..]. cbn [mbind result_bind].
    destruct (parseBracket _) as [[[db src] r]| |]; [|done..]. cbn [mbind result_bind].
    by destruct (parseQuotedArgs r) as [[|cmd args]| |]. }
  rewrite Hbody. destruct (TrimRight line crlf_cutset) as [|c l].
  - split; [done|]. intros (body & Hl & [E|[<- _]]); [done|]. inversion Hl. by destruct stamp.
  - rewrite parse_body_spec. case_decide as Hc.
    + subst c. split; [intros Hl; exists l; split; [done|by left]|].
      intros (body & Hl & [[= ->]|[<- Hp]]); [done|]. by rewrite HasPrefix_cons, HasPrefix_nil in Hp.
    + split.
      * intros Hl. exists (String c l). split; [done|]. right. split; [done|].
        rewrite HasPrefix_cons, bool_decide_false by congruence. done.
      * intros (body & Hl & [[= -> _]|[-> _]]); [done|exact Hl].
Qed.

(** What the grammar leaves open: a sign in the fraction makes an instant
    before the epoch, and a sign there takes the place of a digit. *)
Lemma negative_fraction_denotes : stamp_text "0.-5" (mkTime (-1) 950000000).
Proof. by apply parseTimestamp_spec. Qed.
