(* ===== verification/RateLimit.v ===== *)
(** * The alert rate limiter ([rateLimitAllow] of [internal/alert/alert.go])

    One bucket per (command, source address) pair, opened by the first alert
    and reopened by the first alert more than a window after it.  Besides the
    behaviour of each call, the guarantee over time is stated: in any interval
    of the length of the window, fewer than twice the configured number of
    alerts pass, and this bound is reached. *)

From S2P Require Export Event.

(** type bucket struct *)
Record bucket : Type := mkBucket { windowStart : Z; count : Z }.

(** The rate limiting fields of the engine. *)
Record rate_config : Type := mkRateConfig {
  rateLimit : bool;
  rateWindow : duration;
  rateMaxAlerts : Z
}.

(** [now.Sub(start)] saturates at the bounds of a duration. *)
Definition time_sub (now start : Z) : duration :=
  Z.max int64_min (Z.min (now - start) int64_max).

Definition rate_key (ev : Event) : string := Command ev +:+ "|" +:+ IP (EvSource ev).

(** func (e *Engine) rateLimitAllow(ev *event.Event) bool -- [now] is the
    value of time.Now(), [rates] the map of the engine. *)
Definition rateLimitAllow (cfg : rate_config) (now : Z) (ev : Event)
    (rates : gmap string bucket) : bool * gmap string bucket :=
  if (negb (rateLimit cfg) || (rateMaxAlerts cfg <=? 0) || (rateWindow cfg <=? 0))%Z then (true, rates)
  else
    let key := rate_key ev in
    match rates !! key with
    | None => (true, <[key := mkBucket now 1]> rates)
    | Some b =>
        if (rateWindow cfg <? time_sub now (windowStart b))%Z
        then (true, <[key := mkBucket now 1]> rates)
        else if (rateMaxAlerts cfg <=? count b)%Z then (false, rates)
        else (true, <[key := mkBucket (windowStart b) (count b + 1)]> rates)
    end.

(** The times at which a sequence of requests is let through for [key]. *)
Fixpoint allowed_times (cfg : rate_config) (key : string) (reqs : list (Z * Event))
    (rates : gmap string bucket) : list Z :=
  match reqs with
  | [] => []
  | (now, ev) :: reqs' =>
      let '(ok, rates') := rateLimitAllow cfg now ev rates in
      (if ok && bool_decide (rate_key ev = key) then [now] else [])
        ++ allowed_times cfg key reqs' rates'
  end.

(** The clock: request times that never decrease, within an int64. *)
Fixpoint clocked (from : Z) (reqs : list (Z * Event)) : Prop :=
  match reqs with
  | [] => True
  | (now, _) :: reqs' => (from ≤ now ≤ int64_max)%Z ∧ clocked now reqs'
  end.

(** How many of [ts] fall in [[x, x + w]]. *)
Definition within (x w : Z) (ts : list Z) : nat :=
  length (filter (λ t, x ≤ t ≤ x + w)%Z ts).

(** ** Lemmas *)

Lemma within_app x w l1 l2 : within x w (l1 ++ l2) = within x w l1 + within x w l2.
Proof. unfold within. by rewrite filter_app, length_app. Qed.

Lemma within_cons x w t l : within x w (t :: l) = within x w [t] + within x w l.
Proof. apply (within_app x w [t] l). Qed.

Lemma within_in x w t : (x ≤ t ≤ x + w)%Z → within x w [t] = 1.
Proof. intros H. unfold within. by rewrite filter_cons_True. Qed.

Lemma within_out x w t : ¬ (x ≤ t ≤ x + w)%Z → within x w [t] = 0.
Proof. intros H. unfold within. by rewrite filter_cons_False. Qed.

Lemma within_snoc x w t l :
  (x ≤ t ≤ x + w)%Z → within x w (l ++ [t]) = S (within x w l).
Proof. intros H. rewrite within_app, within_in by done. lia. Qed.

Lemma within_le_1 x w t : within x w [t] ≤ 1.
Proof. unfold within. rewrite filter_cons. case_decide; cbn; lia. Qed.

(** Active limiting, as a hypothesis. *)
Definition limiting (cfg : rate_config) : Prop :=
  rateLimit cfg = true ∧ (0 < rateMaxAlerts cfg)%Z ∧ (0 < rateWindow cfg < int64_max)%Z.

Lemma limiting_guard cfg : limiting cfg →
  (negb (rateLimit cfg) || (rateMaxAlerts cfg <=? 0) || (rateWindow cfg <=? 0))%Z = false.
Proof.
  intros (-> & Hm & Hw). rewrite (proj2 (Z.leb_gt _ _)) by lia.
  by rewrite (proj2 (Z.leb_gt _ _)) by lia.
Qed.

(** A request for another key leaves the bucket of [key] alone. *)
Lemma rateLimitAllow_other cfg now ev rates key :
  rate_key ev ≠ key → (rateLimitAllow cfg now ev rates).2 !! key = rates !! key.
Proof.
  intros Hne. unfold rateLimitAllow. case_match; [done|].
  repeat case_match; cbn [snd]; try done; by rewrite lookup_insert_ne.
Qed.

Lemma time_sub_exact now start :
  (0 ≤ start ≤ now)%Z → (now ≤ int64_max)%Z → time_sub now start = (now - start)%Z.
Proof. unfold time_sub, int64_min, int64_max. lia. Qed.

Section Sliding.
Context (cfg : rate_config) (Hcfg : limiting cfg) (key : string).
Local Abbreviation W := (rateWindow cfg).
Local Abbreviation M := (rateMaxAlerts cfg).

(** One request for [key], by the state of its bucket. *)
Lemma allowed_times_fresh now ev reqs rates :
  rate_key ev = key → rates !! key = None →
  allowed_times cfg key ((now, ev) :: reqs) rates
  = now :: allowed_times cfg key reqs (<[key := mkBucket now 1]> rates).
Proof.
  intros Hk Hn. cbn [allowed_times]. unfold rateLimitAllow.
  rewrite limiting_guard, Hk, Hn by done. by rewrite bool_decide_true.
Qed.

Lemma allowed_times_renew now ev reqs rates b :
  rate_key ev = key → rates !! key = Some b → (W < time_sub now (windowStart b))%Z →
  allowed_times cfg key ((now, ev) :: reqs) rates
  = now :: allowed_times cfg key reqs (<[key := mkBucket now 1]> rates).
Proof.
  intros Hk Hn Hw. cbn [allowed_times]. unfold rateLimitAllow.
  rewrite limiting_guard, Hk, Hn by done. rewrite (proj2 (Z.ltb_lt _ _)) by done.
  by rewrite bool_decide_true.
Qed.

Lemma allowed_times_full now ev reqs rates b :
  rate_key ev = key → rates !! key = Some b → (time_sub now (windowStart b) ≤ W)%Z →
  (M ≤ count b)%Z →
  allowed_times cfg key ((now, ev) :: reqs) rates = allowed_times cfg key reqs rates.
Proof.
  intros Hk Hn Hw Hc. cbn [allowed_times]. unfold rateLimitAllow.
  rewrite limiting_guard, Hk, Hn by done. rewrite (proj2 (Z.ltb_ge _ _)) by done.
  by rewrite (proj2 (Z.leb_le _ _)) by done.
Qed.

Lemma allowed_times_count now ev reqs rates b :
  rate_key ev = key → rates !! key = Some b → (time_sub now (windowStart b) ≤ W)%Z →
  (count b < M)%Z →
  allowed_times cfg key ((now, ev) :: reqs) rates
  = now :: allowed_times cfg key reqs (<[key := mkBucket (windowStart b) (count b + 1)]> rates).
Proof.
  intros Hk Hn Hw Hc. cbn [allowed_times]. unfold rateLimitAllow.
  rewrite limiting_guard, Hk, Hn by done. rewrite (proj2 (Z.ltb_ge _ _)) by done.
  rewrite (proj2 (Z.leb_gt _ _)) by done. by rewrite bool_decide_true.
Qed.

Lemma allowed_times_other now ev reqs rates :
  rate_key ev ≠ key → ∃ rates',
  rates' !! key = rates !! key ∧
  allowed_times cfg key ((now, ev) :: reqs) rates = allowed_times cfg key reqs rates'.
Proof.
  intros Hk. exists (rateLimitAllow cfg now ev rates).2.
  split; [by apply rateLimitAllow_other|]. cbn [allowed_times].
  destruct (rateLimitAllow cfg now ev rates) as [ok r]. by rewrite bool_decide_false, andb_false_r.
Qed.

(** Case analysis on the first request: another key, a reopened bucket, a
    full bucket, or one more alert in the current bucket. *)
Ltac request_cases now ev reqs rates b Hb :=
  destruct (decide (rate_key ev = key)) as [Hk|Hk];
  [ destruct (Z.lt_ge_cases W (time_sub now (windowStart b))) as [Hw|Hw];
    [ erewrite allowed_times_renew by eassumption
    | destruct (Z.le_gt_cases M (count b)) as [Hfull|Hfull];
      [ erewrite allowed_times_full by eassumption
      | erewrite allowed_times_count by eassumption ] ];
    rewrite time_sub_exact in Hw by lia
  | destruct (allowed_times_other now ev reqs rates Hk) as (rates' & Hr' & ->);
    rewrite Hb in Hr' ].

(** Times after the interval do not count. *)
Lemma within_late x reqs : ∀ from rates,
  clocked from reqs → (x + W < from)%Z → within x W (allowed_times cfg key reqs rates) = 0.
Proof.
  induction reqs as [|[now ev] reqs IH]; intros from rates Hc Hx; [done|].
  cbn in Hc. destruct Hc as [Hnow Hc]. cbn [allowed_times].
  destruct (rateLimitAllow cfg now ev rates) as [ok r].
  rewrite within_app, (IH now) by (done || lia).
  destruct (ok && _); [rewrite within_out by lia|]; done.
Qed.

(** A bucket opened inside the interval. *)
Lemma within_opened x reqs : ∀ from rates b,
  clocked from reqs → rates !! key = Some b → (0 ≤ windowStart b ≤ from)%Z →
  (x ≤ windowStart b)%Z → (0 ≤ count b ≤ M)%Z →
  (Z.of_nat (within x W (allowed_times cfg key reqs rates)) ≤ M - count b)%Z.
Proof.
  induction reqs as [|[now ev] reqs IH]; intros from rates b Hclk Hb Hs Hx Hc; [cbn; lia|].
  cbn in Hclk. destruct Hclk as [Hnow Hclk].
  request_cases now ev reqs rates b Hb.
  - rewrite within_cons, within_out, (within_late x reqs now) by (done || lia). lia.
  - eapply (IH now); eauto. lia.
  - rewrite within_cons. pose proof (within_le_1 x W now).
    specialize (IH now (<[key:=mkBucket (windowStart b) (count b + 1)]> rates)
      (mkBucket (windowStart b) (count b + 1)) Hclk (lookup_insert_eq _ _ _)).
    cbn [windowStart count] in IH. lia.
  - eapply (IH now); eauto. lia.
Qed.

(** A bucket opened before the interval, the clock having reached it. *)
Lemma within_entered x reqs : ∀ from rates b,
  clocked from reqs → rates !! key = Some b → (0 ≤ windowStart b ≤ from)%Z →
  (x ≤ from)%Z → (0 ≤ count b ≤ M)%Z →
  (Z.of_nat (within x W (allowed_times cfg key reqs rates)) ≤ (M - count b) + M)%Z.
Proof.
  destruct Hcfg as (_ & HM & _).
  induction reqs as [|[now ev] reqs IH]; intros from rates b Hclk Hb Hs Hx Hc; [cbn; lia|].
  cbn in Hclk. destruct Hclk as [Hnow Hclk].
  request_cases now ev reqs rates b Hb.
  - rewrite within_cons. pose proof (within_le_1 x W now).
    pose proof (within_opened x reqs now (<[key:=mkBucket now 1]> rates) (mkBucket now 1)
      Hclk (lookup_insert_eq _ _ _)) as Ho. cbn [windowStart count] in Ho. lia.
  - eapply (IH now); eauto; lia.
  - rewrite within_cons. pose proof (within_le_1 x W now).
    specialize (IH now (<[key:=mkBucket (windowStart b) (count b + 1)]> rates)
      (mkBucket (windowStart b) (count b + 1)) Hclk (lookup_insert_eq _ _ _)).
    cbn [windowStart count] in IH. lia.
  - eapply (IH now); eauto; lia.
Qed.

Lemma within_before x reqs : ∀ from rates b,
  clocked from reqs → rates !! key = Some b → (0 ≤ windowStart b ≤ from)%Z →
  (windowStart b < x)%Z → (1 ≤ count b ≤ M)%Z →
  (Z.of_nat (within x W (allowed_times cfg key reqs rates)) ≤ 2 * M - 1)%Z.
Proof.
  induction reqs as [|[now ev] reqs IH]; intros from rates b Hclk Hb Hs Hx Hc; [cbn; lia|].
  destruct (Z.lt_ge_cases now x) as [Hlt|Hge].
  - cbn in Hclk. destruct Hclk as [Hnow Hclk].
    request_cases now ev reqs rates b Hb.
    + rewrite within_cons, within_out by lia.
      apply (IH now _ (mkBucket now 1)); cbn; [done|by rewrite lookup_insert_eq|lia..].
    + eapply (IH now); eauto; lia.
    + rewrite within_cons, within_out by lia.
      apply (IH now _ (mkBucket (windowStart b) (count b + 1))); cbn;
        [done|by rewrite lookup_insert_eq|lia..].
    + eapply (IH now); eauto; lia.
  - pose proof (within_entered x ((now, ev) :: reqs) now rates b) as He.
    cbn [clocked] in *. destruct Hclk as [Hnow Hclk].
    specialize (He (conj (conj (Z.le_refl now) (proj2 Hnow)) Hclk) Hb). lia.
Qed.

Lemma within_new x reqs : ∀ from rates,
  clocked from reqs → (0 ≤ from)%Z → rates !! key = None →
  (Z.of_nat (within x W (allowed_times cfg key reqs rates)) ≤ 2 * M - 1)%Z.
Proof.
  destruct Hcfg as (_ & HM & _).
  induction reqs as [|[now ev] reqs IH]; intros from rates Hclk Hf Hn; [cbn; lia|].
  cbn in Hclk. destruct Hclk as [Hnow Hclk].
  destruct (decide (rate_key ev = key)) as [Hk|Hk].
  - rewrite allowed_times_fresh, within_cons by done.
    pose proof (within_le_1 x W now). set (b := mkBucket now 1).
    assert (Hl : <[key:=b]> rates !! key = Some b) by apply lookup_insert_eq.
    destruct (Z.lt_ge_cases now x).
    + rewrite within_out by lia. apply (within_before x reqs now _ b Hclk Hl); cbn; lia.
    + pose proof (within_opened x reqs now _ b Hclk Hl) as Ho. cbn in Ho. lia.
  - destruct (allowed_times_other now ev reqs rates Hk) as (rates' & Hr' & ->).
    apply (IH now); [done|lia|by rewrite Hr'].
Qed.
End Sliding.

(** The map after a sequence of requests. *)
Definition run_rates (cfg : rate_config) (reqs : list (Z * Event)) (rates : gmap string bucket) :=
  foldl (λ r req, (rateLimitAllow cfg req.1 req.2 r).2) rates reqs.

Lemma allowed_times_app cfg key r1 r2 rates :
  allowed_times cfg key (r1 ++ r2) rates
  = allowed_times cfg key r1 rates ++ allowed_times cfg key r2 (run_rates cfg r1 rates).
Proof.
  revert rates; induction r1 as [|[now ev] r1 IH]; intros rates; [done|].
  cbn [app allowed_times run_rates foldl fst snd].
  destruct (rateLimitAllow cfg now ev rates) as [ok r']. by rewrite IH, <- app_assoc.
Qed.

Lemma clocked_app from r1 r2 :
  clocked from (r1 ++ r2) → clocked from r1 ∧ ∃ from', (from ≤ from')%Z ∧ clocked from' r2.
Proof.
  revert from; induction r1 as [|[now ev] r1 IH]; intros from H; [cbn in *; split; [done|eauto using Z.le_refl]|].
  cbn in *. destruct H as [H1 (H2 & f & Hf & H3)%IH]. split; [done|]. exists f. split; [lia|done].
Qed.

(** The counter of a bucket counts alerts that did pass since it was opened. *)
Definition bucket_counts cfg key (reqs : list (Z * Event)) (upto : Z) : Prop :=
  ∀ b, run_rates cfg reqs ∅ !! key = Some b →
  (0 ≤ windowStart b ≤ upto)%Z ∧
  (count b ≤ Z.of_nat (within (windowStart b) (upto - windowStart b)
                         (allowed_times cfg key reqs ∅)))%Z.

Lemma within_mono x w x' w' l :
  (x' ≤ x)%Z → (x + w ≤ x' + w')%Z → within x w l ≤ within x' w' l.
Proof.
  intros H1 H2. induction l as [|t l IH]; [done|].
  rewrite (within_cons x w t), (within_cons x' w' t).
  destruct (decide (x ≤ t ≤ x + w)%Z).
  - rewrite (within_in x), (within_in x') by lia. lia.
  - rewrite (within_out x) by done. lia.
Qed.

Lemma bucket_counts_step cfg key reqs now ev upto :
  limiting cfg → (0 ≤ upto ≤ now)%Z → (now ≤ int64_max)%Z →
  bucket_counts cfg key reqs upto → bucket_counts cfg key (reqs ++ [(now, ev)]) now.
Proof.
  intros Hcfg Hnow Hmax IH b Hb. unfold run_rates in Hb. rewrite foldl_app in Hb.
  fold (run_rates cfg reqs ∅) in Hb. cbn [foldl fst snd] in Hb.
  rewrite allowed_times_app. cbn [allowed_times]. unfold rateLimitAllow in *.
  rewrite (limiting_guard cfg Hcfg) in *.
  set (rates := run_rates cfg reqs ∅) in *.
  assert (Hold : ∀ b0, rates !! key = Some b0 → (0 ≤ windowStart b0 ≤ upto)%Z ∧
    (count b0 ≤ Z.of_nat (within (windowStart b0) (now - windowStart b0)
       (allowed_times cfg key reqs ∅)))%Z).
  { intros b0 H0. destruct (IH b0 H0) as [Hs Hc]. split; [done|].
    pose proof (within_mono (windowStart b0) (upto - windowStart b0) (windowStart b0)
      (now - windowStart b0) (allowed_times cfg key reqs ∅) ltac:(lia) ltac:(lia)). lia. }
  destruct (decide (rate_key ev = key)) as [Hk|Hk].
  - rewrite (bool_decide_true _ Hk). rewrite Hk in *.
    assert (Hopen : b = mkBucket now 1 → (0 ≤ windowStart b ≤ now)%Z ∧
      (count b ≤ Z.of_nat (within (windowStart b) (now - windowStart b)
                             (allowed_times cfg key reqs ∅ ++ [now])))%Z).
    { intros ->. cbn [windowStart count]. rewrite within_snoc by lia. lia. }
    destruct (rates !! key) as [b0|] eqn:H0;
      [destruct (_ <? _)%Z; [|destruct (Hold b0 eq_refl) as [Hs Hc]; destruct (_ <=? _)%Z]|];
      cbn [snd andb app] in *; rewrite ?lookup_insert_eq, ?H0 in Hb; injection Hb as Hb.
    + by apply Hopen.
    + subst b0. rewrite app_nil_r. split; [lia|exact Hc].
    + subst b. cbn [windowStart count]. rewrite within_snoc by lia. lia.
    + by apply Hopen.
  - assert (Hb' : rates !! key = Some b).
    { destruct (rates !! rate_key ev) as [b0|]; repeat case_match; cbn [snd] in Hb;
        rewrite ?lookup_insert_ne in Hb by done; done. }
    destruct (Hold b Hb') as [Hs Hc]. rewrite within_app. split; [lia|]. lia.
Qed.

Lemma bucket_counts_run cfg key reqs from :
  limiting cfg → (0 ≤ from)%Z → clocked from reqs →
  ∃ upto, (from ≤ upto)%Z ∧ (∀ now ev, clocked from (reqs ++ [(now, ev)]) → (upto ≤ now)%Z)
          ∧ bucket_counts cfg key reqs upto.
Proof.
  intros Hcfg Hf. induction reqs as [|[now ev] reqs IH] using rev_ind; intros Hclk.
  - exists from. split_and!; [lia|cbn; lia|]. intros b Hb. change ((∅ : gmap string bucket) !! key = Some b) in Hb.
    by rewrite lookup_empty in Hb.
  - destruct (clocked_app _ _ _ Hclk) as (Hclk' & _).
    destruct (IH Hclk') as (upto & Hu & Hnext & Hcount).
    specialize (Hnext now ev Hclk). exists now. split_and!; [lia| |].
    + intros now' ev' H'. rewrite <- app_assoc in H'. cbn [app] in H'.
      apply clocked_app in H' as (_ & f & _ & H'). cbn in H'. lia.
    + apply clocked_app in Hclk as (_ & f & _ & Hclk). cbn in Hclk.
      eapply bucket_counts_step; [done| |lia|done]. lia.
Qed.

(** ** Properties *)

(** C12: the burst bound -- whatever the requests and from whatever instant,
    at most [2 * max_alerts - 1] alerts of one (command, source) pair pass in
    any interval as long as the window. *)
Theorem rate_limit_any_window (cfg : rate_config) (key : string)
    (reqs : list (Z * Event)) (x : Z) :
  limiting cfg → clocked 0 reqs →
  (Z.of_nat (within x (rateWindow cfg) (allowed_times cfg key reqs ∅))
   ≤ 2 * rateMaxAlerts cfg - 1)%Z.
Proof. intros Hcfg Hclk. by apply (within_new cfg Hcfg key x reqs 0 ∅). Qed.

Definition example_config : rate_config := mkRateConfig true (60 * Second) 5.
Definition example_event : Event :=
  mkEvent (mkTime 0 0) 0 (mkSource "10.0.0.1" "5000") "FLUSHALL" "" [].
Definition example_requests : list (Z * Event) :=
  (0, example_event)%Z :: replicate 4 (60 * Second, example_event)%Z
    ++ replicate 5 (60 * Second + 1, example_event)%Z.

Lemma rate_limit_any_window_witness :
  (Z.of_nat (within 1 (rateWindow example_config)
     (allowed_times example_config (rate_key example_event) example_requests ∅)) ≤ 9)%Z.
Proof.
  apply (rate_limit_any_window example_config (rate_key example_event) example_requests 1).
  - split_and!; [reflexivity|reflexivity|reflexivity|vm_compute; reflexivity].
  - repeat split; vm_compute; discriminate.
Defined.

(** The bound is reached -- with the default limit of 5 alerts per minute,
    9 alerts of one pair pass within one minute: the window restarts with the
    first alert after it, it does not slide. *)
Theorem rate_limit_window_not_sliding :
  limiting example_config ∧ clocked 0 example_requests ∧
  within 1 (rateWindow example_config)
    (allowed_times example_config (rate_key example_event) example_requests ∅) = 9.
Proof.
  split_and!; [split_and!; [reflexivity|reflexivity|reflexivity|vm_compute; reflexivity]| |].
  - repeat split; vm_compute; discriminate.
  - vm_compute. reflexivity.
Qed.

(** No alert is suppressed without reason -- when the limiter refuses an
    event, at least [max_alerts] alerts of the same (command, source) pair
    passed within the window that ends now. *)
Theorem rate_limit_refusal_justified (cfg : rate_config) (reqs : list (Z * Event))
    (now : Z) (ev : Event) :
  limiting cfg → clocked 0 (reqs ++ [(now, ev)]) →
  (rateLimitAllow cfg now ev (run_rates cfg reqs ∅)).1 = false →
  (rateMaxAlerts cfg ≤ Z.of_nat (within (now - rateWindow cfg) (rateWindow cfg)
                                   (allowed_times cfg (rate_key ev) reqs ∅)))%Z.
Proof.
  intros Hcfg Hclk Href. destruct (clocked_app _ _ _ Hclk) as (Hclk' & f & Hf & Hnow).
  cbn in Hnow. destruct (bucket_counts_run cfg (rate_key ev) reqs 0 Hcfg ltac:(lia) Hclk')
    as (upto & _ & Hnext & Hcount). specialize (Hnext now ev Hclk).
  unfold rateLimitAllow in Href. rewrite limiting_guard in Href by done.
  destruct (run_rates cfg reqs ∅ !! rate_key ev) as [b|] eqn:Hb; [|done].
  destruct (Hcount b Hb) as [Hs Hc].
  destruct (rateWindow cfg <? time_sub now (windowStart b))%Z eqn:Hw; [done|].
  apply Z.ltb_ge in Hw. rewrite time_sub_exact in Hw by lia.
  destruct (rateMaxAlerts cfg <=? count b)%Z eqn:Hm; [|done]. apply Z.leb_le in Hm.
  pose proof (within_mono (windowStart b) (upto - windowStart b) (now - rateWindow cfg)
    (rateWindow cfg) (allowed_times cfg (rate_key ev) reqs ∅) ltac:(lia) ltac:(lia)). lia.
Qed.

Lemma rate_limit_refusal_justified_witness :
  (5 ≤ Z.of_nat (within (7 - 60 * Second) (60 * Second)
     (allowed_times example_config (rate_key example_event)
        (replicate 5 (7, example_event))%Z ∅)))%Z.
Proof.
  apply (rate_limit_refusal_justified example_config (replicate 5 (7, example_event))%Z
    7 example_event).
  - split_and!; [reflexivity|reflexivity|reflexivity|vm_compute; reflexivity].
  - repeat split; vm_compute; discriminate.
  - vm_compute. reflexivity.
Defined.

(** Two pairs share a bucket only when a command name contains the separator
    of the key. *)
Lemma rate_key_inj ev1 ev2 :
  contains_byte (Command ev1) "|" = false → contains_byte (Command ev2) "|" = false →
  rate_key ev1 = rate_key ev2 →
  Command ev1 = Command ev2 ∧ IP (EvSource ev1) = IP (EvSource ev2).
Proof.
  unfold rate_key. intros H1 H2 H. cbn [String.append] in H.
  assert (Hl : len (Command ev1) = len (Command ev2)).
  { pose proof (IndexByte_app (Command ev1) "|" (IP (EvSource ev1)) H1) as E1.
    rewrite H, IndexByte_app in E1 by done. congruence. }
  split.
  - rewrite <- (str_take_app (Command ev1) (String "|" (IP (EvSource ev1)))), H, Hl.
    apply str_take_app.
  - rewrite <- (str_drop_app_S (Command ev1) (IP (EvSource ev1)) "|"), H, Hl.
    apply str_drop_app_S.
Qed.
