(* ===== verification/GoTime.v ===== *)
(** * Formatting of instants (package [time])

    The program prints timestamps with the layouts RFC3339 and RFC3339Nano, in
    UTC.  This file models them: the calendar date of a day number in the
    proleptic Gregorian calendar and the text of the two layouts, with examples
    on the corners of the calendar. *)

From S2P Require Export Event.

Local Open Scope Z_scope.

(** ** The calendar *)

Record date : Type := mkDate { d_year : Z; d_month : Z; d_day : Z }.

(** The date of a day of a 400-year era, counted from 1 March of its year 0. *)
Definition date_of_doe (doe : Z) : date :=
  let yoe := (doe - doe / 1460 + doe / 36524 - doe / 146096) / 365 in
  let doy := doe - (365 * yoe + yoe / 4 - yoe / 100) in
  let mp := (5 * doy + 2) / 153 in
  let d := doy - (153 * mp + 2) / 5 + 1 in
  let m := if mp <? 10 then mp + 3 else mp - 9 in
  mkDate (if m <=? 2 then yoe + 1 else yoe) m d.

(** The date of a day number, day 0 being 1 January 1970. *)
Definition date_of_days (days : Z) : date :=
  let z := days + 719468 in
  let dt := date_of_doe (z mod 146097) in
  mkDate (d_year dt + 400 * (z / 146097)) (d_month dt) (d_day dt).

(** ** The layouts *)

(** [n] printed in at least [w] digits. *)
Fixpoint zeros (n : nat) : string :=
  match n with O => "" | S n' => String "0" (zeros n') end.
Definition pad (w : nat) (n : Z) : string :=
  let s := Itoa (Z.abs n) in
  (if n <? 0 then "-" else "") +:+ zeros (w - len s) +:+ s.

(** [t.UTC().Format("2006-01-02T15:04:05")] *)
Definition format_datetime (t : time) : string :=
  let dt := date_of_days (t_sec t / 86400) in
  let sod := t_sec t mod 86400 in
  pad 4 (d_year dt) +:+ "-" +:+ pad 2 (d_month dt) +:+ "-" +:+ pad 2 (d_day dt)
  +:+ "T" +:+ pad 2 (sod / 3600) +:+ ":" +:+ pad 2 (sod / 60 mod 60) +:+ ":" +:+ pad 2 (sod mod 60).

Definition RFC3339 (t : time) : string := format_datetime t +:+ "Z".

(** The fraction without its trailing zeros, or nothing. *)
Definition RFC3339Nano (t : time) : string :=
  format_datetime t
  +:+ (if t_nsec t =? 0 then "" else String "." (TrimRight (pad 9 (t_nsec t)) ["0"%char]))
  +:+ "Z".

Example RFC3339Nano_example :
  RFC3339Nano (mkTime 1583789991 940458000) = "2020-03-09T21:39:51.940458Z".
Proof. reflexivity. Qed.

Example RFC3339_epoch : RFC3339 (mkTime 0 0) = "1970-01-01T00:00:00Z".
Proof. reflexivity. Qed.

Example RFC3339_leap_day : RFC3339 (mkTime 951782400 0) = "2000-02-29T00:00:00Z".
Proof. reflexivity. Qed.

Example RFC3339_year_end : RFC3339 (mkTime 4102444799 0) = "2099-12-31T23:59:59Z".
Proof. reflexivity. Qed.

Example RFC3339_before_epoch : RFC3339Nano (mkTime (-1) 950000000) = "1969-12-31T23:59:59.95Z".
Proof. reflexivity. Qed.
