(* ===== verification/Retry.v ===== *)
(** * Sending one alert to one channel ([sendOne] of [internal/alert/alert.go])

    The bounded retry loop with exponential backoff.  The outcome of each
    attempt and the interruption of each sleep come from the environment; the
    calls the engine makes (on the channel, the reporter and Sentry) are
    recorded in order.  The theorems account for every call of the loop
    whatever the environment does, give the trace of each way it ends, and
    bound the sleeps. *)

From S2P Require Export Event Sentry.

(** ** The interfaces Reporter and RetryReporter *)

Inductive alert_call : Type :=
| AlertSent (channel command : string)
| AlertError (channel : string) (err : goerror)
| SuspiciousObserved (command sourceIP : string)
| AlertRetry (channel : string)
| AlertDropped
| AlertRateLimited (command : string)
| ObserveAlertSend (channel : string) (d : duration)
| SetAlertChannelFailing (channel : string) (failing : bool).

(** What the engine was given: no reporter, one with the three methods of
    Reporter, or one that also implements RetryReporter. *)
Inductive reporter_kind : Type := NilReporter | BasicReporter | FullReporter.

Inductive action : Type :=
| Report (c : alert_call)
| SendAttempt (channel : string) (err : option goerror)
| Sleep (d : duration)
| Traced (c : sentryx_call).

(** [if e.rep != nil { ... }] and the type assertion of the record helpers. *)
Definition report (k : reporter_kind) (c : alert_call) : list action :=
  match k with NilReporter => [] | _ => [Report c] end.
Definition record (k : reporter_kind) (c : alert_call) : list action :=
  match k with FullReporter => [Report c] | _ => [] end.

(** func nextBackoff(cur, maxBackoff time.Duration) time.Duration *)
Definition nextBackoff (cur maxBackoff : duration) : duration :=
  let next := int64 (cur * 2) in
  if ((0 <? maxBackoff) && (maxBackoff <? next))%Z then maxBackoff
  else if ((maxBackoff =? 0) && (Minute <? next))%Z then Minute
  else next.

(** The environment of attempt [i]: the result and duration of ch.Send, and
    the error of the context if it ends before the sleep after it does. *)
Record attempt_env : Type := mkAttempt {
  send_result : option goerror;
  send_time : duration;
  interrupted : option goerror
}.

(** How the loop of sendOne is left: with the number of attempts made. *)
Inductive loop_exit : Type :=
| Delivered
| Exhausted (attempts : Z) (lastErr : option goerror).

(** The retry fields of the engine. *)
Record retry_config : Type := mkRetryConfig {
  retryMax : Z;
  retryInitialBackoff : duration;
  retryMaxBackoff : duration
}.

Section SendOne.
Context (cfg : retry_config) (rep : reporter_kind) (env : Z → attempt_env).
(** [reason] is the reason of the alert, the field of it that sendOne reads. *)
Context (ch : string) (ev : Event) (reason : string).

(** The loop, [n] attempts being left of which [attempt] is the next. *)
Fixpoint send_loop (n : nat) (attempt : Z) (backoff : duration) (lastErr : option goerror)
    : list action * loop_exit :=
  match n with
  | O => ([], Exhausted (attempt - 1) lastErr)
  | S n' =>
      let e := env attempt in
      let sent := SendAttempt ch (send_result e) :: record rep (ObserveAlertSend ch (send_time e)) in
      match send_result e with
      | None =>
          (sent ++ [Traced (CallSetSpanData "attempts" (AInt attempt)); Traced (CallFinishSpan None)]
             ++ report rep (AlertSent ch (Command ev)) ++ record rep (SetAlertChannelFailing ch false), Delivered)
      | Some err =>
          let failed := sent ++ report rep (AlertError ch err) in
          if (attempt =? retryMax cfg)%Z then (failed, Exhausted attempt (Some err))
          else
            match interrupted e with
            | Some ctxErr =>
                (failed ++ [Sleep backoff], Exhausted attempt (Some (Wrapf "retry aborted" [] ctxErr)))
            | None =>
                let '(tr, ex) :=
                  send_loop n' (attempt + 1) (nextBackoff backoff (retryMaxBackoff cfg)) (Some err) in
                (failed ++ [Sleep backoff] ++ record rep (AlertRetry ch) ++ tr, ex)
            end
      end
  end.

(** What Sentry is told of a failed dispatch. *)
Definition failure_details (attempts : Z) : list (string * any) :=
  [("channel", AString ch); ("attempts", AInt attempts); ("max_attempts", AInt (retryMax cfg));
   ("command", AString (FullCommand ev)); ("source_ip", AString (IP (EvSource ev)));
   ("db", AInt (DB ev)); ("reason", AString reason)].

(** func (e *Engine) sendOne(ctx, ch, a, ev) error *)
Definition sendOne : list action * option goerror :=
  let start := [Traced (CallStartSpan "http.client" ("alert.send." +:+ ch));
                Traced (CallSetSpanTag "channel" ch); Traced (CallSetSpanTag "command" (Command ev))] in
  let '(tr, ex) := send_loop (Z.to_nat (retryMax cfg)) 1 (retryInitialBackoff cfg) None in
  match ex with
  | Delivered => (start ++ tr, None)
  | Exhausted attempts lastErr =>
      (start ++ tr ++ [Traced (CallSetSpanData "attempts" (AInt attempts)); Traced (CallFinishSpan lastErr)]
         ++ record rep (SetAlertChannelFailing ch true)
         ++ [Traced (CallCapture lastErr (failure_details attempts))], lastErr)
  end.
End SendOne.

(** ** Observations of a trace *)

Definition is_send (a : action) : bool := match a with SendAttempt _ _ => true | _ => false end.
Definition is_failed_send (a : action) : bool :=
  match a with SendAttempt _ (Some _) => true | _ => false end.
Definition is_sent (a : action) : bool := match a with Report (AlertSent _ _) => true | _ => false end.
Definition is_error (a : action) : bool := match a with Report (AlertError _ _) => true | _ => false end.
Definition is_retry (a : action) : bool := match a with Report (AlertRetry _) => true | _ => false end.
Definition is_capture (a : action) : bool := match a with Traced (CallCapture _ _) => true | _ => false end.
Definition sleeps (tr : list action) : list duration :=
  omap (λ a, match a with Sleep d => Some d | _ => None end) tr.
Definition failing_marks (tr : list action) : list bool :=
  omap (λ a, match a with Report (SetAlertChannelFailing _ b) => Some b | _ => None end) tr.
Definition occurs (p : action → bool) (tr : list action) : nat := length (List.filter p tr).

(** The backoffs of successive failures. *)
Fixpoint backoffs (n : nat) (cur maxb : duration) : list duration :=
  match n with O => [] | S n' => cur :: backoffs n' (nextBackoff cur maxb) maxb end.

(** ** Lemmas *)

Lemma occurs_app p t1 t2 : occurs p (t1 ++ t2) = occurs p t1 + occurs p t2.
Proof. unfold occurs. by rewrite List.filter_app, length_app. Qed.

Lemma occurs_cons p a t : occurs p (a :: t) = (if p a then 1 else 0) + occurs p t.
Proof. unfold occurs. cbn. by destruct (p a). Qed.

Lemma occurs_nil p : occurs p [] = 0.
Proof. done. Qed.

Lemma sleeps_app t1 t2 : sleeps (t1 ++ t2) = sleeps t1 ++ sleeps t2.
Proof. apply omap_app. Qed.

Lemma failing_marks_app t1 t2 : failing_marks (t1 ++ t2) = failing_marks t1 ++ failing_marks t2.
Proof. apply omap_app. Qed.

(** [nextBackoff] doubles up to the cap, as long as the cap itself leaves
    room for doubling in an int64. *)
Lemma nextBackoff_capped cur maxb :
  (0 < maxb < 2 ^ 62)%Z → (0 ≤ cur ≤ maxb)%Z → nextBackoff cur maxb = Z.min (cur * 2) maxb.
Proof.
  intros Hm Hc. unfold nextBackoff, Minute.
  rewrite int64_id by (unfold in_int64, int64_min, int64_max; lia).
  rewrite (proj2 (Z.ltb_lt _ _)) by lia. rewrite (proj2 (Z.eqb_neq _ _)) by lia.
  cbn [andb]. destruct (Z.ltb_spec maxb (cur * 2)); lia.
Qed.

(** Without a configured cap the cap is a minute. *)
Lemma nextBackoff_uncapped cur :
  (0 ≤ cur < 2 ^ 62)%Z → nextBackoff cur 0 = Z.min (cur * 2) Minute.
Proof.
  intros Hc. unfold nextBackoff, Minute.
  rewrite int64_id by (unfold in_int64, int64_min, int64_max; lia).
  rewrite Z.ltb_irrefl, Z.eqb_refl. cbn [andb]. destruct (Z.ltb_spec 60000000000 (cur * 2)); lia.
Qed.

(** The cap in force. *)
Definition effective_cap (maxb : duration) : duration :=
  if (maxb =? 0)%Z then Minute else maxb.

Lemma nextBackoff_range cur maxb :
  (0 ≤ maxb < 2 ^ 62)%Z → (0 ≤ cur ≤ effective_cap maxb)%Z →
  nextBackoff cur maxb = Z.min (cur * 2) (effective_cap maxb).
Proof.
  unfold effective_cap. intros Hm Hc. destruct (Z.eqb_spec maxb 0) as [->|Hz].
  - apply nextBackoff_uncapped. unfold Minute in Hc. lia.
  - apply nextBackoff_capped; lia.
Qed.

Lemma length_backoffs n cur maxb : length (backoffs n cur maxb) = n.
Proof. revert cur; induction n as [|n IH]; intros cur; cbn; [done|]. by rewrite IH. Qed.

(** Closed form of the successive backoffs. *)
Lemma backoffs_lookup n maxb : ∀ cur i,
  (0 ≤ maxb < 2 ^ 62)%Z → (0 ≤ cur ≤ effective_cap maxb)%Z → i < n →
  backoffs n cur maxb !! i = Some (Z.min (cur * 2 ^ Z.of_nat i) (effective_cap maxb)).
Proof.
  induction n as [|n IH]; intros cur i Hm Hc Hi; [lia|].
  destruct i as [|i]; cbn [backoffs lookup list_lookup].
  - f_equal. rewrite Z.pow_0_r. lia.
  - rewrite nextBackoff_range by done. rewrite IH by lia. f_equal.
    rewrite Nat2Z.inj_succ, Z.pow_succ_r by lia.
    pose proof (Z.pow_pos_nonneg 2 (Z.of_nat i) ltac:(lia) ltac:(lia)). nia.
Qed.

Section SendLemmas.
Context (cfg : retry_config) (rep : reporter_kind) (env : Z → attempt_env).
Context (ch : string) (ev : Event).

(** The calls of one failed attempt, before the sleep. *)
Definition failed_attempt (i : Z) (err : goerror) : list action :=
  (SendAttempt ch (Some err) :: record rep (ObserveAlertSend ch (send_time (env i))))
    ++ report rep (AlertError ch err).

(** The calls of an attempt that succeeds. *)
Definition delivered_attempt (i : Z) : list action :=
  (SendAttempt ch None :: record rep (ObserveAlertSend ch (send_time (env i))))
    ++ [Traced (CallSetSpanData "attempts" (AInt i)); Traced (CallFinishSpan None)]
    ++ report rep (AlertSent ch (Command ev))
    ++ record rep (SetAlertChannelFailing ch false).

(** The span of a dispatch. *)
Definition span_started : list action :=
  [Traced (CallStartSpan "http.client" ("alert.send." +:+ ch));
   Traced (CallSetSpanTag "channel" ch); Traced (CallSetSpanTag "command" (Command ev))].

(** [fails i k errs]: the attempts from [i] on fail with [errs] and the
    sleeps after them are not interrupted. *)
Fixpoint fails (i : Z) (errs : list goerror) : Prop :=
  match errs with
  | [] => True
  | err :: errs' =>
      send_result (env i) = Some err ∧ interrupted (env i) = None ∧ fails (i + 1) errs'
  end.

(** The calls of failed attempts that are each followed by a sleep. *)
Fixpoint failed_rounds (i : Z) (backoff : duration) (errs : list goerror) : list action :=
  match errs with
  | [] => []
  | err :: errs' =>
      failed_attempt i err ++ [Sleep backoff] ++ record rep (AlertRetry ch)
        ++ failed_rounds (i + 1) (nextBackoff backoff (retryMaxBackoff cfg)) errs'
  end.

Lemma send_loop_rounds errs : ∀ n i backoff last,
  length errs < n → (i + Z.of_nat (length errs) ≤ retryMax cfg)%Z → fails i errs →
  send_loop cfg rep env ch ev n i backoff last =
    let '(tr, ex) :=
      send_loop cfg rep env ch ev (n - length errs) (i + Z.of_nat (length errs))
        (nth (length errs) (backoffs (S (length errs)) backoff (retryMaxBackoff cfg)) 0%Z)
        (match errs with [] => last | _ => List.last (Some <$> errs) last end) in
    (failed_rounds i backoff errs ++ tr, ex).
Proof.
  induction errs as [|err errs IH]; intros n i backoff last Hn Hi Hf.
  - cbn. rewrite Nat.sub_0_r, Z.add_0_r. by destruct (send_loop _ _ _ _ _ _ _ _ _).
  - cbn in Hn, Hi, Hf. destruct n as [|n]; [lia|]. destruct Hf as (Hs & Hint & Hf).
    cbn [send_loop]. rewrite Hs, Hint. rewrite (proj2 (Z.eqb_neq _ _)) by lia.
    rewrite (IH n (i + 1)%Z (nextBackoff backoff (retryMaxBackoff cfg)) (Some err))
      by (done || lia).
    cbn [length Nat.sub].
    replace (i + 1 + Z.of_nat (length errs))%Z with (i + Z.of_nat (S (length errs)))%Z by lia.
    assert (Hlast : match errs with [] => Some err | _ => List.last (Some <$> errs) (Some err) end
                    = List.last (Some <$> (err :: errs)) last).
    { cbn [fmap list_fmap]. destruct errs as [|e errs']; [done|].
      cbn [fmap list_fmap List.last]. clear. revert e. induction errs'; cbn; auto. }
    rewrite Hlast. cbn [nth backoffs].
    destruct (send_loop _ _ _ _ _ _ _ _ _) as [tr ex].
    cbn [failed_rounds]. unfold failed_attempt. f_equal.
    by rewrite <- !app_assoc.
Qed.
End SendLemmas.

(** ** Properties *)

(** Delivery after retries -- when the first attempts fail, fewer than
    [retryMax] of them, and the next one succeeds, [sendOne] performs exactly
    these attempts, each failure reported and followed by a sleep and a retry
    mark, then reports the delivery and clears the failing mark; it returns no
    error and captures nothing. *)
Theorem sendOne_delivers (cfg : retry_config) (rep : reporter_kind) (env : Z → attempt_env)
    (ch : string) (ev : Event) (reason : string) (errs : list goerror) :
  (Z.of_nat (length errs) < retryMax cfg)%Z →
  fails env 1 errs →
  send_result (env (1 + Z.of_nat (length errs))%Z) = None →
  sendOne cfg rep env ch ev reason =
    (span_started ch ev
       ++ failed_rounds cfg rep env ch 1 (retryInitialBackoff cfg) errs
       ++ delivered_attempt rep env ch ev (1 + Z.of_nat (length errs)), None).
Proof.
  intros Hn Hf Hs. unfold sendOne. rewrite (send_loop_rounds cfg rep env ch ev errs) by (done || lia).
  destruct (Z.to_nat (retryMax cfg) - length errs) as [|n] eqn:En; [lia|].
  cbn [send_loop]. by rewrite Hs.
Qed.

Definition example_retry : retry_config := mkRetryConfig 3 (500 * Millisecond) (5 * Second).
Definition example_attempts (outcomes : list (option goerror)) (i : Z) : attempt_env :=
  mkAttempt (nth (Z.to_nat (i - 1)) outcomes None) 1000 None.
Definition example_keys : Event := mkEvent (mkTime 0 0) 0 (mkSource "10.0.0.9" "51234") "KEYS" "" ["keys"; "*"].
Definition refused : goerror := NetError "connection refused".

Lemma sendOne_delivers_witness :
  sendOne example_retry BasicReporter (example_attempts [Some refused; None]) "webhook" example_keys "reason" =
    (span_started "webhook" example_keys ++ [
      SendAttempt "webhook" (Some refused); Report (AlertError "webhook" refused);
      Sleep (500 * Millisecond);
      SendAttempt "webhook" None; Traced (CallSetSpanData "attempts" (AInt 2));
      Traced (CallFinishSpan None); Report (AlertSent "webhook" "KEYS")], None).
Proof.
  rewrite (sendOne_delivers example_retry BasicReporter (example_attempts [Some refused; None])
    "webhook" example_keys "reason" [refused]); [reflexivity|reflexivity|by repeat split|reflexivity].
Defined.

(** Giving up -- when all [retryMax] attempts fail, [sendOne] performs
    exactly that many, sleeps between them but not after the last, marks the
    channel as failing, captures the last error once and returns it. *)
Theorem sendOne_exhausts (cfg : retry_config) (rep : reporter_kind) (env : Z → attempt_env)
    (ch : string) (ev : Event) (reason : string) (errs : list goerror) (err : goerror) :
  (Z.of_nat (length errs) + 1 = retryMax cfg)%Z →
  fails env 1 errs →
  send_result (env (retryMax cfg)) = Some err →
  sendOne cfg rep env ch ev reason =
    (span_started ch ev
       ++ (failed_rounds cfg rep env ch 1 (retryInitialBackoff cfg) errs
             ++ failed_attempt rep env ch (retryMax cfg) err)
       ++ [Traced (CallSetSpanData "attempts" (AInt (retryMax cfg))); Traced (CallFinishSpan (Some err))]
       ++ record rep (SetAlertChannelFailing ch true)
       ++ [Traced (CallCapture (Some err) (failure_details cfg ch ev reason (retryMax cfg)))], Some err).
Proof.
  intros Hn Hf Hs. unfold sendOne. rewrite (send_loop_rounds cfg rep env ch ev errs) by (done || lia).
  destruct (Z.to_nat (retryMax cfg) - length errs) as [|n] eqn:En; [lia|].
  replace (1 + Z.of_nat (length errs))%Z with (retryMax cfg) by lia.
  cbn [send_loop]. by rewrite Hs, Z.eqb_refl.
Qed.

Lemma sendOne_exhausts_witness :
  (sendOne example_retry FullReporter (λ _, mkAttempt (Some refused) 1000 None) "webhook" example_keys "reason").2
  = Some refused.
Proof.
  rewrite (sendOne_exhausts example_retry FullReporter (λ _, mkAttempt (Some refused) 1000 None)
    "webhook" example_keys "reason" [refused; refused] refused);
    [reflexivity|reflexivity|by repeat split|reflexivity].
Defined.

(** ** Accounting for every trace *)

Lemma occurs_report p rep c : occurs p (report rep c) = match rep with NilReporter => 0 | _ => occurs p [Report c] end.
Proof. by destruct rep. Qed.
Lemma occurs_record p rep c : occurs p (record rep c) = match rep with FullReporter => occurs p [Report c] | _ => 0 end.
Proof. by destruct rep. Qed.

Lemma sleeps_cons a t : sleeps (a :: t) = match a with Sleep d => d :: sleeps t | _ => sleeps t end.
Proof. by destruct a. Qed.
Lemma sleeps_nil : sleeps [] = [].
Proof. done. Qed.
Lemma marks_cons a t :
  failing_marks (a :: t) =
    match a with Report (SetAlertChannelFailing _ b) => b :: failing_marks t | _ => failing_marks t end.
Proof. by destruct a as [[]| | |]. Qed.
Lemma marks_nil : failing_marks [] = [].
Proof. done. Qed.
Lemma sleeps_report rep c : sleeps (report rep c) = [].
Proof. by destruct rep. Qed.
Lemma sleeps_record rep c : sleeps (record rep c) = [].
Proof. by destruct rep. Qed.
Lemma marks_report rep c : failing_marks (report rep c) = match rep with NilReporter => [] | _ => failing_marks [Report c] end.
Proof. by destruct rep. Qed.
Lemma marks_record rep c : failing_marks (record rep c) = match rep with FullReporter => failing_marks [Report c] | _ => [] end.
Proof. by destruct rep. Qed.

(** Counting over a trace written as a concatenation. *)
Create Rewrite HintDb trace.
#[export] Hint Rewrite @occurs_app @occurs_cons @occurs_nil @sleeps_app @failing_marks_app
  @occurs_report @occurs_record @sleeps_report @sleeps_record @marks_report @marks_record
  @sleeps_cons @sleeps_nil @marks_cons @marks_nil @app_nil_l @app_nil_r : trace.
Ltac trace_simpl :=
  cbn [fst snd]; repeat (progress (autorewrite with trace; cbn [is_send is_failed_send is_sent
    is_error is_retry is_capture fst snd Nat.add])).

(** What the loop leaves behind, with a full reporter. *)
Definition loop_counts (n : nat) (tr : list action) (ex : loop_exit) : Prop :=
  occurs is_send tr ≤ n ∧
  occurs is_error tr = occurs is_failed_send tr ∧
  occurs is_capture tr = 0 ∧
  match ex with
  | Delivered => occurs is_send tr = S (occurs is_failed_send tr) ∧ occurs is_sent tr = 1 ∧
                 failing_marks tr = [false]
  | Exhausted _ lastErr => occurs is_send tr = occurs is_failed_send tr ∧ occurs is_sent tr = 0 ∧
                 failing_marks tr = [] ∧ lastErr ≠ None
  end.

Lemma send_loop_counts cfg env ch ev n : ∀ i backoff last tr ex,
  0 < n → (i + Z.of_nat n = retryMax cfg + 1)%Z →
  send_loop cfg FullReporter env ch ev n i backoff last = (tr, ex) →
  loop_counts n tr ex.
Proof.
  induction n as [|n IH]; intros i backoff last tr ex Hn Hi H; [lia|].
  cbn [send_loop] in H. unfold loop_counts.
  destruct (send_result (env i)) as [err|].
  - destruct (i =? retryMax cfg)%Z eqn:Ei.
    { injection H as <- <-. trace_simpl. repeat split; try lia; done. }
    apply Z.eqb_neq in Ei. destruct (interrupted (env i)) as [ce|].
    { injection H as <- <-. trace_simpl. repeat split; try lia; done. }
    destruct (send_loop _ _ _ _ _ n _ _ _) as [tr' ex'] eqn:El. injection H as <- <-.
    apply IH in El as (H1 & H2 & H3 & H4); [|lia..].
    trace_simpl. rewrite H2, H3.
    destruct ex'; destruct_and! H4; repeat split; try lia; done.
  - injection H as <- <-. trace_simpl. repeat split; lia.
Qed.

(** The sleeps are the first ones of the doubling sequence; none follows the
    last attempt. *)
Lemma send_loop_sleeps cfg rep env ch ev n : ∀ i backoff last,
  (i + Z.of_nat n = retryMax cfg + 1)%Z →
  sleeps (send_loop cfg rep env ch ev n i backoff last).1
    `prefix_of` backoffs (pred n) backoff (retryMaxBackoff cfg).
Proof.
  induction n as [|n IH]; intros i backoff last Hi; [done|]. cbn [send_loop Nat.pred].
  destruct (send_result (env i)) as [err|]; [|trace_simpl; apply prefix_nil].
  destruct (i =? retryMax cfg)%Z eqn:Ei; [trace_simpl; apply prefix_nil|apply Z.eqb_neq in Ei].
  destruct n as [|n]; [lia|]. cbn [backoffs].
  destruct (interrupted (env i)) as [ce|]; [trace_simpl; apply prefix_cons, prefix_nil|].
  specialize (IH (i + 1)%Z (nextBackoff backoff (retryMaxBackoff cfg)) (Some err) ltac:(lia)).
  destruct (send_loop _ _ _ _ _ (S n) _ _ _) as [tr ex].
  cbn [fst Nat.pred] in *. trace_simpl. by apply prefix_cons.
Qed.

(** How a loop that delivers nothing is left: after the last attempt, or at a
    sleep the context interrupts. *)
Lemma send_loop_exit cfg rep env ch ev n : ∀ i backoff last tr m err,
  0 < n → (i + Z.of_nat n = retryMax cfg + 1)%Z →
  send_loop cfg rep env ch ev n i backoff last = (tr, Exhausted m err) →
  (m = i - 1 + Z.of_nat (occurs is_send tr))%Z ∧
  ((m = retryMax cfg ∧ err = send_result (env m)) ∨
   (m < retryMax cfg)%Z ∧ ∃ ctxErr, interrupted (env m) = Some ctxErr ∧ err = Some (Wrapf "retry aborted" [] ctxErr)).
Proof.
  induction n as [|n IH]; intros i backoff last tr m err Hn Hi H; [lia|]. cbn [send_loop] in H.
  destruct (send_result (env i)) as [e|] eqn:Es; [|by injection H].
  destruct (Z.eqb_spec i (retryMax cfg)) as [Ei|Ei].
  { injection H as <- <- <-. split; [destruct rep; trace_simpl; lia|]. left. by rewrite Es. }
  destruct (interrupted (env i)) as [ce|] eqn:Ec.
  { injection H as <- <- <-. split; [destruct rep; trace_simpl; lia|]. right. split; [lia|]. by exists ce. }
  destruct (send_loop _ _ _ _ _ n _ _ _) as [tr' ex'] eqn:El. injection H as <- ->.
  apply IH in El as [Hm Hx]; [|lia..]. split; [|exact Hx]. destruct rep; trace_simpl; lia.
Qed.

(** C11: accounting of one dispatch, whatever the channel and the context do --
    at most [retryMax] attempts; one AlertError per failed attempt; the channel
    is marked exactly once, as failing when an error is returned and as healthy
    otherwise; AlertSent and the Sentry capture are exclusive and happen
    exactly once, on success and on failure respectively.  The capture tells the
    error returned and the number of attempts made; these are all [retryMax]
    attempts and the error of the last one, or fewer, when the context
    interrupted the sleep after the last one made: the dispatch aborted by a
    shutdown is captured too, with the error of the context, although the
    comment of sendOne has the capture only once all retries are exhausted. *)
Theorem sendOne_accounting (cfg : retry_config) (env : Z → attempt_env) (ch : string) (ev : Event) (reason : string)
    (tr : list action) (res : option goerror) :
  (1 ≤ retryMax cfg)%Z →
  sendOne cfg FullReporter env ch ev reason = (tr, res) →
  let attempts := Z.of_nat (occurs is_send tr) in
  (attempts ≤ retryMax cfg)%Z ∧
  occurs is_error tr = occurs is_failed_send tr ∧
  match res with
  | None => occurs is_send tr = S (occurs is_failed_send tr) ∧ occurs is_sent tr = 1 ∧
            occurs is_capture tr = 0 ∧ failing_marks tr = [false]
  | Some err => occurs is_send tr = occurs is_failed_send tr ∧ occurs is_sent tr = 0 ∧
              occurs is_capture tr = 1 ∧ failing_marks tr = [true] ∧
              Traced (CallCapture (Some err) (failure_details cfg ch ev reason attempts)) ∈ tr ∧
              (attempts = retryMax cfg ∧ send_result (env attempts) = Some err ∨
               (attempts < retryMax cfg)%Z ∧ ∃ ctxErr, interrupted (env attempts) = Some ctxErr ∧
                 err = Wrapf "retry aborted" [] ctxErr)
  end.
Proof.
  intros Hm H attempts. unfold sendOne in H.
  destruct (send_loop _ _ _ _ _ _ _ _ _) as [tr' ex] eqn:El.
  pose proof El as (H1 & H2 & H3 & H4)%send_loop_counts; [|lia..].
  destruct ex as [|m [err|]]; injection H as <- <-; destruct_and! H4; [| |done].
  - unfold attempts. trace_simpl. repeat split; try lia.
    match goal with E : failing_marks _ = _ |- _ => by rewrite E end.
  - apply send_loop_exit in El as [Em Hx]; [|lia..].
    assert (Ha : attempts = m) by (unfold attempts; trace_simpl; lia). rewrite Ha. clearbody attempts. subst attempts.
    trace_simpl. split_and!; try lia.
    + match goal with E : failing_marks _ = _ |- _ => by rewrite E end.
    + rewrite !elem_of_cons, elem_of_app, !elem_of_cons. tauto.
    + destruct Hx as [[-> Hs]|(Hlt & ce & Hi & [= ->])]; [by left|right]. split; [done|]. by exists ce.
Qed.

(** The second of three attempts fails and the sleep after it is interrupted. *)
Lemma sendOne_accounting_witness :
  let r := sendOne example_retry FullReporter
             (λ i, mkAttempt (Some refused) 1000 (if (i =? 2)%Z then Some (Sentinel Canceled) else None))
             "webhook" example_keys "reason" in
  occurs is_send r.1 = 2 ∧ occurs is_capture r.1 = 1 ∧ failing_marks r.1 = [true] ∧
  Traced (CallCapture (Some (Wrapf "retry aborted" [] (Sentinel Canceled)))
            (failure_details example_retry "webhook" example_keys "reason" 2)) ∈ r.1.
Proof.
  cbn zeta.
  destruct (sendOne_accounting example_retry
    (λ i, mkAttempt (Some refused) 1000 (if (i =? 2)%Z then Some (Sentinel Canceled) else None))
    "webhook" example_keys "reason" _ _ ltac:(vm_compute; discriminate) (surjective_pairing _)) as (_ & _ & H).
  split; [vm_compute; reflexivity|]. destruct H as (_ & _ & Hc & Hm & Hin & _). split; [exact Hc|]. split; [exact Hm|exact Hin].
Defined.

(** C26: the sleeps of a dispatch -- there are fewer of them than attempts, and
    the i-th one lasts [min (initial * 2^i) cap]: never longer than the cap,
    which is a minute when none is configured. *)
Theorem sendOne_backoff (cfg : retry_config) (rep : reporter_kind) (env : Z → attempt_env)
    (ch : string) (ev : Event) (reason : string) (i : nat) (d : duration) :
  (0 ≤ retryMaxBackoff cfg < 2 ^ 62)%Z →
  (0 ≤ retryInitialBackoff cfg ≤ effective_cap (retryMaxBackoff cfg))%Z →
  sleeps (sendOne cfg rep env ch ev reason).1 !! i = Some d →
  (Z.of_nat i + 1 < retryMax cfg)%Z ∧
  d = Z.min (retryInitialBackoff cfg * 2 ^ Z.of_nat i) (effective_cap (retryMaxBackoff cfg)).
Proof.
  intros Hm Hi Hs.
  assert (Hp : sleeps (sendOne cfg rep env ch ev reason).1 `prefix_of`
    backoffs (pred (Z.to_nat (retryMax cfg))) (retryInitialBackoff cfg) (retryMaxBackoff cfg)).
  { unfold sendOne. destruct (Z.le_gt_cases (retryMax cfg) 0).
    { replace (Z.to_nat (retryMax cfg)) with 0 by lia. cbn [send_loop]. trace_simpl. done. }
    pose proof (send_loop_sleeps cfg rep env ch ev (Z.to_nat (retryMax cfg)) 1
      (retryInitialBackoff cfg) None ltac:(lia)) as Hp.
    destruct (send_loop _ _ _ _ _ _ _ _ _) as [tr [|m l]]; cbn [fst] in *; trace_simpl; exact Hp. }
  pose proof (prefix_lookup_Some _ _ _ _ Hs Hp) as Hl.
  assert (Hlen : i < pred (Z.to_nat (retryMax cfg)))
    by (apply lookup_lt_Some in Hl; by rewrite length_backoffs in Hl).
  rewrite backoffs_lookup in Hl by (done || lia). injection Hl as <-. split; [lia|done].
Qed.

Lemma sendOne_backoff_witness :
  (1000 * Millisecond = Z.min (500 * Millisecond * 2 ^ 1) (5 * Second))%Z.
Proof.
  exact (proj2 (sendOne_backoff example_retry FullReporter
    (λ _, mkAttempt (Some refused) 1000 None) "webhook" example_keys "reason" 1 (1000 * Millisecond)
    ltac:(split; [vm_compute; discriminate|reflexivity])
    ltac:(split; vm_compute; discriminate) ltac:(reflexivity))).
Defined.
