(* ===== verification/Alert.v ===== *)
(** * The alert engine ([internal/alert/alert.go])

    Its construction, queue, matching rules and the handling of one event:
    ignored sources, rate limiting, and the dispatch of an alert to every
    channel.  The retry loop of one channel is in Retry, the rate limiter in
    RateLimit. *)

From S2P Require Export Channel GoTime RateLimit Retry.

(** type Alert struct *)
Record Alert : Type := mkAlert {
  a_Timestamp : time;
  a_Command : string;
  a_Source : string;
  a_DB : Z;
  a_Reason : string;
  a_Event : option Event
}.

Definition nl : string := String LF "".
Definition ellipsis : string := String "226" (String "128" (String "166" "")).

(** func (a Alert) Renderer() string *)
Definition Renderer (a : Alert) : string :=
  "[Redis Watcher] " +:+ a_Reason a +:+ nl
  +:+ "time: " +:+ RFC3339 (a_Timestamp a) +:+ nl
  +:+ "command: " +:+ a_Command a +:+ nl
  +:+ "source: " +:+ a_Source a +:+ " (db " +:+ Itoa (a_DB a) +:+ ")" +:+ nl
  +:+ match a_Event a with
      | None => ""
      | Some ev =>
          let line := CommandLine ev in
          let line := if 512 <? len line then str_take 512 line +:+ ellipsis else line in
          "raw: " +:+ line
      end.

(** A compiled regular expression: its text and the test of MatchString. *)
Record regexp : Type := mkRegexp { re_string : string; re_match : string → bool }.

(** type Engine struct, without its logger; a channel is known by its name. *)
Record Engine : Type := mkEngine {
  channels : list string;
  commands : gset string;
  patterns : list regexp;
  ignoredIPs : gset string;
  rate : rate_config;
  retry : retry_config;
  rates : gmap string bucket;
  e_in : chan Event;
  rep : reporter_kind;
  timeout : duration;
  drop : bool;
  dropped : Z
}.

(** type Options struct *)
Record Options : Type := mkOptions {
  o_Channels : list string;
  o_Commands : list string;
  o_Patterns : list string;
  o_IgnoredSourceIPs : list string;
  o_RateLimitEnabled : bool;
  o_RateWindow : duration;
  o_RateMaxAlerts : Z;
  o_RetryMaxAttempts : Z;
  o_RetryInitialBackoff : duration;
  o_RetryMaxBackoff : duration;
  o_BufferSize : Z;
  o_DropOnFull : bool;
  o_SendTimeout : duration;
  o_Reporter : reporter_kind
}.

(** The normalisation of the retry options by New. *)
Definition retry_of_options (o : Options) : retry_config :=
  let attempts := if (o_RetryMaxAttempts o <=? 0)%Z then 1%Z else o_RetryMaxAttempts o in
  let initial := if (o_RetryInitialBackoff o <? 0)%Z then 0%Z else o_RetryInitialBackoff o in
  let initial :=
    if ((0 <? o_RetryMaxBackoff o) && (o_RetryMaxBackoff o <? initial))%Z
    then o_RetryMaxBackoff o else initial in
  mkRetryConfig attempts initial (o_RetryMaxBackoff o).

(** func (e *Engine) match(ev *event.Event) (string, bool) *)
Definition match_event (e : Engine) (ev : Event) : option string :=
  if decide (Command ev ∈ commands e) then Some ("suspicious command: " +:+ FullCommand ev)
  else
    match List.find (λ p, re_match p (CommandLine ev)) (patterns e) with
    | Some p => Some ("pattern match: " +:+ re_string p)
    | None => None
    end.

(** func (e *Engine) Submit(ev *event.Event): the new engine and the calls
    made, or [None] when the send blocks. *)
Definition Submit (ev : Event) (e : Engine) : option (Engine * list action) :=
  let set_in c := mkEngine (channels e) (commands e) (patterns e) (ignoredIPs e) (rate e)
                    (retry e) (rates e) c (rep e) (timeout e) (drop e) (dropped e) in
  match chan_send ev (e_in e) with
  | Some c => Some (set_in c, [])
  | None =>
      if drop e then
        Some (mkEngine (channels e) (commands e) (patterns e) (ignoredIPs e) (rate e) (retry e)
                (rates e) (e_in e) (rep e) (timeout e) (drop e) ((dropped e + 1) mod 2 ^ 64),
              record (rep e) AlertDropped)
      else None
  end.

Definition QueueDepth (e : Engine) : nat := chan_len (e_in e).
Definition QueueCapacity (e : Engine) : nat := ch_cap (e_in e).

(** The alert built for an event. *)
Definition alert_of (ev : Event) (reason : string) : Alert :=
  mkAlert (Timestamp ev) (FullCommand ev) (IP (EvSource ev) +:+ ":" +:+ Port (EvSource ev))
    (DB ev) reason (Some ev).

(** The loop over the channels: every channel is tried, the first error is
    kept for the status of the transaction.  [env ch a] is what channel [ch]
    makes of the alert [a], attempt by attempt. *)
Fixpoint dispatch (e : Engine) (env : string → Alert → Z → attempt_env) (a : Alert)
    (ev : Event) (chs : list string) : list action * option goerror :=
  match chs with
  | [] => ([], None)
  | ch :: chs' =>
      let '(tr, err) := sendOne (retry e) (rep e) (env ch a) ch ev (a_Reason a) in
      let '(tr', err') := dispatch e env a ev chs' in
      (tr ++ tr', match err with Some _ => err | None => err' end)
  end.

Definition set_rates (e : Engine) (r : gmap string bucket) : Engine :=
  mkEngine (channels e) (commands e) (patterns e) (ignoredIPs e) (rate e) (retry e) r
    (e_in e) (rep e) (timeout e) (drop e) (dropped e).

(** func (e *Engine) handle(ctx, ev) -- [now] is the clock read by the rate
    limiter, [env] the environment of each channel. *)
Definition handle (e : Engine) (now : Z) (env : string → Alert → Z → attempt_env) (ev : Event)
    : list action * Engine :=
  match match_event e ev with
  | None => ([], e)
  | Some reason =>
      if decide (IP (EvSource ev) ∈ ignoredIPs e) then ([], e)
      else
        let observed := report (rep e) (SuspiciousObserved (Command ev) (IP (EvSource ev))) in
        let '(ok, r) := rateLimitAllow (rate e) now ev (rates e) in
        if negb ok then (observed ++ record (rep e) (AlertRateLimited (Command ev)), set_rates e r)
        else
          let '(tr, err) := dispatch e env (alert_of ev reason) ev (channels e) in
          (observed
             ++ [Traced (CallStartSpan "task.alert" "alert.dispatch");
                 Traced (CallSetSpanTag "command" (Command ev));
                 Traced (CallSetSpanData "source_ip" (AString (IP (EvSource ev))));
                 Traced (CallSetSpanData "db" (AInt (DB ev)))]
             ++ tr ++ [Traced (CallFinishSpan err)],
           set_rates e r)
  end.

Section New.
Context `{UnicodeCase}.
(** [regexp.Compile] *)
Variable regexp_Compile : string → result regexp.

Fixpoint compile_patterns (ps : list string) : result (list regexp) :=
  match ps with
  | [] => Ok []
  | p :: ps' =>
      re ← wrapf "compile pattern %q" [p] (regexp_Compile ("(?i)" +:+ p));
      rest ← compile_patterns ps';
      Ok (re :: rest)
  end.

(** func New(o Options) ( *Engine, error) *)
Definition New (o : Options) : result Engine :=
  let buffer := if (o_BufferSize o <=? 0)%Z then 1024%Z else o_BufferSize o in
  let send_timeout := if (o_SendTimeout o <=? 0)%Z then (10 * Second)%Z else o_SendTimeout o in
  regexps ← compile_patterns (o_Patterns o);
  Ok (mkEngine (o_Channels o)
        (list_to_set ((λ c, ToUpper (TrimSpace c)) <$> o_Commands o))
        regexps
        (list_to_set (o_IgnoredSourceIPs o))
        (mkRateConfig (o_RateLimitEnabled o) (o_RateWindow o) (o_RateMaxAlerts o))
        (retry_of_options o) ∅ (make_chan Event (Z.to_nat buffer)) (o_Reporter o)
        send_timeout (o_DropOnFull o) 0).
End New.

(** One iteration of Run that receives an event: [None] when the queue is
    empty. *)
Definition run_step (e : Engine) (now : Z) (env : string → Alert → Z → attempt_env)
    : option (list action * Engine) :=
  match chan_recv (e_in e) with
  | None => None
  | Some (ev, c) =>
      Some (handle (mkEngine (channels e) (commands e) (patterns e) (ignoredIPs e) (rate e)
                      (retry e) (rates e) c (rep e) (timeout e) (drop e) (dropped e)) now env ev)
  end.

(** ** The engine over time: producers submitting, Run receiving *)

Inductive engine_op : Type :=
| SubmitOp (ev : Event)
| HandleOp (now : Z) (env : string → Alert → Z → attempt_env).

(** The events handled, the calls made and the final engine; [None] when a
    submission blocks.  A receive on an empty queue waits: it does nothing. *)
Fixpoint engine_run (ops : list engine_op) (e : Engine) : option (list Event * list action * Engine) :=
  match ops with
  | [] => Some ([], [], e)
  | SubmitOp ev :: ops' =>
      '(e, tr) ← Submit ev e;
      '(evs, tr', e) ← engine_run ops' e;
      Some (evs, tr ++ tr', e)
  | HandleOp now env :: ops' =>
      match run_step e now env, ch_buf (e_in e) with
      | Some (tr, e), ev :: _ => '(evs, tr', e) ← engine_run ops' e; Some (ev :: evs, tr ++ tr', e)
      | _, _ => engine_run ops' e
      end
  end.

Definition engine_chan_op (op : engine_op) : chan_op Event :=
  match op with SubmitOp ev => Offer ev | HandleOp _ _ => Take end.

Definition submitted (ops : list engine_op) : list Event := offers (engine_chan_op <$> ops).

(** ** Lemmas *)

Lemma handle_keeps e now env ev :
  e_in (handle e now env ev).2 = e_in e ∧ drop (handle e now env ev).2 = drop e ∧
  dropped (handle e now env ev).2 = dropped e.
Proof.
  unfold handle. repeat case_match; cbn [snd set_rates e_in drop dropped]; done.
Qed.

Lemma engine_run_chan ops : ∀ e,
  drop e = true → (0 ≤ dropped e < 2 ^ 64)%Z →
  let '(l, c) := chan_run (engine_chan_op <$> ops) (e_in e) in
  ∃ tr e', engine_run ops e = Some (taken l, tr, e') ∧ e_in e' = c ∧
           dropped e' = ((dropped e + Z.of_nat (length (rejected l))) mod 2 ^ 64)%Z.
Proof.
  induction ops as [|[ev|now env] ops IH]; intros e Hd Hr; cbn [fmap list_fmap engine_chan_op chan_run].
  - eexists [], e. cbn. rewrite Z.add_0_r, Z.mod_small by lia. done.
  - cbn [engine_run]. unfold Submit. destruct (chan_send ev (e_in e)) as [c|] eqn:E.
    + cbn [mbind option_bind].
      match goal with |- context [engine_run ops ?e1] => specialize (IH e1 Hd Hr) end.
      cbn [e_in] in IH. destruct (chan_run (engine_chan_op <$> ops) c) as [l c'].
      destruct IH as (tr & e' & -> & Hc & Hn). cbn. eauto.
    + rewrite Hd. cbn [mbind option_bind].
      match goal with |- context [engine_run ops ?e1] =>
        specialize (IH e1 eq_refl ltac:(cbn; apply Z.mod_pos_bound; lia)) end.
      cbn [e_in dropped] in IH. destruct (chan_run (engine_chan_op <$> ops) (e_in e)) as [l c'].
      destruct IH as (tr & e' & -> & Hc & Hn). cbn. eexists _, _. split_and!; [done..|].
      rewrite Hn, Zplus_mod_idemp_l. f_equal. lia.
  - cbn [engine_run]. unfold run_step. destruct (chan_recv (e_in e)) as [[ev c]|] eqn:E.
    + apply chan_recv_Some in E as E'. destruct E' as [-> _].
      match goal with |- context [handle ?e1 now env ev] =>
        destruct (handle_keeps e1 now env ev) as (H1 & H2 & H3);
        destruct (handle e1 now env ev) as [tr1 e2] end.
      cbn [snd e_in drop dropped] in *. specialize (IH e2 ltac:(congruence) ltac:(lia)).
      rewrite H1 in IH. destruct (chan_run (engine_chan_op <$> ops) c) as [l c'].
      destruct IH as (tr & e' & -> & Hc & Hn). cbn. eexists _, _. split_and!; [done..|congruence].
    + apply IH; done.
Qed.

(** The channel an action is about. *)
Definition about (ch : string) (a : action) : bool :=
  match a with
  | SendAttempt c _ | Report (AlertSent c _) | Report (AlertError c _) | Report (AlertRetry c)
  | Report (ObserveAlertSend c _) | Report (SetAlertChannelFailing c _) => bool_decide (c = ch)
  | _ => false
  end.

Lemma filter_about_report ch rep c : List.filter (about ch) (report rep c) = if about ch (Report c) then report rep c else [].
Proof. destruct rep; cbn; by case_match. Qed.
Lemma filter_about_record ch rep c : List.filter (about ch) (record rep c) = if about ch (Report c) then record rep c else [].
Proof. destruct rep; cbn; by case_match. Qed.

(** The calls of one channel's dispatch are about that channel only. *)
Lemma send_loop_about cfg rep env ch ev ch' n : ∀ i backoff last,
  ch' ≠ ch → List.filter (about ch') (send_loop cfg rep env ch ev n i backoff last).1 = [].
Proof.
  induction n as [|n IH]; intros i backoff last Hne; [done|].
  assert (Hb : bool_decide (ch = ch') = false) by (apply bool_decide_eq_false; congruence).
  cbn [send_loop]. destruct (send_result (env i)) as [err|].
  - destruct (i =? retryMax cfg)%Z; [|destruct (interrupted (env i)) as [ce|]].
    + cbn [fst]. rewrite !List.filter_app. cbn [List.filter about]. rewrite Hb.
      rewrite filter_about_report, filter_about_record. cbn [about]. by rewrite Hb.
    + cbn [fst]. rewrite !List.filter_app. cbn [List.filter about]. rewrite Hb.
      rewrite filter_about_report, filter_about_record. cbn [about]. by rewrite Hb.
    + specialize (IH (i + 1)%Z (nextBackoff backoff (retryMaxBackoff cfg)) (Some err) Hne).
      destruct (send_loop _ _ _ _ _ n _ _ _) as [tr ex]. cbn [fst] in *.
      rewrite !List.filter_app, IH. cbn [List.filter about]. rewrite Hb.
      rewrite filter_about_report, !filter_about_record. cbn [about]. by rewrite Hb.
  - cbn [fst]. rewrite !List.filter_app. cbn [List.filter about]. rewrite Hb.
    rewrite filter_about_report, !filter_about_record. cbn [about]. by rewrite Hb.
Qed.

Lemma sendOne_about cfg rep env ch ev reason ch' :
  ch' ≠ ch → List.filter (about ch') (sendOne cfg rep env ch ev reason).1 = [].
Proof.
  intros Hne. assert (Hb : bool_decide (ch = ch') = false) by (apply bool_decide_eq_false; congruence).
  unfold sendOne. pose proof (send_loop_about cfg rep env ch ev ch'
    (Z.to_nat (retryMax cfg)) 1 (retryInitialBackoff cfg) None Hne) as H.
  destruct (send_loop _ _ _ _ _ _ _ _ _) as [tr [|m l]]; cbn [fst] in *.
  - by rewrite List.filter_app, H.
  - rewrite !List.filter_app, H, filter_about_record. cbn [about]. by rewrite Hb.
Qed.

Lemma dispatch_about e env a ev chs ch :
  NoDup chs → ch ∈ chs →
  List.filter (about ch) (dispatch e env a ev chs).1
  = List.filter (about ch) (sendOne (retry e) (rep e) (env ch a) ch ev (a_Reason a)).1.
Proof.
  intros Hnd Hin. induction Hnd as [|c chs Hc Hnd IH]; [by apply elem_of_nil in Hin|].
  cbn [dispatch]. destruct (sendOne (retry e) (rep e) (env c a) c ev (a_Reason a)) as [tr err] eqn:Es.
  destruct (dispatch e env a ev chs) as [tr' err'] eqn:Ed. cbn [fst].
  rewrite List.filter_app. apply elem_of_cons in Hin as [->|Hin].
  - rewrite Es. cbn [fst].
    assert (Hnil : ∀ chs', c ∉ chs' → List.filter (about c) (dispatch e env a ev chs').1 = []).
    { induction chs' as [|c' chs' IH']; intros Hn; [done|]. cbn [dispatch].
      pose proof (sendOne_about (retry e) (rep e) (env c' a) c' ev (a_Reason a) c ltac:(set_solver)) as Hs.
      specialize (IH' ltac:(set_solver)).
      destruct (sendOne _ _ _ c' _ _), (dispatch _ _ _ _ chs'). cbn [fst] in *.
      by rewrite List.filter_app, Hs, IH'. }
    specialize (Hnil chs Hc). rewrite Ed in Hnil. cbn [fst] in Hnil. by rewrite Hnil, app_nil_r.
  - assert (ch ≠ c) by set_solver.
    pose proof (sendOne_about (retry e) (rep e) (env c a) c ev (a_Reason a) ch ltac:(done)) as Hs.
    rewrite Es in Hs. cbn [fst] in Hs, IH. by rewrite Hs, IH.
Qed.

(** The calls of a trace on Sentry. *)
Definition traced (tr : list action) : list sentryx_call :=
  omap (λ a, match a with Traced c => Some c | _ => None end) tr.

Lemma traced_app t1 t2 : traced (t1 ++ t2) = traced t1 ++ traced t2.
Proof. apply omap_app. Qed.
Lemma traced_report k c : traced (report k c) = [].
Proof. by destruct k. Qed.
Lemma traced_record k c : traced (record k c) = [].
Proof. by destruct k. Qed.
Lemma traced_cons a t : traced (a :: t) = match a with Traced c => c :: traced t | _ => traced t end.
Proof. by destruct a. Qed.
Lemma traced_nil : traced [] = [].
Proof. done. Qed.
Create Rewrite HintDb traced.
#[export] Hint Rewrite traced_app traced_cons traced_nil traced_report traced_record : traced.

Lemma send_loop_traced cfg rep env ch ev n : ∀ i backoff last tr ex,
  send_loop cfg rep env ch ev n i backoff last = (tr, ex) →
  match ex with
  | Delivered => ∃ k, traced tr = [CallSetSpanData "attempts" (AInt k); CallFinishSpan None]
  | Exhausted _ _ => traced tr = []
  end.
Proof.
  induction n as [|n IH]; intros i backoff last tr ex; cbn [send_loop]; [by intros [= <- <-]|].
  destruct (send_result (env i)) as [err|]; [|intros [= <- <-]; exists i; by autorewrite with traced].
  destruct (i =? retryMax cfg)%Z; [intros [= <- <-]; by autorewrite with traced|].
  destruct (interrupted (env i)); [intros [= <- <-]; by autorewrite with traced|].
  destruct (send_loop _ _ _ _ _ n _ _ _) as [tr' ex'] eqn:El. intros [= <- <-]. apply IH in El.
  autorewrite with traced. exact El.
Qed.

(** The calls of one dispatch on Sentry: its span, with its outcome, then the
    capture of the error it returns. *)
Lemma sendOne_traced cfg rep env ch ev reason :
  ∃ k kv, traced (sendOne cfg rep env ch ev reason).1
    = [CallStartSpan "http.client" ("alert.send." +:+ ch); CallSetSpanTag "channel" ch;
       CallSetSpanTag "command" (Command ev); CallSetSpanData "attempts" (AInt k);
       CallFinishSpan (sendOne cfg rep env ch ev reason).2] ++ kv ∧
    (kv = [] ∧ (sendOne cfg rep env ch ev reason).2 = None
     ∨ ∃ d, kv = [CallCapture (sendOne cfg rep env ch ev reason).2 d]).
Proof.
  unfold sendOne. destruct (send_loop _ _ _ _ _ _ _ _ _) as [tr ex] eqn:El. apply send_loop_traced in El.
  destruct ex as [|m lastErr]; cbn [fst snd].
  - destruct El as [k El]. exists k, []. autorewrite with traced. rewrite El. auto.
  - exists m, [CallCapture lastErr (failure_details cfg ch ev reason m)].
    autorewrite with traced. rewrite El. eauto.
Qed.

(** The channels whose dispatch ends in an error. *)
Definition failed_channels (e : Engine) (env : string → Alert → Z → attempt_env) (a : Alert) (ev : Event)
    (chs : list string) : list string :=
  List.filter (λ ch, bool_decide (is_Some (sendOne (retry e) (rep e) (env ch a) ch ev (a_Reason a)).2)) chs.

(** What [n] channel spans under an open transaction, [errs] of which end in an
    error, make of the SDK. *)
Definition channel_spans (ctx_hub current : option hub) (cs : list sentryx_call) (n errs : nat) : Prop :=
  let sdk := sdk_calls ctx_hub current 1 cs in
  span_depth cs 1 = Some 1 ∧ seen is_transaction sdk = 0 ∧ seen is_child sdk = n ∧ seen is_finish sdk = n ∧
  seen is_exception sdk = if reaches ctx_hub current then errs else 0.

Lemma channel_spans_nil ctx_hub current : channel_spans ctx_hub current [] 0 0.
Proof. unfold channel_spans. destruct (reaches ctx_hub current); by split_and!. Qed.

Lemma channel_spans_app ctx_hub current cs1 cs2 n1 n2 errs1 errs2 :
  channel_spans ctx_hub current cs1 n1 errs1 → channel_spans ctx_hub current cs2 n2 errs2 →
  channel_spans ctx_hub current (cs1 ++ cs2) (n1 + n2) (errs1 + errs2).
Proof.
  unfold channel_spans. intros (Hd1 & Ht1 & Hc1 & Hf1 & He1) (Hd2 & Ht2 & Hc2 & Hf2 & He2).
  rewrite (span_depth_app _ _ _ _ Hd1), (sdk_calls_app _ _ _ _ _ _ Hd1), !seen_app.
  rewrite Ht1, Ht2, Hc1, Hc2, Hf1, Hf2, He1, He2. by destruct (reaches ctx_hub current).
Qed.

Lemma sendOne_spans ctx_hub current cfg rep env ch ev reason :
  let r := sendOne cfg rep env ch ev reason in
  channel_spans ctx_hub current (traced r.1) 1 (if bool_decide (is_Some r.2) then 1 else 0).
Proof.
  cbn zeta. destruct (sendOne_traced cfg rep env ch ev reason) as (k & kv & -> & Hkv).
  destruct (sendOne cfg rep env ch ev reason) as [tr res]. cbn [fst snd] in *.
  assert (Hspan : channel_spans ctx_hub current
    [CallStartSpan "http.client" ("alert.send." +:+ ch); CallSetSpanTag "channel" ch;
     CallSetSpanTag "command" (Command ev); CallSetSpanData "attempts" (AInt k); CallFinishSpan res] 1 0)
    by (unfold channel_spans; destruct res, (reaches ctx_hub current); by split_and!).
  apply (channel_spans_app ctx_hub current _ kv 1 0 0 _ Hspan).
  destruct Hkv as [[-> ->]|[d ->]]; [apply channel_spans_nil|].
  unfold channel_spans. cbn [sdk_calls]. rewrite app_nil_r. destruct res as [err|].
  - destruct (seen_Capture ctx_hub current err (tags_kv d)) as (-> & -> & -> & ->). by split_and!.
  - apply (channel_spans_nil ctx_hub current).
Qed.

Lemma dispatch_spans ctx_hub current e env a ev chs :
  channel_spans ctx_hub current (traced (dispatch e env a ev chs).1) (length chs)
    (length (failed_channels e env a ev chs)).
Proof.
  induction chs as [|ch chs IH]; [apply channel_spans_nil|]. cbn [dispatch].
  pose proof (sendOne_spans ctx_hub current (retry e) (rep e) (env ch a) ch ev (a_Reason a)) as Hs.
  unfold failed_channels. cbn [List.filter]. fold (failed_channels e env a ev chs).
  destruct (sendOne _ _ _ ch _ _) as [tr err], (dispatch _ _ _ _ chs) as [tr' err']. cbn [fst snd] in *.
  rewrite traced_app. pose proof (channel_spans_app _ _ _ _ _ _ _ _ Hs IH) as H.
  by destruct (bool_decide (is_Some err)).
Qed.

(** ** Properties *)

(** An event that matches no rule, or comes from an allowlisted source, has
    no effect at all: no call is made and the engine, its rate limiting buckets
    included, is unchanged. *)
Theorem handle_silent (e : Engine) (now : Z) (env : string → Alert → Z → attempt_env) (ev : Event) :
  match_event e ev = None ∨ IP (EvSource ev) ∈ ignoredIPs e →
  handle e now env ev = ([], e).
Proof.
  intros [H|H]; unfold handle; [by rewrite H|]. case_match; [|done]. by rewrite decide_True.
Qed.

Definition example_engine : Engine :=
  mkEngine ["telegram"; "webhook"] {["FLUSHALL"; "CLIENT KILL"]} [] {["127.0.0.1"]}
    example_config example_retry ∅ (make_chan Event 2) FullReporter (10 * Second) true 0.

Definition example_env (ch : string) (_ : Alert) : Z → attempt_env :=
  example_attempts (if decide (ch = "telegram") then [Some refused; Some refused; Some refused] else []).

Lemma handle_silent_witness :
  handle example_engine 0 example_env
    (mkEvent (mkTime 0 0) 0 (mkSource "127.0.0.1" "1") "FLUSHALL" "" []) = ([], example_engine).
Proof. apply handle_silent. right. vm_compute. reflexivity. Defined.

(** C18: every channel gets the alert -- once an event matches, is not
    allowlisted and passes the rate limiter, each configured channel goes
    through exactly its own dispatch with the alert built from the event,
    whatever the other channels do: a failing channel takes nothing away from
    the others. *)
Theorem handle_channels_independent (e : Engine) (now : Z)
    (env : string → Alert → Z → attempt_env) (ev : Event) (reason ch : string) :
  match_event e ev = Some reason → IP (EvSource ev) ∉ ignoredIPs e →
  (rateLimitAllow (rate e) now ev (rates e)).1 = true →
  NoDup (channels e) → ch ∈ channels e →
  List.filter (about ch) (handle e now env ev).1
  = List.filter (about ch)
      (sendOne (retry e) (rep e) (env ch (alert_of ev reason)) ch ev reason).1.
Proof.
  intros Hm Hi Hr Hnd Hin. unfold handle. rewrite Hm, decide_False by done.
  destruct (rateLimitAllow _ _ _ _) as [ok r]. cbn in Hr. subst ok. cbn [negb].
  pose proof (dispatch_about e env (alert_of ev reason) ev (channels e) ch Hnd Hin) as Hd.
  destruct (dispatch _ _ _ _ _) as [tr err]. cbn [fst] in *.
  rewrite !List.filter_app, filter_about_report, Hd. cbn. by rewrite app_nil_r.
Qed.

Lemma handle_channels_independent_witness :
  occurs is_sent (List.filter (about "webhook") (handle example_engine 0 example_env example_event).1) = 1
  ∧ occurs is_send (List.filter (about "telegram") (handle example_engine 0 example_env example_event).1) = 3.
Proof.
  rewrite (handle_channels_independent example_engine 0 example_env example_event
    "suspicious command: FLUSHALL" "webhook");
    [|vm_compute; reflexivity|apply (bool_decide_unpack _); vm_compute; exact I|vm_compute; reflexivity
     |apply (bool_decide_unpack _); vm_compute; exact I|apply (bool_decide_unpack _); vm_compute; exact I].
  split; vm_compute; reflexivity.
Defined.

(** One Sentry transaction per alert -- handling an event that raises an
    alert opens one transaction, and under it one span per channel; every span
    is finished, innermost first, and tags and data are set on an open span;
    when a client with a DSN is installed, one exception is captured per channel
    whose dispatch ends in an error, and none for an attempt that is recovered
    from. *)
Theorem handle_one_transaction (e : Engine) (now : Z) (env : string → Alert → Z → attempt_env) (ev : Event)
    (reason : string) (ctx_hub current : option hub) :
  match_event e ev = Some reason → IP (EvSource ev) ∉ ignoredIPs e →
  (rateLimitAllow (rate e) now ev (rates e)).1 = true →
  let cs := traced (handle e now env ev).1 in
  let sdk := sdk_calls ctx_hub current 0 cs in
  span_depth cs 0 = Some 0 ∧ seen is_transaction sdk = 1 ∧ seen is_child sdk = length (channels e) ∧
  seen is_finish sdk = S (length (channels e)) ∧
  seen is_exception sdk =
    if reaches ctx_hub current
    then length (failed_channels e env (alert_of ev reason) ev (channels e)) else 0.
Proof.
  intros Hm Hi Hr. unfold handle. rewrite Hm, decide_False by done.
  destruct (rateLimitAllow _ _ _ _) as [ok r]. cbn [fst] in Hr. subst ok. cbn [negb].
  destruct (dispatch_spans ctx_hub current e env (alert_of ev reason) ev (channels e)) as (Hd & Ht & Hc & Hf & He).
  destruct (dispatch _ _ _ _ _) as [tr err]. cbn [fst] in *. autorewrite with traced. cbn [app span_depth sdk_calls].
  rewrite (span_depth_app _ _ _ _ Hd), (sdk_calls_app _ _ _ _ _ _ Hd), !seen_app, Ht, Hc, Hf, He.
  by split_and!; destruct err; cbn; try lia.
Qed.

Lemma handle_one_transaction_witness :
  let sdk := sdk_calls None (Some (mkHub (Some "https://key@sentry.example.org/1"))) 0
               (traced (handle example_engine 0 example_env example_event).1) in
  seen is_transaction sdk = 1 ∧ seen is_child sdk = 2 ∧ seen is_exception sdk = 1.
Proof.
  destruct (handle_one_transaction example_engine 0 example_env example_event "suspicious command: FLUSHALL"
    None (Some (mkHub (Some "https://key@sentry.example.org/1")))) as (_ & H1 & H2 & _ & H3);
    [vm_compute; reflexivity|apply (bool_decide_unpack _); vm_compute; exact I|vm_compute; reflexivity|].
  cbn zeta. split_and!; [exact H1|exact H2|rewrite H3; vm_compute; reflexivity].
Defined.

(** The command rules look at the command name only -- an entry of
    suspicious_commands that names a subcommand (any entry with a space, such as
    CLIENT KILL) never matters: two engines whose command sets agree on the
    entries without a space decide every event alike. *)
Theorem match_ignores_subcommand_entries (e e' : Engine) (ev : Event) :
  (∀ c, contains_byte c SP = false → c ∈ commands e ↔ c ∈ commands e') →
  patterns e = patterns e' →
  contains_byte (Command ev) SP = false →
  match_event e ev = match_event e' ev.
Proof.
  intros Hc Hp Hs. unfold match_event. rewrite Hp.
  destruct (decide (Command ev ∈ commands e)) as [Hin|Hin].
  - by rewrite decide_True by (by apply Hc).
  - by rewrite decide_False by (by rewrite <- Hc).
Qed.

Lemma match_ignores_subcommand_entries_witness :
  match_event example_engine
    (mkEvent (mkTime 0 0) 0 (mkSource "10.0.0.1" "1") "CLIENT" "KILL" ["kill"; "10.0.0.2:1"]) = None.
Proof.
  rewrite (match_ignores_subcommand_entries example_engine
    (mkEngine [] {["FLUSHALL"]} [] ∅ example_config example_retry ∅ (make_chan Event 2)
       FullReporter 1 true 0)); [vm_compute; reflexivity| |reflexivity|reflexivity].
  intros c Hc. cbn [commands example_engine]. split; [|set_solver].
  intros [H|H]%elem_of_union; [exact H|]. apply elem_of_singleton in H. subst c. discriminate Hc.
Defined.

(** C24: the queue of the engine with drop_on_full -- submissions never block,
    the events handled are the accepted ones in submission order up to those
    still queued, the queue stays within its capacity, and every event not
    accepted is counted as dropped. *)
Theorem engine_queue_conservation (e : Engine) (ops : list engine_op) :
  drop e = true → chan_wf (e_in e) → (0 ≤ dropped e < 2 ^ 64)%Z →
  ∃ handled tr e' acc,
    engine_run ops e = Some (handled, tr, e') ∧
    acc `sublist_of` submitted ops ∧
    ch_buf (e_in e) ++ acc = handled ++ ch_buf (e_in e') ∧
    chan_wf (e_in e') ∧
    dropped e' = ((dropped e + Z.of_nat (length (submitted ops) - length acc)) mod 2 ^ 64)%Z.
Proof.
  intros Hd Hw Hr. pose proof (engine_run_chan ops e Hd Hr) as H.
  pose proof (chan_run_fifo (engine_chan_op <$> ops) (e_in e)) as Hf.
  pose proof (chan_run_offers (engine_chan_op <$> ops) (e_in e)) as Ho.
  pose proof (chan_run_wf (engine_chan_op <$> ops) (e_in e) Hw) as Hwf.
  destruct (chan_run _ (e_in e)) as [l c]. destruct H as (tr & e' & Hrun & <- & Hdrop).
  destruct Ho as (Hl & Hsub & _). exists (taken l), tr, e', (accepted l).
  split_and!; try done. rewrite Hdrop. unfold submitted.
  assert (length (rejected l) = length (offers (engine_chan_op <$> ops)) - length (accepted l)) as -> by lia.
  done.
Qed.

Lemma engine_queue_conservation_witness :
  ∃ handled tr e' acc,
    engine_run [SubmitOp example_event; SubmitOp example_event; SubmitOp example_event;
                HandleOp 0 example_env] example_engine = Some (handled, tr, e') ∧
    acc `sublist_of` [example_event; example_event; example_event] ∧
    [] ++ acc = handled ++ ch_buf (e_in e') ∧ chan_wf (e_in e') ∧
    dropped e' = ((0 + Z.of_nat (3 - length acc)) mod 2 ^ 64)%Z.
Proof.
  apply (engine_queue_conservation example_engine
    [SubmitOp example_event; SubmitOp example_event; SubmitOp example_event; HandleOp 0 example_env]).
  - reflexivity.
  - apply make_chan_wf.
  - split; [discriminate|reflexivity].
Defined.

(** What New guarantees of an engine, and what the dispatch relies on. *)
Definition engine_wf (e : Engine) : Prop :=
  (1 ≤ retryMax (retry e))%Z ∧ (0 ≤ retryInitialBackoff (retry e))%Z ∧
  ((0 < retryMaxBackoff (retry e))%Z →
     (retryInitialBackoff (retry e) ≤ retryMaxBackoff (retry e))%Z) ∧
  0 < ch_cap (e_in e) ∧ chan_wf (e_in e) ∧ (0 < timeout e)%Z ∧ rates e = ∅ ∧ dropped e = 0%Z.

Lemma retry_of_options_wf o :
  (1 ≤ retryMax (retry_of_options o))%Z ∧ (0 ≤ retryInitialBackoff (retry_of_options o))%Z ∧
  ((0 < retryMaxBackoff (retry_of_options o))%Z →
     (retryInitialBackoff (retry_of_options o) ≤ retryMaxBackoff (retry_of_options o))%Z).
Proof.
  unfold retry_of_options. cbn.
  destruct (o_RetryMaxAttempts o <=? 0)%Z eqn:E1; destruct (o_RetryInitialBackoff o <? 0)%Z eqn:E2;
    destruct (0 <? o_RetryMaxBackoff o)%Z eqn:E3; cbn [andb];
    try destruct (o_RetryMaxBackoff o <? _)%Z eqn:E4; lia.
Qed.

(** Construction -- New fails only when a pattern does not compile; the
    engine it returns is well formed whatever the options: at least one attempt,
    a non-negative initial backoff within the cap, a queue that can hold an
    event, a positive send timeout and no rate limiting state. *)
Theorem New_wf `{UnicodeCase} (regexp_Compile : string → result regexp) (o : Options) :
  match New regexp_Compile o with
  | Ok e => engine_wf e ∧ channels e = o_Channels o ∧
            Forall2 (λ p re, regexp_Compile ("(?i)" +:+ p) = Ok re) (o_Patterns o) (patterns e)
  | _ => Exists (λ p, is_ok (regexp_Compile ("(?i)" +:+ p)) = false) (o_Patterns o)
  end.
Proof.
  unfold New.
  assert (Hp : match compile_patterns regexp_Compile (o_Patterns o) with
    | Ok res => Forall2 (λ p re, regexp_Compile ("(?i)" +:+ p) = Ok re) (o_Patterns o) res
    | _ => Exists (λ p, is_ok (regexp_Compile ("(?i)" +:+ p)) = false) (o_Patterns o) end).
  { induction (o_Patterns o) as [|p ps IH]; cbn [compile_patterns]; [constructor|].
    destruct (regexp_Compile ("(?i)" +:+ p)) as [re| |] eqn:E; cbn [wrapf mbind result_bind].
    - destruct (compile_patterns regexp_Compile ps) as [res| |]; cbn [mbind result_bind].
      + by constructor.
      + by apply Exists_cons_tl.
      + by apply Exists_cons_tl.
    - apply Exists_cons_hd. by rewrite E.
    - apply Exists_cons_hd. by rewrite E. }
  destruct (compile_patterns _ _) as [res| |]; cbn [mbind result_bind]; [|done|done].
  split_and!; [|done|done]. destruct (retry_of_options_wf o) as (H1 & H2 & H3).
  unfold engine_wf. cbn [retry e_in timeout rates dropped ch_cap ch_buf make_chan]. split_and!; try done.
  - destruct (Z.leb_spec (o_BufferSize o) 0); lia.
  - apply make_chan_wf.
  - unfold Second. destruct (Z.leb_spec (o_SendTimeout o) 0); lia.
Qed.
