(* ===== verification/Json.v ===== *)
(** * Package [encoding/json], as far as the program marshals

    The values the program gives to [json.Marshal] are records of strings,
    integers, instants, lists and string maps.  This file models the encoder on
    them -- string escaping included, with its treatment of invalid UTF-8 and of
    the characters HTML and JavaScript single out -- and proves the two facts
    the outputs rest on: an encoded value has no control byte, so a JSON line
    is one line, and a reader of JSON strings gets a valid UTF-8 string back. *)

From S2P Require Export GoTime.

Local Open Scope Z_scope.

(** ** UTF-8 *)

Definition between (lo hi : Z) (c : ascii) : bool := (lo <=? byte_val c) && (byte_val c <=? hi).
Definition cont (c : ascii) : bool := between 128 191 c.

(** The well-formed multi-byte sequences of [unicode/utf8]. *)
Definition rune2 (a b : ascii) : bool := between 194 223 a && cont b.
Definition rune3 (a b c : ascii) : bool :=
  ((byte_val a =? 224) && between 160 191 b || (between 225 236 a || between 238 239 a) && cont b
   || (byte_val a =? 237) && between 128 159 b) && cont c.
Definition rune4 (a b c d : ascii) : bool :=
  ((byte_val a =? 240) && between 144 191 b || between 241 243 a && cont b
   || (byte_val a =? 244) && between 128 143 b) && cont c && cont d.

Fixpoint utf8_Valid (s : string) : bool :=
  match s with
  | EmptyString => true
  | String a s1 =>
      if byte_val a <? 128 then utf8_Valid s1
      else match s1 with
           | EmptyString => false
           | String b s2 =>
               if rune2 a b then utf8_Valid s2
               else match s2 with
                    | EmptyString => false
                    | String c s3 =>
                        if rune3 a b c then utf8_Valid s3
                        else match s3 with
                             | EmptyString => false
                             | String d s4 => rune4 a b c d && utf8_Valid s4
                             end
                    end
           end
  end.

(** ** String escaping ([appendString] with escapeHTML) *)

Definition hex_digit (n : N) : ascii :=
  ascii_of_N (if (n <? 10)%N then 48 + n else 87 + n).

Definition u00 (c : ascii) : string :=
  "\u00" +:+ String (hex_digit (N_of_ascii c / 16)) (String (hex_digit (N_of_ascii c mod 16)) "").

Definition json_byte (c : ascii) : string :=
  let v := byte_val c in
  if (v =? 34) || (v =? 92) then String BACKSLASH (String c "")
  else if v =? 8 then "\b" else if v =? 12 then "\f" else if v =? 10 then "\n"
  else if v =? 13 then "\r" else if v =? 9 then "\t"
  else if (v <? 32) || (v =? 60) || (v =? 62) || (v =? 38) then u00 c
  else String c "".

(** U+2028 and U+2029. *)
Definition line_sep (a b c : ascii) : bool :=
  (byte_val a =? 226) && (byte_val b =? 128) && ((byte_val c =? 168) || (byte_val c =? 169)).

Fixpoint json_chars (s : string) : string :=
  match s with
  | EmptyString => ""
  | String a s1 =>
      if byte_val a <? 128 then json_byte a +:+ json_chars s1
      else match s1 with
           | EmptyString => "\ufffd"
           | String b s2 =>
               if rune2 a b then String a (String b (json_chars s2))
               else match s2 with
                    | EmptyString => "\ufffd" +:+ json_chars s1
                    | String c s3 =>
                        if rune3 a b c then
                          (if line_sep a b c
                           then "\u202" +:+ String (hex_digit (N_of_ascii c mod 16)) ""
                           else String a (String b (String c ""))) +:+ json_chars s3
                        else match s3 with
                             | EmptyString => "\ufffd" +:+ json_chars s1
                             | String d s4 =>
                                 if rune4 a b c d then
                                   String a (String b (String c (String d (json_chars s4))))
                                 else "\ufffd" +:+ json_chars s1
                             end
                    end
           end
  end.

Definition json_string (s : string) : string :=
  String DQUOTE "" +:+ json_chars s +:+ String DQUOTE "".

(** ** Values *)

#[warnings="-register-all"]
Inductive json : Type :=
| JNull
| JBool (b : bool)
| JNum (z : Z)
| JStr (s : string)
| JArr (l : list json)
| JObj (fields : list (string * json)).

Fixpoint join (sep : string) (l : list string) : string :=
  match l with
  | [] => ""
  | [x] => x
  | x :: l' => x +:+ sep +:+ join sep l'
  end.

Fixpoint json_text (j : json) : string :=
  match j with
  | JNull => "null"
  | JBool b => if b then "true" else "false"
  | JNum z => Itoa z
  | JStr s => json_string s
  | JArr l => "[" +:+ join "," (map json_text l) +:+ "]"
  | JObj fs => "{" +:+ join "," (map (λ f, json_string (fst f) +:+ ":" +:+ json_text (snd f)) fs) +:+ "}"
  end.

(** [time.Time.MarshalJSON]: an instant whose year does not have four digits is
    refused. *)
Definition time_MarshalJSON (t : time) : result json :=
  let y := d_year (date_of_days (t_sec t / 86400)) in
  if (0 <=? y) && (y <=? 9999) then Ok (JStr (RFC3339Nano t))
  else Err (Errorf "json: error calling MarshalJSON for type time.Time: Time.MarshalJSON: year outside of range [0,9999]" []).

(** The [omitempty] option of a string field, of a slice field and of an
    integer field. *)
Definition omitempty_str (k s : string) : list (string * json) :=
  if decide (s = "") then [] else [(k, JStr s)].
Definition omitempty_strs (k : string) (l : list string) : list (string * json) :=
  match l with [] => [] | _ => [(k, JArr (JStr <$> l))] end.
Definition omitempty_int (k : string) (z : Z) : list (string * json) :=
  if z =? 0 then [] else [(k, JNum z)].

(** The struct tags of Source and Event. *)
Definition Source_json (s : Source) : json := JObj [("ip", JStr (IP s)); ("port", JStr (Port s))].

Definition Event_json (ev : Event) : result json :=
  ts ← time_MarshalJSON (Timestamp ev);
  Ok (JObj ([("timestamp", ts); ("db", JNum (DB ev)); ("source", Source_json (EvSource ev));
             ("command", JStr (Command ev))]
            ++ omitempty_str "subcommand" (Subcommand ev) ++ omitempty_strs "args" (Args ev))).

Example json_chars_escapes :
  json_chars ("a<b" +:+ String LF (String "001" (String "255" (String DQUOTE "é"))))
  = "a\u003cb\n\u0001\ufffd\" +:+ String DQUOTE "é".
Proof. reflexivity. Qed.

(** ** Lemmas: an encoded value has no control byte *)

Definition no_ctl (s : string) : bool := str_forallb (λ c, 32 <=? byte_val c) s.

Lemma no_ctl_cons c s : no_ctl (String c s) = (32 <=? byte_val c) && no_ctl s.
Proof. unfold no_ctl, str_forallb. cbn [str_existsb]. by rewrite negb_orb, negb_involutive. Qed.

Lemma no_ctl_nil : no_ctl "" = true.
Proof. done. Qed.

Lemma no_ctl_app a b : no_ctl (a +:+ b) = no_ctl a && no_ctl b.
Proof.
  induction a as [|c a IH]; [done|]. rewrite str_app_cons, !no_ctl_cons, IH. apply andb_assoc.
Qed.

Create Rewrite HintDb ctl.
#[local] Hint Rewrite no_ctl_cons no_ctl_nil no_ctl_app andb_true_r : ctl.

Lemma json_byte_no_ctl c : no_ctl (json_byte c) = true.
Proof. destruct c as [[] [] [] [] [] [] [] []]; vm_compute; reflexivity. Qed.

Lemma hex_digit_no_ctl c : (32 <=? byte_val (hex_digit (N_of_ascii c mod 16))) = true.
Proof. destruct c as [[] [] [] [] [] [] [] []]; vm_compute; reflexivity. Qed.

Lemma high_no_ctl a : (byte_val a <? 128) = false → (32 <=? byte_val a) = true.
Proof. rewrite Z.ltb_ge. intros H. apply Z.leb_le. lia. Qed.

Lemma cont_no_ctl b : cont b = true → (32 <=? byte_val b) = true.
Proof. unfold cont, between. rewrite andb_true_iff, !Z.leb_le. lia. Qed.

(** The bytes of a multi-byte sequence are not ASCII. *)
Lemma between_high lo hi b : 128 <= lo → between lo hi b = true → 128 <= byte_val b.
Proof. unfold between. rewrite andb_true_iff, !Z.leb_le. lia. Qed.

Ltac rune_high :=
  unfold rune2, rune3, rune4, cont in *;
  repeat match goal with
  | H : _ && _ = true |- _ => apply andb_true_iff in H as [? ?]
  | H : _ || _ = true |- _ => apply orb_true_iff in H as [?|?]
  | H : between _ _ _ = true |- _ => apply between_high in H; [|lia]
  | H : (_ =? _) = true |- _ => apply Z.eqb_eq in H
  end.

Lemma rune2_high a b : rune2 a b = true → 128 <= byte_val b.
Proof. intros; rune_high; lia. Qed.
Lemma rune3_high a b c : rune3 a b c = true → 128 <= byte_val b ∧ 128 <= byte_val c.
Proof. intros; rune_high; lia. Qed.
Lemma rune4_high a b c d :
  rune4 a b c d = true → 128 <= byte_val b ∧ 128 <= byte_val c ∧ 128 <= byte_val d.
Proof. intros; rune_high; lia. Qed.

(** Induction on the number of bytes left. *)
Lemma str_len_ind (P : string → Prop) :
  (∀ s, (∀ t, (len t < len s)%nat → P t) → P s) → ∀ s, P s.
Proof.
  intros H s. remember (len s) as n eqn:E. revert s E.
  induction n as [n IH] using lt_wf_ind. intros s ->. apply H. intros t Ht. by apply (IH (len t)).
Qed.

Lemma json_chars_no_ctl s : no_ctl (json_chars s) = true.
Proof.
  induction s as [s IH] using str_len_ind. destruct s as [|a s1]; [done|]. cbn [json_chars].
  assert (IH' : ∀ t, (len t <= len s1)%nat → no_ctl (json_chars t) = true)
    by (intros t Ht; apply IH; cbn; lia).
  pose proof (IH' s1 (le_n _)) as H1.
  destruct (byte_val a <? 128) eqn:Ha; [by rewrite no_ctl_app, json_byte_no_ctl, H1|].
  apply high_no_ctl in Ha as Ha'. destruct s1 as [|b s2]; [done|].
  destruct (rune2 a b) eqn:R2.
  { apply rune2_high in R2. autorewrite with ctl.
    rewrite Ha', (IH' s2) by (cbn; lia). rewrite (proj2 (Z.leb_le 32 _)); [done|lia]. }
  destruct s2 as [|c s3]; [by rewrite no_ctl_app, H1|].
  destruct (rune3 a b c) eqn:R3.
  { apply rune3_high in R3 as [Hb Hc]. rewrite no_ctl_app, (IH' s3) by (cbn; lia).
    destruct (line_sep a b c); autorewrite with ctl; [by rewrite hex_digit_no_ctl|].
    rewrite Ha', !(proj2 (Z.leb_le 32 _)); [done|lia..]. }
  destruct s3 as [|d s4]; [by rewrite no_ctl_app, H1|].
  destruct (rune4 a b c d) eqn:R4; [|by rewrite no_ctl_app, H1].
  apply rune4_high in R4 as (Hb & Hc & Hd). autorewrite with ctl.
  rewrite Ha', (IH' s4) by (cbn; lia). rewrite !(proj2 (Z.leb_le 32 _)); [done|lia..].
Qed.

Lemma join_no_ctl sep l :
  no_ctl sep = true → Forall (λ x, no_ctl x = true) l → no_ctl (join sep l) = true.
Proof.
  intros Hs. induction 1 as [|x l Hx Hl IH]; [done|]. cbn [join].
  destruct l; [done|]. by rewrite !no_ctl_app, Hx, Hs, IH.
Qed.

Lemma pretty_N_no_ctl (n : N) : no_ctl (pretty n) = true.
Proof.
  apply not_false_iff_true. intros H. unfold no_ctl, str_forallb in H.
  apply negb_false_iff in H.
  assert (∃ c, contains_byte (pretty n) c = true ∧ (32 <=? byte_val c) = false) as (c & Hc & Hv).
  { revert H. generalize (pretty n). induction s as [|x s IH]; [done|]. cbn [str_existsb].
    rewrite orb_true_iff, negb_true_iff. intros [H|H].
    - exists x. by rewrite contains_byte_cons, bool_decide_true.
    - destruct (IH H) as (c & Hc & Hv). exists c. by rewrite contains_byte_cons, Hc, orb_true_r. }
  rewrite <- (N2Z.id n), <- Itoa_nonneg in Hc by lia.
  rewrite Itoa_no in Hc; [done|lia|]. unfold digit_val. apply Z.leb_gt in Hv.
  destruct (Z.leb_spec 48 (byte_val c)), (Z.leb_spec 97 (byte_val c)), (Z.leb_spec 65 (byte_val c));
    (lia || done).
Qed.

Lemma Itoa_no_ctl z : no_ctl (Itoa z) = true.
Proof.
  destruct (decide (0 <= z)) as [H|H].
  - rewrite Itoa_nonneg by done. apply pretty_N_no_ctl.
  - rewrite Itoa_neg by lia. by rewrite no_ctl_cons, pretty_N_no_ctl.
Qed.

Lemma json_string_no_ctl s : no_ctl (json_string s) = true.
Proof. unfold json_string. by rewrite !no_ctl_app, json_chars_no_ctl. Qed.

Lemma json_text_no_ctl : ∀ j, no_ctl (json_text j) = true.
Proof.
  fix IH 1. intros [|b|z|s|l|fs]; cbn [json_text].
  - done.
  - by destruct b.
  - apply Itoa_no_ctl.
  - apply json_string_no_ctl.
  - rewrite !no_ctl_app, join_no_ctl; [done|done|].
    induction l as [|j l IHl]; constructor; [apply IH|apply IHl].
  - rewrite !no_ctl_app, join_no_ctl; [done|done|].
    induction fs as [|[k j] fs IHl]; constructor; [|apply IHl].
    cbn [fst snd]. by rewrite !no_ctl_app, json_string_no_ctl, IH.
Qed.

(** ** Lemmas: a reader of JSON strings *)

Definition unhex (c : ascii) : option N :=
  match digit_val c with Some v => if v <? 16 then Some (Z.to_N v) else None | None => None end.

Definition unescape_byte (c : ascii) : option ascii :=
  let v := byte_val c in
  if (v =? 34) || (v =? 92) then Some c
  else if v =? 98 then Some "008"%char else if v =? 102 then Some "012"%char
  else if v =? 110 then Some LF else if v =? 114 then Some CR else if v =? 116 then Some TAB
  else None.

(** The UTF-8 encoding of a code point below U+10000. *)
Definition encode_rune (n : N) : string :=
  (if n <? 128 then String (ascii_of_N n) ""
   else if n <? 2048 then String (ascii_of_N (192 + n / 64)) (String (ascii_of_N (128 + n mod 64)) "")
   else String (ascii_of_N (224 + n / 4096)) (String (ascii_of_N (128 + n / 64 mod 64))
          (String (ascii_of_N (128 + n mod 64)) "")))%N.

Definition push (p : string) (r : option (string * string)) : option (string * string) :=
  match r with Some (s, rest) => Some (p +:+ s, rest) | None => None end.

(** Reads up to the closing quote. *)
Fixpoint read_json_chars (s : string) : option (string * string) :=
  match s with
  | EmptyString => None
  | String c s1 =>
      if decide (c = DQUOTE) then Some ("", s1)
      else if decide (c = BACKSLASH) then
        match s1 with
        | EmptyString => None
        | String e s2 =>
            match unescape_byte e with
            | Some b => push (String b "") (read_json_chars s2)
            | None =>
                match s2 with
                | String h1 (String h2 (String h3 (String h4 s6))) =>
                    match unhex h1, unhex h2, unhex h3, unhex h4 with
                    | Some a, Some b, Some c, Some d =>
                        push (encode_rune (((a * 16 + b) * 16 + c) * 16 + d)) (read_json_chars s6)
                    | _, _, _, _ => None
                    end
                | _ => None
                end
            end
        end
      else push (String c "") (read_json_chars s1)
  end.

Lemma push_push a b r : push a (push b r) = push (a +:+ b) r.
Proof. destruct r as [[? ?]|]; [cbn; by rewrite str_app_assoc|done]. Qed.

Lemma read_json_byte c t :
  (byte_val c <? 128) = true →
  read_json_chars (json_byte c +:+ t) = push (String c "") (read_json_chars t).
Proof. destruct c as [[] [] [] [] [] [] [] []]; intros H; first [discriminate H | reflexivity]. Qed.

Lemma read_json_high c t :
  128 <= byte_val c → read_json_chars (String c t) = push (String c "") (read_json_chars t).
Proof.
  intros H. cbn [read_json_chars].
  rewrite !decide_False; [done| |]; intros ->; revert H; vm_compute; auto.
Qed.

Lemma byte_val_inj a b : byte_val a = byte_val b → a = b.
Proof.
  unfold byte_val. intros H%N2Z.inj. by rewrite <- (ascii_N_embedding a), <- (ascii_N_embedding b), H.
Qed.

Lemma line_sep_cases a b c :
  line_sep a b c = true → a = "226"%char ∧ b = "128"%char ∧ (c = "168"%char ∨ c = "169"%char).
Proof.
  unfold line_sep. rewrite !andb_true_iff, orb_true_iff, !Z.eqb_eq. intros [[Ha Hb] [Hc|Hc]];
    split_and!; try (left; by apply byte_val_inj); try (right; by apply byte_val_inj);
    by apply byte_val_inj.
Qed.

(** What is written for a valid string reads back as that string. *)
Lemma read_json_chars_spec s r :
  utf8_Valid s = true → read_json_chars (json_chars s +:+ String DQUOTE r) = Some (s, r).
Proof.
  induction s as [s IH] using str_len_ind. destruct s as [|a s1]; [done|].
  cbn [json_chars utf8_Valid]. destruct (byte_val a <? 128) eqn:Ha.
  { intros Hv. rewrite str_app_assoc, read_json_byte, IH by (done || (cbn; lia)). done. }
  apply Z.ltb_ge in Ha. destruct s1 as [|b s2]; [done|].
  destruct (rune2 a b) eqn:R2.
  { intros Hv. apply rune2_high in R2.
    rewrite !str_app_cons, !read_json_high, IH by (done || (cbn; lia)). done. }
  destruct s2 as [|c s3]; [done|]. destruct (rune3 a b c) eqn:R3.
  { intros Hv. apply rune3_high in R3 as [Hb Hc]. destruct (line_sep a b c) eqn:Hl.
    - apply line_sep_cases in Hl as (-> & -> & Hl).
      rewrite str_app_assoc. destruct Hl as [->| ->];
        (match goal with |- read_json_chars (?x +:+ ?t) = _ =>
           transitivity (push (encode_rune (8192 + 32 + 8 + (if decide (x = "\u2028") then 0 else 1)))
                          (read_json_chars t)); [reflexivity|] end);
        rewrite IH by (done || (cbn; lia)); reflexivity.
    - rewrite !str_app_cons, str_app_nil_l, !read_json_high, IH by (done || (cbn; lia)). done. }
  destruct s3 as [|d s4]; [done|]. rewrite andb_true_iff. intros [R4 Hv]. rewrite R4.
  apply rune4_high in R4 as (Hb & Hc & Hd).
  rewrite !str_app_cons, !read_json_high, IH by (done || (cbn; lia)). done.
Qed.

Lemma json_string_inj s1 s2 :
  utf8_Valid s1 = true → utf8_Valid s2 = true → json_string s1 = json_string s2 → s1 = s2.
Proof.
  unfold json_string. intros H1 H2 H%str_app_inj_l.
  pose proof (read_json_chars_spec s1 "" H1) as R1. rewrite H, read_json_chars_spec in R1 by done.
  by injection R1.
Qed.
