(* ===== verification/Channels.v ===== *)
(** * The alert channels ([internal/alert/telegram.go], [webhook.go],
    [pushgateway.go])

    What each channel sends for an alert and how it maps the answer to an
    error.  Building a request ([http.NewRequestWithContext]), performing it
    ([http.Client.Do]) and pushing to a gateway ([push.Pusher.PushContext]) are
    parameters: they are the network. *)

From Stdlib Require Import Sorting.Permutation.
From S2P Require Export Alert Json.

(** ** HTTP, as the channels use it *)

(** [http.CanonicalHeaderKey]: the key is title-cased at hyphens when it has
    only token characters, and left alone otherwise. *)
Definition is_token_byte (c : ascii) : bool :=
  let v := byte_val c in
  (((48 <=? v) && (v <=? 57)) || ((65 <=? v) && (v <=? 90)) || ((97 <=? v) && (v <=? 122))
   || in_set ["!"; "#"; "$"; "%"; "&"; "'"; "*"; "+"; "-"; "."; "^"; "_"; "`"; "|"; "~"]%char c)%Z.

Fixpoint canonical_bytes (upper : bool) (s : string) : string :=
  match s with
  | EmptyString => ""
  | String c s' =>
      String (if upper then upper_byte c else lower_byte c)
        (canonical_bytes (bool_decide (c = "-"%char)) s')
  end.

Definition CanonicalHeaderKey (k : string) : string :=
  if str_forallb is_token_byte k then canonical_bytes true k else k.

(** [http.Header], one value per key, and [Header.Set]. *)
Abbreviation header := (gmap string string) (only parsing).
Definition Header_Set (k v : string) (h : header) : header := <[CanonicalHeaderKey k := v]> h.

Record http_request : Type := mkRequest {
  r_Method : string;
  r_URL : string;
  r_Header : header;
  r_Body : string
}.

Record http_response : Type := mkResponse { StatusCode : Z; r_Payload : string }.

(** [http.NewRequestWithContext] refuses some methods and URLs; [Do] performs a
    request within the client's timeout. *)
Class HTTP := {
  request_error : string → string → option goerror;
  Do : duration → http_request → result http_response
}.

Definition NewRequest `{HTTP} (method url body : string) : result http_request :=
  match request_error method url with
  | Some e => Err e
  | None => Ok (mkRequest method url ∅ body)
  end.

(** The end of both Send methods: any status outside 2xx is an error that
    quotes the beginning of the payload. *)
Definition check_status (name : string) (limit : nat) (resp : http_response) : result unit :=
  if negb (StatusCode resp ÷ 100 =? 2)%Z then
    Err (Errorf (name +:+ " status %d: %s") [Itoa (StatusCode resp); str_take limit (r_Payload resp)])
  else Ok ().

Definition default_timeout (t : duration) : duration := if (t <=? 0)%Z then (5 * Second)%Z else t.

(** ** TelegramChannel *)

Definition DefaultTelegramEndpoint : string := "https://api.telegram.org".

Record TelegramChannel : Type := mkTelegram {
  tg_endpoint : string;
  tg_botToken : string;
  tg_chatID : string;
  tg_threadID : Z;
  tg_timeout : duration
}.

Definition NewTelegramChannel (Endpoint BotToken ChatID : string) (ThreadID : Z) (Timeout : duration)
    : TelegramChannel :=
  let timeout := default_timeout Timeout in
  let endpoint := TrimRight Endpoint ["/"%char] in
  let endpoint := if decide (endpoint = "") then DefaultTelegramEndpoint else endpoint in
  mkTelegram endpoint BotToken ChatID ThreadID timeout.

(** type telegramRequest struct; Send leaves its ParseMode empty. *)
Definition telegramRequest (t : TelegramChannel) (a : Alert) : json :=
  JObj ([("chat_id", JStr (tg_chatID t)); ("text", JStr (Renderer a))]
        ++ omitempty_str "parse_mode" "" ++ omitempty_int "message_thread_id" (tg_threadID t)).

Definition telegram_url (t : TelegramChannel) : string :=
  tg_endpoint t +:+ "/bot" +:+ tg_botToken t +:+ "/sendMessage".

(** func (t *TelegramChannel) Send(ctx, a Alert) error *)
Definition Telegram_Send `{HTTP} (t : TelegramChannel) (a : Alert) : result unit :=
  req ← NewRequest "POST" (telegram_url t) (json_text (telegramRequest t a));
  let req := mkRequest (r_Method req) (r_URL req)
               (Header_Set "Content-Type" "application/json" (r_Header req)) (r_Body req) in
  resp ← wrapf "telegram request: %w" [] (Do (tg_timeout t) req);
  check_status "telegram" 1024 resp.

(** ** WebhookChannel *)

Record WebhookChannel : Type := mkWebhook {
  wh_url : string;
  wh_method : string;
  wh_headers : gmap string string;
  wh_timeout : duration
}.

Definition NewWebhookChannel `{UnicodeCase} (url method : string) (headers : gmap string string)
    (timeout : duration) : WebhookChannel :=
  let method := if decide (method = "") then "POST" else method in
  mkWebhook url (ToUpper method) headers (default_timeout timeout).

(** type Payload struct, for an alert with its event (the engine always sets
    it). *)
Definition Payload_json (a : Alert) (ev : Event) : result json :=
  ts ← time_MarshalJSON (a_Timestamp a);
  event ← Event_json ev;
  Ok (JObj [("timestamp", ts); ("reason", JStr (a_Reason a)); ("command", JStr (a_Command a));
            ("source", JStr (a_Source a)); ("db", JNum (a_DB a)); ("text", JStr (Renderer a));
            ("event", event)]).

(** The headers of a request: [order] is the order in which the range loop
    meets the configured headers. *)
Definition webhook_headers (order : list (string * string)) (headers : gmap string string) (h : header)
    : header :=
  let h := match headers !! "Content-Type" with
           | None => Header_Set "Content-Type" "application/json" h
           | Some _ => h
           end in
  foldl (λ h kv, Header_Set (fst kv) (snd kv) h) h order.

(** func (w *WebhookChannel) Send(ctx, a Alert) error *)
Definition Webhook_Send `{HTTP} (order : list (string * string)) (w : WebhookChannel) (a : Alert)
    (ev : Event) : result unit :=
  body ← Payload_json a ev;
  req ← NewRequest (wh_method w) (wh_url w) (json_text body);
  let req := mkRequest (r_Method req) (r_URL req)
               (webhook_headers order (wh_headers w) (r_Header req)) (r_Body req) in
  resp ← wrapf "webhook request: %w" [] (Do (wh_timeout w) req);
  check_status "webhook" 512 resp.

(** ** PushgatewayChannel *)

Record PushgatewayChannel : Type := mkPushgateway {
  pg_urls : list string;
  pg_job : string;
  pg_username : string;
  pg_password : string;
  pg_labels : gmap string string;
  pg_timeout : duration
}.

Definition NewPushgatewayChannel (URLs : list string) (Job Username Password : string)
    (Labels : gmap string string) (Timeout : duration) : PushgatewayChannel :=
  mkPushgateway URLs Job Username Password Labels (default_timeout Timeout).

(** func sourceIP(source string) string *)
Definition sourceIP (source : string) : string :=
  match LastIndexByte source ":" with Some i => str_take i source | None => source end.

(** One push: the counter of the private registry with its three labels. *)
Record push_request : Type := mkPush {
  p_url : string;
  p_job : string;
  p_counter : string;
  p_label_values : list (string * string);
  p_basic_auth : option (string * string);
  p_grouping : gmap string string;
  p_timeout : duration
}.

Definition push_of (p : PushgatewayChannel) (a : Alert) (url : string) : push_request :=
  mkPush url (pg_job p) "redis_watcher_alert_suspicious_commands_total"
    [("command", a_Command a); ("source_ip", sourceIP (a_Source a)); ("reason", a_Reason a)]
    (if negb (bool_decide (pg_username p = "")) || negb (bool_decide (pg_password p = ""))
     then Some (pg_username p, pg_password p) else None)
    (pg_labels p) (pg_timeout p).

Section Pushgateway.
(** [pusher.PushContext(ctx)] for the goroutine of the [i]-th URL. *)
Variable PushContext : nat → push_request → option goerror.

(** What goroutine [i] adds to the shared error list. *)
Definition push_error (p : PushgatewayChannel) (a : Alert) (i : nat) : option goerror :=
  url ← pg_urls p !! i;
  Wrapf "%s: %w" [url] <$> PushContext i (push_of p a url).

(** func (p *PushgatewayChannel) Send(ctx, a Alert) error -- [finish] is the
    order in which the goroutines get the mutex. *)
Definition Pushgateway_Send (finish : list nat) (p : PushgatewayChannel) (a : Alert) : option goerror :=
  match pg_urls p with
  | [] => Some (Errorf "pushgateway: no URLs configured" [])
  | _ =>
      match omap (push_error p a) finish with
      | [] => None
      | errs => Some (Wrapf "pushgateway: %d/%d targets failed: %w"
                        [Itoa (Z.of_nat (length errs)); Itoa (Z.of_nat (length (pg_urls p)))]
                        (Join errs))
      end
  end.
End Pushgateway.

(** ** Lemmas *)

Lemma Header_Set_lookup h order K :
  NoDup ((CanonicalHeaderKey ∘ fst) <$> order) →
  foldl (λ h kv, Header_Set (fst kv) (snd kv) h) h order !! K
  = match List.find (λ kv, bool_decide (CanonicalHeaderKey (fst kv) = K)) order with
    | Some (_, v) => Some v
    | None => h !! K
    end.
Proof.
  revert h. induction order as [|[k v] order IH]; intros h Hnd; [done|].
  cbn [foldl fmap list_fmap List.find compose] in *. cbn [fst snd] in *.
  apply NoDup_cons in Hnd as [Hk Hnd]. rewrite IH by done. unfold Header_Set at 1.
  case_bool_decide as HK.
  - subst K. rewrite lookup_insert_eq.
    destruct (List.find _ order) as [[k' v']|] eqn:E; [|done].
    apply List.find_some in E as [Hin HE]. apply bool_decide_eq_true in HE. destruct Hk.
    apply list_elem_of_fmap. exists (k', v'). cbn. split; [done|]. by apply list_elem_of_In.
  - destruct (List.find _ order) as [[k' v']|]; [done|]. by rewrite lookup_insert_ne.
Qed.

Lemma find_perm {A} (f : A → string) (order l : list A) K :
  order ≡ₚ l → NoDup (f <$> l) →
  List.find (λ x, bool_decide (f x = K)) order = List.find (λ x, bool_decide (f x = K)) l.
Proof.
  induction 1 as [|x l1 l2 Hp IH|x y l1|l1 l2 l3 H1 IH1 H2 IH2]; intros Hnd.
  - done.
  - cbn. apply NoDup_cons in Hnd as [_ Hnd]. by rewrite IH.
  - cbn in *. apply NoDup_cons in Hnd as [Hn _].
    repeat case_bool_decide; try done. exfalso. apply Hn. rewrite elem_of_cons. left. congruence.
  - rewrite IH1, IH2; [done..|]. by rewrite H2.
Qed.

Lemma check_status_spec name limit resp :
  (0 ≤ StatusCode resp)%Z →
  is_ok (check_status name limit resp) = bool_decide (200 ≤ StatusCode resp < 300)%Z.
Proof.
  intros H. unfold check_status. rewrite Z.quot_div_nonneg by lia.
  destruct (Z.eqb_spec (StatusCode resp / 100) 2) as [E|E]; cbn; symmetry;
    [apply bool_decide_eq_true | apply bool_decide_eq_false].
  - pose proof (Z.div_mod (StatusCode resp) 100). pose proof (Z.mod_pos_bound (StatusCode resp) 100). lia.
  - intros Hr. apply E. symmetry. apply (Z.div_unique_pos _ 100 2 (StatusCode resp - 200)); lia.
Qed.

Lemma TrimRight_no_cut s c : TrimRight s [c] = "" ∨ ∃ p x, TrimRight s [c] = p +:+ String x "" ∧ x ≠ c.
Proof.
  induction s as [|a s IH]; [by left|]. cbn [TrimRight].
  destruct IH as [->|(p & x & -> & Hx)].
  - unfold in_set. case_bool_decide as H; [by left|]. right. exists "", a. split; [done|].
    intros ->. apply H. left.
  - right. exists (String a p), x. destruct p; done.
Qed.

(** ** Properties *)

(** The headers of a webhook request do not depend on the order in which
    the configured map is traversed, provided no two of its keys have the same
    canonical form: every configured header is sent under its canonical key
    with its value, Content-Type is application/json unless configured under
    whatever capitalisation, and nothing else is added. *)
Theorem webhook_headers_lookup (order : list (string * string)) (headers : gmap string string) (K : string) :
  order ≡ₚ map_to_list headers →
  NoDup ((CanonicalHeaderKey ∘ fst) <$> map_to_list headers) →
  webhook_headers order headers ∅ !! K
  = match List.find (λ kv, bool_decide (CanonicalHeaderKey (fst kv) = K)) (map_to_list headers) with
    | Some (_, v) => Some v
    | None => if decide (K = "Content-Type") then Some "application/json" else None
    end.
Proof.
  intros Hp Hnd. unfold webhook_headers. rewrite Header_Set_lookup by (by rewrite Hp).
  rewrite (find_perm (CanonicalHeaderKey ∘ fst) order (map_to_list headers)) by done.
  destruct (List.find _ (map_to_list headers)) as [[k v]|] eqn:E; [done|].
  destruct (headers !! "Content-Type") as [v|] eqn:Hc.
  - case_decide as HK; [|done]. subst K.
    apply elem_of_map_to_list, list_elem_of_In in Hc.
    apply (List.find_none _ _ E) in Hc. discriminate Hc.
  - unfold Header_Set. change (CanonicalHeaderKey "Content-Type") with "Content-Type".
    case_decide as HK; [subst K; by rewrite lookup_insert_eq|]. by rewrite lookup_insert_ne.
Qed.

Definition example_headers : gmap string string := {["x-token" := "t"; "content-type" := "text/plain"]}.

Lemma webhook_headers_lookup_witness :
  webhook_headers (map_to_list example_headers) example_headers ∅ !! "Content-Type" = Some "text/plain".
Proof.
  etransitivity; [apply webhook_headers_lookup|].
  - reflexivity.
  - apply (bool_decide_unpack _). vm_compute. exact I.
  - vm_compute. reflexivity.
Defined.

(** C38: a push to the gateways succeeds iff there is a gateway and every push
    to one succeeds, whatever the order in which the pushes finish; when it
    fails although gateways are configured, the error counts the gateways that
    failed. *)
Theorem Pushgateway_Send_iff (PushContext : nat → push_request → option goerror)
    (finish : list nat) (p : PushgatewayChannel) (a : Alert) :
  finish ≡ₚ seq 0 (length (pg_urls p)) →
  (Pushgateway_Send PushContext finish p a = None ↔
     pg_urls p ≠ [] ∧
     ∀ i url, pg_urls p !! i = Some url → PushContext i (push_of p a url) = None) ∧
  (pg_urls p ≠ [] → ∀ e, Pushgateway_Send PushContext finish p a = Some e →
     ∃ errs, errs ≡ₚ omap (push_error PushContext p a) (seq 0 (length (pg_urls p))) ∧ errs ≠ [] ∧
       e = Wrapf "pushgateway: %d/%d targets failed: %w"
             [Itoa (Z.of_nat (length errs)); Itoa (Z.of_nat (length (pg_urls p)))] (Join errs)).
Proof.
  intros Hp.
  assert (Hperm : omap (push_error PushContext p a) finish
                  ≡ₚ omap (push_error PushContext p a) (seq 0 (length (pg_urls p))))
    by (by rewrite Hp).
  assert (Hnil : omap (push_error PushContext p a) finish = [] ↔
    ∀ i url, pg_urls p !! i = Some url → PushContext i (push_of p a url) = None).
  { split.
    - intros Hn i url Hi. destruct (PushContext i (push_of p a url)) as [e|] eqn:E; [|done].
      assert (Hin : Wrapf "%s: %w" [url] e ∈ omap (push_error PushContext p a) finish).
      { apply list_elem_of_omap. exists i. split.
        - rewrite Hp. apply elem_of_seq. apply lookup_lt_Some in Hi. lia.
        - unfold push_error. rewrite Hi. cbn. by rewrite E. }
      rewrite Hn in Hin. by apply elem_of_nil in Hin.
    - intros Hall. destruct (omap _ finish) as [|e l] eqn:E; [done|].
      assert (Hin : e ∈ omap (push_error PushContext p a) finish) by (rewrite E; left).
      apply list_elem_of_omap in Hin as (i & _ & Hi). unfold push_error in Hi.
      destruct (pg_urls p !! i) as [url|] eqn:Hu; [|done]. cbn in Hi.
      by rewrite (Hall i url Hu) in Hi. }
  rewrite <- Hnil. unfold Pushgateway_Send.
  destruct (decide (pg_urls p = [])) as [Hu|Hu]; [rewrite Hu; split; [split; [done|by intros []]|done]|].
  assert (∀ B (x y : B), match pg_urls p with [] => x | _ => y end = y) as -> by (by destruct (pg_urls p)).
  destruct (omap (push_error PushContext p a) finish) as [|e l] eqn:E.
  - by split; [|done].
  - split; [split; [done|by intros []]|]. intros _ e' [= <-]. exists (e :: l). by split_and!.
Qed.

Definition example_gateways : PushgatewayChannel :=
  mkPushgateway ["http://a:9091"; "http://b:9091"] "job" "" "" ∅ (5 * Second).
Definition example_alert : Alert :=
  mkAlert (mkTime 0 0) "FLUSHALL" "10.0.0.1:50000" 0 "suspicious command: FLUSHALL" None.

Lemma Pushgateway_Send_iff_witness :
  Pushgateway_Send (λ i _, if decide (i = 1) then Some refused else None) [1; 0]
    example_gateways example_alert ≠ None.
Proof.
  destruct (Pushgateway_Send_iff (λ i _, if decide (i = 1) then Some refused else None) [1; 0]
    example_gateways example_alert (Permutation_swap 0 1 [])) as [H _].
  intros Hn. apply H in Hn as [_ Hn]. discriminate (Hn 1 "http://b:9091" eq_refl).
Defined.

(** The label source_ip of a push is the address of the event's source --
    the source text of an alert is split back at its last colon, so IPv6
    addresses survive. *)
Theorem push_source_ip (p : PushgatewayChannel) (ev : Event) (reason url : string) :
  contains_byte (Port (EvSource ev)) ":" = false →
  p_label_values (push_of p (alert_of ev reason) url)
  = [("command", FullCommand ev); ("source_ip", IP (EvSource ev)); ("reason", reason)].
Proof.
  intros H. unfold push_of, alert_of. cbn. unfold sourceIP.
  by rewrite (LastIndexByte_app _ ":"%char), str_take_app.
Qed.

Lemma push_source_ip_witness :
  p_label_values (push_of example_gateways
    (alert_of (mkEvent (mkTime 0 0) 0 (mkSource "::1" "6379") "DEBUG" "" []) "r") "http://a:9091")
  = [("command", "DEBUG"); ("source_ip", "::1"); ("reason", "r")].
Proof. apply push_source_ip. reflexivity. Defined.

(** The Telegram channel posts one JSON message to the bot's sendMessage
    URL, under an endpoint without a trailing slash, and reports success
    exactly when the request could be made and performed and the status is a
    2xx. *)
Theorem Telegram_Send_spec `{HTTP} (Endpoint BotToken ChatID : string) (ThreadID : Z) (Timeout : duration)
    (a : Alert) :
  let t := NewTelegramChannel Endpoint BotToken ChatID ThreadID Timeout in
  let req := mkRequest "POST" (telegram_url t) {["Content-Type" := "application/json"]}
               (json_text (telegramRequest t a)) in
  (0 < tg_timeout t)%Z ∧
  (∃ p x, tg_endpoint t = p +:+ String x "" ∧ x ≠ "/"%char) ∧
  (is_ok (Telegram_Send t a) = true ↔
     request_error "POST" (telegram_url t) = None ∧
     ∃ resp, Do (tg_timeout t) req = Ok resp ∧ (200 ≤ StatusCode resp < 300)%Z).
Proof.
  intros t req. split_and!.
  - unfold t. cbn. unfold default_timeout. destruct (Z.leb_spec Timeout 0); [done|lia].
  - unfold t. cbn [tg_endpoint NewTelegramChannel].
    destruct (TrimRight_no_cut Endpoint "/") as [->|(p & x & -> & Hx)].
    + exists "https://api.telegram.or", "g"%char. by rewrite decide_True.
    + exists p, x. rewrite decide_False; [done|]. by destruct p.
  - unfold Telegram_Send, NewRequest.
    destruct (request_error _ _) as [e|]; cbn [mbind result_bind r_Method r_URL r_Header r_Body is_ok].
    { split; [done|]. by intros []. }
    assert (Header_Set "Content-Type" "application/json" ∅
            = ({["Content-Type" := "application/json"]} : gmap string string)) as -> by done.
    fold req. destruct (Do (tg_timeout t) req) as [resp|e|] eqn:E; cbn [wrapf mbind result_bind is_ok].
    + split.
      * intros Hok. split; [done|]. exists resp. split; [done|].
        unfold check_status in Hok. destruct (Z.eqb_spec (StatusCode resp ÷ 100) 2) as [E2|]; [|done].
        destruct (Z.le_gt_cases 0 (StatusCode resp)).
        { rewrite Z.quot_div_nonneg in E2 by lia.
          pose proof (Z.div_mod (StatusCode resp) 100 ltac:(done)).
          pose proof (Z.mod_pos_bound (StatusCode resp) 100 ltac:(done)). lia. }
        pose proof (Z.quot_opp_l (StatusCode resp) 100 ltac:(done)) as Ho.
        pose proof (Z.quot_pos (- StatusCode resp) 100 ltac:(lia) ltac:(done)). lia.
      * intros (_ & resp' & [= <-] & Hr). rewrite check_status_spec by lia.
        by apply bool_decide_eq_true.
    + split; [done|]. by intros (_ & ? & ? & _).
    + split; [done|]. by intros (_ & ? & ? & _).
Qed.
