(* ===== verification/Encode.v ===== *)
(** * Serialisation of events ([encode] and [quoteText] of
    [internal/output/output.go])

    The two line formats of the outputs.  A JSON line is one line whatever the
    event holds; a text line has exactly the line breaks of the event's own
    strings on top of its own, since [quoteText] quotes line breaks without
    escaping them. *)

From S2P Require Export Json.

(** func quoteText(s string) string *)
Definition quoteText (s : string) : string :=
  if negb (ContainsAny s [SP; TAB; LF; CR; DQUOTE]) then s
  else String DQUOTE (escape_bytes s +:+ String DQUOTE "").

Fixpoint quoted_args (args : list string) : string :=
  match args with
  | [] => ""
  | a :: args' => String SP (quoteText a +:+ quoted_args args')
  end.

Definition text_line (ev : Event) : string :=
  RFC3339Nano (Timestamp ev) +:+ " db=" +:+ Itoa (DB ev)
  +:+ " src=" +:+ IP (EvSource ev) +:+ ":" +:+ Port (EvSource ev) +:+ " cmd=" +:+ Command ev
  +:+ (if decide (Subcommand ev = "") then "" else " sub=" +:+ Subcommand ev)
  +:+ quoted_args (Args ev) +:+ String LF "".

(** func encode(ev *event.Event, format string) ([]byte, error) *)
Definition encode `{UnicodeCase} (ev : Event) (format : string) : result string :=
  let f := ToLower format in
  if decide (f = "" ∨ f = "json") then
    buf ← Event_json ev;
    Ok (json_text buf +:+ String LF "")
  else if decide (f = "text") then Ok (text_line ev)
  else Err (Errorf "unknown format %q" [format]).

(** ** Lemmas *)

(** The number of line breaks of a string. *)
Fixpoint breaks (s : string) : nat :=
  match s with
  | EmptyString => 0
  | String c s' => (if decide (c = LF) then 1 else 0) + breaks s'
  end.

Lemma breaks_app a b : breaks (a +:+ b) = breaks a + breaks b.
Proof. induction a as [|c a IH]; [done|]. cbn. rewrite IH. lia. Qed.

Lemma breaks_cons c s : breaks (String c s) = (if decide (c = LF) then 1 else 0) + breaks s.
Proof. done. Qed.

Lemma no_ctl_breaks s : no_ctl s = true → breaks s = 0.
Proof.
  induction s as [|c s IH]; [done|]. rewrite no_ctl_cons, andb_true_iff. intros [Hc Hs].
  cbn. rewrite IH by done. case_decide; [|done]. subst. discriminate Hc.
Qed.

Lemma breaks_escape s : breaks (escape_bytes s) = breaks s.
Proof.
  induction s as [|c s IH]; [done|]. cbn [escape_bytes].
  repeat case_match; rewrite ?breaks_cons, IH; done.
Qed.

Lemma breaks_quoteText s : breaks (quoteText s) = breaks s.
Proof.
  unfold quoteText. destruct (ContainsAny _ _); [|done]. cbn [negb].
  rewrite !breaks_cons, breaks_app, breaks_escape. rewrite !decide_False by done. cbn [breaks]. case_decide; [done|lia].
Qed.

Lemma breaks_quoted_args args : breaks (quoted_args args) = sum_list (breaks <$> args).
Proof.
  induction args as [|a args IH]; [done|].
  cbn [quoted_args fmap list_fmap sum_list sum_list_with]. rewrite breaks_cons, breaks_app, breaks_quoteText, IH. done.
Qed.

Lemma zeros_breaks n : breaks (zeros n) = 0.
Proof. induction n; [done|]. cbn. done. Qed.

Lemma pad_breaks w n : breaks (pad w n) = 0.
Proof.
  unfold pad. rewrite !breaks_app, zeros_breaks, (no_ctl_breaks (Itoa _) (Itoa_no_ctl _)).
  by destruct (_ <? _)%Z.
Qed.

Lemma breaks_TrimRight s cut : breaks (TrimRight s cut) ≤ breaks s.
Proof.
  induction s as [|c s IH]; [done|]. cbn [TrimRight].
  rewrite breaks_cons.
  destruct (TrimRight s cut) as [|x t]; [destruct (in_set cut c)|]; rewrite ?breaks_cons in *; cbn [breaks]; lia.
Qed.

Lemma RFC3339Nano_breaks t : breaks (RFC3339Nano t) = 0.
Proof.
  unfold RFC3339Nano, format_datetime. rewrite !breaks_app, !pad_breaks.
  destruct (_ =? _)%Z; [done|].
  pose proof (breaks_TrimRight (pad 9 (t_nsec t)) ["0"%char]) as H. rewrite pad_breaks in H.
  rewrite !breaks_cons, !decide_False by done. cbn [breaks]. lia.
Qed.

Lemma encode_text_json `{UnicodeCase} ev format line :
  encode ev format = Ok line →
  (ToLower format = "" ∨ ToLower format = "json") ∧
    (∃ j, Event_json ev = Ok j ∧ line = json_text j +:+ String LF "")
  ∨ ToLower format = "text" ∧ line = text_line ev.
Proof.
  unfold encode. case_decide as E1; [|case_decide as E2]; intros He; ok_inv; eauto.
Qed.

(** ** Properties *)

(** C20: a JSON record is one line -- whatever bytes the event carries, the
    encoding in the JSON format holds no control byte before its final line
    break, so a hostile argument cannot forge a record. *)
Theorem encode_json_one_line `{UnicodeCase} (ev : Event) (format line : string) :
  ToLower format = "" ∨ ToLower format = "json" →
  encode ev format = Ok line →
  ∃ body, line = body +:+ String LF "" ∧ no_ctl body = true.
Proof.
  intros Hf He. apply encode_text_json in He as [(_ & j & _ & ->)|[Ht _]].
  - exists (json_text j). by rewrite json_text_no_ctl.
  - destruct Hf as [Hf|Hf]; rewrite Hf in Ht; discriminate Ht.
Qed.

Definition forging_event : Event :=
  mkEvent (mkTime 0 0) 0 (mkSource "10.0.0.9" "4242") "GET" ""
    ["x" +:+ String LF "1970-01-01T00:00:00Z db=0 src=10.0.0.1:1 cmd=FLUSHALL"].

Lemma encode_json_one_line_witness :
  ∃ body, @encode example_case forging_event "JSON" = Ok (body +:+ String LF "") ∧ no_ctl body = true.
Proof.
  destruct (@encode example_case forging_event "JSON") as [line|e|] eqn:E; [|discriminate E..].
  destruct (@encode_json_one_line example_case forging_event "JSON" line (or_intror eq_refl) E)
    as (body & -> & H). exists body. split; [reflexivity|exact H].
Defined.

(** C40: a text record breaks where its event does -- the encoding in the text
    format has one line break of its own, at the end, and all those of the
    address, the command, the subcommand and the arguments, which quoting does
    not escape. *)
Theorem encode_text_breaks `{UnicodeCase} (ev : Event) (format line : string) :
  ToLower format = "text" →
  encode ev format = Ok line →
  (∃ body, line = body +:+ String LF "") ∧
  breaks line = 1 + breaks (IP (EvSource ev)) + breaks (Port (EvSource ev)) + breaks (Command ev)
                + breaks (Subcommand ev) + sum_list (breaks <$> Args ev).
Proof.
  intros Hf He. apply encode_text_json in He as [([Ht|Ht] & _)|[_ ->]];
    [rewrite Hf in Ht; discriminate Ht..|]. unfold text_line. split.
  - rewrite <- !str_app_assoc. eexists. reflexivity.
  - rewrite !breaks_app, RFC3339Nano_breaks, (no_ctl_breaks (Itoa _) (Itoa_no_ctl _)),
      breaks_quoted_args.
    assert (breaks (if decide (Subcommand ev = "") then "" else " sub=" +:+ Subcommand ev)
            = breaks (Subcommand ev)) as -> by (case_decide as Es; [by rewrite Es|by rewrite breaks_app]).
    cbn [breaks]. repeat (rewrite decide_False by done). rewrite decide_True by done. lia.
Qed.

Lemma encode_text_breaks_witness :
  breaks (text_line forging_event) = 2.
Proof.
  destruct (@encode_text_breaks example_case forging_event "text" (text_line forging_event))
    as [_ H]; [reflexivity..|]. rewrite H. reflexivity.
Defined.
