(* ===== verification/Sinks.v ===== *)
(** * The sinks ([internal/output/stdout.go], [file.go], [network.go])

    The interface [Sink] as a class, and its three implementations.  Standard
    output and the rotated file are writers given from outside; the network
    sink's dials, writes and closes succeed or fail as its environment says and
    are recorded, which is what its connection discipline is stated on. *)

From S2P Require Export Encode.

(** type Sink interface: a state that knows its name and how to write an event
    and close. *)
Class Sink (S : Type) := {
  sink_Name : S → string;
  sink_Write : Event → S → option goerror * S;
  sink_Close : S → option goerror * S
}.

(** [io.Writer] and [io.Closer] on a state. *)
Class WriteCloser (W : Type) := {
  io_Write : string → W → option goerror * W;
  io_Close : W → option goerror * W
}.

Section Writers.
Context `{UnicodeCase} {W : Type} `{WriteCloser W}.

(** The Write methods of StdoutSink and FileSink. *)
Definition write_encoded (ev : Event) (format : string) (w : W) : option goerror * W :=
  match encode ev format with
  | Ok buf => io_Write buf w
  | Err e => (Some e, w)
  | Panics => (None, w)
  end.

Record StdoutSink : Type := mkStdout { so_w : W; so_format : string }.

Definition NewStdoutSink (stdout : W) (format : string) : StdoutSink := mkStdout stdout format.

#[export] Instance StdoutSink_Sink : Sink StdoutSink := {
  sink_Name _ := "stdout";
  sink_Write ev s :=
    let '(err, w) := write_encoded ev (so_format s) (so_w s) in (err, mkStdout w (so_format s));
  sink_Close s := (None, s)
}.

(** The settings of the rotated log. *)
Record lumberjack_Logger : Type := mkLogger {
  lj_Filename : string;
  lj_MaxSize : Z;
  lj_MaxBackups : Z;
  lj_MaxAge : Z;
  lj_Compress : bool;
  lj_LocalTime : bool
}.

Record FileSink : Type := mkFile { fs_w : W; fs_format : string }.

Definition file_logger (Path : string) (MaxSizeMB MaxBackups MaxAgeDays : Z) (Compress LocalTime : bool)
    : lumberjack_Logger :=
  mkLogger Path (if (MaxSizeMB <=? 0)%Z then 100%Z else MaxSizeMB) MaxBackups MaxAgeDays Compress LocalTime.

(** [open] is the writer lumberjack gives for its settings. *)
Definition NewFileSink (open : lumberjack_Logger → W) (Path : string)
    (MaxSizeMB MaxBackups MaxAgeDays : Z) (Compress LocalTime : bool) (Format : string) : FileSink :=
  mkFile (open (file_logger Path MaxSizeMB MaxBackups MaxAgeDays Compress LocalTime)) Format.

#[export] Instance FileSink_Sink : Sink FileSink := {
  sink_Name _ := "file";
  sink_Write ev s :=
    let '(err, w) := write_encoded ev (fs_format s) (fs_w s) in (err, mkFile w (fs_format s));
  sink_Close s := let '(err, w) := io_Close (fs_w s) in (err, mkFile w (fs_format s))
}.
End Writers.

(** ** NetSink *)

(** The options of a NetSink. *)
Record NetOptions : Type := mkNetOptions {
  no_Network : string;
  no_Address : string;
  no_Timeout : duration;
  no_Keepalive : duration;
  no_Format : string
}.

(** What the network answers to the operations of one call. *)
Record net_env : Type := mkNetEnv {
  dial_error : option goerror;
  write_error : option goerror;
  close_error : option goerror
}.

Inductive net_action : Type :=
| Dialed (network address : string) (timeout keepalive : duration) (err : option goerror)
| DeadlineSet (d : duration)
| Wrote (buf : string) (err : option goerror)
| Closed.

(** type NetSink struct: [conn] tells whether a connection is held; [ns_clock]
    numbers the calls and [ns_log] records what was done on the network. *)
Record NetSink : Type := mkNetSink {
  ns_network : string;
  ns_address : string;
  ns_timeout : duration;
  ns_keepalive : duration;
  ns_format : string;
  conn : bool;
  ns_clock : nat;
  ns_log : list net_action
}.

(** func NewNetSink(o NetOptions) ( *NetSink, error) *)
Definition NewNetSink (o : NetOptions) : result NetSink :=
  if decide (no_Network o ≠ "udp" ∧ no_Network o ≠ "tcp") then
    Err (Errorf "network must be udp or tcp, got %q" [no_Network o])
  else if decide (no_Address o = "") then Err (Errorf "address required" [])
  else
    let timeout := if (no_Timeout o <=? 0)%Z then (5 * Second)%Z else no_Timeout o in
    Ok (mkNetSink (no_Network o) (no_Address o) timeout (no_Keepalive o) (no_Format o) false 0 []).

Section NetSink.
Context `{UnicodeCase} (env : nat → net_env).

Definition net_step (s : NetSink) (c : bool) (acts : list net_action) : NetSink :=
  mkNetSink (ns_network s) (ns_address s) (ns_timeout s) (ns_keepalive s) (ns_format s)
    c (S (ns_clock s)) (ns_log s ++ acts).

(** func (s *NetSink) Write(ev *event.Event) error *)
Definition NetSink_Write (ev : Event) (s : NetSink) : option goerror * NetSink :=
  let e := env (ns_clock s) in
  match encode ev (ns_format s) with
  | Ok buf =>
      let dial := Dialed (ns_network s) (ns_address s) (ns_timeout s) (ns_keepalive s) (dial_error e) in
      let dialed := if conn s then [] else [dial] in
      match (if conn s then None else dial_error e) with
      | Some err => (Some err, net_step s false dialed)
      | None =>
          let wrote := dialed ++ [DeadlineSet (ns_timeout s); Wrote buf (write_error e)] in
          match write_error e with
          | Some err =>
              (Some (Wrapf "write to %s/%s: %w" [ns_network s; ns_address s] err),
               net_step s false (wrote ++ [Closed]))
          | None => (None, net_step s true wrote)
          end
      end
  | Err err => (Some err, net_step s (conn s) [])
  | Panics => (None, net_step s (conn s) [])
  end.

(** func (s *NetSink) Close() error *)
Definition NetSink_Close (s : NetSink) : option goerror * NetSink :=
  if conn s then (close_error (env (ns_clock s)), net_step s false [Closed])
  else (None, net_step s false []).

#[export] Instance NetSink_Sink : Sink NetSink := {
  sink_Name := ns_network;
  sink_Write := NetSink_Write;
  sink_Close := NetSink_Close
}.

(** A sequence of writes: the errors returned and the final sink. *)
Fixpoint write_all (evs : list Event) (s : NetSink) : list (option goerror) * NetSink :=
  match evs with
  | [] => ([], s)
  | ev :: evs' =>
      let '(err, s1) := NetSink_Write ev s in
      let '(errs, s2) := write_all evs' s1 in (err :: errs, s2)
  end.
End NetSink.

(** ** Lemmas *)

Definition is_open (a : net_action) : bool :=
  match a with Dialed _ _ _ _ None => true | _ => false end.
Definition is_closed (a : net_action) : bool := match a with Closed => true | _ => false end.
Definition count {A} (p : A → bool) (l : list A) : nat := length (List.filter p l).

Lemma count_app {A} (p : A → bool) l1 l2 : count p (l1 ++ l2) = count p l1 + count p l2.
Proof. unfold count. by rewrite List.filter_app, length_app. Qed.

(** The connections opened are those closed and, at most, the one held. *)
Definition net_inv (s : NetSink) : Prop :=
  count is_open (ns_log s) = count is_closed (ns_log s) + if conn s then 1 else 0.

Lemma NetSink_Write_inv `{UnicodeCase} env ev s : net_inv s → net_inv (NetSink_Write env ev s).2.
Proof.
  unfold net_inv, NetSink_Write. intros Hi.
  destruct (encode ev (ns_format s)) as [buf|err|]; cbn [snd net_step conn ns_log];
    rewrite ?count_app; [|cbn; lia..].
  destruct (conn s), (dial_error (env (ns_clock s))) eqn:Hd, (write_error (env (ns_clock s)));
    cbn [snd net_step conn ns_log app]; rewrite ?count_app; unfold count in *; cbn -[Nat.add] in *;
    rewrite ?Hd; cbn -[Nat.add]; lia.
Qed.

Lemma NetSink_Close_inv env s : net_inv s → net_inv (NetSink_Close env s).2.
Proof.
  unfold net_inv, NetSink_Close. intros Hi. destruct (conn s);
    cbn [snd net_step conn ns_log]; rewrite !count_app; unfold count in *; cbn -[Nat.add]; lia.
Qed.

Lemma NewNetSink_inv o s : NewNetSink o = Ok s → net_inv s ∧ (0 < ns_timeout s)%Z ∧ ns_network s ≠ "".
Proof.
  unfold NewNetSink. case_decide as Hn; [done|]. case_decide; [done|]. intros [= <-]. split; [done|].
  cbn. split; [destruct (Z.leb_spec (no_Timeout o) 0); [done|lia]|]. intros E. apply Hn. by rewrite E.
Qed.

Lemma write_all_inv `{UnicodeCase} env evs : ∀ s, net_inv s → net_inv (write_all env evs s).2.
Proof.
  induction evs as [|ev evs IH]; intros s Hi; [done|]. cbn [write_all].
  pose proof (NetSink_Write_inv env ev s Hi) as H1.
  destruct (NetSink_Write env ev s) as [err s1]. specialize (IH s1 H1).
  by destruct (write_all env evs s1).
Qed.

(** ** Properties *)

(** C27: the network sink never leaks a connection -- from construction on,
    through any writes and a close, whatever the network does, it has opened
    exactly as many connections as it has closed, plus the one it holds; after
    the close it holds none. *)
Theorem NetSink_no_leak `{UnicodeCase} (env : nat → net_env) (o : NetOptions) (s : NetSink)
    (evs : list Event) :
  NewNetSink o = Ok s →
  let s1 := (write_all env evs s).2 in
  let s2 := (NetSink_Close env s1).2 in
  count is_open (ns_log s1) = count is_closed (ns_log s1) + (if conn s1 then 1 else 0) ∧
  count is_open (ns_log s2) = count is_closed (ns_log s2) ∧ conn s2 = false.
Proof.
  intros (Hi & _)%NewNetSink_inv s1 s2. pose proof (write_all_inv env evs s Hi) as H1.
  pose proof (NetSink_Close_inv env s1 H1) as H2. split; [exact H1|].
  assert (conn s2 = false) as Hc by (unfold s2, NetSink_Close; by destruct (conn s1)).
  unfold net_inv in H2. fold s2 in H2. rewrite Hc in H2. split; [lia|done].
Qed.

Definition example_net : NetOptions := mkNetOptions "tcp" "127.0.0.1:5170" 0 0 "json".
Definition example_net_event : Event := mkEvent (mkTime 0 0) 0 (mkSource "10.0.0.9" "4242") "PING" "" [].
Definition flaky_net (n : nat) : net_env :=
  mkNetEnv None (if decide (n = 1) then Some (NetError "broken pipe") else None) None.

Lemma NetSink_no_leak_witness :
  ∃ s, NewNetSink example_net = Ok s ∧
  let s1 := (@write_all example_case flaky_net [example_net_event; example_net_event; example_net_event] s).2 in
  let s2 := (NetSink_Close flaky_net s1).2 in
  count is_open (ns_log s1) = count is_closed (ns_log s1) + (if conn s1 then 1 else 0) ∧
  count is_open (ns_log s2) = count is_closed (ns_log s2) ∧ conn s2 = false.
Proof.
  eexists. split; [reflexivity|].
  apply (@NetSink_no_leak example_case flaky_net example_net). reflexivity.
Defined.

(** The network sink recovers -- a write that fails on the wire drops the
    connection, and the next write of an encodable event opens a new one before
    sending, so it succeeds when the network accepts the dial and the write. *)
Theorem NetSink_reconnects `{UnicodeCase} (env : nat → net_env) (ev ev' : Event) (s : NetSink)
    (buf buf' : string) (err : goerror) :
  encode ev (ns_format s) = Ok buf → encode ev' (ns_format s) = Ok buf' →
  (NetSink_Write env ev s).1 = Some err →
  dial_error (env (S (ns_clock s))) = None → write_error (env (S (ns_clock s))) = None →
  let s1 := (NetSink_Write env ev s).2 in
  conn s1 = false ∧
  (NetSink_Write env ev' s1).1 = None ∧ conn (NetSink_Write env ev' s1).2 = true ∧
  ns_log (NetSink_Write env ev' s1).2
  = ns_log s1 ++ [Dialed (ns_network s) (ns_address s) (ns_timeout s) (ns_keepalive s) None;
                  DeadlineSet (ns_timeout s); Wrote buf' None].
Proof.
  intros He He' Hw Hd Hwr. cbn zeta.
  assert (Hs : ∃ acts, (NetSink_Write env ev s).2 = net_step s false acts).
  { revert Hw. unfold NetSink_Write. rewrite He.
    destruct (if conn s then None else dial_error (env (ns_clock s))); [by eexists|].
    destruct (write_error (env (ns_clock s))); cbn [fst snd]; intros Hx; [by eexists|discriminate Hx]. }
  destruct Hs as [acts ->]. split; [done|].
  unfold NetSink_Write. cbn [net_step conn ns_format ns_clock ns_network ns_address ns_timeout
    ns_keepalive ns_log]. rewrite He', Hd, Hwr. done.
Qed.

Lemma NetSink_reconnects_witness :
  let s := mkNetSink "tcp" "127.0.0.1:5170" 5000000000 0 "json" true 1 [] in
  let s1 := (@NetSink_Write example_case flaky_net example_net_event s).2 in
  conn s1 = false ∧ (@NetSink_Write example_case flaky_net example_net_event s1).1 = None.
Proof.
  intros s. destruct (@NetSink_reconnects example_case flaky_net example_net_event example_net_event
    s _ _ (Wrapf "write to %s/%s: %w" ["tcp"; "127.0.0.1:5170"] (NetError "broken pipe"))
    eq_refl eq_refl eq_refl eq_refl eq_refl) as (H1 & H2 & _).
  split; [exact H1|exact H2].
Defined.
