(* ===== verification/Output.v ===== *)
(** * Output consumers ([internal/output/output.go])

    A consumer puts a sink behind a bounded queue: submissions that drop or
    block, writes that keep the failing state, its gauge and the Sentry reports
    in step, and the drain at shutdown.  A manager fans events out to its
    consumers. *)

From S2P Require Export Channel Sentry Sinks.

(** type MetricsSink interface, and what else a consumer calls. *)
Inductive output_call : Type :=
| IncrOutputWritten (output : string)
| IncrOutputDropped (output : string)
| IncrOutputError (output : string)
| SetOutputFailing (output : string) (failing : bool)
| ObserveOutputWrite (output : string) (d : duration).

Inductive out_action : Type :=
| Metric (c : output_call)
| SentryReport (err : goerror) (kv : list (string * any)).   (* sentryx.Report *)

Section Consumer.
Context {S : Type} `{Sink S}.

(** type Consumer struct, without its logger. *)
Record Consumer : Type := mkConsumer {
  sink : S;
  c_in : chan Event;
  c_dropped : Z;
  c_written : Z;
  c_errors : Z;
  failing : bool;
  c_drop : bool
}.

(** func NewConsumer(sink Sink, buffer int, dropOnFull bool, log) *Consumer;
    [make] panics on a negative size. *)
Definition NewConsumer (s : S) (buffer : Z) (dropOnFull : bool) : result Consumer :=
  if (buffer <? 0)%Z then Panics
  else Ok (mkConsumer s (make_chan Event (Z.to_nat buffer)) 0 0 0 false dropOnFull).

Definition Name (c : Consumer) : string := sink_Name (sink c).
Definition QueueDepth (c : Consumer) : nat := chan_len (c_in c).
Definition QueueCapacity (c : Consumer) : nat := ch_cap (c_in c).

(** atomic.Uint64: Add(1) *)
Definition incr64 (z : Z) : Z := ((z + 1) mod 2 ^ 64)%Z.

Definition with_in (c : Consumer) (ch : chan Event) : Consumer :=
  mkConsumer (sink c) ch (c_dropped c) (c_written c) (c_errors c) (failing c) (c_drop c).

(** func (c *Consumer) Submit(ev *event.Event): [None] when the send blocks. *)
Definition Submit (ev : Event) (c : Consumer) : option (list out_action * Consumer) :=
  match chan_send ev (c_in c) with
  | Some ch => Some ([], with_in c ch)
  | None =>
      if c_drop c then
        Some ([Metric (IncrOutputDropped (Name c))],
              mkConsumer (sink c) (c_in c) (incr64 (c_dropped c)) (c_written c) (c_errors c)
                (failing c) (c_drop c))
      else None
  end.

Record Counters : Type := mkCounters { Written : Z; Dropped : Z; Errors : Z }.
Definition counters (c : Consumer) : Counters := mkCounters (c_written c) (c_dropped c) (c_errors c).

(** One write, with the bookkeeping that writeOne and the drain share: [stage]
    is the Sentry tag and [d] the time the write took.  The error of the write
    is returned for the drain. *)
Definition write_event (stage : string) (d : duration) (ev : Event) (c : Consumer)
    : list out_action * option goerror * Consumer :=
  let '(err, s) := sink_Write ev (sink c) in
  let name := sink_Name s in
  let observed := [Metric (ObserveOutputWrite name d)] in
  match err with
  | Some e =>
      let errored := observed ++ [Metric (IncrOutputError name)] in
      let entered :=
        if negb (failing c) then
          [Metric (SetOutputFailing name true);
           SentryReport e [("stage", AString stage); ("output", AString name); ("command", AString (Command ev))]]
        else [] in
      (errored ++ entered, Some e,
       mkConsumer s (c_in c) (c_dropped c) (c_written c) (incr64 (c_errors c)) true (c_drop c))
  | None =>
      let wrote := observed ++ [Metric (IncrOutputWritten name)] in
      let left := if failing c then [Metric (SetOutputFailing name false)] else [] in
      (wrote ++ left, None,
       mkConsumer s (c_in c) (c_dropped c) (incr64 (c_written c)) (c_errors c) false (c_drop c))
  end.

(** func (c *Consumer) writeOne(ev *event.Event) *)
Definition writeOne (d : duration) (ev : Event) (c : Consumer) : list out_action * Consumer :=
  let '(tr, _, c') := write_event "output.write" d ev c in (tr, c').

(** func (c *Consumer) drainAfterShutdown() on the [queue] left in the channel,
    no producer being active any more: [expired i] tells whether the select of
    iteration [i] takes the deadline, which it may once the timer has fired. *)
Fixpoint drain (queue : list Event) (i : nat) (expired : nat → bool) (d : nat → duration)
    (c : Consumer) : list out_action * Consumer :=
  match queue with
  | [] => ([], with_in c (mkChan [] (ch_cap (c_in c))))
  | ev :: rest =>
      let c1 := with_in c (mkChan rest (ch_cap (c_in c))) in
      if expired i then ([], c)
      else
        match write_event "output.write.shutdown" (d i) ev c1 with
        | (tr, Some _, c2) => (tr, c2)
        | (tr, None, c2) =>
            let '(tr', c3) := drain rest (Datatypes.S i) expired d c2 in (tr ++ tr', c3)
        end
  end.

Definition drainAfterShutdown (expired : nat → bool) (d : nat → duration) (c : Consumer)
    : list out_action * Consumer :=
  drain (ch_buf (c_in c)) 0 expired d c.

(** The deferred close of Run. *)
Definition close_sink (c : Consumer) : list out_action * Consumer :=
  let '(err, s) := sink_Close (sink c) in
  (match err with
   | Some e => [SentryReport e [("stage", AString "output.close"); ("output", AString (sink_Name s))]]
   | None => []
   end,
   mkConsumer s (c_in c) (c_dropped c) (c_written c) (c_errors c) (failing c) (c_drop c)).

(** ** A consumer over time: submissions and the iterations of Run *)

Inductive consumer_op : Type :=
| SubmitOp (ev : Event)
| WriteOp (d : duration).

Fixpoint consumer_run (ops : list consumer_op) (c : Consumer)
    : option (list out_action * Consumer) :=
  match ops with
  | [] => Some ([], c)
  | SubmitOp ev :: ops' =>
      '(tr, c1) ← Submit ev c;
      '(tr', c2) ← consumer_run ops' c1;
      Some (tr ++ tr', c2)
  | WriteOp d :: ops' =>
      match chan_recv (c_in c) with
      | None => consumer_run ops' c
      | Some (ev, ch) =>
          let '(tr, c1) := writeOne d ev (with_in c ch) in
          '(tr', c2) ← consumer_run ops' c1;
          Some (tr ++ tr', c2)
      end
  end.

(** func (c *Consumer) Run(ctx) error: the iterations [ops] until the context
    ends, then the drain, then the close. *)
Definition Run (ops : list consumer_op) (expired : nat → bool) (d : nat → duration) (c : Consumer)
    : option (list out_action * Consumer) :=
  '(tr1, c1) ← consumer_run ops c;
  let '(tr2, c2) := drainAfterShutdown expired d c1 in
  let '(tr3, c3) := close_sink c2 in
  Some (tr1 ++ tr2 ++ tr3, c3).

(** ** Manager *)

(** func (m *Manager) Dispatch(ev *event.Event): the consumers in order of
    registration; a consumer that blocks blocks the whole dispatch. *)
Fixpoint Dispatch (ev : Event) (consumers : list Consumer) : option (list out_action * list Consumer) :=
  match consumers with
  | [] => Some ([], [])
  | c :: cs =>
      '(tr, c') ← Submit ev c;
      '(tr', cs') ← Dispatch ev cs;
      Some (tr ++ tr', c' :: cs')
  end.
End Consumer.
Arguments Consumer S : clear implicits.

(** ** Observations of a trace *)

Definition is_metric (p : output_call → bool) (a : out_action) : bool :=
  match a with Metric c => p c | SentryReport _ _ => false end.
Definition is_written (c : output_call) : bool := match c with IncrOutputWritten _ => true | _ => false end.
Definition is_dropped (c : output_call) : bool := match c with IncrOutputDropped _ => true | _ => false end.
Definition is_errored (c : output_call) : bool := match c with IncrOutputError _ => true | _ => false end.
Definition is_observed (c : output_call) : bool := match c with ObserveOutputWrite _ _ => true | _ => false end.
Definition calls (p : output_call → bool) (tr : list out_action) : nat := count (is_metric p) tr.
Definition is_report (a : out_action) : bool := match a with SentryReport _ _ => true | _ => false end.
Definition reports (tr : list out_action) : nat := count is_report tr.

(** The values the failing gauge is set to. *)
Definition marks (tr : list out_action) : list bool :=
  omap (λ a, match a with Metric (SetOutputFailing _ b) => Some b | _ => None end) tr.

(** The changes of a sequence of states, from [b]. *)
Fixpoint transitions (b : bool) (l : list bool) : list bool :=
  match l with
  | [] => []
  | x :: l' => if Bool.eqb b x then transitions b l' else x :: transitions x l'
  end.

Section Observed.
Context {S : Type} `{Sink S}.

(** The sink after a sequence of events, and which of the writes failed. *)
Definition sink_after (evs : list Event) (s : S) : S := foldl (λ s ev, (sink_Write ev s).2) s evs.
Fixpoint write_failures (evs : list Event) (s : S) : list bool :=
  match evs with
  | [] => []
  | ev :: evs' =>
      bool_decide (is_Some (sink_Write ev s).1) :: write_failures evs' (sink_Write ev s).2
  end.

Definition consumer_chan_op (op : consumer_op) : chan_op Event :=
  match op with SubmitOp ev => Offer ev | WriteOp _ => Take end.

Definition counters_wf (c : Consumer S) : Prop :=
  (0 ≤ c_written c < 2 ^ 64)%Z ∧ (0 ≤ c_dropped c < 2 ^ 64)%Z ∧ (0 ≤ c_errors c < 2 ^ 64)%Z.

(** The counters of [c'] are those of [c] advanced by these numbers of writes,
    failures and drops, which are also what the metrics were told. *)
Definition advanced (c c' : Consumer S) (tr : list out_action) (w e n : nat) : Prop :=
  c_written c' = ((c_written c + Z.of_nat w) mod 2 ^ 64)%Z ∧
  c_errors c' = ((c_errors c + Z.of_nat e) mod 2 ^ 64)%Z ∧
  c_dropped c' = ((c_dropped c + Z.of_nat n) mod 2 ^ 64)%Z ∧
  calls is_written tr = w ∧ calls is_errored tr = e ∧ calls is_dropped tr = n ∧
  calls is_observed tr = w + e.
End Observed.

(** ** Lemmas *)

Lemma calls_app p t1 t2 : calls p (t1 ++ t2) = calls p t1 + calls p t2.
Proof. apply count_app. Qed.
Lemma reports_app t1 t2 : reports (t1 ++ t2) = reports t1 + reports t2.
Proof. apply count_app. Qed.
Lemma marks_app t1 t2 : marks (t1 ++ t2) = marks t1 ++ marks t2.
Proof. apply omap_app. Qed.

Lemma transitions_app b l1 l2 :
  transitions b (l1 ++ l2) = transitions b l1 ++ transitions (List.last l1 b) l2.
Proof.
  revert b. induction l1 as [|x l1 IH]; intros b; [done|].
  assert (List.last (x :: l1) b = List.last l1 x) as ->.
  { clear IH. revert x. induction l1 as [|y l1 IH]; intros x; [done|].
    cbn [List.last] in *. by destruct l1. }
  cbn [app transitions]. destruct (Bool.eqb b x) eqn:E.
  - apply Bool.eqb_prop in E as ->. apply IH.
  - by rewrite IH.
Qed.

Section ConsumerLemmas.
Context {S : Type} `{Sink S}.
Implicit Types (c : Consumer S) (s : S).

Lemma sink_after_app evs1 evs2 s : sink_after (evs1 ++ evs2) s = sink_after evs2 (sink_after evs1 s).
Proof. apply foldl_app. Qed.

Lemma write_failures_app evs1 evs2 s :
  write_failures (evs1 ++ evs2) s = write_failures evs1 s ++ write_failures evs2 (sink_after evs1 s).
Proof. revert s. induction evs1 as [|ev evs1 IH]; intros s; [done|]. cbn. by rewrite IH. Qed.

Lemma advanced_trans c c1 c2 tr1 tr2 w1 w2 e1 e2 n1 n2 :
  advanced c c1 tr1 w1 e1 n1 → advanced c1 c2 tr2 w2 e2 n2 →
  advanced c c2 (tr1 ++ tr2) (w1 + w2) (e1 + e2) (n1 + n2).
Proof.
  intros (H1 & H2 & H3 & H4 & H5 & H6 & H7) (G1 & G2 & G3 & G4 & G5 & G6 & G7).
  unfold advanced. rewrite !calls_app, G1, G2, G3, H1, H2, H3, !Zplus_mod_idemp_l.
  split_and!; try lia; f_equal; lia.
Qed.

Lemma advanced_refl c : counters_wf c → advanced c c [] 0 0 0.
Proof. intros (? & ? & ?). unfold advanced. rewrite !Z.add_0_r, !Z.mod_small by lia. done. Qed.

Lemma advanced_wf c c' tr w e n : advanced c c' tr w e n → counters_wf c'.
Proof.
  intros (H1 & H2 & H3 & _). unfold counters_wf. rewrite H1, H2, H3.
  split_and!; apply Z.mod_pos_bound; done.
Qed.

(** What one write does. *)
Lemma write_event_spec stage d ev c : counters_wf c →
  let '(tr, err, c') := write_event stage d ev c in
  let failed := bool_decide (is_Some (sink_Write ev (sink c)).1) in
  err = (sink_Write ev (sink c)).1 ∧ sink c' = (sink_Write ev (sink c)).2 ∧
  c_in c' = c_in c ∧ c_drop c' = c_drop c ∧ failing c' = failed ∧
  advanced c c' tr (if failed then 0 else 1) (if failed then 1 else 0) 0 ∧
  marks tr = transitions (failing c) [failed] ∧
  reports tr = length (List.filter id (marks tr)).
Proof.
  intros (Hw & Hd & He). unfold write_event. destruct (sink_Write ev (sink c)) as [[e|] s];
    cbn [fst snd]; rewrite ?bool_decide_true by eauto; rewrite ?bool_decide_false by (by intros [? ?]);
    unfold advanced; cbn [c_written c_errors c_dropped sink c_in c_drop failing];
    rewrite !Z.add_0_r, ?(Z.mod_small (c_written c)), ?(Z.mod_small (c_errors c)),
      ?(Z.mod_small (c_dropped c)) by lia;
    destruct (failing c); cbn; done.
Qed.

(** A run of a consumer that drops, against the channel it is built on. *)
Lemma consumer_run_spec ops : ∀ c, c_drop c = true → counters_wf c →
  let '(l, ch) := chan_run (consumer_chan_op <$> ops) (c_in c) in
  let fs := write_failures (taken l) (sink c) in
  ∃ tr c', consumer_run ops c = Some (tr, c') ∧ c_in c' = ch ∧ sink c' = sink_after (taken l) (sink c) ∧
    c_drop c' = true ∧ failing c' = List.last fs (failing c) ∧
    advanced c c' tr (length (List.filter negb fs)) (length (List.filter id fs)) (length (rejected l)) ∧
    marks tr = transitions (failing c) fs ∧ reports tr = length (List.filter id (marks tr)).
Proof.
  induction ops as [|[ev|d] ops IH]; intros c Hd Hwf; cbn [fmap list_fmap consumer_chan_op chan_run].
  - eexists [], c. cbn. split_and!; try done. by apply advanced_refl.
  - cbn [consumer_run]. unfold Submit. destruct (chan_send ev (c_in c)) as [ch|] eqn:E.
    + cbn [mbind option_bind]. specialize (IH (with_in c ch) Hd Hwf). cbn [with_in c_in sink failing] in IH.
      destruct (chan_run (consumer_chan_op <$> ops) ch) as [l ch'].
      destruct IH as (tr & c' & Hr & Hrest). change (with_in c ch) with (with_in c ch) in Hr.
      fold (with_in c ch). rewrite Hr. cbn. eauto.
    + rewrite Hd. cbn [mbind option_bind].
      match goal with |- context [consumer_run ops ?c1] => set (c1' := c1) end.
      assert (Ha : advanced c c1' [Metric (IncrOutputDropped (Name c))] 0 0 1).
      { destruct Hwf as (? & ? & ?). unfold advanced. cbn. rewrite !Z.add_0_r, !Z.mod_small by lia. done. }
      specialize (IH c1' eq_refl (advanced_wf _ _ _ _ _ _ Ha)).
      cbn [c_in sink failing c1'] in IH.
      destruct (chan_run (consumer_chan_op <$> ops) (c_in c)) as [l ch'].
      destruct IH as (tr & c' & -> & H1 & H2 & H3 & H4 & H5 & H6 & H7). cbn [mbind option_bind taken rejected].
      eexists _, _. split; [reflexivity|]. split_and!; try done.
      exact (advanced_trans _ _ _ _ _ _ _ _ _ _ _ Ha H5).
  - cbn [consumer_run]. destruct (chan_recv (c_in c)) as [[ev ch]|] eqn:E; [|by apply IH].
    unfold writeOne. pose proof (write_event_spec "output.write" d ev (with_in c ch) Hwf) as Hs.
    destruct (write_event _ d ev (with_in c ch)) as [[tr1 err] c1].
    cbn [with_in sink failing c_in c_drop] in Hs.
    destruct Hs as (_ & Hs & Hi & Hdr & Hf & Ha & Hm & Hrep).
    specialize (IH c1 ltac:(congruence) (advanced_wf _ _ _ _ _ _ Ha)).
    rewrite Hi, Hs, Hf in IH.
    destruct (chan_run (consumer_chan_op <$> ops) ch) as [l ch'].
    destruct IH as (tr & c' & -> & H1 & H2 & H3 & H4 & H5 & H6 & H7).
    cbn [mbind option_bind taken rejected write_failures sink_after foldl].
    eexists _, _. split; [reflexivity|].
    set (f := bool_decide _) in *. set (fs := write_failures _ _) in *. split_and!; try done.
    + rewrite H4. clear. revert f. induction fs as [|y fs IH]; intros f; [done|].
      cbn [List.last] in *. by destruct fs.
    + pose proof (advanced_trans c c1 c' _ _ _ _ _ _ _ _ Ha H5) as Ht. by destruct f.
    + rewrite marks_app, Hm, H6. change (f :: fs) with ([f] ++ fs). by rewrite transitions_app.
    + by rewrite reports_app, marks_app, List.filter_app, length_app, Hrep, H7.
Qed.

Lemma last_default (l : list bool) x b b' : List.last (x :: l) b = List.last (x :: l) b'.
Proof. revert x. induction l as [|y l IH]; intros x; [done|]. exact (IH y). Qed.

Lemma last_cons (l : list bool) x b : List.last (x :: l) b = List.last l x.
Proof. destruct l as [|y l]; [done|]. exact (last_default l y b x). Qed.

Lemma last_app (l1 l2 : list bool) b : List.last (l1 ++ l2) b = List.last l2 (List.last l1 b).
Proof.
  destruct l2 as [|y l2] using rev_ind; [by rewrite app_nil_r|].
  by rewrite app_assoc, !List.last_last.
Qed.

(** The drain writes a prefix of the queue, up to the first failure. *)
Lemma drain_spec expired d queue : ∀ i c, counters_wf c → ch_buf (c_in c) = queue →
  let '(tr, c') := drain queue i expired d c in
  ∃ written left, queue = written ++ left ∧ ch_buf (c_in c') = left ∧
    sink c' = sink_after written (sink c) ∧
    let fs := write_failures written (sink c) in
    failing c' = List.last fs (failing c) ∧
    advanced c c' tr (length (List.filter negb fs)) (length (List.filter id fs)) 0 ∧
    marks tr = transitions (failing c) fs ∧ reports tr = length (List.filter id (marks tr)) ∧
    length (List.filter id fs) ≤ 1 ∧
    (left = [] ∨ expired (i + length written) = true ∨ List.last fs false = true).
Proof.
  induction queue as [|ev rest IH]; intros i c Hwf Hq; cbn [drain].
  - exists [], []. destruct (advanced_refl c Hwf) as (? & ? & ? & _). cbn. unfold advanced.
    split_and!; auto.
  - destruct (expired i) eqn:Ex.
    { exists [], (ev :: rest). cbn. rewrite Nat.add_0_r. split_and!; auto using advanced_refl with lia. }
    set (c1 := with_in c (mkChan rest (ch_cap (c_in c)))).
    pose proof (write_event_spec "output.write.shutdown" (d i) ev c1 Hwf) as Hs.
    destruct (write_event _ (d i) ev c1) as [[tr1 err] c2].
    destruct Hs as (He & Hs & Hi & _ & Hf & Ha & Hm & Hrep). cbn [with_in c1 sink failing] in *.
    destruct err as [e|].
    + exists [ev], rest. rewrite Hi. cbn [c1 with_in c_in ch_buf]. rewrite <- He in Hf, Ha, Hm.
      cbn [write_failures sink_after foldl]. rewrite <- He. rewrite bool_decide_true in * by eauto.
      cbn [List.filter length negb id List.last]. split_and!; auto.
    + specialize (IH (Datatypes.S i) c2 (advanced_wf _ _ _ _ _ _ Ha)). rewrite Hi in IH.
      specialize (IH eq_refl). destruct (drain rest _ expired d c2) as [tr' c3].
      destruct IH as (written & left & -> & H1 & H2 & H3 & H4 & H5 & H6 & H7 & H8).
      rewrite <- He in Hf, Ha, Hm. rewrite bool_decide_false in * by (by intros [? ?]).
      exists (ev :: written), left. cbn [write_failures sink_after foldl]. rewrite <- He, <- Hs.
      rewrite bool_decide_false by (by intros [? ?]). rewrite Hf in *.
      cbn [List.filter length negb id app]. split_and!; try done.
      * by rewrite H3, last_cons.
      * exact (advanced_trans _ _ _ _ _ _ _ _ _ _ _ Ha H4).
      * rewrite marks_app, Hm, H5. change (false :: write_failures written (sink c2))
          with ([false] ++ write_failures written (sink c2)). by rewrite transitions_app.
      * by rewrite reports_app, marks_app, List.filter_app, length_app, Hrep, H6.
      * rewrite Nat.add_succ_r. destruct H8 as [?|[?|Hl]]; auto. right; right.
        by rewrite last_cons.
Qed.

(** Run as a whole, but for the close. *)
Lemma run_consumer_spec ops expired d c :
  c_drop c = true → counters_wf c →
  let '(l, ch) := chan_run (consumer_chan_op <$> ops) (c_in c) in
  ∃ tr c' written left, ch_buf ch = written ++ left ∧
    let fs := write_failures (taken l ++ written) (sink c) in
    Run ops expired d c = Some (tr ++ (close_sink c').1, (close_sink c').2) ∧
    ch_buf (c_in c') = left ∧ sink c' = sink_after (taken l ++ written) (sink c) ∧
    failing c' = List.last fs (failing c) ∧
    advanced c c' tr (length (List.filter negb fs)) (length (List.filter id fs)) (length (rejected l)) ∧
    marks tr = transitions (failing c) fs ∧ reports tr = length (List.filter id (marks tr)) ∧
    (left = [] ∨ expired (length written) = true ∨ List.last fs false = true).
Proof.
  intros Hd Hwf. pose proof (consumer_run_spec ops c Hd Hwf) as Hr.
  destruct (chan_run _ (c_in c)) as [l ch].
  destruct Hr as (tr1 & c1 & Hr & Hi & Hs & _ & Hf & Ha & Hm & Hrep).
  pose proof (drain_spec expired d (ch_buf (c_in c1)) 0 c1 (advanced_wf _ _ _ _ _ _ Ha) eq_refl) as Hdr.
  unfold Run, drainAfterShutdown. rewrite Hr. cbn [mbind option_bind].
  destruct (drain _ 0 expired d c1) as [tr2 c2].
  destruct Hdr as (written & left & Hq & H1 & H2 & H3 & H4 & H5 & H6 & _ & H8).
  destruct (close_sink c2) as [tr3 c3] eqn:Ec.
  exists (tr1 ++ tr2), c2, written, left. rewrite Ec, <- Hi. cbn [fst snd]. split; [done|].
  rewrite Hs in *. rewrite write_failures_app, !List.filter_app, !length_app, sink_after_app.
  split_and!; try done.
  - by rewrite app_assoc.
  - by rewrite H3, Hf, last_app.
  - replace (length (rejected l)) with (length (rejected l) + 0) by lia.
    exact (advanced_trans _ _ _ _ _ _ _ _ _ _ _ Ha H4).
  - by rewrite marks_app, Hm, H5, transitions_app, Hf.
  - by rewrite reports_app, marks_app, List.filter_app, length_app, Hrep, H6.
  - rewrite last_app. destruct H8 as [?|[?|Hl]]; auto. right; right.
    destruct (write_failures written _); [done|]. by rewrite (last_default _ _ _ false).
Qed.
End ConsumerLemmas.

Section DispatchLemmas.
Context {S : Type} `{Sink S}.

Lemma Dispatch_spec (ev : Event) (consumers : list (Consumer S)) :
  (Forall (λ c, c_drop c = true) consumers → is_Some (Dispatch ev consumers)) ∧
  (Dispatch ev consumers = None ↔ Exists (λ c, Submit ev c = None) consumers) ∧
  (∀ tr consumers', Dispatch ev consumers = Some (tr, consumers') →
     Forall2 (λ c c', snd <$> Submit ev c = Some c') consumers consumers').
Proof.
  assert (Hn : Dispatch ev consumers = None ↔ Exists (λ c, Submit ev c = None) consumers).
  { induction consumers as [|c cs IH]; cbn [Dispatch]; [by rewrite Exists_nil|].
    rewrite Exists_cons. destruct (Submit ev c) as [[tr c']|]; cbn [mbind option_bind]; [|naive_solver].
    destruct (Dispatch ev cs) as [[tr' cs']|]; cbn [mbind option_bind]; naive_solver. }
  split_and!; [|done|].
  - intros Hall. apply not_eq_None_Some. intros E.
    apply Hn, Exists_exists in E as (c & Hin & Hs). rewrite Forall_forall in Hall.
    unfold Submit in Hs. rewrite (Hall c Hin) in Hs. by destruct (chan_send _ _).
  - clear Hn. induction consumers as [|c cs IH]; cbn [Dispatch]; intros tr cs' He.
    + by injection He as <- <-.
    + destruct (Submit ev c) as [[tr1 c']|] eqn:Es; [|discriminate He]. cbn [mbind option_bind] in He.
      destruct (Dispatch ev cs) as [[tr' cs'']|]; [|discriminate He].
      injection He as <- <-. constructor; [by rewrite Es|by eapply IH].
Qed.
End DispatchLemmas.

(** ** Properties *)

Section Properties.
Context {S : Type} `{Sink S}.

(** C10: an output loses nothing silently -- over the whole life of a consumer
    that drops when full, the sink is given, in order, the events accepted (and
    those queued at the start), except the ones the drain leaves behind, and it
    leaves some only after the deadline or a failed write; the counters and the
    metrics account for every event: written, failed, or dropped at the queue. *)
Theorem consumer_conservation (ops : list consumer_op) (expired : nat → bool) (d : nat → duration)
    (c : Consumer S) :
  c_drop c = true → counters_wf c →
  let '(l, ch) := chan_run (consumer_chan_op <$> ops) (c_in c) in
  ∃ tr c' written left,
    Run ops expired d c = Some (tr ++ (close_sink c').1, (close_sink c').2) ∧
    ch_buf (c_in c) ++ accepted l = (taken l ++ written) ++ left ∧
    sink c' = sink_after (taken l ++ written) (sink c) ∧
    (left = [] ∨ expired (length written) = true ∨
       List.last (write_failures (taken l ++ written) (sink c)) false = true) ∧
    ∃ w e, w + e = length (taken l ++ written) ∧
      e = length (List.filter id (write_failures (taken l ++ written) (sink c))) ∧
      advanced c c' tr w e (length (rejected l)).
Proof.
  intros Hd Hwf. pose proof (run_consumer_spec ops expired d c Hd Hwf) as Hr.
  pose proof (chan_run_fifo (consumer_chan_op <$> ops) (c_in c)) as Hf.
  destruct (chan_run _ (c_in c)) as [l ch].
  destruct Hr as (tr & c' & written & left & Hq & Hrun & H1 & H2 & H3 & H4 & H5 & H6 & H7).
  exists tr, c', written, left. rewrite Hf, Hq, app_assoc. split_and!; try done.
  eexists _, _. split_and!; [|reflexivity|exact H4]. clear.
  generalize (sink c). induction (taken l ++ written) as [|ev evs IH]; intros s; [done|].
  cbn [write_failures List.filter length]. specialize (IH (sink_Write ev s).2).
  destruct (bool_decide _); cbn [negb id length]; lia.
Qed.

(** C19: the failing gauge and the Sentry reports follow the transitions -- the
    gauge is set exactly when the outcome of a write differs from the previous
    one, to that outcome; an error is reported only when the output turns from
    healthy to failing, at each such turn; and the flag is the outcome of the
    last write. *)
Theorem consumer_reports_transitions (ops : list consumer_op) (expired : nat → bool)
    (d : nat → duration) (c : Consumer S) :
  c_drop c = true → counters_wf c →
  ∃ tr c' evs,
    Run ops expired d c = Some (tr ++ (close_sink c').1, (close_sink c').2) ∧
    sink c' = sink_after evs (sink c) ∧
    let fs := write_failures evs (sink c) in
    marks tr = transitions (failing c) fs ∧
    reports tr = length (List.filter id (transitions (failing c) fs)) ∧
    failing c' = List.last fs (failing c).
Proof.
  intros Hd Hwf. pose proof (run_consumer_spec ops expired d c Hd Hwf) as Hr.
  destruct (chan_run _ (c_in c)) as [l ch].
  destruct Hr as (tr & c' & written & left & Hq & Hrun & H1 & H2 & H3 & H4 & H5 & H6 & H7).
  exists tr, c', (taken l ++ written). rewrite H6, H5. done.
Qed.

(** A saturated output cannot hold up the others -- a dispatch goes through
    exactly when no consumer blocks, which those that drop never do, and then
    every consumer is left as if the event had been submitted to it alone. *)
Theorem Dispatch_independent (ev : Event) (consumers : list (Consumer S)) :
  (Forall (λ c, c_drop c = true) consumers → is_Some (Dispatch ev consumers)) ∧
  (Dispatch ev consumers = None ↔ Exists (λ c, Submit ev c = None) consumers) ∧
  (∀ tr consumers', Dispatch ev consumers = Some (tr, consumers') →
     Forall2 (λ c c', snd <$> Submit ev c = Some c') consumers consumers').
Proof. apply Dispatch_spec. Qed.
End Properties.

(** A sink that fails as told, for the examples. *)
Definition scripted_sink : Sink (list (option goerror)) := {|
  sink_Name _ := "scripted";
  sink_Write _ s := match s with [] => (None, []) | r :: s' => (r, s') end;
  sink_Close s := (None, s)
|}.

Definition disk_full : goerror := NetError "no space left on device".
Definition example_consumer : Consumer (list (option goerror)) :=
  mkConsumer [None; Some disk_full; Some disk_full; None] (make_chan Event 4) 0 0 0 false true.
Definition example_consumer_ops : list consumer_op :=
  [SubmitOp example_net_event; WriteOp 1; SubmitOp example_net_event; WriteOp 1;
   SubmitOp example_net_event; WriteOp 1; SubmitOp example_net_event].

Lemma example_consumer_wf : counters_wf example_consumer.
Proof. repeat split; (discriminate || reflexivity). Qed.

Lemma consumer_conservation_witness :
  ∃ tr c' written left,
    @Run _ scripted_sink example_consumer_ops (λ _, false) (λ _, 1%Z) example_consumer
    = Some (tr ++ (@close_sink _ scripted_sink c').1, (@close_sink _ scripted_sink c').2) ∧
    [example_net_event; example_net_event; example_net_event; example_net_event]
    = ([example_net_event; example_net_event; example_net_event] ++ written) ++ left.
Proof.
  destruct (@consumer_conservation _ scripted_sink example_consumer_ops (λ _, false) (λ _, 1%Z)
    example_consumer eq_refl example_consumer_wf) as (tr & c' & written & left & H1 & H2 & _).
  exists tr, c', written, left. split; [exact H1|exact H2].
Defined.

Lemma consumer_reports_transitions_witness :
  ∃ tr c' evs,
    @Run _ scripted_sink example_consumer_ops (λ _, false) (λ _, 1%Z) example_consumer
    = Some (tr ++ (@close_sink _ scripted_sink c').1, (@close_sink _ scripted_sink c').2) ∧
    marks tr = transitions false (@write_failures _ scripted_sink evs (sink example_consumer)).
Proof.
  destruct (@consumer_reports_transitions _ scripted_sink example_consumer_ops (λ _, false) (λ _, 1%Z)
    example_consumer eq_refl example_consumer_wf) as (tr & c' & evs & H1 & _ & H2 & _).
  exists tr, c', evs. split; [exact H1|exact H2].
Defined.

Lemma Dispatch_independent_witness :
  is_Some (@Dispatch _ scripted_sink example_net_event [example_consumer; example_consumer]).
Proof.
  apply (@Dispatch_independent _ scripted_sink example_net_event [example_consumer; example_consumer]).
  by repeat constructor.
Defined.
