(* ===== verification/Role.v ===== *)
(** * The role checker ([internal/role/role.go])

    A probe asks Redis for its replication role over a connection of its own
    and, when the answer differs from the last one, publishes the change and
    wakes the subscribers.  The file models one probe and sequences of probes;
    the interleavings of the probe with the callers of Wait and Subscribe are
    in Gate. *)

From S2P Require Export Resp Sentry.

(** ** The answer of INFO replication *)

Abbreviation Role := string (only parsing).
Definition RoleMaster : Role := "master".
Definition RoleReplica : Role := "replica".
Definition RoleUnknown : Role := "unknown".

(** func parseRoleFromInfo(body string) (Role, error) *)
Fixpoint role_of_lines (lines : list string) : result Role :=
  match lines with
  | [] => Err (Errorf "role: not found in INFO replication output" [])
  | line :: lines' =>
      if negb (HasPrefix line "role:") then role_of_lines lines'
      else
        let v := TrimSpace (TrimPrefix line "role:") in
        if decide (v = "master") then Ok RoleMaster
        else if decide (v = "slave" ∨ v = "replica") then Ok RoleReplica
        else Ok v
  end.
Definition parseRoleFromInfo (body : string) : result Role := role_of_lines (Split body CRLF).

(** ** The checker *)

(** type Options struct *)
Record Options : Type := mkOptions {
  o_Network : string;
  o_Address : string;
  o_Username : string;
  o_Password : string;
  o_DialTimeout : duration;
  o_ReadTimeout : duration;
  o_Interval : duration;
  o_AllowReplica : bool
}.

(** The metrics sink given: none, one with the two methods of MetricsSink, or
    one that also implements ProbeMetricsSink. *)
Inductive role_sink : Type := NilSink | BasicSink | ProbeSink.

Inductive role_call : Type :=
| SetRedisRole (role : string)
| RecordRoleTransition (from to : string)
| RecordRoleProbe (success : bool) (d : duration).

Inductive role_action : Type :=
| RoleMetric (c : role_call)
| ProbeTraced (c : sentryx_call)
| Notify.

(** type Checker struct; the waiters are in Gate. *)
Record Checker : Type := mkChecker {
  opts : Options;
  metrics : role_sink;
  isMaster : bool;
  current : Role;
  probeErr : option goerror
}.

Definition default_to (d t : duration) : duration := if (t <=? 0)%Z then d else t.

(** func New(opts Options, log, metrics MetricsSink) *Checker *)
Definition New (o : Options) (m : role_sink) : Checker :=
  mkChecker (mkOptions (o_Network o) (o_Address o) (o_Username o) (o_Password o)
               (default_to (3 * Second) (o_DialTimeout o)) (default_to (3 * Second) (o_ReadTimeout o))
               (default_to (5 * Second) (o_Interval o)) (o_AllowReplica o))
    m false RoleUnknown None.

(** func (c *Checker) Role() Role *)
Definition CurrentRole (c : Checker) : Role := current c.
Definition IsMaster (c : Checker) : bool := if o_AllowReplica (opts c) then true else isMaster c.
Definition IsActive (c : Checker) : bool := IsMaster c.
Definition LastError (c : Checker) : option goerror := probeErr c.

(** func (c *Checker) queryRole(ctx) (Role, error): [dial] is the outcome of
    the dial within its timeout; the writer records what was sent. *)
Definition queryRole (o : Options) (dial : result conn) : result (Role * writer) :=
  cn ← wrapf "dial: %w" [] dial;
  let r := c_reader cn in
  let w := c_writer cn in
  '(r, w) ←
    (if decide (o_Password o ≠ "") then
       w ← wrapf "AUTH: %w" [] (WriteCommand w (AuthArgs (o_Username o) (o_Password o)));
       r ← wrapf "AUTH: %w" [] (ReadSimpleString r);
       Ok (r, w)
     else Ok (r, w));
  w ← wrapf "INFO: %w" [] (WriteCommand w ["INFO"; "replication"]);
  '(body, _) ← wrapf "INFO read: %w" [] (ReadBulkString r);
  role ← parseRoleFromInfo body;
  Ok (role, w).

Definition record_probe (m : role_sink) (ok : bool) (d : duration) : list role_action :=
  match m with ProbeSink => [RoleMetric (RecordRoleProbe ok d)] | _ => [] end.
Definition role_metric (m : role_sink) (c : role_call) : list role_action :=
  match m with NilSink => [] | _ => [RoleMetric c] end.

(** The start of the span of a probe, and what Sentry is told of one that
    failed. *)
Definition probe_span (o : Options) : list role_action :=
  [ProbeTraced (CallStartSpan "db.redis.info" "role.probe");
   ProbeTraced (CallSetSpanData "redis_address" (AString (o_Address o)));
   ProbeTraced (CallSetSpanData "redis_network" (AString (o_Network o)))].
Definition probe_details (o : Options) : list (string * any) :=
  [("stage", AString "role.probe"); ("redis_address", AString (o_Address o));
   ("redis_network", AString (o_Network o))].

(** func (c *Checker) probeOnce(ctx); a panic of the bulk reader is one of the
    process. *)
Definition probeOnce (dial : result conn) (dur : duration) (c : Checker)
    : result (list role_action * Checker) :=
  match queryRole (opts c) dial with
  | Panics => Panics
  | Err err =>
      Ok (probe_span (opts c) ++ [ProbeTraced (CallFinishSpan (Some err))]
            ++ record_probe (metrics c) false dur
            ++ [ProbeTraced (CallCapture (Some err) (probe_details (opts c)))],
          mkChecker (opts c) (metrics c) (isMaster c) (current c) (Some err))
  | Ok (role, _) =>
      let oldRole := current c in
      let newIsMaster := bool_decide (role = RoleMaster) in
      Ok (probe_span (opts c) ++ [ProbeTraced (CallFinishSpan None)] ++ record_probe (metrics c) true dur
            ++ role_metric (metrics c) (SetRedisRole role)
            ++ (if decide (oldRole ≠ role) then
                  role_metric (metrics c) (RecordRoleTransition oldRole role) ++ [Notify]
                else []),
          mkChecker (opts c) (metrics c) newIsMaster role None)
  end.

(** func (c *Checker) Run(ctx) error: one probe at the start and one per tick
    until the context ends, each with what it meets. *)
Fixpoint Run (probes : list (result conn * duration)) (c : Checker) : result (list role_action * Checker) :=
  match probes with
  | [] => Ok ([], c)
  | (dial, dur) :: probes' =>
      '(tr, c) ← probeOnce dial dur c;
      '(tr', c) ← Run probes' c;
      Ok (tr ++ tr', c)
  end.

(** ** Lemmas *)

Lemma HasPrefix_CRLF c s : c ≠ CR → HasPrefix (String c s) CRLF = false.
Proof. intros Hc. unfold CRLF. rewrite HasPrefix_cons, bool_decide_false; [done|congruence]. Qed.

Lemma split_go_line l cur rest :
  contains_byte l CR = false →
  split_go CRLF 0 cur (l +:+ CRLF +:+ rest) = (cur +:+ l) :: split_go CRLF 0 "" rest.
Proof.
  revert cur. induction l as [|c l IH]; intros cur Hl.
  - rewrite str_app_nil_l, str_app_nil_r. unfold CRLF. rewrite str_app_cons. cbn [split_go].
    rewrite HasPrefix_cons, str_app_cons, HasPrefix_cons, HasPrefix_nil.
    by rewrite !bool_decide_true by done.
  - rewrite contains_byte_cons in Hl. apply orb_false_iff in Hl as [Hc Hl].
    apply bool_decide_eq_false in Hc. rewrite str_app_cons. cbn [split_go].
    rewrite HasPrefix_CRLF by done. rewrite IH by done.
    by rewrite str_app_assoc.
Qed.

(** What a server sends: its lines, each ended by CRLF. *)
Fixpoint info_body (lines : list string) : string :=
  match lines with [] => "" | l :: lines' => l +:+ CRLF +:+ info_body lines' end.

Lemma Split_info_body lines :
  Forall (λ l, contains_byte l CR = false) lines → Split (info_body lines) CRLF = lines ++ [""].
Proof.
  unfold Split. induction 1 as [|l lines Hl Hls IH]; [done|].
  cbn [info_body]. rewrite split_go_line by done. rewrite IH. done.
Qed.

(** What an answer does to a checker, whatever the connection. *)
Definition answered (c : Checker) (role : Role) : Checker :=
  mkChecker (opts c) (metrics c) (bool_decide (role = RoleMaster)) role None.

Definition checker_inv (c : Checker) : Prop := isMaster c = bool_decide (current c = RoleMaster).

Lemma New_inv o m : checker_inv (New o m).
Proof. done. Qed.

Lemma probeOnce_inv dial dur c tr c' :
  probeOnce dial dur c = Ok (tr, c') → checker_inv c → checker_inv c'.
Proof.
  unfold probeOnce. destruct (queryRole _ _) as [[role w]|e|]; intros [= <- <-]; done.
Qed.

(** The role changes published by a trace, and its wake-ups. *)
Definition role_changes (tr : list role_action) : list (Role * Role) :=
  omap (λ a, match a with RoleMetric (RecordRoleTransition f t) => Some (f, t) | _ => None end) tr.
Definition wakeups (tr : list role_action) : nat :=
  length (List.filter (λ a, match a with Notify => true | _ => false end) tr).

(** The answers of a sequence of probes, and the changes between them. *)
Definition answers (o : Options) (probes : list (result conn * duration)) : list Role :=
  omap (λ p, match queryRole o (fst p) with Ok (role, _) => Some role | _ => None end) probes.
Fixpoint changes (r : Role) (l : list Role) : list (Role * Role) :=
  match l with
  | [] => []
  | x :: l' => if decide (r = x) then changes r l' else (r, x) :: changes x l'
  end.

Lemma role_changes_app t1 t2 : role_changes (t1 ++ t2) = role_changes t1 ++ role_changes t2.
Proof. apply omap_app. Qed.
Lemma wakeups_app t1 t2 : wakeups (t1 ++ t2) = wakeups t1 + wakeups t2.
Proof. unfold wakeups. by rewrite List.filter_app, length_app. Qed.

Lemma probeOnce_spec dial dur c tr c' :
  metrics c ≠ NilSink → probeOnce dial dur c = Ok (tr, c') →
  opts c' = opts c ∧ metrics c' = metrics c ∧ wakeups tr = length (role_changes tr) ∧
  match queryRole (opts c) dial with
  | Ok (role, _) =>
      c' = answered c role ∧
      role_changes tr = if decide (current c = role) then [] else [(current c, role)]
  | Err e => isMaster c' = isMaster c ∧ current c' = current c ∧ probeErr c' = Some e ∧
             role_changes tr = []
  | Panics => False
  end.
Proof.
  unfold probeOnce. intros Hm. destruct (queryRole _ _) as [[role w]|e|]; [| |done].
  - intros [= <- <-]. unfold answered. cbn [opts metrics].
    destruct (metrics c); [done|..]; (destruct (decide (current c = role)) as [E|E];
      [rewrite decide_False by (by intros ?) | rewrite decide_True by done]; done).
  - intros [= <- <-]. cbn [opts metrics isMaster current probeErr]. by destruct (metrics c).
Qed.

Lemma run_prober_spec probes : ∀ c tr c',
  metrics c ≠ NilSink → checker_inv c → Run probes c = Ok (tr, c') →
  checker_inv c' ∧ opts c' = opts c ∧
  current c' = List.last (answers (opts c) probes) (current c) ∧
  role_changes tr = changes (current c) (answers (opts c) probes) ∧
  wakeups tr = length (role_changes tr).
Proof.
  induction probes as [|[dial dur] probes IH]; intros c tr c' Hm Hinv; cbn [Run].
  - by intros [= <- <-].
  - destruct (probeOnce dial dur c) as [[tr1 c1]| |] eqn:Ep; [|done..]. cbn [mbind result_bind].
    destruct (Run probes c1) as [[tr2 c2]| |] eqn:Er; [|done..]. cbn [mbind result_bind].
    intros [= <- <-]. pose proof (probeOnce_inv _ _ _ _ _ Ep Hinv) as Hinv1.
    apply probeOnce_spec in Ep as (Ho & Hm1 & Hw & Hq); [|done].
    apply IH in Er as (Hi & Ho2 & Hc & Hch & Hw2); [|congruence|done].
    rewrite Ho in *. split_and!; [done|done| | |rewrite wakeups_app, role_changes_app, length_app; lia];
      unfold answers; cbn [omap list_omap fst]; fold (answers (opts c) probes);
      rewrite ?role_changes_app, ?Hc, ?Hch;
      destruct (queryRole (opts c) dial) as [[role w]|e|]; try done.
    + destruct Hq as [-> _]. cbn [answered current]. clear.
      generalize (current c). revert role. induction (answers (opts c) probes) as [|x l IH]; intros r r'; [done|].
      cbn [List.last]. destruct l; [done|]. apply IH.
    + destruct Hq as (_ & -> & _). done.
    + destruct Hq as [-> ->]. cbn [answered current changes]. case_decide as E; [by rewrite E|done].
    + destruct Hq as (_ & -> & _ & ->). done.
Qed.

(** ** Properties *)

(** The normalisation of the value of the role line. *)
Definition normalised (v : string) : Role :=
  if decide (v = "slave") then RoleReplica else v.

Lemma read_ok rest e : ReadSimpleString (mkReader ("+OK" +:+ CRLF +:+ rest) e) = Ok (mkReader rest e).
Proof. unfold ReadSimpleString. by rewrite read_line. Qed.

(** The replies of a server to the commands of a probe. *)
Definition probe_replies (o : Options) (body : string) : string :=
  (if decide (o_Password o ≠ "") then "+OK" +:+ CRLF else "") +:+ bulk_bytes body.
Definition probe_commands (o : Options) : list (list string) :=
  (if decide (o_Password o ≠ "") then [AuthArgs (o_Username o) (o_Password o)] else [])
  ++ [["INFO"; "replication"]].

Definition write_commands (w : writer) (cmds : list (list string)) : result writer :=
  foldl (λ m args, w ← m; WriteCommand w args) (Ok w) cmds.

(** C23: a probe learns the role of the server it talks to -- with a server that
    accepts the credentials and answers with the CRLF-terminated lines of the
    replication section, of which the first role line says [v], the probe sends
    AUTH when a password is set and then INFO replication, and returns [v]
    trimmed, slave being called replica. *)
Theorem queryRole_learns (o : Options) (pre post : list string) (v rest : string) (e : goerror) :
  let lines := pre ++ ("role:" +:+ v) :: post in
  Forall (λ l, contains_byte l CR = false) lines →
  Forall (λ l, HasPrefix l "role:" = false) pre →
  (Z.of_nat (len (info_body lines)) + 2 ≤ max_alloc)%Z →
  ∃ w, write_commands (mkWriter "" None) (probe_commands o) = Ok w ∧
  queryRole o (Ok (mkConn (mkReader (probe_replies o (info_body lines) +:+ rest) e) (mkWriter "" None)))
  = Ok (normalised (TrimSpace v), w).
Proof.
  intros lines Hcr Hpre Hlen.
  assert (Hp : parseRoleFromInfo (info_body lines) = Ok (normalised (TrimSpace v))).
  { unfold parseRoleFromInfo. rewrite Split_info_body by done. unfold lines. clear -Hpre.
    rewrite <- app_assoc. induction Hpre as [|l pre Hl Hpre IH]; cbn [app role_of_lines]; [|by rewrite Hl].
    rewrite prefix_app. unfold TrimPrefix. rewrite prefix_app, str_drop_app. cbn [negb]. unfold normalised.
    destruct (decide (TrimSpace v = "master")) as [->|]; [done|].
    destruct (decide (TrimSpace v = "slave")) as [->|]; [done|]. case_decide as H; [|done].
    destruct H as [H|H]; [done|]. by rewrite H. }
  unfold queryRole, probe_commands, probe_replies, write_commands. cbn [wrapf mbind result_bind c_reader c_writer].
  destruct (decide (o_Password o ≠ "")) as [Hpw|Hpw]; cbn [foldl app].
  - eexists. split; [reflexivity|]. cbn [mbind result_bind WriteCommand w_err wrapf].
    rewrite !str_app_assoc, read_ok. cbn [wrapf mbind result_bind WriteCommand w_err].
    rewrite read_bulk_bytes by done. cbn [wrapf mbind result_bind]. by rewrite Hp.
  - eexists. split; [reflexivity|]. cbn [mbind result_bind WriteCommand w_err wrapf].
    change ("" +:+ bulk_bytes (info_body lines)) with (bulk_bytes (info_body lines)).
    rewrite read_bulk_bytes by done. cbn [wrapf mbind result_bind]. by rewrite Hp.
Qed.

Definition example_options : Options :=
  mkOptions "tcp" "127.0.0.1:6379" "" "secret" Second Second (5 * Second) false.

Lemma queryRole_learns_witness :
  ∃ w, queryRole example_options
    (Ok (mkConn (mkReader (probe_replies example_options
           (info_body ["# Replication"; "role:slave"; "master_host:10.0.0.1"]) +:+ "") (Sentinel EOF))
         (mkWriter "" None)))
  = Ok (RoleReplica, w).
Proof.
  destruct (queryRole_learns example_options ["# Replication"] ["master_host:10.0.0.1"] "slave" ""
    (Sentinel EOF)) as (w & _ & H).
  - repeat constructor.
  - repeat constructor.
  - vm_compute. discriminate.
  - exists w. exact H.
Defined.

(** C22: the checker follows its probes -- after any sequence of probes the role
    is the last one answered (failed probes leave it alone), master is reported
    exactly when that role is master, and the transitions published are the
    changes between successive answers starting from unknown, with one wake-up
    of the subscribers for each. *)
Theorem Run_follows_answers (o : Options) (m : role_sink) (probes : list (result conn * duration))
    (tr : list role_action) (c : Checker) :
  m ≠ NilSink → Run probes (New o m) = Ok (tr, c) →
  let rs := answers (opts (New o m)) probes in
  current c = List.last rs RoleUnknown ∧
  isMaster c = bool_decide (List.last rs RoleUnknown = RoleMaster) ∧
  role_changes tr = changes RoleUnknown rs ∧ wakeups tr = length (changes RoleUnknown rs).
Proof.
  intros Hm Hr. apply run_prober_spec in Hr as (Hi & _ & Hc & Hch & Hw); [|done|apply New_inv].
  cbn [current New] in *. unfold checker_inv in Hi. rewrite Hc in Hi. rewrite Hw, Hch. done.
Qed.

Definition example_answer (v : string) : result conn * duration :=
  (Ok (mkConn (mkReader (probe_replies example_options (info_body ["role:" +:+ v])) (Sentinel EOF))
        (mkWriter "" None)), Millisecond).
Definition example_probes : list (result conn * duration) :=
  [example_answer "master"; (Err (NetError "connection refused"), Millisecond);
   example_answer "master"; example_answer "slave"].

Lemma Run_follows_answers_witness :
  ∃ tr c, Run example_probes (New example_options ProbeSink) = Ok (tr, c) ∧
          isMaster c = false ∧ role_changes tr = [("unknown", "master"); ("master", "replica")].
Proof.
  destruct (Run example_probes (New example_options ProbeSink)) as [[tr c]|e|] eqn:E;
    [|vm_compute in E; discriminate E..].
  destruct (Run_follows_answers example_options ProbeSink example_probes tr c ltac:(done) E)
    as (_ & H1 & H2 & _).
  exists tr, c. split; [reflexivity|]. split; [rewrite H1|rewrite H2]; vm_compute; reflexivity.
Defined.
