(* ===== verification/Gate.v ===== *)
(** * The role gate under concurrency ([Wait], [Subscribe] and [notify] of
    [internal/role/role.go], the gate watcher of [internal/monitor/client.go])

    The goroutines that share a role checker, one atomic step at a time: the
    prober storing an answer and notifying, callers of Wait, and MONITOR
    sessions that watch the gate.  A caller of Wait is shown never to miss a
    wake-up.  A session is shown to be told of a demotion that happens after it
    subscribed while active, and an execution is given in which the demotion
    falls between the check of the gate and the subscription, which nobody
    tells it of. *)

From S2P Require Export Role.

(** Where a goroutine stands.  [k] tells whether Wait was called by the Run
    loop of the monitor, which connects when it returns. *)
Inductive pc : Type :=
| WaitStart (k : bool)                 (* Wait: the first check *)
| WaitSubscribe (k : bool)             (* the loop: about to subscribe *)
| WaitCheck (k : bool) (ch : nat)      (* subscribed, about to re-check *)
| WaitBlocked (k : bool) (ch : nat)    (* in the select *)
| WaitAgain (k : bool)                 (* woken, unsubscribed, about to check *)
| WaitReturned
| MonGate                              (* Run: about to check the gate *)
| MonDial                              (* runOnce: dialing *)
| MonWatch (ch : nat) (seen : bool)    (* the watcher in its select *)
| MonSignalled (ch : nat) (seen : bool). (* notified, about to check *)

(** Where the probe stands, from the answer on. *)
Inductive prober : Type :=
| Idle
| Storing (old role : Role)            (* about to store isMaster *)
| StoringRole (old role : Role)        (* about to store the role *)
| Notifying.

(** The shared state.  A subscription is a channel number with room for one
    signal: [tokens] are the channels that hold one.  [seen] in MonWatch is a
    ghost: whether the gate was active at the subscription, or was found active
    by the watcher since. *)
Record gate : Type := mkGate {
  g_allow : bool;
  g_master : bool;
  g_role : Role;
  g_prober : prober;
  g_waiters : list nat;
  g_tokens : gset nat;
  g_next : nat;
  g_procs : gmap nat pc
}.

Definition active (s : gate) : bool := if g_allow s then true else g_master s.

Definition set_proc (p : nat) (x : pc) (s : gate) : gate :=
  mkGate (g_allow s) (g_master s) (g_role s) (g_prober s) (g_waiters s) (g_tokens s) (g_next s)
    (<[p := x]> (g_procs s)).

(** func (c *Checker) subscribe(): the channel is numbered [g_next]. *)
Definition subscribe (s : gate) : gate :=
  mkGate (g_allow s) (g_master s) (g_role s) (g_prober s) (g_waiters s ++ [g_next s]) (g_tokens s)
    (S (g_next s)) (g_procs s).

(** The cancel function of a subscription: removes the first occurrence. *)
Fixpoint remove_waiter (ch : nat) (l : list nat) : list nat :=
  match l with [] => [] | w :: l' => if decide (w = ch) then l' else w :: remove_waiter ch l' end.
Definition cancel (ch : nat) (s : gate) : gate :=
  mkGate (g_allow s) (g_master s) (g_role s) (g_prober s) (remove_waiter ch (g_waiters s)) (g_tokens s)
    (g_next s) (g_procs s).

(** Receiving the signal of a channel. *)
Definition take_token (ch : nat) (s : gate) : gate :=
  mkGate (g_allow s) (g_master s) (g_role s) (g_prober s) (g_waiters s) (g_tokens s ∖ {[ch]})
    (g_next s) (g_procs s).

(** func (c *Checker) notify(): a non-blocking send to every waiter. *)
Definition notify (s : gate) : gate :=
  mkGate (g_allow s) (g_master s) (g_role s) Idle (g_waiters s)
    (g_tokens s ∪ list_to_set (g_waiters s)) (g_next s) (g_procs s).

(** The steps of probeOnce from the answer [role] on. *)
Definition prober_step (role : Role) (s : gate) : gate :=
  let set_prober m r x :=
    mkGate (g_allow s) m r x (g_waiters s) (g_tokens s) (g_next s) (g_procs s) in
  match g_prober s with
  | Idle => set_prober (g_master s) (g_role s) (Storing (g_role s) role)
  | Storing old role => set_prober (bool_decide (role = RoleMaster)) (g_role s) (StoringRole old role)
  | StoringRole old role =>
      set_prober (g_master s) role (if decide (old ≠ role) then Notifying else Idle)
  | Notifying => notify s
  end.

Definition returned (k : bool) : pc := if k then MonDial else WaitReturned.

(** One step of goroutine [p]: [None] when it is blocked or has ended.  [done]
    tells whether the context (or, for a watcher, the connection) is done and
    the select takes that case. *)
Definition proc_step (p : nat) (done : bool) (s : gate) : option gate :=
  match g_procs s !! p with
  | None | Some WaitReturned => None
  | Some (WaitStart k) =>
      Some (set_proc p (if active s then returned k else WaitSubscribe k) s)
  | Some (WaitSubscribe k) => Some (set_proc p (WaitCheck k (g_next s)) (subscribe s))
  | Some (WaitCheck k ch) =>
      if active s then Some (set_proc p (returned k) (cancel ch s))
      else Some (set_proc p (WaitBlocked k ch) s)
  | Some (WaitBlocked k ch) =>
      if done then Some (set_proc p WaitReturned (cancel ch s))
      else if decide (ch ∈ g_tokens s) then Some (set_proc p (WaitAgain k) (cancel ch (take_token ch s)))
      else None
  | Some (WaitAgain k) =>
      Some (set_proc p (if active s then returned k else WaitSubscribe k) s)
  | Some MonGate => Some (set_proc p (if active s then MonDial else WaitStart true) s)
  | Some MonDial =>
      if done then Some (set_proc p MonGate s)
      else Some (set_proc p (MonWatch (g_next s) (active s)) (subscribe s))
  | Some (MonWatch ch seen) =>
      if done then Some (set_proc p MonGate (cancel ch s))
      else if decide (ch ∈ g_tokens s) then Some (set_proc p (MonSignalled ch seen) (take_token ch s))
      else None
  | Some (MonSignalled ch seen) =>
      if active s then Some (set_proc p (MonWatch ch true) s)
      else Some (set_proc p MonGate (cancel ch s))
  end.

(** ** Executions *)

Inductive label : Type :=
| Spawn (p : nat) (mon : bool)
| Probe (role : Role)
| Proc (p : nat) (done : bool).

Definition exec (l : label) (s : gate) : option gate :=
  match l with
  | Spawn p mon =>
      match g_procs s !! p with
      | None => Some (set_proc p (if mon then MonGate else WaitStart false) s)
      | Some _ => None
      end
  | Probe role => Some (prober_step role s)
  | Proc p done => proc_step p done s
  end.

Inductive step : gate → gate → Prop :=
| step_exec l s s' : exec l s = Some s' → step s s'.

Fixpoint exec_all (ls : list label) (s : gate) : option gate :=
  match ls with [] => Some s | l :: ls' => s' ← exec l s; exec_all ls' s' end.

Definition init_gate (allow : bool) : gate := mkGate allow false RoleUnknown Idle [] ∅ 0 ∅.
Definition reachable (allow : bool) (s : gate) : Prop := rtc step (init_gate allow) s.

Lemma exec_all_steps ls : ∀ s s', exec_all ls s = Some s' → rtc step s s'.
Proof.
  induction ls as [|l ls IH]; intros s s'; cbn [exec_all]; [intros [= ->]; apply rtc_refl|].
  destruct (exec l s) as [s1|] eqn:E; [|done]. cbn [mbind option_bind]. intros H.
  apply (rtc_l _ _ s1); [by apply (step_exec l)|by apply IH].
Qed.

(** ** The invariant *)

(** A notification is due: the answer being stored is a change. *)
Definition pending (s : gate) : Prop :=
  match g_prober s with
  | StoringRole old role => old ≠ role
  | Notifying => True
  | _ => False
  end.

Definition prober_ok (s : gate) : Prop :=
  match g_prober s with
  | Idle | Notifying => g_master s = bool_decide (g_role s = RoleMaster)
  | Storing old _ => old = g_role s ∧ g_master s = bool_decide (old = RoleMaster)
  | StoringRole old role => old = g_role s ∧ g_master s = bool_decide (role = RoleMaster)
  end.

Definition chan_of (x : pc) : option nat :=
  match x with
  | WaitCheck _ ch | WaitBlocked _ ch | MonWatch ch _ | MonSignalled ch _ => Some ch
  | _ => None
  end.

(** Every subscription is registered, below the next number, and has one owner. *)
Definition chans_ok (s : gate) : Prop :=
  (∀ p x ch, g_procs s !! p = Some x → chan_of x = Some ch → ch < g_next s ∧ ch ∈ g_waiters s) ∧
  (∀ p q x y ch, g_procs s !! p = Some x → g_procs s !! q = Some y →
     chan_of x = Some ch → chan_of y = Some ch → p = q).

(** A sleeper whose condition has come holds a signal or is due one. *)
Definition wakes (s : gate) (x : pc) : Prop :=
  match x with
  | WaitBlocked _ ch => g_allow s = false ∧ (g_master s = true → ch ∈ g_tokens s ∨ pending s)
  | MonWatch ch true => g_master s = false → g_allow s = true ∨ ch ∈ g_tokens s ∨ pending s
  | _ => True
  end.

Definition gate_inv (s : gate) : Prop :=
  prober_ok s ∧ chans_ok s ∧ map_Forall (λ _ x, wakes s x) (g_procs s).

(** ** Lemmas *)

Lemma elem_of_remove_waiter ch w l : w ≠ ch → w ∈ l → w ∈ remove_waiter ch l.
Proof.
  induction l as [|y l IH]; [done|]. cbn. rewrite elem_of_cons. intros Hne [->|H]; case_decide; subst; try done.
  - by apply list_elem_of_here.
  - apply elem_of_cons. auto.
Qed.

Lemma prober_step_inv role s : gate_inv s → gate_inv (prober_step role s).
Proof.
  intros (Hp & Hc & Hw). unfold gate_inv, prober_step, prober_ok, chans_ok in *.
  destruct (g_prober s) as [|old r|old r|] eqn:E; cbn [g_prober g_master g_role g_procs g_next g_waiters notify].
  - split_and!; [done|done|apply Hc|apply Hc|].
    intros p x Hx. specialize (Hw p x Hx). destruct x as [| | |k ch| | | | |ch [] |]; cbn in *; try done;
      unfold pending in *; rewrite E in Hw; cbn; tauto.
  - destruct Hp as [-> Hm]. split_and!; [done|done|apply Hc|apply Hc|].
    intros p x Hx. specialize (Hw p x Hx).
    destruct x as [| | |k ch| | | | |ch [] |]; cbn in *; try done;
      unfold pending in *; rewrite E, Hm in Hw; cbn.
    + destruct Hw as [Ha Hw]. split; [done|]. intros Hr%bool_decide_eq_true.
      destruct (decide (g_role s = RoleMaster)) as [Ho|Ho]; [|right; congruence].
      rewrite bool_decide_true in Hw by done. destruct (Hw eq_refl) as [?|[]]. by left.
    + intros Hr%bool_decide_eq_false.
      destruct (decide (g_role s = RoleMaster)) as [Ho|Ho]; [right; right; congruence|].
      rewrite bool_decide_false in Hw by done. destruct (Hw eq_refl) as [?|[?|[]]]; auto.
  - destruct Hp as [-> Hm]. split_and!; [by destruct (decide _)|apply Hc|apply Hc|].
    intros p x Hx. specialize (Hw p x Hx).
    destruct x as [| | |k ch| | | | |ch [] |]; cbn in *; try done;
      unfold pending in *; rewrite E in Hw; cbn; destruct (decide (g_role s ≠ r)); tauto.
  - split_and!; [done|apply Hc|apply Hc|].
    intros p x Hx. specialize (Hw p x Hx). destruct Hc as [Hc _]. specialize (Hc p x).
    destruct x as [| | |k ch| | | | |ch [] |]; cbn in *; try done;
      destruct (Hc ch Hx eq_refl) as [_ Hin]; set_solver.
Qed.

(** Steps that only move one goroutine, leaving or taking its channel. *)
Lemma wakes_mono s s' x :
  g_allow s' = g_allow s → g_master s' = g_master s → g_prober s' = g_prober s →
  (∀ ch, chan_of x = Some ch → ch ∈ g_tokens s → ch ∈ g_tokens s') → wakes s x → wakes s' x.
Proof.
  unfold wakes, pending. intros -> -> -> Ht. destruct x as [| | |k ch| | | | |ch [] |]; cbn in *; try done.
  - specialize (Ht ch eq_refl). tauto.
  - specialize (Ht ch eq_refl). tauto.
Qed.

(** [p] moves to [x], whose channel, if any, is its own or the fresh one; the
    other goroutines keep their channels and signals. *)
Lemma move_inv p x s s' :
  gate_inv s →
  g_allow s' = g_allow s → g_master s' = g_master s → g_role s' = g_role s →
  g_prober s' = g_prober s → g_procs s' = <[p := x]> (g_procs s) → g_next s ≤ g_next s' →
  (∀ q y ch, q ≠ p → g_procs s !! q = Some y → chan_of y = Some ch →
     ch ∈ g_waiters s → ch ∈ g_waiters s' ∧ (ch ∈ g_tokens s → ch ∈ g_tokens s')) →
  (∀ ch, chan_of x = Some ch → ch < g_next s' ∧ ch ∈ g_waiters s' ∧
     (ch = g_next s ∨ (∃ y, g_procs s !! p = Some y ∧ chan_of y = Some ch))) →
  wakes s' x →
  gate_inv s'.
Proof.
  intros (Hp & [Hc1 Hc2] & Hw) Ha Hm Hr Hpr Hprocs Hn Hoth Hown Hx.
  unfold gate_inv, prober_ok, chans_ok in *. rewrite Hm, Hr, Hpr, Hprocs in *. split; [done|].
  assert (Hfresh : ∀ q y ch, q ≠ p → g_procs s !! q = Some y → chan_of y = Some ch →
            chan_of x = Some ch → False).
  { intros q y ch Hq Hy Hch Hxc. destruct (Hown ch Hxc) as (_ & _ & [->|(z & Hz & Hzc)]).
    - destruct (Hc1 q y _ Hy Hch). lia.
    - by apply Hq, (Hc2 q p y z ch). }
  split; [split|].
  - intros q y ch [[<- <-]|[Hq Hy]]%lookup_insert_Some Hch.
    + destruct (Hown ch Hch) as (? & ? & _). done.
    + destruct (Hc1 q y ch Hy Hch) as [Hlt Hin]. split; [lia|]. by apply (Hoth q y).
  - intros q1 q2 y1 y2 ch [[<- <-]|[Hq1 Hy1]]%lookup_insert_Some
      [[<- <-]|[Hq2 Hy2]]%lookup_insert_Some H1 H2; [done| | |by apply (Hc2 q1 q2 y1 y2 ch)].
    + destruct (Hfresh q2 y2 ch); done.
    + destruct (Hfresh q1 y1 ch); done.
  - intros q y [[<- <-]|[Hq Hy]]%lookup_insert_Some; [done|].
    apply (wakes_mono s); try done; [|by apply Hw in Hy].
    intros ch Hch. destruct (Hc1 q y ch Hy Hch) as [_ Hin]. by apply (Hoth q y).
Qed.

(** The waiters other than the owner of a channel survive its cancellation. *)
Lemma others_ne s p x ch q y ch' :
  chans_ok s → g_procs s !! p = Some x → chan_of x = Some ch →
  q ≠ p → g_procs s !! q = Some y → chan_of y = Some ch' → ch' ≠ ch.
Proof. intros [_ Hc2] Hx Hch Hq Hy Hch' ->. by apply Hq, (Hc2 q p y x ch). Qed.

Ltac proc_moves p x s := apply (move_inv p x s); cbn; try done.
(** [ch] is cancelled: the others keep their own channels. *)
Ltac cancels Hne ch :=
  let q := fresh in let y := fresh in let ch' := fresh in
  intros q y ch' ? ? ? ?; split; [|done]; apply elem_of_remove_waiter; [|done]; by apply (Hne ch q y ch').
(** [p] takes the fresh channel, or keeps the one it has. *)
Ltac takes_fresh := let ch := fresh in intros ch [= <-]; split_and!; [lia|set_solver|by left].
Ltac keeps_own := let ch := fresh in intros ch [= <-]; split_and!; [done|done|right; eauto].

Lemma proc_step_inv p done s s' : gate_inv s → proc_step p done s = Some s' → gate_inv s'.
Proof.
  intros Hi. pose proof Hi as (Hp & Hc & Hw). unfold proc_step.
  destruct (g_procs s !! p) as [x|] eqn:Hx; [|discriminate].
  pose proof (Hw p x Hx) as Hwx.
  pose proof (λ ch q y ch', others_ne s p x ch q y ch' Hc Hx) as Hne.
  destruct Hc as [Hc1 Hc2]. specialize (Hc1 p x).
  destruct x as [k|k|k ch|k ch|k| | | |ch seen|ch seen]; cbn in Hne, Hc1.
  - intros [= <-]. proc_moves p (if active s then returned k else WaitSubscribe k) s; destruct (active s), k; done.
  - intros [= <-]. proc_moves p (WaitCheck k (g_next s)) s; [lia|set_solver|]. takes_fresh.
  - destruct (Hc1 ch Hx eq_refl) as [Hlt Hin]. destruct (active s) eqn:Ea; intros [= <-].
    + proc_moves p (returned k) s; [|by destruct k..]. cancels Hne ch.
    + proc_moves p (WaitBlocked k ch) s.
      * keeps_own.
      * unfold active in Ea. destruct (g_allow s); [done|]. split; [done|]. by rewrite Ea.
  - destruct (Hc1 ch Hx eq_refl) as [Hlt Hin]. destruct done; [|case_decide; [|discriminate]]; intros [= <-].
    + proc_moves p WaitReturned s. cancels Hne ch.
    + proc_moves p (WaitAgain k) s. intros q y ch' Hq Hy Hch' Hin'.
      assert (ch' ≠ ch) by (by apply (Hne ch q y ch')).
      split; [by apply elem_of_remove_waiter|set_solver].
  - intros [= <-]. proc_moves p (if active s then returned k else WaitSubscribe k) s; destruct (active s), k; done.
  - discriminate.
  - intros [= <-]. proc_moves p (if active s then MonDial else WaitStart true) s; destruct (active s); done.
  - destruct done; intros [= <-].
    + proc_moves p MonGate s.
    + proc_moves p (MonWatch (g_next s) (active s)) s; [lia|set_solver| |].
      * takes_fresh.
      * unfold active. destruct (g_allow s), (g_master s); auto.
  - destruct (Hc1 ch Hx eq_refl) as [Hlt Hin]. destruct done; [|case_decide; [|discriminate]]; intros [= <-].
    + proc_moves p MonGate s. cancels Hne ch.
    + proc_moves p (MonSignalled ch seen) s.
      * intros q y ch' Hq Hy Hch' Hin'. assert (ch' ≠ ch) by (by apply (Hne ch q y ch')).
        split; [done|set_solver].
      * keeps_own.
  - destruct (Hc1 ch Hx eq_refl) as [Hlt Hin]. destruct (active s) eqn:Ea; intros [= <-].
    + proc_moves p (MonWatch ch true) s.
      * keeps_own.
      * unfold active in Ea. destruct (g_allow s); [auto|]. congruence.
    + proc_moves p MonGate s. cancels Hne ch.
Qed.

Lemma exec_inv l s s' : gate_inv s → exec l s = Some s' → gate_inv s'.
Proof.
  intros Hi. destruct l as [p mon|role|p done]; cbn [exec].
  - destruct (g_procs s !! p) eqn:E; [done|]. intros [= <-].
    proc_moves p (if mon then MonGate else WaitStart false) s; by destruct mon.
  - intros [= <-]. by apply prober_step_inv.
  - by apply proc_step_inv.
Qed.

Lemma reachable_inv allow s : reachable allow s → gate_inv s.
Proof.
  unfold reachable. intros H.
  assert (H0 : gate_inv (init_gate allow)) by (split_and!; [done|split; done|by intros ? ? ?]).
  revert H0. induction H as [|s1 s2 s3 [l ? ? Hs] _ IH]; [done|]. eauto using exec_inv.
Qed.

(** The publication in progress, carried to its end. *)
Definition finish (s : gate) : gate :=
  match g_prober s with
  | StoringRole _ role => if g_prober (prober_step role s) is Notifying then notify (prober_step role s) else s
  | Notifying => notify s
  | _ => s
  end.

Lemma finish_pending s ch :
  ch ∈ g_tokens s ∨ pending s → ch ∈ g_waiters s → ch ∈ g_tokens (finish s).
Proof.
  unfold pending, finish, prober_step. destruct (g_prober s) as [|old r|old r|] eqn:E; cbn.
  - tauto.
  - tauto.
  - intros [Ht|Hne] Hin.
    + destruct (decide (old ≠ r)); cbn; [set_solver|done].
    + rewrite decide_True by done. cbn. set_solver.
  - intros _ Hin. set_solver.
Qed.

Lemma finish_procs s : g_procs (finish s) = g_procs s.
Proof.
  unfold finish, prober_step. destruct (g_prober s) as [|old r|old r|]; cbn; try done.
  by destruct (decide (old ≠ r)).
Qed.

(** ** Properties *)

(** C2: Wait misses no wake-up -- in every interleaving of the prober and of any
    number of callers, a caller blocked in Wait while the gate is active is
    blocked no longer than the publication in progress: once it is finished
    (and at once when there is none) the caller's channel holds a signal and it
    can go on. *)
Theorem Wait_no_lost_wakeup (allow : bool) (s : gate) (p : nat) (k : bool) (ch : nat) :
  reachable allow s → g_procs s !! p = Some (WaitBlocked k ch) → active s = true →
  ch ∈ g_tokens (finish s) ∧ is_Some (proc_step p false (finish s)).
Proof.
  intros (_ & [Hc _] & Hw)%reachable_inv Hp Ha. destruct (Hc p _ ch Hp eq_refl) as [_ Hin].
  destruct (Hw p _ Hp) as [Hal Hwk]. unfold active in Ha. rewrite Hal in Ha.
  assert (Ht : ch ∈ g_tokens (finish s)) by (apply finish_pending; auto). split; [done|].
  unfold proc_step. rewrite finish_procs, Hp, decide_True by done. by eexists.
Qed.

(** A caller that found the gate closed, then a probe that finds a master. *)
Definition example_wait : list label :=
  [Spawn 7 false; Proc 7 false; Proc 7 false; Proc 7 false;
   Probe "master"; Probe "master"; Probe "master"].

Lemma Wait_no_lost_wakeup_witness :
  ∃ s, exec_all example_wait (init_gate false) = Some s ∧ active s = true ∧
       (0 ∉ g_tokens s) ∧ (0 ∈ g_tokens (finish s)).
Proof.
  destruct (exec_all example_wait (init_gate false)) as [s|] eqn:E; [|vm_compute in E; discriminate E].
  exists s. assert (Hr : reachable false s) by (by apply (exec_all_steps example_wait)).
  assert (Hp : g_procs s !! 7 = Some (WaitBlocked false 0) ∧ active s = true ∧ 0 ∉ g_tokens s).
  { vm_compute in E. injection E as <-. split_and!; [reflexivity|reflexivity|apply (bool_decide_unpack _); vm_compute; exact I]. }
  destruct Hp as (Hp & Ha & Hn). split_and!; [reflexivity|exact Ha|exact Hn|].
  exact (proj1 (Wait_no_lost_wakeup false s 7 false 0 Hr Hp Ha)).
Defined.

(** C5: a session that subscribed while the gate was active is told of a
    demotion -- in every interleaving, when the gate is no longer active the
    watcher of such a session holds a signal as soon as the publication in
    progress is finished, and taking it makes the session close its connection
    and return to the gate. *)
Theorem session_told_of_demotion (allow : bool) (s : gate) (p ch : nat) :
  reachable allow s → g_procs s !! p = Some (MonWatch ch true) → active s = false →
  ∃ s1 s2, proc_step p false (finish s) = Some s1 ∧
    g_procs s1 !! p = Some (MonSignalled ch true) ∧
    proc_step p false s1 = Some s2 ∧ g_procs s2 !! p = Some MonGate.
Proof.
  intros (_ & [Hc _] & Hw)%reachable_inv Hp Ha. destruct (Hc p _ ch Hp eq_refl) as [_ Hin].
  pose proof (Hw p _ Hp) as Hwk. cbn in Hwk. unfold active in Ha.
  destruct (g_allow s) eqn:Eal; [done|]. specialize (Hwk Ha).
  assert (Ht : ch ∈ g_tokens (finish s)) by (apply finish_pending; [intuition congruence|done]).
  assert (Hact : g_allow (finish s) = false ∧ g_master (finish s) = false).
  { unfold finish, prober_step. destruct (g_prober s) as [|old r|old r|]; cbn; try done.
    by destruct (decide (old ≠ r)). }
  destruct Hact as [H1 H2].
  exists (set_proc p (MonSignalled ch true) (take_token ch (finish s))).
  eexists. split_and!.
  - unfold proc_step. rewrite finish_procs, Hp. by rewrite decide_True.
  - cbn. apply lookup_insert_eq.
  - unfold proc_step. cbn [set_proc g_procs take_token]. rewrite lookup_insert_eq.
    unfold active. cbn [set_proc take_token g_allow g_master]. rewrite H1, H2. reflexivity.
  - cbn. apply lookup_insert_eq.
Qed.

(** A session that starts on a master, which is then demoted. *)
Definition example_demotion : list label :=
  [Probe "master"; Probe "master"; Probe "master"; Probe "master";
   Spawn 1 true; Proc 1 false; Proc 1 false;
   Probe "replica"; Probe "replica"; Probe "replica"].

Lemma session_told_of_demotion_witness :
  ∃ s s1 s2, exec_all example_demotion (init_gate false) = Some s ∧
    proc_step 1 false (finish s) = Some s1 ∧ proc_step 1 false s1 = Some s2 ∧
    g_procs s2 !! 1 = Some MonGate.
Proof.
  destruct (exec_all example_demotion (init_gate false)) as [s|] eqn:E; [|vm_compute in E; discriminate E].
  assert (Hr : reachable false s) by (by apply (exec_all_steps example_demotion)).
  assert (Hp : g_procs s !! 1 = Some (MonWatch 0 true) ∧ active s = false)
    by (vm_compute in E; injection E as <-; split; reflexivity).
  destruct Hp as [Hp Ha].
  destruct (session_told_of_demotion false s 1 0 Hr Hp Ha) as (s1 & s2 & H1 & _ & H2 & H3).
  exists s, s1, s2. split_and!; [reflexivity|exact H1|exact H2|exact H3].
Defined.

(** C33: a demotion published while a session is dialing is lost -- there is an
    execution in which the gate was active when the session checked it, the
    role changed before the session subscribed, and the session then watches a
    replica with no signal to come; further answers of the replica, however
    many, leave it so. *)
Theorem stale_session_reachable :
  ∃ s ch, reachable false s ∧ g_procs s !! 1 = Some (MonWatch ch false) ∧
    active s = false ∧ g_prober s = Idle ∧ proc_step 1 false s = None ∧
    ∀ n, Nat.iter n (λ s, prober_step "replica" (prober_step "replica" (prober_step "replica" s))) s = s.
Proof.
  pose (ls := [Probe "master"; Probe "master"; Probe "master"; Probe "master";
               Spawn 1 true; Proc 1 false;
               Probe "replica"; Probe "replica"; Probe "replica"; Probe "replica"; Proc 1 false]).
  destruct (exec_all ls (init_gate false)) as [s|] eqn:E; [|vm_compute in E; discriminate E].
  exists s, 0. split; [by apply (exec_all_steps ls)|].
  assert (H : g_procs s !! 1 = Some (MonWatch 0 false) ∧ active s = false ∧ g_prober s = Idle ∧
              proc_step 1 false s = None ∧
              prober_step "replica" (prober_step "replica" (prober_step "replica" s)) = s)
    by (vm_compute in E; injection E as <-; split_and!; reflexivity).
  destruct H as (H1 & H2 & H3 & H4 & H5). split_and!; [done..|].
  intros n. induction n as [|n IH]; [reflexivity|]. by rewrite Nat.iter_succ, IH.
Qed.
