(* ===== verification/Monitor.v ===== *)
(** * The MONITOR client ([internal/monitor/client.go])

    One session -- dial, AUTH, MONITOR, then the loop that parses the stream and
    queues the events -- and the Run loop that repeats sessions with an
    exponential backoff, gated on the role.  What the network, the clock, the
    gate and the context do in each iteration comes from its environment. *)

From S2P Require Export Channel Parser Resp.

(** type Options struct *)
Record Options : Type := mkOptions {
  Network : string;
  Address : string;
  Username : string;
  Password : string;
  DialTimeout : duration;
  ReadTimeout : duration;
  BackoffMin : duration;
  BackoffMax : duration
}.

(** type MetricsSink interface, and what else the client calls. *)
Inductive monitor_call : Type :=
| SetMonitorConnected (connected : bool)
| ObserveLastEvent (t : time)
| ObserveMonitorSession (d : duration)
| IncrParseError
| IncrReconnect
| IncrMonitorDropped.

Inductive mon_action : Type :=
| MonMetric (c : monitor_call)
| MonReport (err : goerror) (kv : list (string * string))
| Sleep (d : duration).

(** type Client struct, without its logger, reporter and sinks; [gated] tells
    whether a gate is installed. *)
Record Client : Type := mkClient {
  opts : Options;
  out : chan Event;
  drop : bool;
  gated : bool;
  dropped : Z;
  parseEr : Z;
  recon : Z
}.

(** func New(opts Options, out, log, report, dropOnFull) *Client *)
Definition New (o : Options) (out : chan Event) (dropOnFull : bool) : Client :=
  let bmin := if (BackoffMin o <=? 0)%Z then Second else BackoffMin o in
  let bmax := if (BackoffMax o <? bmin)%Z then (30 * Second)%Z else BackoffMax o in
  mkClient (mkOptions (Network o) (Address o) (Username o) (Password o) (DialTimeout o) (ReadTimeout o)
              bmin bmax) out dropOnFull false 0 0 0.

(** func (c *Client) SetGate(g Gate) *)
Definition SetGate (g : bool) (c : Client) : Client :=
  mkClient (opts c) (out c) (drop c) g (dropped c) (parseEr c) (recon c).

Record Stats : Type := mkStats { s_Dropped : Z; s_ParseErrors : Z; s_Reconnections : Z }.
Definition stats (c : Client) : Stats := mkStats (dropped c) (parseEr c) (recon c).
Definition QueueDepth (c : Client) : nat := chan_len (out c).
Definition QueueCapacity (c : Client) : nat := ch_cap (out c).

Definition incr64 (z : Z) : Z := ((z + 1) mod 2 ^ 64)%Z.
Definition set_out (o : chan Event) (c : Client) : Client :=
  mkClient (opts c) o (drop c) (gated c) (dropped c) (parseEr c) (recon c).
Definition add_dropped (c : Client) : Client :=
  mkClient (opts c) (out c) (drop c) (gated c) (incr64 (dropped c)) (parseEr c) (recon c).
Definition add_parse_error (c : Client) : Client :=
  mkClient (opts c) (out c) (drop c) (gated c) (dropped c) (incr64 (parseEr c)) (recon c).
Definition add_reconnection (c : Client) : Client :=
  mkClient (opts c) (out c) (drop c) (gated c) (dropped c) (parseEr c) (incr64 (recon c)).

(** func redact(addr string) string *)
Definition redact (addr : string) : string :=
  if negb (contains_byte addr ":") || HasPrefix addr "/" then addr
  else match LastIndexByte addr ":" with
       | Some (S i) => str_take (S i) addr +:+ ":***"
       | _ => addr
       end.

(** [n] events are received from the queue by the dispatcher. *)
Fixpoint receive (n : nat) (ch : chan Event) : list Event * chan Event :=
  match n with
  | O => ([], ch)
  | S n' =>
      match chan_recv ch with
      | None => ([], ch)
      | Some (ev, ch) => let '(evs, ch) := receive n' ch in (ev :: evs, ch)
      end
  end.

(** The environment of a session: [received i] events leave the queue before
    the [i]-th one is sent; [select_done i] is the error of the context when
    the select that sends the [i]-th event, without drop, takes its done case;
    [ctx_err] the error of the context, if it is done when the stream ends. *)
Record session_env : Type := mkSessionEnv {
  received : nat → nat;
  select_done : nat → option goerror;
  ctx_err : option goerror;
  lifetime : duration
}.

(** How a loop ends: with an error, or blocked on a full queue. *)
Inductive loop_end : Type :=
| Ended (err : goerror)
| Blocked.

Section Client.
Context `{UnicodeCase}.

(** func (c *Client) readLoop(ctx, conn, r) error, from the [i]-th event on.
    The result: the calls made, the events received by the dispatcher, how the
    loop ends and the client.  [None]: out of fuel. *)
Fixpoint read_loop (fuel : nat) (env : session_env) (i : nat) (r : reader) (c : Client)
    : option (list mon_action * list Event * loop_end * Client) :=
  match fuel with
  | O => None
  | S fuel' =>
      match ReadString LF r with
      | Err err =>
          Some ([], [],
                Ended (if errors_Is err EOF then Errorf "server closed connection" []
                       else match ctx_err env with
                            | Some ce => ce
                            | None => Wrapf "read: %w" [] err
                            end), c)
      | Panics => None
      | Ok (line, r) =>
          if negb (HasPrefix line "+") then
            if HasPrefix line "-" then
              Some ([], [], Ended (Errorf "server error: %s" [TrimSpace (str_drop 1 line)]), c)
            else read_loop fuel' env i r c
          else
            match Parse line with
            | Ok ev =>
                let seen := [MonMetric (ObserveLastEvent (Timestamp ev))] in
                let '(evs, ch) := receive (received env i) (out c) in
                match (if drop c then None else select_done env i) with
                | Some ce => Some (seen, evs, Ended ce, set_out ch c)
                | None =>
                    match chan_send ev ch with
                    | Some ch =>
                        '(tr, evs', e, c) ← read_loop fuel' env (S i) r (set_out ch c);
                        Some (seen ++ tr, evs ++ evs', e, c)
                    | None =>
                        if drop c then
                          '(tr, evs', e, c) ← read_loop fuel' env (S i) r (add_dropped (set_out ch c));
                          Some (seen ++ [MonMetric IncrMonitorDropped] ++ tr, evs ++ evs', e, c)
                        else Some (seen, evs, Blocked, set_out ch c)
                    end
                end
            | Err perr =>
                '(tr, evs, e, c) ← read_loop fuel' env i r (add_parse_error c);
                Some ([MonMetric IncrParseError;
                       MonReport perr [("stage", "monitor_parse"); ("line", TrimSpace line)]] ++ tr,
                      evs, e, c)
            | Panics => None
            end
      end
  end.

(** Each iteration reads at least one byte. *)
Definition readLoop (env : session_env) (r : reader) (c : Client) :=
  read_loop (S (len (r_buf r))) env 0 r c.

(** The commands a session sends before MONITOR is accepted; the error wraps
    the failing step. *)
Definition handshake (o : Options) (cn : conn) : result conn :=
  let r := c_reader cn in
  let w := c_writer cn in
  '(r, w) ←
    (if decide (Password o ≠ "") then
       w ← wrapf "send AUTH: %w" [] (WriteCommand w (AuthArgs (Username o) (Password o)));
       r ← wrapf "AUTH failed: %w" [] (ReadSimpleString r);
       Ok (r, w)
     else Ok (r, w));
  w ← wrapf "send MONITOR: %w" [] (WriteCommand w ["MONITOR"]);
  r ← wrapf "MONITOR rejected: %w" [] (ReadSimpleString r);
  Ok (mkConn r w).

(** func (c *Client) runOnce(ctx) error *)
Definition runOnce (dial : result conn) (env : session_env) (c : Client)
    : option (list mon_action * list Event * loop_end * Client) :=
  match (cn ← wrapf "dial %s/%s: %w" [Network (opts c); Address (opts c)] dial;
         handshake (opts c) cn) with
  | Err err => Some ([], [], Ended err, c)
  | Panics => None
  | Ok cn =>
      '(tr, evs, e, c) ← readLoop env (c_reader cn) c;
      Some ([MonMetric (SetMonitorConnected true)] ++ tr
              ++ match e with
                 | Ended _ => [MonMetric (SetMonitorConnected false);
                               MonMetric (ObserveMonitorSession (lifetime env))]
                 | Blocked => []
                 end, evs, e, c)
  end.

(** ** The Run loop *)

(** What one iteration meets: the context at its start, the gate (open, or
    closed until Wait returns), the session, the gate when the session has
    ended, and the context during the backoff. *)
Record round : Type := mkRound {
  rd_ctx : option goerror;
  rd_active : bool;
  rd_wait : option goerror;
  rd_dial : result conn;
  rd_session : session_env;
  rd_active_after : bool;
  rd_sleep : option goerror
}.

Inductive run_state : Type :=
| Returned (err : goerror)
| StillRunning (backoff : duration) (first : bool)
| Stuck.

(** func (c *Client) Run(ctx) error over some iterations. *)
Fixpoint Run (rounds : list round) (backoff : duration) (first : bool) (c : Client)
    : option (list mon_action * list Event * run_state * Client) :=
  match rounds with
  | [] => Some ([], [], StillRunning backoff first, c)
  | rd :: rounds' =>
      match rd_ctx rd with
      | Some err => Some ([], [], Returned err, c)
      | None =>
          let paused := gated c && negb (rd_active rd) in
          match (if paused then rd_wait rd else None) with
          | Some err => Some ([], [], Returned err, c)
          | None =>
              let backoff := if paused then BackoffMin (opts c) else backoff in
              let '(tr0, c) :=
                if first then ([], c) else ([MonMetric IncrReconnect], add_reconnection c) in
              '(tr1, evs, e, c) ← runOnce (rd_dial rd) (rd_session rd) c;
              match e with
              | Blocked => Some (tr0 ++ tr1, evs, Stuck, c)
              | Ended err =>
                  if errors_Is err Canceled || errors_Is err DeadlineExceeded then
                    Some (tr0 ++ tr1, evs, Returned err, c)
                  else if gated c && negb (rd_active_after rd) then
                    '(tr2, evs', st, c) ← Run rounds' backoff false c;
                    Some (tr0 ++ tr1 ++ tr2, evs ++ evs', st, c)
                  else
                    let reported := [MonReport err [("stage", "monitor_connection")]; Sleep backoff] in
                    match rd_sleep rd with
                    | Some ce => Some (tr0 ++ tr1 ++ reported, evs, Returned ce, c)
                    | None =>
                        let next := int64 (backoff * 2) in
                        let next := if (BackoffMax (opts c) <? next)%Z then BackoffMax (opts c) else next in
                        '(tr2, evs', st, c) ← Run rounds' next false c;
                        Some (tr0 ++ tr1 ++ reported ++ tr2, evs ++ evs', st, c)
                    end
              end
          end
      end
  end.

(** Run from its start. *)
Definition start (rounds : list round) (c : Client) := Run rounds (BackoffMin (opts c)) true c.
End Client.

(** ** Lemmas: the parser never panics *)

Lemma bind_no_panic {A B} (m : result A) (f : A → result B) :
  m ≠ Panics → (∀ a, f a ≠ Panics) → (x ← m; f x) ≠ Panics.
Proof. destruct m; cbn; auto. Qed.

Lemma wrapf_no_panic {A} fmt args (m : result A) : m ≠ Panics → wrapf fmt args m ≠ Panics.
Proof. by destruct m. Qed.

Lemma ParseInt_no_panic s : ParseInt s ≠ Panics.
Proof. unfold ParseInt. by destruct (parse_int s). Qed.

Lemma Atoi_no_panic s : Atoi s ≠ Panics.
Proof. unfold Atoi. by destruct (parse_int s). Qed.

Lemma parse_quoted_loop_no_panic n : ∀ s args sb i,
  len s ≤ n → parse_quoted_loop args sb i s ≠ Panics.
Proof.
  induction n as [|n IH]; intros s args sb i Hn; (destruct s as [|c s1]; [by destruct sb|]);
    cbn in Hn; [lia|].
  assert (IH' : ∀ t args sb i, len t ≤ len s1 → parse_quoted_loop args sb i t ≠ Panics)
    by (intros; apply IH; lia). clear IH Hn.
  destruct sb as [sb|]; cbn [parse_quoted_loop].
  - case_decide; [|case_decide; by apply IH'].
    destruct s1 as [|next s2]; [by apply IH'|].
    assert (H2 : ∀ args sb i, parse_quoted_loop args sb i s2 ≠ Panics) by (intros; apply IH'; cbn; lia).
    case_decide; [|apply H2]. destruct s2 as [|h1 [|h2 s4]]; [apply H2..|].
    destruct (hex_byte h1 h2); [|apply H2]. apply IH'. cbn. lia.
  - case_decide; [by apply IH'|]. case_decide; [by apply IH'|done].
Qed.

Lemma Parse_no_panic `{UnicodeCase} line : Parse line ≠ Panics.
Proof.
  unfold Parse. destruct (TrimRight line crlf_cutset) as [|c line1]; [done|].
  destruct (IndexByte _ SP) as [[|sp]|]; [done| |done].
  apply bind_no_panic.
  { unfold parseTimestamp. destruct (IndexByte _ "."); (apply bind_no_panic;
      [apply wrapf_no_panic, ParseInt_no_panic|]); intros sec; (case_match; [done|]);
      (case_match; [done|]); (apply bind_no_panic; [apply wrapf_no_panic, ParseInt_no_panic|done]). }
  intros ts. apply bind_no_panic.
  { unfold parseBracket. repeat (case_match; try done);
      (apply bind_no_panic; [apply wrapf_no_panic, Atoi_no_panic|]); intros db; by destruct (splitHostPort _). }
  intros [[db src] rest]. apply bind_no_panic.
  { by eapply wrapf_no_panic, parse_quoted_loop_no_panic. }
  intros [|a args]; done.
Qed.

(** ** Lemmas: the stream of a session *)

(** The complete lines of a text, each with its line feed. *)
Fixpoint complete_lines (cur s : string) : list string :=
  match s with
  | EmptyString => []
  | String c s' =>
      if decide (c = LF) then (cur +:+ String c "") :: complete_lines "" s'
      else complete_lines (cur +:+ String c "") s'
  end.

Lemma complete_lines_split s : ∀ cur,
  complete_lines cur s
  = match split_after LF s with
    | Some (line, rest) => (cur +:+ line) :: complete_lines "" rest
    | None => []
    end.
Proof.
  induction s as [|c s IH]; intros cur; cbn [complete_lines split_after]; [done|].
  case_decide as Hc; [done|]. rewrite IH. destruct (split_after LF s) as [[l r]|]; [|done].
  cbn. by rewrite str_app_assoc.
Qed.

Lemma split_after_length s line rest :
  split_after LF s = Some (line, rest) → len s = len line + len rest ∧ 0 < len line.
Proof.
  revert line. induction s as [|c s IH]; intros line; cbn [split_after]; [done|].
  case_decide; [intros [= <- <-]; cbn; lia|].
  destruct (split_after LF s) as [[l r]|]; [|done]. cbn. intros [= <- <-].
  destruct (IH l eq_refl). cbn. lia.
Qed.

Section Stream.
Context `{UnicodeCase}.

(** What the frames of a stream parse to, up to the first error frame. *)
Fixpoint parsed (lines : list string) : list (result Event) :=
  match lines with
  | [] => []
  | l :: lines' =>
      if HasPrefix l "+" then Parse l :: parsed lines'
      else if HasPrefix l "-" then [] else parsed lines'
  end.
End Stream.

Definition frames `{UnicodeCase} (s : string) : list (result Event) := parsed (complete_lines "" s).
Definition oks (l : list (result Event)) : list Event :=
  omap (λ m, match m with Ok ev => Some ev | _ => None end) l.
Lemma oks_Ok ev l : oks (Ok ev :: l) = ev :: oks l.
Proof. done. Qed.
Lemma oks_Err e l : oks (Err e :: l) = oks l.
Proof. done. Qed.
Definition bads (l : list (result Event)) : nat :=
  length (List.filter (λ m, negb (is_ok m)) l).

(** The operations on the queue: before the [i]-th event is offered, what the
    dispatcher receives. *)
Fixpoint queue_ops (env : session_env) (i : nat) (evs : list Event) : list (chan_op Event) :=
  match evs with
  | [] => []
  | ev :: evs' => replicate (received env i) Take ++ Offer ev :: queue_ops env (S i) evs'
  end.

Lemma chan_run_receive n ops ch :
  chan_run (replicate n Take ++ ops) ch
  = let '(evs, ch1) := receive n ch in
    let '(l, ch2) := chan_run ops ch1 in (mkLog (accepted l) (rejected l) (evs ++ taken l), ch2).
Proof.
  revert ch. induction n as [|n IH]; intros ch; cbn [replicate app receive chan_run].
  - by destruct (chan_run ops ch) as [[] ].
  - destruct (chan_recv ch) as [[ev ch']|] eqn:E.
    + rewrite IH. destruct (receive n ch') as [evs ch1]. by destruct (chan_run ops ch1).
    + rewrite IH. assert (∀ m, receive m ch = ([], ch)) as ->
        by (intros [|m]; cbn; by rewrite ?E).
      by destruct (chan_run ops ch) as [[] ].
Qed.

(** The calls of a session's loop. *)
Definition is_parse_error (a : mon_action) : bool :=
  match a with MonMetric IncrParseError => true | _ => false end.
Definition is_dropped (a : mon_action) : bool :=
  match a with MonMetric IncrMonitorDropped => true | _ => false end.
Definition times_of (tr : list mon_action) : list time :=
  omap (λ a, match a with MonMetric (ObserveLastEvent t) => Some t | _ => None end) tr.
Definition times (p : mon_action → bool) (tr : list mon_action) : nat := length (List.filter p tr).

Lemma times_app p t1 t2 : times p (t1 ++ t2) = times p t1 + times p t2.
Proof. unfold times. by rewrite List.filter_app, length_app. Qed.
Lemma times_of_app t1 t2 : times_of (t1 ++ t2) = times_of t1 ++ times_of t2.
Proof. apply omap_app. Qed.

Definition client_wf (c : Client) : Prop :=
  (0 ≤ dropped c < 2 ^ 64)%Z ∧ (0 ≤ parseEr c < 2 ^ 64)%Z.

(** What the loop has done when it ends, against the frames [fs] of its stream. *)
Definition loop_accounts `{UnicodeCase} (env : session_env) (i : nat) (fs : list (result Event))
    (c : Client) (res : list mon_action * list Event * loop_end * Client) : Prop :=
  let '(tr, evs, e, c') := res in
  let '(l, ch) := chan_run (queue_ops env i (oks fs)) (out c) in
  (∃ err, e = Ended err) ∧ out c' = ch ∧ evs = taken l ∧ opts c' = opts c ∧ drop c' = drop c ∧
  recon c' = recon c ∧ gated c' = gated c ∧
  dropped c' = ((dropped c + Z.of_nat (length (rejected l))) mod 2 ^ 64)%Z ∧
  parseEr c' = ((parseEr c + Z.of_nat (bads fs)) mod 2 ^ 64)%Z ∧
  times_of tr = Timestamp <$> oks fs ∧ times is_parse_error tr = bads fs ∧
  times is_dropped tr = length (rejected l).

(** The three outcomes of a frame, each on top of what the rest of the loop
    does: queued, dropped, not parsed. *)
Section Accounts.
Context `{UnicodeCase}.
Variables (env : session_env) (i : nat) (fs : list (result Event)) (c : Client).
Variables (tr : list mon_action) (evs' : list Event) (e : loop_end) (c' : Client).

Lemma accounts_queued ev evs ch ch' :
  receive (received env i) (out c) = (evs, ch) → chan_send ev ch = Some ch' →
  loop_accounts env (S i) fs (set_out ch' c) (tr, evs', e, c') →
  loop_accounts env i (Ok ev :: fs) c
    ([MonMetric (ObserveLastEvent (Timestamp ev))] ++ tr, evs ++ evs', e, c').
Proof.
  intros Er Ec Ha. unfold loop_accounts in *. rewrite oks_Ok. cbn [queue_ops].
  rewrite chan_run_receive, Er. cbn [chan_run]. rewrite Ec. cbn [set_out out] in Ha.
  destruct (chan_run _ ch') as [l ch2]. cbn [accepted rejected taken].
  destruct Ha as (? & ? & ? & ? & ? & ? & ? & ? & ? & Ht & ? & ?). split_and!; try done; [congruence|].
  by rewrite times_of_app, Ht.
Qed.

Lemma accounts_dropped ev evs ch :
  receive (received env i) (out c) = (evs, ch) → chan_send ev ch = None →
  loop_accounts env (S i) fs (add_dropped (set_out ch c)) (tr, evs', e, c') →
  loop_accounts env i (Ok ev :: fs) c
    ([MonMetric (ObserveLastEvent (Timestamp ev))] ++ [MonMetric IncrMonitorDropped] ++ tr, evs ++ evs', e, c').
Proof.
  intros Er Ec Ha. unfold loop_accounts in *. rewrite oks_Ok. cbn [queue_ops].
  rewrite chan_run_receive, Er. cbn [chan_run]. rewrite Ec. cbn [add_dropped set_out out] in Ha.
  destruct (chan_run _ ch) as [l ch2]. cbn [accepted rejected taken].
  destruct Ha as (? & ? & ? & ? & ? & ? & ? & Hdr & ? & Ht & ? & Hn). split_and!; try done; [congruence| | |].
  - rewrite Hdr. unfold add_dropped, set_out, incr64. cbn [dropped length].
    rewrite Zplus_mod_idemp_l. f_equal. lia.
  - by rewrite !times_of_app, Ht.
  - by rewrite !times_app, Hn.
Qed.

Lemma accounts_parse_error err a :
  is_parse_error a = false → is_dropped a = false → times_of [a] = [] →
  loop_accounts env i fs (add_parse_error c) (tr, evs', e, c') →
  loop_accounts env i (Err err :: fs) c ([MonMetric IncrParseError; a] ++ tr, evs', e, c').
Proof.
  intros Hp Hd Ha0 Ha. unfold loop_accounts in *. rewrite oks_Err.
  change (out (add_parse_error c)) with (out c) in Ha. destruct (chan_run _ (out c)) as [l ch2].
  change ([MonMetric IncrParseError; a] ++ tr) with ([MonMetric IncrParseError] ++ [a] ++ tr).
  destruct Ha as (? & ? & ? & ? & ? & ? & ? & ? & Hpe & Ht & Hn & Hm).
  rewrite !times_of_app, !times_app, Ha0, Ht, Hn, Hm. unfold times. cbn [List.filter]. rewrite Hp, Hd.
  split_and!; try done.
  rewrite Hpe. unfold add_parse_error, incr64, bads. cbn [parseEr List.filter is_ok negb length].
  rewrite Zplus_mod_idemp_l. f_equal. lia.
Qed.
End Accounts.

Lemma client_wf_count c :
  client_wf c → (∀ ch, client_wf (add_dropped (set_out ch c))) ∧ client_wf (add_parse_error c).
Proof. intros [? ?]. split; [intros ch|]; split; cbn; try done; by apply Z.mod_pos_bound. Qed.

Lemma read_loop_spec `{UnicodeCase} env fuel : ∀ i r c,
  drop c = true → client_wf c → len (r_buf r) < fuel →
  ∃ res, read_loop fuel env i r c = Some res ∧ loop_accounts env i (frames (r_buf r)) c res.
Proof.
  induction fuel as [|fuel IH]; intros i [buf rerr] c Hd Hwf Hf; [lia|].
  destruct (client_wf_count c Hwf) as [Hwf1 Hwf2].
  cbn [read_loop r_buf r_err] in *. unfold frames. rewrite complete_lines_split.
  unfold ReadString. cbn [r_buf r_err].
  assert (Hdone : ∀ err, loop_accounts env i [] c ([], [], Ended err, c)).
  { intros err. destruct Hwf. cbn. rewrite !Z.add_0_r, !Z.mod_small by lia. split_and!; eauto. }
  destruct (split_after LF buf) as [[line rest]|] eqn:Es; [|eexists; split; [reflexivity|apply Hdone]].
  apply split_after_length in Es as [Hl1 Hl2]. rewrite str_app_nil_l. cbn [parsed].
  assert (Hlt : len rest < fuel) by lia.
  destruct (HasPrefix line "+"); cbn [negb].
  - destruct (Parse line) as [ev|perr|] eqn:Ep; [| |by destruct (Parse_no_panic line)].
    + destruct (receive (received env i) (out c)) as [evs ch] eqn:Er. rewrite Hd.
      destruct (chan_send ev ch) as [ch'|] eqn:Ec.
      * destruct (IH (S i) (mkReader rest rerr) (set_out ch' c) Hd Hwf Hlt) as ([[[tr evs'] e] c'] & -> & Ha).
        cbn [mbind option_bind]. eexists. split; [reflexivity|]. by eapply accounts_queued.
      * destruct (IH (S i) (mkReader rest rerr) (add_dropped (set_out ch c)) Hd (Hwf1 ch) Hlt) as ([[[tr evs'] e] c'] & -> & Ha).
        cbn [mbind option_bind]. eexists. split; [reflexivity|]. by eapply accounts_dropped.
    + destruct (IH i (mkReader rest rerr) (add_parse_error c) Hd Hwf2 Hlt) as ([[[tr evs'] e] c'] & -> & Ha).
      cbn [mbind option_bind]. eexists. split; [reflexivity|]. by apply accounts_parse_error.
  - destruct (HasPrefix line "-"); [eexists; split; [reflexivity|apply Hdone]|].
    apply (IH i (mkReader rest rerr) c Hd Hwf Hlt).
Qed.

(** ** Lemmas: sessions and the Run loop *)

Definition sleeps (tr : list mon_action) : list duration :=
  omap (λ a, match a with Sleep d => Some d | _ => None end) tr.
Lemma waits_app t1 t2 : sleeps (t1 ++ t2) = sleeps t1 ++ sleeps t2.
Proof. apply omap_app. Qed.

(** The values the connection gauge is set to. *)
Definition connected (tr : list mon_action) : list bool :=
  omap (λ a, match a with MonMetric (SetMonitorConnected b) => Some b | _ => None end) tr.
Lemma connected_app t1 t2 : connected (t1 ++ t2) = connected t1 ++ connected t2.
Proof. apply omap_app. Qed.

(** What a loop and a session leave alone. *)
Definition quiet (c : Client) (tr : list mon_action) (c' : Client) : Prop :=
  opts c' = opts c ∧ gated c' = gated c ∧ drop c' = drop c ∧ recon c' = recon c ∧ sleeps tr = [].

Lemma read_loop_quiet `{UnicodeCase} env fuel : ∀ i r c tr evs e c',
  read_loop fuel env i r c = Some (tr, evs, e, c') → quiet c tr c' ∧ connected tr = [].
Proof.
  induction fuel as [|fuel IH]; intros i r c tr evs e c'; [done|]. cbn [read_loop].
  destruct (ReadString LF r) as [[line r']|err|]; [|intros [= <- <- <- <-]; by repeat split|done].
  destruct (HasPrefix line "+"); cbn [negb].
  - destruct (Parse line) as [ev|perr|]; [| |done].
    + destruct (receive _ _) as [evs0 ch].
      destruct (if drop c then None else select_done env i); [intros [= <- <- <- <-]; by repeat split|].
      destruct (chan_send ev ch); [|destruct (drop c) eqn:Ed; [|intros [= <- <- <- <-]; by repeat split]];
        match goal with |- context [read_loop fuel env ?i' r' ?c1] =>
          destruct (read_loop fuel env i' r' c1) as [[[[tr1 evs1] e1] c2]|] eqn:Er; [|done] end;
        cbn [mbind option_bind]; intros [= <- <- <- <-];
        apply IH in Er as [(H1 & H2 & H3 & H4 & H5) H6]; unfold quiet;
        rewrite ?waits_app, ?connected_app, ?H5, ?H6; by repeat split.
    + destruct (read_loop fuel env i r' _) as [[[[tr1 evs1] e1] c2]|] eqn:Er; [|done].
      cbn [mbind option_bind]. intros [= <- <- <- <-].
      apply IH in Er as [(H1 & H2 & H3 & H4 & H5) H6]. unfold quiet.
      cbn [sleeps connected omap list_omap app]. by repeat split.
  - destruct (HasPrefix line "-"); [intros [= <- <- <- <-]; by repeat split|]. apply IH.
Qed.

Lemma runOnce_quiet `{UnicodeCase} dial env c tr evs e c' :
  runOnce dial env c = Some (tr, evs, e, c') → quiet c tr c'.
Proof.
  unfold runOnce. destruct (mbind _ _) as [cn|err|]; [|intros [= <- <- <- <-]; by repeat split|done].
  unfold readLoop. destruct (read_loop _ _ _ _ _) as [[[[tr1 evs1] e1] c2]|] eqn:Er; [|done].
  cbn [mbind option_bind]. intros [= <- <- <- <-].
  apply read_loop_quiet in Er as [(H1 & H2 & H3 & H4 & H5) _]. split_and!; try done.
  cbn [app]. unfold sleeps in *. cbn [omap list_omap]. rewrite omap_app, H5. by destruct e1.
Qed.

Lemma handshake_no_panic o cn : handshake o cn ≠ Panics.
Proof.
  assert (HW : ∀ w args, WriteCommand w args ≠ Panics) by (intros w args; unfold WriteCommand; by destruct (w_err w)).
  assert (HR : ∀ r, ReadSimpleString r ≠ Panics).
  { intros r. unfold ReadSimpleString, ReadString. destruct (split_after LF (r_buf r)) as [[line rest]|]; [|done].
    cbn [mbind result_bind]. repeat (case_match; try done). }
  unfold handshake. apply bind_no_panic.
  { case_decide; [|done]. apply bind_no_panic; [by apply wrapf_no_panic|]. intros w.
    apply bind_no_panic; [by apply wrapf_no_panic|done]. }
  intros [r w]. apply bind_no_panic; [by apply wrapf_no_panic|]. intros w'.
  apply bind_no_panic; [by apply wrapf_no_panic|done].
Qed.

(** The backoff of the [k]-th consecutive sleep. *)
Definition backoff_at (o : Options) (k : nat) : duration :=
  (Z.min (BackoffMin o * 2 ^ Z.of_nat k) (BackoffMax o))%Z.

Lemma backoff_next o k :
  (0 < BackoffMin o ≤ BackoffMax o)%Z → (BackoffMax o < 2 ^ 62)%Z →
  (if (BackoffMax o <? int64 (backoff_at o k * 2))%Z then BackoffMax o else int64 (backoff_at o k * 2))
  = backoff_at o (S k).
Proof.
  intros Hb Hm. unfold backoff_at. rewrite Nat2Z.inj_succ, Z.pow_succ_r by lia.
  assert (0 < 2 ^ Z.of_nat k)%Z by (apply Z.pow_pos_nonneg; lia).
  assert (0 < BackoffMin o * 2 ^ Z.of_nat k)%Z by (apply Z.mul_pos_pos; lia).
  rewrite int64_id by (unfold in_int64, int64_min, int64_max; lia).
  destruct (Z.ltb_spec (BackoffMax o) (Z.min (BackoffMin o * 2 ^ Z.of_nat k) (BackoffMax o) * 2)); lia.
Qed.

(** The backoff a round starts with: reset after a pause, else unchanged. *)
Lemma backoff_round c k paused :
  (0 < BackoffMin (opts c) ≤ BackoffMax (opts c))%Z →
  ∃ k', k' ≤ k ∧ (gated c = false → k' = k) ∧
    (if gated c && paused then BackoffMin (opts c) else backoff_at (opts c) k) = backoff_at (opts c) k'.
Proof.
  intros Hb. destruct (gated c && paused) eqn:E; [|by exists k]. exists 0.
  split_and!; [lia|intros Hgf; by rewrite Hgf in E|]. unfold backoff_at. cbn. lia.
Qed.

(** Every sleep of [l] is a backoff of index at most its own shifted by [k],
    exactly that one when there is no gate. *)
Definition sleeps_from (c : Client) (k : nat) (l : list duration) : Prop :=
  ∀ i d, l !! i = Some d → ∃ j, j ≤ k + i ∧ d = backoff_at (opts c) j ∧ (gated c = false → j = k + i).

Lemma sleeps_from_nil c k : sleeps_from c k [].
Proof. intros i d. by rewrite lookup_nil. Qed.
Lemma sleeps_from_cons c k k' l :
  k' ≤ k → (gated c = false → k' = k) → sleeps_from c (S k') l → sleeps_from c k (backoff_at (opts c) k' :: l).
Proof.
  intros Hk Hkg Hl [|i] d; cbn [lookup list_lookup].
  - intros [= <-]. exists k'. split_and!; [lia|done|]. intros Hgf. rewrite Hkg by done. lia.
  - intros Hi. destruct (Hl i d Hi) as (j & Hj & -> & Hjg). exists j. split_and!; [lia|done|].
    intros Hgf. rewrite Hjg, Hkg by done. lia.
Qed.
Lemma sleeps_from_weaken c k k' l : k' ≤ k → (gated c = false → k' = k) → sleeps_from c k' l → sleeps_from c k l.
Proof.
  intros Hk Hkg Hl i d Hi. destruct (Hl i d Hi) as (j & Hj & -> & Hjg). exists j. split_and!; [lia|done|].
  intros Hgf. rewrite Hjg, Hkg by done. lia.
Qed.

Lemma Run_sleeps `{UnicodeCase} rounds : ∀ k first c tr evs st c',
  (0 < BackoffMin (opts c) ≤ BackoffMax (opts c))%Z → (BackoffMax (opts c) < 2 ^ 62)%Z →
  Run rounds (backoff_at (opts c) k) first c = Some (tr, evs, st, c') → sleeps_from c k (sleeps tr).
Proof.
  induction rounds as [|rd rounds IH]; intros k first c tr evs st c' Hb Hm; cbn [Run].
  { intros [= <- <- <- <-]. apply sleeps_from_nil. }
  destruct (rd_ctx rd); [intros [= <- <- <- <-]; apply sleeps_from_nil|].
  destruct (if gated c && negb (rd_active rd) then rd_wait rd else None);
    [intros [= <- <- <- <-]; apply sleeps_from_nil|].
  assert (∃ tr0 c0, (if first then ([] : list mon_action, c) else ([MonMetric IncrReconnect], add_reconnection c))
    = (tr0, c0) ∧ opts c0 = opts c ∧ gated c0 = gated c ∧ sleeps tr0 = []) as (tr0 & c0 & -> & Ho & Hg & Hs0)
    by (destruct first; by do 2 eexists).
  destruct (backoff_round c k (negb (rd_active rd)) Hb) as (k' & Hk & Hkg & ->).
  destruct (runOnce _ _ c0) as [[[[tr1 evs1] e1] c1]|] eqn:Er; [|done]. cbn [mbind option_bind].
  apply runOnce_quiet in Er as (Ho1 & Hg1 & _ & _ & Hs1). rewrite Ho in Ho1. rewrite Hg in Hg1.
  assert (Hpre : ∀ t, sleeps (tr0 ++ tr1 ++ t) = sleeps t) by (intros t; by rewrite !waits_app, Hs0, Hs1).
  assert (Hend : sleeps (tr0 ++ tr1) = [] ) by (by rewrite waits_app, Hs0, Hs1).
  specialize (λ k' tr evs st c', IH k' false c1 tr evs st c' ltac:(by rewrite Ho1) ltac:(by rewrite Ho1)).
  assert (Hfrom : ∀ k l, sleeps_from c1 k l → sleeps_from c k l)
    by (unfold sleeps_from; rewrite Ho1, Hg1; done).
  rewrite Ho1 in IH.
  destruct e1 as [err|]; [|intros [= <- <- <- <-]; rewrite Hend; apply sleeps_from_nil].
  destruct (errors_Is err Canceled || errors_Is err DeadlineExceeded);
    [intros [= <- <- <- <-]; rewrite Hend; apply sleeps_from_nil|].
  rewrite Hg1. destruct (gated c && negb (rd_active_after rd)).
  - destruct (Run rounds _ false c1) as [[[[tr2 evs2] st2] c2]|] eqn:Er2; [|done].
    cbn [mbind option_bind]. intros [= <- <- <- <-]. rewrite Hpre.
    apply (sleeps_from_weaken c k k'); eauto.
  - destruct (rd_sleep rd); [intros [= <- <- <- <-]; rewrite Hpre; by apply sleeps_from_cons, sleeps_from_nil|].
    rewrite Ho1, backoff_next by done.
    destruct (Run rounds _ false c1) as [[[[tr2 evs2] st2] c2]|] eqn:Er2; [|done].
    cbn [mbind option_bind]. intros [= <- <- <- <-]. rewrite Hpre. apply sleeps_from_cons; eauto.
Qed.

(** ** Properties *)

(** C13: a session accounts for every frame -- the read loop of a client that
    drops when full always ends, having parsed every complete frame of the
    stream up to an error frame; the events parsed are offered to the queue in
    order, each received by the dispatcher, still queued or counted as dropped,
    and each parse error is counted, in the client and in the metrics. *)
Theorem readLoop_accounts `{UnicodeCase} (env : session_env) (r : reader) (c : Client) :
  drop c = true → client_wf c →
  ∃ tr evs err c' acc (rej : list Event),
    readLoop env r c = Some (tr, evs, Ended err, c') ∧
    let fs := frames (r_buf r) in
    acc `sublist_of` oks fs ∧ length acc + length rej = length (oks fs) ∧
    ch_buf (out c) ++ acc = evs ++ ch_buf (out c') ∧
    dropped c' = ((dropped c + Z.of_nat (length rej)) mod 2 ^ 64)%Z ∧
    parseEr c' = ((parseEr c + Z.of_nat (bads fs)) mod 2 ^ 64)%Z ∧
    times_of tr = Timestamp <$> oks fs ∧ times is_parse_error tr = bads fs ∧
    times is_dropped tr = length rej.
Proof.
  intros Hd Hwf.
  destruct (read_loop_spec env (S (len (r_buf r))) 0 r c Hd Hwf ltac:(lia)) as ([[[tr evs] e] c'] & Hr & Ha).
  unfold loop_accounts in Ha.
  pose proof (chan_run_fifo (queue_ops env 0 (oks (frames (r_buf r)))) (out c)) as Hf.
  pose proof (chan_run_offers (queue_ops env 0 (oks (frames (r_buf r)))) (out c)) as Hof.
  destruct (chan_run _ (out c)) as [l ch].
  assert (Hoff : ∀ i evs, offers (queue_ops env i evs) = evs).
  { intros i evs0. revert i. unfold offers. induction evs0 as [|ev evs0 IH]; intros i; [done|].
    cbn [queue_ops]. rewrite omap_app. cbn [omap list_omap]. rewrite IH.
    by induction (received env i). }
  rewrite Hoff in Hof. destruct Hof as (Hlen & Hsub & _).
  destruct Ha as ((err & ->) & H1 & H2 & _ & _ & _ & _ & H3 & H4 & H5 & H6 & H7).
  exists tr, evs, err, c', (accepted l), (rejected l). subst evs ch.
  split_and!; (done || lia).
Qed.

Definition example_monitor_options : Options := mkOptions "tcp" "127.0.0.1:6379" "" "" 0 0 0 0.
Definition example_client : Client := New example_monitor_options (make_chan Event 1) true.
Definition example_stream : reader :=
  mkReader ("+1.5 [0 10.0.0.1:5] " +:+ String DQUOTE ("ping" +:+ String DQUOTE CRLF) +:+ "+garbage" +:+ CRLF
            +:+ "+2.5 [0 10.0.0.1:5] " +:+ String DQUOTE ("ping" +:+ String DQUOTE CRLF)) (Sentinel EOF).
Definition example_session : session_env := mkSessionEnv (λ _, 0) (λ _, None) None Second.

Lemma readLoop_accounts_witness :
  ∃ tr evs err c',
    @readLoop example_case example_session example_stream example_client = Some (tr, evs, Ended err, c') ∧
    length (times_of tr) = 2 ∧ parseEr c' = 1%Z.
Proof.
  destruct (@readLoop_accounts example_case example_session example_stream example_client eq_refl)
    as (tr & evs & err & c' & acc & rej & H1 & _ & _ & _ & _ & H2 & H3 & _).
  { repeat split; (discriminate || reflexivity). }
  exists tr, evs, err, c'. split_and!; [exact H1|rewrite H3|rewrite H2]; vm_compute; reflexivity.
Defined.

(** The connection gauge is balanced -- a session of a client that drops
    when full always ends with an error, and unless the dial or the handshake
    failed, in which case the gauge is untouched, it raises the connection gauge
    at its start and lowers it at its end. *)
Theorem runOnce_gauge `{UnicodeCase} (dial : result conn) (env : session_env) (c : Client) :
  drop c = true → client_wf c → dial ≠ Panics →
  ∃ tr evs err c', runOnce dial env c = Some (tr, evs, Ended err, c') ∧
    (connected tr = [true; false] ∧ is_ok (cn ← dial; handshake (opts c) cn) = true ∨
     tr = [] ∧ c' = c ∧ is_ok (cn ← dial; handshake (opts c) cn) = false).
Proof.
  intros Hd Hwf Hdial. unfold runOnce.
  destruct dial as [cn|err|]; [| |done]; cbn [wrapf mbind result_bind].
  - destruct (handshake (opts c) cn) as [cn'|err|] eqn:Eh; [| |by destruct (handshake_no_panic (opts c) cn)].
    + unfold readLoop.
      destruct (read_loop_spec env (S (len (r_buf (c_reader cn')))) 0 (c_reader cn') c Hd Hwf ltac:(lia))
        as ([[[tr evs] e] c'] & Hr & Ha). rewrite Hr. cbn [mbind option_bind].
      unfold loop_accounts in Ha. destruct (chan_run _ _) as [l ch]. destruct Ha as ((err & ->) & _).
      apply read_loop_quiet in Hr as [_ Hc]. do 4 eexists. split; [reflexivity|]. left. split; [|done].
      unfold connected in *. cbn [app omap list_omap]. by rewrite omap_app, Hc.
    + do 4 eexists. split; [reflexivity|]. by right.
  - do 4 eexists. split; [reflexivity|]. by right.
Qed.

Lemma runOnce_gauge_witness :
  ∃ tr evs err c', @runOnce example_case
    (Ok (mkConn (mkReader ("+OK" +:+ CRLF +:+ r_buf example_stream) (Sentinel EOF)) (mkWriter "" None)))
    example_session example_client = Some (tr, evs, Ended err, c') ∧ connected tr = [true; false].
Proof.
  destruct (@runOnce_gauge example_case
    (Ok (mkConn (mkReader ("+OK" +:+ CRLF +:+ r_buf example_stream) (Sentinel EOF)) (mkWriter "" None)))
    example_session example_client eq_refl) as (tr & evs & err & c' & H1 & H2).
  { repeat split; (discriminate || reflexivity). }
  { discriminate. }
  exists tr, evs, err, c'. split; [exact H1|].
  destruct H2 as [[H2 _]|(_ & _ & H2)]; [exact H2|vm_compute in H2; discriminate H2].
Defined.

(** C21: reconnections back off exponentially -- without a gate the sleep after
    the [i]-th consecutive failure is BackoffMin doubled [i] times, capped at
    BackoffMax, over any number of sessions, successful ones included; with a
    gate it is one of these, no later in the sequence, since waiting for the
    gate starts the sequence again. *)
Theorem Run_backoff `{UnicodeCase} (rounds : list round) (c : Client) (tr : list mon_action)
    (evs : list Event) (st : run_state) (c' : Client) :
  (0 < BackoffMin (opts c) ≤ BackoffMax (opts c))%Z → (BackoffMax (opts c) < 2 ^ 62)%Z →
  start rounds c = Some (tr, evs, st, c') →
  ∀ i d, sleeps tr !! i = Some d →
    ∃ j, j ≤ i ∧ d = ((BackoffMin (opts c) * 2 ^ Z.of_nat j) `min` BackoffMax (opts c))%Z ∧
         (gated c = false → j = i).
Proof.
  intros Hb Hm Hr i d Hi. unfold start in Hr.
  assert (Hz : BackoffMin (opts c) = backoff_at (opts c) 0) by (unfold backoff_at; cbn; lia).
  rewrite Hz in Hr. by apply (Run_sleeps rounds 0 true c tr evs st c' Hb Hm Hr i d).
Qed.

Definition failed_round (err : goerror) : round :=
  mkRound None true None (Err err) example_session true None.

Lemma Run_backoff_witness :
  ∃ tr evs st c', @start example_case (replicate 7 (failed_round (NetError "connection refused"))) example_client
    = Some (tr, evs, st, c') ∧
  ∃ j, (30 * Second)%Z = ((1 * Second * 2 ^ Z.of_nat j) `min` (30 * Second))%Z ∧ j = 5.
Proof.
  destruct (@start example_case (replicate 7 (failed_round (NetError "connection refused"))) example_client)
    as [[[[tr evs] st] c']|] eqn:E; [|discriminate E].
  exists tr, evs, st, c'. split; [reflexivity|].
  destruct (@Run_backoff example_case (replicate 7 (failed_round (NetError "connection refused")))
    example_client tr evs st c') with (i := 5) (d := (30 * Second)%Z) as (j & _ & H1 & H2).
  - split; [reflexivity|discriminate].
  - reflexivity.
  - exact E.
  - vm_compute in E. injection E as <- <- <- <-. reflexivity.
  - exists j. split; [exact H1|]. exact (H2 eq_refl).
Defined.

(** C34: a dial that times out ends the client -- the error of a dial timeout is
    taken for the end of the context: Run returns it at once, without backoff
    and without another attempt, although the context is alive; any other dial
    failure is retried after the backoff. *)
Theorem Run_dial_failure `{UnicodeCase} (rd : round) (rounds : list round) (c : Client) (err : goerror) :
  rd_ctx rd = None → rd_active rd = true → rd_active_after rd = true →
  rd_dial rd = Err err → rd_sleep rd = None →
  let e := Wrapf "dial %s/%s: %w" [Network (opts c); Address (opts c)] err in
  if errors_Is err Canceled || errors_Is err DeadlineExceeded then
    start (rd :: rounds) c = Some ([], [], Returned e, c)
  else
    start (rd :: rounds) c
    = ('(tr, evs, st, c') ←
         Run rounds (let next := int64 (BackoffMin (opts c) * 2) in
                     if (BackoffMax (opts c) <? next)%Z then BackoffMax (opts c) else next) false c;
       Some ([MonReport e [("stage", "monitor_connection")]; Sleep (BackoffMin (opts c))] ++ tr, evs, st, c')).
Proof.
  intros Hc Ha Haa Hd Hs e. unfold start. cbn [Run]. rewrite Hc, Ha, andb_false_r. unfold runOnce.
  rewrite Hd. cbn [wrapf mbind result_bind option_bind errors_Is]. fold e.
  destruct (errors_Is err Canceled || errors_Is err DeadlineExceeded); [done|].
  by rewrite Haa, andb_false_r, Hs.
Qed.

Lemma Run_dial_failure_witness :
  @start example_case (replicate 3 (failed_round NetTimeout)) example_client
  = Some ([], [], Returned (Wrapf "dial %s/%s: %w" ["tcp"; "127.0.0.1:6379"] NetTimeout), example_client).
Proof.
  exact (@Run_dial_failure example_case (failed_round NetTimeout) (replicate 2 (failed_round NetTimeout))
    example_client NetTimeout eq_refl eq_refl eq_refl eq_refl eq_refl).
Defined.
