(* ===== verification/Metrics.v ===== *)
(** * Metrics and readiness ([internal/metrics])

    The registry: the descriptors it registers, the calls the other components
    make on it, and the health state behind /readyz.  The Prometheus client is
    the class [Prometheus], whose laws say that counters count and gauges keep
    what was set last; an instance over finite maps shows they can hold.
    Gauge values are the integers given to Set and histogram values the
    durations given to Observe, before their conversion to floating point. *)

From S2P Require Export Alert Output Role Monitor.

(** ** The Prometheus client *)

Inductive metric_kind : Type := Counter | Gauge | Histogram (buckets : list Z).

(** A metric or vector; buckets are in units of 0.0001. *)
Record desc : Type := mkDesc { d_name : string; d_kind : metric_kind; d_labels : list string }.

Inductive prom_op : Type :=
| Inc (name : string) (labels : list string)
| Set_ (name : string) (labels : list string) (v : Z)
| Observe (name : string) (labels : list string) (d : duration)
| Reset_ (name : string).

#[export] Instance prom_op_eq_dec : EqDecision prom_op.
Proof. solve_decision. Defined.

Class Prometheus (M : Type) := {
  prom_new : M;
  prom_do : prom_op → M → M;
  counter_value : M → string → list string → Z;
  gauge_value : M → string → list string → option Z
}.

Class PrometheusLaws (M : Type) `{Prometheus M} := {
  counter_new n l : counter_value prom_new n l = 0%Z;
  counter_do op m n l :
    counter_value (prom_do op m) n l
    = (counter_value m n l + if decide (op = Inc n l) then 1 else 0)%Z;
  gauge_new n l : gauge_value prom_new n l = None;
  gauge_do op m n l :
    gauge_value (prom_do op m) n l
    = match op with
      | Set_ n' l' v => if decide (n' = n ∧ l' = l) then Some v else gauge_value m n l
      | Reset_ n' => if decide (n' = n) then None else gauge_value m n l
      | _ => gauge_value m n l
      end
}.

Definition prom_all `{Prometheus M} (ops : list prom_op) (m : M) : M := foldl (λ m op, prom_do op m) m ops.

(** ** The descriptors *)

Definition counter (name : string) (labels : list string) : desc :=
  mkDesc ("redis_watcher_" +:+ name) Counter labels.
Definition gauge (name : string) (labels : list string) : desc :=
  mkDesc ("redis_watcher_" +:+ name) Gauge labels.
Definition histogram (name : string) (buckets : list Z) (labels : list string) : desc :=
  mkDesc ("redis_watcher_" +:+ name) (Histogram buckets) labels.

Definition registerCommandMetrics : list desc :=
  [counter "commands_total" ["command"; "db"];
   counter "commands_by_ip_total" ["command"; "source_ip"];
   counter "commands_by_db_total" ["db"];
   counter "events_processed_total" [];
   counter "suspicious_commands_total" ["command"; "source_ip"];
   counter "ignored_events_total" ["command"]].

Definition registerErrorMetrics : list desc :=
  [counter "parse_errors_total" [];
   counter "monitor_reconnects_total" [];
   counter "monitor_dropped_events_total" [];
   counter "dropped_events_total" ["consumer"];
   counter "output_errors_total" ["output"];
   counter "alert_send_errors_total" ["channel"];
   counter "alert_retry_attempts_total" ["channel"];
   counter "alert_dropped_total" [];
   counter "alert_rate_limited_total" ["command"];
   counter "role_probe_successes_total" [];
   counter "role_probe_failures_total" []].

Definition registerOutputMetrics : list desc :=
  [counter "output_written_total" ["output"];
   histogram "output_write_duration_seconds" [1; 5; 10; 50; 100; 500; 1000; 5000; 10000; 50000]%Z ["output"];
   gauge "output_failing" ["output"]].

Definition registerAlertMetrics : list desc :=
  [counter "alerts_sent_total" ["channel"; "command"];
   histogram "alert_send_duration_seconds"
     [50; 100; 250; 500; 1000; 2500; 5000; 10000; 25000; 50000; 100000]%Z ["channel"];
   gauge "alert_channel_failing" ["channel"]].

Definition registerRoleMetrics : list desc :=
  [gauge "redis_is_master" [];
   gauge "redis_role_info" ["role"];
   counter "redis_role_transitions_total" ["from"; "to"];
   histogram "role_probe_duration_seconds"
     [10; 25; 50; 100; 250; 500; 1000; 2500; 5000; 10000; 25000; 50000]%Z [];
   gauge "last_role_probe_timestamp_seconds" []].

Definition registerConnectivityMetrics : list desc :=
  [gauge "monitor_connected" [];
   gauge "last_event_timestamp_seconds" [];
   histogram "monitor_session_duration_seconds"
     [10000; 100000; 600000; 6000000; 36000000; 216000000; 864000000]%Z []].

Definition registerBuildMetrics : list desc :=
  [gauge "build_info" ["version"; "commit"]; gauge "start_time_seconds" []].

(** The two descriptors of the queue-depth collector. *)
Definition queueDepthDescs : list desc := [gauge "queue_depth" ["queue"]; gauge "queue_capacity" ["queue"]].

Definition registered : list desc :=
  registerCommandMetrics ++ registerErrorMetrics ++ registerOutputMetrics ++ registerAlertMetrics
  ++ registerRoleMetrics ++ registerConnectivityMetrics ++ registerBuildMetrics.

(** ** The registry *)

Record Registry (M : Type) : Type := mkRegistry {
  prom : M;
  ignored : gset string;
  trackSourceIP : bool;
  monitorConnected : bool;
  roleKnown : bool;
  failingOutputs : gset string;
  failingAlertChannels : gset string
}.
Arguments mkRegistry {M}.
Arguments prom {M}.
Arguments ignored {M}.
Arguments trackSourceIP {M}.
Arguments monitorConnected {M}.
Arguments roleKnown {M}.
Arguments failingOutputs {M}.
Arguments failingAlertChannels {M}.

Definition rw (name : string) : string := "redis_watcher_" +:+ name.
Definition bool_gauge (b : bool) : Z := if b then 1 else 0.

(** The Prometheus operations of the methods of the registry.  [now] is the
    clock, in seconds, of the calls that read it. *)
Definition record_ops (ign : gset string) (track : bool) (ev : Event) : list prom_op :=
  [Inc (rw "events_processed_total") []]
  ++ if decide (Command ev ∈ ign) then []
     else
       let db := Itoa (DB ev) in
       [Inc (rw "commands_total") [Command ev; db]; Inc (rw "commands_by_db_total") [db]]
       ++ if track && negb (bool_decide (IP (EvSource ev) = ""))
          then [Inc (rw "commands_by_ip_total") [Command ev; IP (EvSource ev)]] else [].

Definition monitor_ops (c : monitor_call) : list prom_op :=
  match c with
  | SetMonitorConnected b => [Set_ (rw "monitor_connected") [] (bool_gauge b)]
  | ObserveLastEvent t => [Set_ (rw "last_event_timestamp_seconds") [] (t_sec t)]
  | ObserveMonitorSession d => [Observe (rw "monitor_session_duration_seconds") [] d]
  | IncrParseError => [Inc (rw "parse_errors_total") []]
  | IncrReconnect => [Inc (rw "monitor_reconnects_total") []]
  | IncrMonitorDropped => [Inc (rw "monitor_dropped_events_total") []]
  end.

Definition output_ops (c : output_call) : list prom_op :=
  match c with
  | IncrOutputWritten o => [Inc (rw "output_written_total") [o]]
  | IncrOutputDropped o => [Inc (rw "dropped_events_total") [o]]
  | IncrOutputError o => [Inc (rw "output_errors_total") [o]]
  | SetOutputFailing o b => [Set_ (rw "output_failing") [o] (bool_gauge b)]
  | ObserveOutputWrite o d => [Observe (rw "output_write_duration_seconds") [o] d]
  end.

Definition alert_ops (c : alert_call) : list prom_op :=
  match c with
  | AlertSent ch command => [Inc (rw "alerts_sent_total") [ch; command]]
  | AlertError ch _ => [Inc (rw "alert_send_errors_total") [ch]]
  | SuspiciousObserved command ip => [Inc (rw "suspicious_commands_total") [command; ip]]
  | AlertRetry ch => [Inc (rw "alert_retry_attempts_total") [ch]]
  | AlertDropped => [Inc (rw "alert_dropped_total") []]
  | AlertRateLimited command => [Inc (rw "alert_rate_limited_total") [command]]
  | ObserveAlertSend ch d => [Observe (rw "alert_send_duration_seconds") [ch] d]
  | SetAlertChannelFailing ch b => [Set_ (rw "alert_channel_failing") [ch] (bool_gauge b)]
  end.

(** func (r *Registry) RecordRoleProbe(success bool, d time.Duration) *)
Definition RecordRoleProbe_ops (now : Z) (success : bool) (d : duration) : list prom_op :=
  Observe (rw "role_probe_duration_seconds") [] d
  :: (if success then [Inc (rw "role_probe_successes_total") [];
                       Set_ (rw "last_role_probe_timestamp_seconds") [] now]
      else [Inc (rw "role_probe_failures_total") []]).

Definition role_ops (now : Z) (c : role_call) : list prom_op :=
  match c with
  | SetRedisRole r =>
      [Reset_ (rw "redis_role_info"); Set_ (rw "redis_role_info") [r] 1;
       Set_ (rw "redis_is_master") [] (bool_gauge (bool_decide (r = "master")))]
  | RecordRoleTransition f t => [Inc (rw "redis_role_transitions_total") [f; t]]
  | RecordRoleProbe ok d => RecordRoleProbe_ops now ok d
  end.

(** A call of any component on the registry. *)
Inductive registry_call : Type :=
| OnEvent (ev : Event)
| OnMonitor (c : monitor_call)
| OnOutput (c : output_call)
| OnAlert (c : alert_call)
| OnRole (now : Z) (c : role_call)
| OnIgnored (command : string).   (* the dispatcher's own use of IgnoredEventsTotal *)

Definition call_ops (ign : gset string) (track : bool) (c : registry_call) : list prom_op :=
  match c with
  | OnEvent ev => record_ops ign track ev
  | OnMonitor c => monitor_ops c
  | OnOutput c => output_ops c
  | OnAlert c => alert_ops c
  | OnRole now c => role_ops now c
  | OnIgnored command => [Inc (rw "ignored_events_total") [command]]
  end.

Definition set_member (x : string) (b : bool) (s : gset string) : gset string :=
  if b then {[x]} ∪ s else s ∖ {[x]}.

(** What a call does to the health state. *)
Definition health_connected (c : registry_call) (b : bool) : bool :=
  match c with OnMonitor (SetMonitorConnected b') => b' | _ => b end.
Definition health_role (c : registry_call) (b : bool) : bool :=
  match c with
  | OnRole _ (SetRedisRole r) => negb (bool_decide (r = "")) && negb (bool_decide (r = "unknown"))
  | _ => b
  end.
Definition health_outputs (c : registry_call) (s : gset string) : gset string :=
  match c with OnOutput (SetOutputFailing o b) => set_member o b s | _ => s end.
Definition health_channels (c : registry_call) (s : gset string) : gset string :=
  match c with OnAlert (SetAlertChannelFailing ch b) => set_member ch b s | _ => s end.

(** The methods of *Registry. *)
#[export] Instance Registry_handler `{Prometheus M} : Handler registry_call (Registry M) := λ c r,
  mkRegistry (prom_all (call_ops (ignored r) (trackSourceIP r) c) (prom r)) (ignored r) (trackSourceIP r)
    (health_connected c (monitorConnected r)) (health_role c (roleKnown r))
    (health_outputs c (failingOutputs r)) (health_channels c (failingAlertChannels r)).

(** func New(ignoredCommands, trackSourceIP, version, commit) *Registry, after
    the registrations. *)
Definition New `{Prometheus M} (ignoredCommands : list string) (track : bool) (version commit : string)
    (start : Z) : Registry M :=
  mkRegistry (prom_all [Set_ (rw "build_info") [version; commit] 1; Set_ (rw "start_time_seconds") [] start]
                prom_new)
    (list_to_set ignoredCommands) track false false ∅ ∅.

(** ** Readiness *)

Record ReadinessState : Type := mkReadiness {
  MonitorConnected : bool;
  RoleKnown : bool;
  FailingOutputs : list string;
  FailingAlertChannels : list string
}.

(** func (r *Registry) Readiness() ReadinessState: [outs] and [chans] are the
    two sets in the order of the range loops. *)
Definition Readiness {M} (outs chans : list string) (r : Registry M) : ReadinessState :=
  mkReadiness (monitorConnected r) (roleKnown r) outs chans.

Record http_reply : Type := mkReply { h_status : Z; h_type : string; h_body : string }.

(** func healthzHandler(w, r) *)
Definition healthzHandler : http_reply := mkReply 200 "" "ok".

Definition json_strings (l : list string) : json :=
  match l with [] => JNull | _ => JArr (JStr <$> l) end.

(** func readyzHandler(reg *Registry); the keys of the body are sorted, as
    encoding/json does for maps. *)
Definition ready (s : ReadinessState) : bool :=
  MonitorConnected s && RoleKnown s && (length (FailingOutputs s) =? 0)%nat
  && (length (FailingAlertChannels s) =? 0)%nat.

Definition readyzHandler (s : ReadinessState) : http_reply :=
  mkReply (if ready s then 200 else 503) "application/json"
    (json_text (JObj [("failing_alert_channels", json_strings (FailingAlertChannels s));
                      ("failing_outputs", json_strings (FailingOutputs s));
                      ("monitor_connected", JBool (MonitorConnected s));
                      ("ready", JBool (ready s));
                      ("role_known", JBool (RoleKnown s))]) +:+ String LF "").

(** ** Lemmas *)

(** An instance of the Prometheus client over finite maps. *)
Record prom_maps : Type := mkMaps {
  m_counters : gmap (string * list string) Z;
  m_gauges : gmap string (gmap (list string) Z)
}.

#[export] Instance prom_maps_Prometheus : Prometheus prom_maps := {
  prom_new := mkMaps ∅ ∅;
  prom_do op m :=
    match op with
    | Inc n l => mkMaps (<[(n, l) := default 0 (m_counters m !! (n, l)) + 1]> (m_counters m)) (m_gauges m)
    | Set_ n l v => mkMaps (m_counters m) (<[n := <[l := v]> (default ∅ (m_gauges m !! n))]> (m_gauges m))
    | Observe _ _ _ => m
    | Reset_ n => mkMaps (m_counters m) (delete n (m_gauges m))
    end%Z;
  counter_value m n l := default 0%Z (m_counters m !! (n, l));
  gauge_value m n l := m_gauges m !! n ≫= λ g, g !! l
}.

#[export] Instance prom_maps_laws : PrometheusLaws prom_maps.
Proof.
  split; cbn.
  - intros n l. by rewrite lookup_empty.
  - intros [n' l'|n' l' v|n' l' d|n'] m n l; cbn; rewrite ?decide_False, ?Z.add_0_r by done; try done.
    destruct (decide (Inc n' l' = Inc n l)) as [[= -> ->]|Hne].
    + by rewrite lookup_insert_eq.
    + rewrite lookup_insert_ne, Z.add_0_r by congruence. done.
  - intros n l. by rewrite lookup_empty.
  - intros [n' l'|n' l' v|n' l' d|n'] m n l; cbn; try done.
    + destruct (decide (n' = n)) as [->|Hn].
      * rewrite lookup_insert_eq. cbn. destruct (decide (l' = l)) as [->|Hl].
        -- by rewrite lookup_insert_eq, decide_True.
        -- rewrite lookup_insert_ne, decide_False by naive_solver. by destruct (m_gauges m !! n).
      * rewrite lookup_insert_ne, decide_False by naive_solver. done.
    + destruct (decide (n' = n)) as [->|Hn].
      * by rewrite lookup_delete_eq.
      * by rewrite lookup_delete_ne.
Qed.

(** The metric operations of a sequence of calls. *)
Definition all_ops (ign : gset string) (track : bool) (cs : list registry_call) : list prom_op :=
  cs ≫= call_ops ign track.
Definition incs (n : string) (l : list string) (ops : list prom_op) : nat :=
  length (List.filter (λ op, bool_decide (op = Inc n l)) ops).

Lemma incs_app n l ops1 ops2 : incs n l (ops1 ++ ops2) = incs n l ops1 + incs n l ops2.
Proof. unfold incs. by rewrite List.filter_app, length_app. Qed.
Lemma incs_cons n l op ops : incs n l (op :: ops) = (if decide (op = Inc n l) then 1 else 0) + incs n l ops.
Proof.
  unfold incs. cbn [List.filter]. destruct (decide (op = Inc n l)) as [->|H].
  - by rewrite bool_decide_true.
  - by rewrite bool_decide_false.
Qed.

Section Laws.
Context {M : Type} `{PrometheusLaws M}.

Lemma prom_all_counter ops (m : M) n l :
  counter_value (prom_all ops m) n l = (counter_value m n l + Z.of_nat (incs n l ops))%Z.
Proof.
  revert m. induction ops as [|op ops IH]; intros m; cbn [prom_all foldl]; [cbn; lia|].
  unfold prom_all in IH. rewrite IH, counter_do, incs_cons. case_decide; lia.
Qed.

(** The settings of a registry do not change, and its metrics see every call. *)
Lemma run_calls_prom (cs : list registry_call) : ∀ (r : Registry M),
  ignored (run_calls cs r) = ignored r ∧ trackSourceIP (run_calls cs r) = trackSourceIP r ∧
  prom (run_calls cs r) = prom_all (all_ops (ignored r) (trackSourceIP r) cs) (prom r).
Proof.
  induction cs as [|c cs IH]; intros r; [done|]. unfold run_calls in *. cbn [foldl].
  destruct (IH (handle_call c r)) as (-> & -> & ->). cbn. split_and!; [done..|].
  unfold all_ops, prom_all. cbn. by rewrite foldl_app.
Qed.

(** Each part of the health state sees its own calls. *)
Lemma run_calls_health (cs : list registry_call) : ∀ (r : Registry M),
  monitorConnected (run_calls cs r) = foldl (λ b c, health_connected c b) (monitorConnected r) cs ∧
  roleKnown (run_calls cs r) = foldl (λ b c, health_role c b) (roleKnown r) cs ∧
  failingOutputs (run_calls cs r) = foldl (λ s c, health_outputs c s) (failingOutputs r) cs ∧
  failingAlertChannels (run_calls cs r) = foldl (λ s c, health_channels c s) (failingAlertChannels r) cs.
Proof.
  induction cs as [|c cs IH]; intros r; [done|]. unfold run_calls in *. cbn [foldl].
  destruct (IH (handle_call c r)) as (-> & -> & -> & ->). done.
Qed.
End Laws.

(** The last value a sequence of calls gives for something. *)
Fixpoint last_of {A} (f : registry_call → option A) (cs : list registry_call) : option A :=
  match cs with
  | [] => None
  | c :: cs' => match last_of f cs' with Some v => Some v | None => f c end
  end.

Definition sets_connected (c : registry_call) : option bool :=
  match c with OnMonitor (SetMonitorConnected b) => Some b | _ => None end.
Definition sets_role (c : registry_call) : option string :=
  match c with OnRole _ (SetRedisRole r) => Some r | _ => None end.
Definition sets_output (o : string) (c : registry_call) : option bool :=
  match c with OnOutput (SetOutputFailing o' b) => if decide (o' = o) then Some b else None | _ => None end.
Definition sets_channel (ch : string) (c : registry_call) : option bool :=
  match c with OnAlert (SetAlertChannelFailing c' b) => if decide (c' = ch) then Some b else None | _ => None end.

Lemma last_of_snoc {A} (f : registry_call → option A) cs c :
  last_of f (cs ++ [c]) = match f c with Some v => Some v | None => last_of f cs end.
Proof. induction cs as [|c' cs IH]; cbn; [by destruct (f c)|]. rewrite IH. by destruct (f c). Qed.

Lemma elem_set_member x y b s : x ∈ set_member y b s ↔ (if decide (y = x) then b = true else x ∈ s).
Proof. unfold set_member. case_decide; subst; destruct b; set_solver. Qed.

Lemma connected_last cs :
  foldl (λ b c, health_connected c b) false cs = default false (last_of sets_connected cs).
Proof.
  induction cs as [|c cs IH] using rev_ind; [done|]. rewrite foldl_app, last_of_snoc. cbn [foldl]. rewrite IH.
  by destruct c as [|[]| | | |].
Qed.

Definition known_role (r : string) : bool := negb (bool_decide (r = "")) && negb (bool_decide (r = "unknown")).

Lemma role_last cs :
  foldl (λ b c, health_role c b) false cs = default false (known_role <$> last_of sets_role cs).
Proof.
  induction cs as [|c cs IH] using rev_ind; [done|]. rewrite foldl_app, last_of_snoc. cbn [foldl]. rewrite IH.
  by destruct c as [| | | |now []|].
Qed.

Lemma outputs_last cs o :
  o ∈ foldl (λ s c, health_outputs c s) (∅ : gset string) cs ↔ last_of (sets_output o) cs = Some true.
Proof.
  induction cs as [|c cs IH] using rev_ind; [cbn; set_solver|]. rewrite foldl_app, last_of_snoc. cbn [foldl].
  destruct c as [| |[]| | |]; cbn [health_outputs sets_output]; try apply IH.
  rewrite elem_set_member. case_decide; [|apply IH]. split; congruence.
Qed.

Lemma channels_last cs ch :
  ch ∈ foldl (λ s c, health_channels c s) (∅ : gset string) cs ↔ last_of (sets_channel ch) cs = Some true.
Proof.
  induction cs as [|c cs IH] using rev_ind; [cbn; set_solver|]. rewrite foldl_app, last_of_snoc. cbn [foldl].
  destruct c as [| | |[]| |]; cbn [health_channels sets_channel]; try apply IH.
  rewrite elem_set_member. case_decide; [|apply IH]. split; congruence.
Qed.

Lemma no_elements (s : gset string) l : l ≡ₚ elements s → (length l =? 0)%nat = true ↔ ∀ x, x ∉ s.
Proof.
  intros Hl. rewrite Nat.eqb_eq, Hl. split.
  - intros Hn x Hx. apply nil_length_inv in Hn. apply elem_of_elements in Hx. rewrite Hn in Hx. set_solver.
  - intros Hn. destruct (elements s) as [|x l'] eqn:E; [done|].
    destruct (Hn x). apply elem_of_elements. rewrite E. left.
Qed.

Lemma default_false (o : option bool) : default false o = true ↔ o = Some true.
Proof. destruct o as [[]|]; naive_solver. Qed.

Lemma known_role_spec (o : option string) :
  default false (known_role <$> o) = true ↔ ∃ role, o = Some role ∧ role ≠ "" ∧ role ≠ "unknown".
Proof.
  destruct o as [role|]; cbn; [|naive_solver].
  unfold known_role. rewrite andb_true_iff, !negb_true_iff, !bool_decide_eq_false. naive_solver.
Qed.

(** ** Well-formed descriptors *)

Definition is_letter (c : ascii) : bool :=
  let v := byte_val c in (((97 <=? v) && (v <=? 122)) || ((65 <=? v) && (v <=? 90)) || (v =? 95))%Z.
Definition is_digit (c : ascii) : bool := let v := byte_val c in ((48 <=? v) && (v <=? 57))%Z.
Definition valid_name (s : string) : bool :=
  match s with
  | EmptyString => false
  | String c s' => is_letter c && str_forallb (λ c, is_letter c || is_digit c) s'
  end.
Fixpoint increasing (l : list Z) : bool :=
  match l with
  | x :: (y :: _) as l' => (x <? y)%Z && increasing l'
  | _ => true
  end.
Definition desc_ok (d : desc) : bool :=
  valid_name (d_name d) && forallb valid_name (d_labels d) && bool_decide (NoDup (d_labels d))
  && match d_kind d with Histogram b => negb (length b =? 0)%nat && increasing b | _ => true end.



(** ** What the calls do to the command counters *)

(** The events among the calls. *)
Definition events_of (cs : list registry_call) : list Event :=
  omap (λ c, match c with OnEvent ev => Some ev | _ => None end) cs.

(** A counter that only [Record] increments is a sum over the events. *)
Lemma incs_all_ops ign track n l cs :
  (∀ c, match c with OnEvent _ => True | _ => incs n l (call_ops ign track c) = 0 end) →
  incs n l (all_ops ign track cs) = sum_list_with (λ ev, incs n l (record_ops ign track ev)) (events_of cs).
Proof.
  intros H0. unfold all_ops, events_of. induction cs as [|c cs IH]; [done|].
  cbn [mbind list_bind omap list_omap]. rewrite incs_app, IH. specialize (H0 c).
  destruct c; cbn [sum_list_with]; [done|by rewrite H0..].
Qed.

Lemma incs_record_events ign track ev :
  incs (rw "events_processed_total") [] (record_ops ign track ev) = 1.
Proof.
  unfold record_ops. rewrite incs_app. case_decide; [done|]. rewrite incs_app. by destruct (track && _).
Qed.

Lemma incs_record_command ign track command db ev :
  incs (rw "commands_total") [command; Itoa db] (record_ops ign track ev)
  = if decide (command ∈ ign) then 0 else if decide (Command ev = command ∧ DB ev = db) then 1 else 0.
Proof.
  unfold record_ops. rewrite incs_app, incs_cons, decide_False by done.
  destruct (decide (Command ev ∈ ign)) as [Hi|Hi].
  { destruct (decide (command ∈ ign)); [done|]. rewrite decide_False; [done|]. by intros [<- _]. }
  rewrite incs_app, !incs_cons, (decide_False (P := Inc (rw "commands_by_db_total") _ = _)) by done.
  assert (incs (rw "commands_total") [command; Itoa db]
    (if track && negb (bool_decide (IP (EvSource ev) = ""))
     then [Inc (rw "commands_by_ip_total") [Command ev; IP (EvSource ev)]] else []) = 0) as ->
    by (by destruct (track && _)).
  destruct (decide (Inc (rw "commands_total") [Command ev; Itoa (DB ev)] = _)) as [[= Hc Hd]|Hne].
  - rewrite decide_False, decide_True; [done| |congruence]. split; [done|]. by apply (inj pretty).
  - destruct (decide (command ∈ ign)); [done|]. rewrite decide_False; [done|]. by intros [<- <-].
Qed.

Lemma sum_list_with_ext {A} (f g : A → nat) l : (∀ x, f x = g x) → sum_list_with f l = sum_list_with g l.
Proof. intros Hfg. induction l as [|x l IH]; cbn; [done|]. by rewrite Hfg, IH. Qed.
Lemma sum_list_with_1 {A} (l : list A) : sum_list_with (λ _, 1) l = length l.
Proof. induction l; cbn; lia. Qed.
Lemma sum_list_with_guard {A} (P : Prop) `{Decision P} (Q : A → Prop) `{∀ x, Decision (Q x)} l :
  sum_list_with (λ x, if decide P then 0 else if decide (Q x) then 1 else 0) l
  = if decide P then 0 else length (filter Q l).
Proof.
  induction l as [|x l IH]; cbn [sum_list_with]; [by case_decide|]. rewrite IH, filter_cons.
  repeat case_decide; cbn [length]; lia.
Qed.

(** The number of events processed, as the registry tells it. *)
Lemma events_processed_counter `{PrometheusLaws M} (ignoredCommands : list string) (track : bool)
    (version commit : string) (start : Z) (cs : list registry_call) :
  counter_value (prom (run_calls cs (New (M := M) ignoredCommands track version commit start)))
    (rw "events_processed_total") [] = Z.of_nat (length (events_of cs)).
Proof.
  destruct (run_calls_prom cs (New (M := M) ignoredCommands track version commit start)) as (_ & _ & ->).
  unfold New. cbn [ignored trackSourceIP prom]. rewrite !prom_all_counter, counter_new, !incs_cons, !decide_False by done.
  rewrite incs_all_ops by (by destruct c as [ev|[]|[]|[]|now [| |[] ]|]).
  by rewrite (sum_list_with_ext _ (λ _, 1)), sum_list_with_1 by (intros; apply incs_record_events).
Qed.

(** ** Registration, and the calls that panic *)

(** MustRegister takes every descriptor, and RegisterCollector those of the
    queue-depth collector: the names and labels are valid, no two descriptors
    share a name, which none shares with the process collector either, and the
    buckets increase. *)
Lemma registered_ok :
  NoDup (d_name <$> registered ++ queueDepthDescs) ∧
  Forall (λ d, desc_ok d = true ∧ HasPrefix (d_name d) (rw "process_") = false) (registered ++ queueDepthDescs).
Proof. split; apply (bool_decide_unpack _); vm_compute; exact I. Qed.










(** ** Properties *)




(** C36: the command counters count the events -- after any calls on a fresh
    registry, events_processed_total is the number of events recorded, and the
    counter of a command in a database is the number of events recorded with
    that command and database, or zero for an ignored command. *)
Theorem Record_counts `{PrometheusLaws M} (ignoredCommands : list string) (track : bool)
    (version commit : string) (start : Z) (cs : list registry_call) (command : string) (db : Z) :
  let r := run_calls cs (New (M := M) ignoredCommands track version commit start) in
  counter_value (prom r) (rw "events_processed_total") [] = Z.of_nat (length (events_of cs)) ∧
  counter_value (prom r) (rw "commands_total") [command; Itoa db]
  = if decide (command ∈ ignoredCommands) then 0%Z
    else Z.of_nat (length (filter (λ ev, Command ev = command ∧ DB ev = db) (events_of cs))).
Proof.
  intros r. split; [apply events_processed_counter|].
  unfold r. destruct (run_calls_prom cs (New (M := M) ignoredCommands track version commit start))
    as (_ & _ & ->). unfold New. cbn [ignored trackSourceIP prom].
  rewrite !prom_all_counter, !counter_new, !incs_cons, !decide_False by done.
  rewrite incs_all_ops by (by destruct c as [ev|[]|[]|[]|now [| |[] ]|]).
  rewrite (sum_list_with_ext _ _ _ (incs_record_command _ track command db)), sum_list_with_guard.
  rewrite (decide_ext _ _ _ _ (elem_of_list_to_set (C := gset string) command ignoredCommands)).
  by case_decide.
Qed.

Definition example_get (db : Z) : Event := mkEvent (mkTime 0 0) db (mkSource "10.0.0.1" "1") "GET" "" ["k"].

Lemma Record_counts_witness :
  counter_value (prom (run_calls [OnEvent (example_get 0); OnMonitor IncrParseError; OnEvent (example_get 1);
                                  OnEvent (example_get 0)]
    (New (M := prom_maps) ["PING"] true "1.0" "abc" 0))) (rw "commands_total") ["GET"; "0"] = 2%Z.
Proof.
  exact (proj2 (Record_counts (M := prom_maps) ["PING"] true "1.0" "abc" 0
    [OnEvent (example_get 0); OnMonitor IncrParseError; OnEvent (example_get 1); OnEvent (example_get 0)] "GET" 0)).
Defined.

(** C16: readiness tells the last word of every component -- after any calls on a
    fresh registry, /readyz answers 200 exactly when the last session state was
    connected, the last role published is a determinate one, and no output and
    no alert channel was last set failing; otherwise it answers 503. *)
Theorem readyz_iff `{PrometheusLaws M} (ignoredCommands : list string) (track : bool)
    (version commit : string) (start : Z) (cs : list registry_call) (outs chans : list string) :
  let r := run_calls cs (New (M := M) ignoredCommands track version commit start) in
  outs ≡ₚ elements (failingOutputs r) → chans ≡ₚ elements (failingAlertChannels r) →
  let reply := readyzHandler (Readiness outs chans r) in
  (h_status reply = 200 ∨ h_status reply = 503)%Z ∧
  (h_status reply = 200%Z ↔
     last_of sets_connected cs = Some true ∧
     (∃ role, last_of sets_role cs = Some role ∧ role ≠ "" ∧ role ≠ "unknown") ∧
     (∀ o, last_of (sets_output o) cs ≠ Some true) ∧
     (∀ ch, last_of (sets_channel ch) cs ≠ Some true)).
Proof.
  intros r Ho Hc reply. unfold reply, readyzHandler. cbn [h_status]. split; [destruct (ready _); auto|].
  destruct (run_calls_health cs (New (M := M) ignoredCommands track version commit start)) as (H1 & H2 & H3 & H4).
  fold r in H1, H2, H3, H4. cbn [New monitorConnected roleKnown failingOutputs failingAlertChannels] in *.
  transitivity (ready (Readiness outs chans r) = true); [by destruct (ready _)|].
  unfold ready, Readiness. cbn [MonitorConnected RoleKnown FailingOutputs FailingAlertChannels].
  rewrite !andb_true_iff, (no_elements _ _ Ho), (no_elements _ _ Hc), H1, H2, H3, H4, connected_last, role_last.
  setoid_rewrite outputs_last. setoid_rewrite channels_last. rewrite default_false, known_role_spec. tauto.
Qed.

Definition example_calls : list registry_call :=
  [OnRole 0 (SetRedisRole "master"); OnMonitor (SetMonitorConnected true);
   OnOutput (SetOutputFailing "file" true); OnOutput (SetOutputFailing "file" false)].

Lemma readyz_iff_witness :
  h_status (readyzHandler (Readiness [] [] (run_calls example_calls
    (New (M := prom_maps) [] false "1.0" "abc" 0)))) = 200%Z.
Proof.
  apply (readyz_iff (M := prom_maps) [] false "1.0" "abc" 0 example_calls [] []).
  - reflexivity.
  - reflexivity.
  - split_and!; [reflexivity|exists "master"; split_and!; [reflexivity|discriminate..]| |].
    + intros o. cbn. destruct (decide ("file" = o)); discriminate.
    + intros ch. cbn. discriminate.
Defined.
