(* ===== verification/ServeMux.v ===== *)
(** * The request multiplexer of net/http

    What the metrics server uses of [http.ServeMux] (Go 1.22 and later): the
    syntax of patterns, the conflicts that make [Handle] panic, and the choice
    of the pattern that serves a request.  The tree of the standard library is a
    list of patterns here, matched with the same precedence and backtracking:
    a host before no host, a method before none, and, segment by segment, a
    literal before a wildcard before a trailing wildcard.  The names of
    wildcards beyond ASCII are the class [UnicodeNames]. *)

From S2P Require Export GoStrings.

(** ** Patterns *)

(** type segment struct: [{$}] at the end is the literal "/". *)
Inductive segment : Type :=
| Lit (s : string)
| Single (name : string)
| Multi (name : string).
#[export] Instance segment_eq_dec : EqDecision segment.
Proof. solve_decision. Defined.

Record pattern : Type := mkPattern { p_method : string; p_host : string; p_segments : list segment }.

(** Whether a name with bytes beyond ASCII is an identifier. *)
Class UnicodeNames := unicode_name : string → bool.

Definition is_name_start (c : ascii) : bool :=
  let v := byte_val c in (((97 <=? v) && (v <=? 122)) || ((65 <=? v) && (v <=? 90)) || (v =? 95))%Z.
Definition is_name_byte (c : ascii) : bool :=
  let v := byte_val c in is_name_start c || ((48 <=? v) && (v <=? 57))%Z.
Definition isValidWildcardName `{UnicodeNames} (s : string) : bool :=
  match s with
  | EmptyString => false
  | String c s' =>
      if is_ascii s then is_name_start c && str_forallb is_name_byte s' else unicode_name s
  end.

(** The characters of a method (a token of RFC 7230). *)
Definition is_token_byte (c : ascii) : bool :=
  let v := byte_val c in
  is_name_byte c || in_set ["!"; "#"; "$"; "%"; "&"; "'"; "*"; "+"; "-"; "."; "^"; "`"; "|"; "~"]%char c.
Definition validMethod (m : string) : bool := negb (bool_decide (m = "")) && str_forallb is_token_byte m.

(** The text between slashes ([strings.Split(s, "/")]). *)
Fixpoint split_slash (s : string) : list string :=
  match s with
  | EmptyString => [""]
  | String c s' =>
      if decide (c = "/"%char) then "" :: split_slash s'
      else match split_slash s' with
           | [] => [String c ""]
           | x :: xs => String c x :: xs
           end
  end.
Fixpoint join_slash (l : list string) : string :=
  match l with
  | [] => ""
  | [x] => x
  | x :: xs => x +:+ String "/" (join_slash xs)
  end.

(** [cleanPath]: path.Clean of a rooted path, with the trailing slash kept. *)
Definition clean_segments (l : list string) : list string :=
  rev (foldl (λ acc x, if bool_decide (x = "" ∨ x = ".") then acc
                       else if bool_decide (x = "..") then tail acc else x :: acc) [] l).
Definition cleanPath (p : string) : string :=
  match p with
  | EmptyString => "/"
  | String c p' =>
      let segs := split_slash (if decide (c = "/"%char) then p' else p) in
      let cleaned := String "/" (join_slash (clean_segments segs)) in
      if bool_decide (List.last segs "" = "") && negb (bool_decide (cleaned = "/"))
      then cleaned +:+ "/" else cleaned
  end.

(** [pathUnescape]: the escapes of a segment, left alone when one is wrong. *)
Definition hex_val (c : ascii) : option Z :=
  match digit_val c with Some v => if (v <? 16)%Z then Some v else None | None => None end.
Fixpoint unescape (s : string) : option string :=
  match s with
  | EmptyString => Some ""
  | String c s' =>
      if decide (c = "%"%char) then
        match s' with
        | String a (String b s'') =>
            x ← hex_val a; y ← hex_val b; r ← unescape s'';
            Some (String (ascii_of_N (Z.to_N (16 * x + y))) r)
        | _ => None
        end
      else r ← unescape s'; Some (String c r)
  end.
Definition pathUnescape (s : string) : string := default s (unescape s).

Section Patterns.
Context `{UnicodeNames}.

Definition strip_brace (seg : string) : option string :=
  match seg with
  | String "{" s =>
      if bool_decide (str_drop (len s - 1) s = "}") then Some (str_take (len s - 1) s) else None
  | _ => None
  end.
(** [strings.CutSuffix(name, "...")] *)
Definition cut_dots (name : string) : string * bool :=
  let n := len name - 3 in
  if (3 <=? len name) && bool_decide (str_drop n name = "...") then (str_take n name, true) else (name, false).

(** The loop of [parsePattern] over the segments after the first slash; [seen]
    are the names so far. *)
Fixpoint parse_segments (seen : list string) (l : list string) : result (list segment) :=
  match l with
  | [] => Ok []
  | [EmptyString] => Ok [Multi ""]
  | seg :: rest =>
      match IndexByte seg "{" with
      | None => segs ← parse_segments seen rest; Ok (Lit (pathUnescape seg) :: segs)
      | Some (Datatypes.S _) => Err (Errorf "bad wildcard segment (must start with '{')" [])
      | Some 0 =>
          match strip_brace seg with
          | None => Err (Errorf "bad wildcard segment (must end with '}')" [])
          | Some name =>
              if bool_decide (name = "$") then
                match rest with [] => Ok [Lit "/"] | _ => Err (Errorf "{$} not at end" []) end
              else
                let '(name, multi) := cut_dots name in
                if multi && negb (bool_decide (rest = [])) then Err (Errorf "{...} wildcard not at end" [])
                else if bool_decide (name = "") then Err (Errorf "empty wildcard" [])
                else if negb (isValidWildcardName name) then Err (Errorf "bad wildcard name %q" [name])
                else if bool_decide (name ∈ seen) then Err (Errorf "duplicate wildcard name %q" [name])
                else
                  segs ← parse_segments (name :: seen) rest;
                  Ok ((if multi then Multi name else Single name) :: segs)
          end
      end
  end.

(** func parsePattern(s string) ( *pattern, error), without the offset its
    errors are wrapped with. *)
Definition is_blank (c : ascii) : bool := in_set [SP; TAB] c.
Fixpoint cut_blank (s : string) : option (string * string) :=
  match s with
  | EmptyString => None
  | String c s' =>
      if is_blank c then Some ("", s')
      else '(m, r) ← cut_blank s'; Some (String c m, r)
  end.
Definition parsePattern (s : string) : result pattern :=
  if bool_decide (s = "") then Err (Errorf "empty pattern" [])
  else
    let '(method, rest) :=
      match cut_blank s with Some (m, r) => (m, TrimLeft r [SP; TAB]) | None => ("", s) end in
    if negb (bool_decide (method = "")) && negb (validMethod method) then
      Err (Errorf "invalid method %q" [method])
    else
      match IndexByte rest "/" with
      | None => Err (Errorf "host/path missing /" [])
      | Some i =>
          let host := str_take i rest in
          let path := str_drop i rest in
          if contains_byte host "{" then Err (Errorf "host contains '{' (missing initial '/'?)" [])
          else if negb (bool_decide (method = "")) && negb (bool_decide (method = "CONNECT"))
                  && negb (bool_decide (path = cleanPath path)) then
            Err (Errorf "non-CONNECT pattern with unclean path can never match" [])
          else segs ← parse_segments [] (split_slash (str_drop 1 path)); Ok (mkPattern method host segs)
      end.
End Patterns.

(** ** Conflicts *)

Inductive relationship : Type := Equivalent | MoreGeneral | MoreSpecific | Disjoint | Overlaps.

Definition combineRelationships (r1 r2 : relationship) : relationship :=
  match r1, r2 with
  | Equivalent, _ => r2
  | Disjoint, _ => Disjoint
  | Overlaps, Disjoint => Disjoint
  | Overlaps, _ => Overlaps
  | _, Equivalent => r1
  | MoreGeneral, MoreSpecific | MoreSpecific, MoreGeneral => Overlaps
  | _, _ => r2
  end.

Definition compareMethods (p1 p2 : pattern) : relationship :=
  let m1 := p_method p1 in
  let m2 := p_method p2 in
  if bool_decide (m1 = m2) then Equivalent
  else if bool_decide (m1 = "") then MoreGeneral
  else if bool_decide (m2 = "") then MoreSpecific
  else if bool_decide (m1 = "GET" ∧ m2 = "HEAD") then MoreGeneral
  else if bool_decide (m2 = "GET" ∧ m1 = "HEAD") then MoreSpecific
  else Disjoint.

Definition compareSegments (s1 s2 : segment) : relationship :=
  match s1, s2 with
  | Multi _, Multi _ => Equivalent
  | Multi _, _ => MoreGeneral
  | _, Multi _ => MoreSpecific
  | Single _, Single _ => Equivalent
  | Single _, Lit s => if bool_decide (s = "/") then Disjoint else MoreGeneral
  | Lit s, Single _ => if bool_decide (s = "/") then Disjoint else MoreSpecific
  | Lit a, Lit b => if bool_decide (a = b) then Equivalent else Disjoint
  end.

Definition last_multi (l : list segment) : bool :=
  match last l with Some (Multi _) => true | _ => false end.

(** The loop of [comparePaths] over the corresponding segments. *)
Fixpoint compare_loop (rel : relationship) (l1 l2 : list segment) : relationship * list segment * list segment :=
  match l1, l2 with
  | s1 :: l1', s2 :: l2' =>
      match combineRelationships rel (compareSegments s1 s2) with
      | Disjoint => (Disjoint, [], [])
      | rel' => compare_loop rel' l1' l2'
      end
  | _, _ => (rel, l1, l2)
  end.
Definition comparePaths (p1 p2 : pattern) : relationship :=
  let l1 := p_segments p1 in
  let l2 := p_segments p2 in
  if negb (length l1 =? length l2) && negb (last_multi l1) && negb (last_multi l2) then Disjoint
  else
    match compare_loop Equivalent l1 l2 with
    | (rel, [], []) => rel
    | (rel, [], _) => if last_multi l1 then combineRelationships rel MoreGeneral else Disjoint
    | (rel, _, []) => if last_multi l2 then combineRelationships rel MoreSpecific else Disjoint
    | (rel, _, _) => rel
    end.

Definition conflictsWith (p1 p2 : pattern) : bool :=
  if bool_decide (p_host p1 = p_host p2) then
    match compareMethods p1 p2 with
    | Disjoint => false
    | mrel => match combineRelationships mrel (comparePaths p1 p2) with
              | Equivalent | Overlaps => true
              | _ => false
              end
    end
  else false.

(** ** The multiplexer *)

Definition mux (A : Type) : Type := list (pattern * A).

(** func ( *ServeMux) Handle: what is wrong with a pattern panics. *)
Definition Handle `{UnicodeNames} {A} (s : string) (handler : A) (m : mux A) : result (mux A) :=
  match parsePattern s with
  | Ok p => if existsb (λ x, conflictsWith p x.1) m then Panics else Ok (m ++ [(p, handler)])
  | _ => Panics
  end.

(** The segments of a cleaned request path: a final slash is a segment. *)
Fixpoint final_slash (l : list string) : list string :=
  match l with
  | [] => []
  | [EmptyString] => ["/"]
  | x :: l' => pathUnescape x :: final_slash l'
  end.
Definition request_segments (path : string) : list string := final_slash (split_slash (str_drop 1 path)).

(** [matchPath] of the routing tree, on the patterns left at a node: the child
    of a literal, then, except for a final slash, the child with the empty key
    -- that of wildcards, which a literal empty segment shares -- and then the
    trailing wildcard. *)
Definition key (s : segment) : option string :=
  match s with Lit x => Some x | Single _ => Some "" | Multi _ => None end.
Definition under {A} (k : option string) (l : list (list segment * A)) : list (list segment * A) :=
  omap (λ x, match x with
             | (s :: segs, a) => if bool_decide (key s = k) then Some (segs, a) else None
             | ([], _) => None
             end) l.
Fixpoint match_path {A} (l : list (list segment * A)) (path : list string) : option A :=
  match path with
  | [] => head (omap (λ x, match x with ([], a) => Some a | _ => None end) l)
  | seg :: rest =>
      match match_path (under (Some seg) l) rest with
      | Some a => Some a
      | None =>
          match (if bool_decide (seg = "/") then None else match_path (under (Some "") l) rest) with
          | Some a => Some a
          | None => snd <$> head (under None l)
          end
      end
  end.

Definition at_node {A} (host method : string) (m : mux A) : list (list segment * A) :=
  omap (λ x, if bool_decide (p_host x.1 = host ∧ p_method x.1 = method)
             then Some (p_segments x.1, x.2) else None) m.
Definition matchMethodAndPath {A} (m : mux A) (host method : string) (path : list string) : option A :=
  match match_path (at_node host method m) path with
  | Some a => Some a
  | None =>
      match (if bool_decide (method = "HEAD") then match_path (at_node host "GET" m) path else None) with
      | Some a => Some a
      | None => match_path (at_node host "" m) path
      end
  end.

(** The handler of a request whose path is clean: no redirection. *)
Definition mux_match {A} (m : mux A) (host method path : string) : option A :=
  let segs := request_segments path in
  match (if bool_decide (host = "") then None else matchMethodAndPath m host method segs) with
  | Some a => Some a
  | None => matchMethodAndPath m "" method segs
  end.

(** ** Lemmas *)

Lemma split_slash_nonempty s : ∃ x xs, split_slash s = x :: xs.
Proof.
  destruct s as [|c s]; cbn [split_slash]; [by eexists _, _|]. destruct (decide _); [by eexists _, _|].
  destruct (split_slash s); by eexists _, _.
Qed.
Lemma split_slash_cons_slash s : split_slash (String "/" s) = "" :: split_slash s.
Proof. done. Qed.

Lemma join_split s : join_slash (split_slash s) = s.
Proof.
  induction s as [|c s IH]; [done|]. cbn [split_slash]. destruct (split_slash_nonempty s) as (x & xs & E).
  rewrite E in IH. destruct (decide (c = "/"%char)) as [->|_]; rewrite E.
  - change (join_slash ("" :: x :: xs)) with (String "/" (join_slash (x :: xs))). by rewrite IH.
  - destruct xs as [|y xs]; cbn [join_slash] in *; [by rewrite IH|]. rewrite str_app_cons. by f_equal.
Qed.
Lemma split_slash_inj a b : split_slash a = split_slash b → a = b.
Proof. intros E. by rewrite <- (join_split a), E, join_split. Qed.

Lemma split_slash_app a b : split_slash (a +:+ String "/" b) = split_slash a ++ split_slash b.
Proof.
  induction a as [|c a IH]; [done|]. rewrite str_app_cons. cbn [split_slash]. rewrite IH.
  destruct (decide _); [done|]. by destruct (split_slash_nonempty a) as (x & xs & ->).
Qed.
Lemma join_slash_app l1 l2 : l1 ≠ [] → l2 ≠ [] → join_slash (l1 ++ l2) = join_slash l1 +:+ String "/" (join_slash l2).
Proof.
  intros H1 H2. induction l1 as [|x l1 IH]; [done|]. destruct l1 as [|y l1].
  - cbn [app join_slash]. by destruct l2.
  - change (join_slash (x :: (y :: l1) ++ l2) = (x +:+ String "/" (join_slash (y :: l1))) +:+ String "/" (join_slash l2)).
    rewrite str_app_assoc, str_app_cons, <- IH by done. by cbn [app join_slash].
Qed.

Lemma split_slash_parts s : Forall (λ x, contains_byte x "/" = false ∧ ∀ c, contains_byte s c = false → contains_byte x c = false)
  (split_slash s).
Proof.
  induction s as [|c s IH]; cbn [split_slash]; [by constructor|].
  destruct (split_slash_nonempty s) as (x & xs & E). rewrite E in *. destruct (decide (c = "/"%char)) as [->|Hc].
  - constructor; [done|]. eapply Forall_impl; [exact IH|]. intros y [Hy1 Hy2]. split; [done|].
    intros d Hd. apply Hy2. rewrite contains_byte_cons in Hd. by apply orb_false_iff in Hd as [_ ?].
  - apply Forall_cons in IH as [[Hx1 Hx2] Hxs]. constructor.
    + split; [rewrite contains_byte_cons, Hx1, bool_decide_false; done|].
      intros d. rewrite !contains_byte_cons. intros [? ?]%orb_false_iff. rewrite Hx2; [|done]. by apply orb_false_iff.
    + eapply Forall_impl; [exact Hxs|]. intros y [Hy1 Hy2]. split; [done|].
      intros d Hd. apply Hy2. rewrite contains_byte_cons in Hd. by apply orb_false_iff in Hd as [_ ?].
Qed.

(** ** Plain patterns: a path with no wildcard, escape or blank *)

Definition plain (s : string) : bool :=
  HasPrefix s "/" && negb (contains_byte s "{") && negb (contains_byte s "%") && negb (ContainsAny s [SP; TAB]).

Fixpoint plain_segments (l : list string) : list segment :=
  match l with
  | [] => []
  | [EmptyString] => [Multi ""]
  | x :: l' => Lit x :: plain_segments l'
  end.

Lemma plain_inv s : plain s = true → ∃ r, s = String "/" r ∧
  contains_byte s "{" = false ∧ contains_byte s "%" = false ∧ ContainsAny s [SP; TAB] = false.
Proof.
  unfold plain. rewrite !andb_true_iff, !negb_true_iff. intros (((Hp & H1) & H2) & H3).
  destruct s as [|c s]; [done|]. exists s. rewrite HasPrefix_cons in Hp.
  apply andb_prop in Hp as [Hc _]. apply bool_decide_eq_true in Hc as ->. done.
Qed.

Lemma cut_blank_None s : ContainsAny s [SP; TAB] = false → cut_blank s = None.
Proof.
  induction s as [|c s IH]; [done|]. unfold ContainsAny in *. cbn [str_existsb cut_blank]. unfold is_blank.
  intros [-> Hs]%orb_false_iff. by rewrite (IH Hs).
Qed.

Lemma unescape_plain s : contains_byte s "%" = false → pathUnescape s = s.
Proof.
  intros Hs. unfold pathUnescape. assert (unescape s = Some s) as ->; [|done].
  induction s as [|c s IH]; [done|]. rewrite contains_byte_cons in Hs. apply orb_false_iff in Hs as [Hc Hs].
  apply bool_decide_eq_false in Hc. cbn [unescape]. rewrite decide_False by done. by rewrite (IH Hs).
Qed.

Lemma parse_segments_plain `{UnicodeNames} seen l :
  Forall (λ x, contains_byte x "{" = false ∧ contains_byte x "%" = false) l →
  parse_segments seen l = Ok (plain_segments l).
Proof.
  induction 1 as [|x l [H1 H2] Hl IH]; [done|]. cbn [parse_segments plain_segments].
  rewrite (IndexByte_None _ _ H1), (unescape_plain _ H2), IH. by destruct x, l.
Qed.

Lemma parsePattern_plain `{UnicodeNames} r :
  plain (String "/" r) = true → parsePattern (String "/" r) = Ok (mkPattern "" "" (plain_segments (split_slash r))).
Proof.
  intros (r' & [= <-] & H1 & H2 & H3)%plain_inv. unfold parsePattern.
  rewrite (cut_blank_None _ H3), bool_decide_false, (bool_decide_true ("" = "")) by done. cbn [negb andb].
  change (IndexByte (String "/" r) "/") with (Some 0). cbv iota beta.
  change (str_take 0 _) with "". change (contains_byte "" "{") with false. cbv iota.
  change (str_drop 1 (str_drop 0 (String "/" r))) with (str_drop 0 r). rewrite str_drop_0.
  rewrite parse_segments_plain; [done|].
  eapply Forall_impl; [apply split_slash_parts|]. intros x [_ Hx]. rewrite contains_byte_cons in H1, H2.
  apply orb_false_iff in H1 as [_ H1], H2 as [_ H2]. split; by apply Hx.
Qed.

(** A pattern must have a slash. *)
Lemma TrimLeft_no s c cs : contains_byte s c = false → contains_byte (TrimLeft s cs) c = false.
Proof.
  induction s as [|d s IH]; cbn [TrimLeft]; [done|]. intros Hs. destruct (in_set cs d); [|done].
  apply IH. rewrite contains_byte_cons in Hs. by apply orb_false_iff in Hs as [_ ?].
Qed.
Lemma cut_blank_no s m r c : cut_blank s = Some (m, r) → contains_byte s c = false → contains_byte r c = false.
Proof.
  revert m. induction s as [|d s IH]; intros m; cbn [cut_blank]; [done|]. rewrite contains_byte_cons.
  destruct (is_blank d).
  - intros [= <- <-] [_ ?]%orb_false_iff. done.
  - destruct (cut_blank s) as [[m' r']|]; [|done]. intros [= _ <-] [_ ?]%orb_false_iff. by apply (IH m').
Qed.
Lemma parsePattern_no_slash `{UnicodeNames} s : contains_byte s "/" = false → is_ok (parsePattern s) = false.
Proof.
  intros Hs. unfold parsePattern. destruct (bool_decide (s = "")); [done|].
  destruct (cut_blank s) as [[m r]|] eqn:E; cbn [negb];
    (destruct (negb _ && negb (validMethod _)); [done|]); rewrite IndexByte_None; try done.
  by apply TrimLeft_no, (cut_blank_no _ _ _ _ E).
Qed.

(** A literal path conflicts with a plain pattern when it is that path. *)
Lemma conflicts_literal x l : x ≠ "" →
  conflictsWith (mkPattern "" "" [Lit x]) (mkPattern "" "" (plain_segments l)) = bool_decide (l = [x]).
Proof.
  intros Hx. unfold conflictsWith, compareMethods. cbn [p_host p_method combineRelationships].
  rewrite !bool_decide_true by done. unfold comparePaths. cbn [p_segments].
  destruct l as [|y [|z l]].
  - cbn. by rewrite bool_decide_false.
  - destruct y as [|c y]; [cbn; by rewrite bool_decide_false by congruence|].
    cbn. repeat case_bool_decide; congruence.
  - rewrite (bool_decide_false (_ = [x])) by congruence.
    assert (∃ w ws, plain_segments (y :: z :: l) = Lit y :: w :: ws) as (w & ws & ->).
    { destruct z as [|c z]; [destruct l|]; destruct y; by eexists _, _. }
    cbn [length Nat.eqb]. cbn [negb andb last_multi last].
    destruct (negb _); [done|]. cbn. repeat case_bool_decide; try done.
Qed.

(** ** Matching plain patterns *)

Fixpoint covers (l path : list string) : bool :=
  match l, path with
  | [EmptyString], _ :: _ => true
  | [], [] => true
  | x :: l', y :: path' => bool_decide (x = y) && covers l' path'
  | _, _ => false
  end.

Lemma under_app {A} k (l1 l2 : list (list segment * A)) : under k (l1 ++ l2) = under k l1 ++ under k l2.
Proof. apply omap_app. Qed.

(** No empty segment but the last: no double slash. *)
Fixpoint no_gaps (l : list string) : bool :=
  match l with
  | [] | [_] => true
  | x :: l' => negb (bool_decide (x = "")) && no_gaps l'
  end.

Lemma plain_segments_cons x l : (x :: l ≠ [""]) → plain_segments (x :: l) = Lit x :: plain_segments l.
Proof. intros Hx. destruct x; [|done]. by destruct l. Qed.
Lemma no_gaps_cons x l : x :: l ≠ [""] → no_gaps (x :: l) = true → x ≠ "" ∧ no_gaps l = true.
Proof.
  intros Hx. destruct l as [|y l]; cbn; [split; [congruence|done]|].
  intros [H1%negb_true_iff ?]%andb_prop. by apply bool_decide_eq_false in H1.
Qed.

Section Matching.
Context {A : Type}.
Implicit Types (m : list (list segment * A)) (a b c : A).

Lemma match_path_nil path : @match_path A [] path = None.
Proof. induction path as [|seg path IH]; [done|]. cbn. rewrite IH. by case_bool_decide. Qed.

Lemma match_inert m1 m2 b seg rest :
  match_path (m1 ++ ([], b) :: m2) (seg :: rest) = match_path (m1 ++ m2) (seg :: rest).
Proof. cbn [match_path]. rewrite !under_app. cbn. done. Qed.

(** A literal pattern matters for its path only. *)
Lemma match_literal m1 m2 h b path :
  h ≠ "" → path ≠ [] → path ≠ [h] → match_path (m1 ++ ([Lit h], b) :: m2) path = match_path (m1 ++ m2) path.
Proof.
  intros Hh Hp Hne. destruct path as [|seg rest]; [done|]. cbn [match_path]. rewrite !under_app.
  assert (Hk : ∀ k, under k (([Lit h], b) :: m2) = (if bool_decide (Some h = k) then [([], b)] else []) ++ under k m2)
    by (intros k; cbn; by case_bool_decide).
  rewrite !Hk, (bool_decide_false (Some h = None)), (bool_decide_false (Some h = Some "")) by congruence.
  case_bool_decide as Hs; [|done]. injection Hs as <-. destruct rest as [|r rest]; [done|].
  cbn [app]. by rewrite match_inert.
Qed.

Lemma match_plain l a path :
  no_gaps l = true → match_path [(plain_segments l, a)] path = if covers l path then Some a else None.
Proof.
  revert l. induction path as [|seg rest IH]; intros l Hl.
  { destruct l as [|x l]; [done|]. destruct x; [destruct l|]; done. }
  destruct l as [|x l]; [cbn; rewrite match_path_nil; by case_bool_decide|].
  destruct (decide (x :: l = [""])) as [[= -> ->]|Hx].
  { cbn. repeat (case_bool_decide; try done); by rewrite ?match_path_nil. }
  destruct (no_gaps_cons _ _ Hx Hl) as [Hne Hl']. rewrite plain_segments_cons by done.
  assert (Hc : covers (x :: l) (seg :: rest) = bool_decide (x = seg) && covers l rest) by (destruct x; [|done]; by destruct l).
  rewrite Hc. cbn [match_path under omap list_omap key].
  rewrite (bool_decide_false (Some x = Some "")), (bool_decide_false (Some x = None)), match_path_nil by congruence.
  destruct (decide (x = seg)) as [->|Hs].
  - rewrite (bool_decide_true (Some seg = Some seg)) by done. rewrite IH by done.
    rewrite (bool_decide_true (seg = seg)) by done. cbn [andb]. destruct (covers l rest); [done|]. by destruct (bool_decide (seg = "/")).
  - rewrite (bool_decide_false (Some x = Some seg)), (bool_decide_false (x = seg)), match_path_nil by congruence.
    by destruct (bool_decide (seg = "/")).
Qed.

(** A plain pattern next to two literal ones. *)
Lemma match_at_literal m1 m2 h b :
  omap (λ x, match x with ([], a) => Some a | _ => None end) (under (Some h) m1) = [] →
  match_path (m1 ++ ([Lit h], b) :: m2) [h] = Some b.
Proof.
  intros Hm. cbn [match_path]. rewrite under_app. rewrite omap_app, Hm. cbn. by rewrite bool_decide_true.
Qed.
Lemma under_plain_ends l a h : l ≠ [h] →
  omap (λ x, match x with ([], a) => Some a | _ => None end) (under (Some h) [(plain_segments l, a)]) = [].
Proof.
  intros Hl. destruct l as [|x l]; [done|]. destruct (decide (x :: l = [""])) as [[= -> ->]|Hx]; [done|].
  rewrite plain_segments_cons by done. cbn. case_bool_decide as Hh; [|done]. injection Hh as <-.
  destruct l as [|y l]; [done|]. cbn. by destruct y; [destruct l|].
Qed.

Lemma match_three l a h b k c path :
  no_gaps l = true → h ≠ "" → k ≠ "" → h ≠ k → l ≠ [h] → l ≠ [k] → path ≠ [] →
  match_path [(plain_segments l, a); ([Lit h], b); ([Lit k], c)] path =
    if decide (path = [h]) then Some b else if decide (path = [k]) then Some c
    else if covers l path then Some a else None.
Proof.
  intros Hl Hh Hk Hhk Hlh Hlk Hp. destruct (decide (path = [h])) as [->|Hph]; [|destruct (decide (path = [k])) as [->|Hpk]].
  - apply (match_at_literal [(plain_segments l, a)]), under_plain_ends, Hlh.
  - apply (match_at_literal [(plain_segments l, a); ([Lit h], b)]).
    change [(plain_segments l, a); ([Lit h], b)] with ([(plain_segments l, a)] ++ [([Lit h], b)]).
    rewrite under_app, omap_app, under_plain_ends by done. cbn. by rewrite bool_decide_false by congruence.
  - etrans; [by apply (match_literal [(plain_segments l, a)] [([Lit k], c)])|].
    etrans; [by apply (match_literal [(plain_segments l, a)] [])|]. by apply match_plain.
Qed.

(** Patterns with no host and no method. *)
Lemma match_anywhere (m : mux A) host method path :
  Forall (λ x, p_host x.1 = "" ∧ p_method x.1 = "") m →
  mux_match m host method path = match_path ((λ x, (p_segments x.1, x.2)) <$> m) (request_segments path).
Proof.
  intros Hm. assert (Hn : ∀ ho me, at_node ho me m =
    if bool_decide (ho = "" ∧ me = "") then (λ x, (p_segments x.1, x.2)) <$> m else []).
  { intros ho me. unfold at_node. induction Hm as [|x m [Hx1 Hx2] Hm IH]; [by case_bool_decide|].
    cbn in IH |- *. rewrite Hx1, Hx2, IH. clear. repeat case_bool_decide; naive_solver. }
  assert (Hmm : ∀ ho me p, matchMethodAndPath m ho me p =
    if bool_decide (ho = "") then match_path ((λ x, (p_segments x.1, x.2)) <$> m) p else None).
  { intros ho me p. unfold matchMethodAndPath. rewrite !Hn.
    repeat case_bool_decide; try naive_solver; rewrite ?match_path_nil; try done; by destruct (match_path _ p). }
  unfold mux_match. rewrite !Hmm. cbn. by case_bool_decide.
Qed.
End Matching.

(** What a plain pattern covers: its own path, and, when it ends with a slash,
    every path it is a prefix of. *)
Definition subtree (path q : string) : Prop := ∃ p0 t, path = p0 +:+ "/" ∧ q = path +:+ t.

Lemma covers_request l s :
  Forall (λ x, contains_byte x "/" = false) l → Forall (λ x, contains_byte x "%" = false) s →
  covers l (final_slash s) = true ↔ l = s ∨ ∃ l0 s1, l = l0 ++ [""] ∧ s = l0 ++ s1 ∧ s1 ≠ [].
Proof.
  intros Hl. revert s. induction Hl as [|x l Hx Hl IH]; intros s Hs.
  { destruct s as [|y s]; [split; [by left|done]|]. split.
    - destruct y; [destruct s|]; done.
    - intros [|([] & s1 & ? & _)]; done. }
  destruct (decide (x :: l = [""])) as [[= -> ->]|Hxl].
  { destruct s as [|y s]; split.
    - done.
    - intros [|([] & [] & ? & ? & ?)]; done.
    - intros _. right. by exists [], (y :: s).
    - intros _. destruct y; [destruct s|]; done. }
  assert (Hno : ∀ l0 s1, x :: l = l0 ++ [""] → s = l0 ++ s1 → ∃ l1, l0 = x :: l1 ∧ l = l1 ++ [""] ∧ ∃ s2, s = x :: s2 ∧ s2 = l1 ++ s1).
  { intros [|z l1] s1 E1 E2; [done|]. injection E1 as <- ->. exists l1. split_and!; [done..|]. by exists (l1 ++ s1). }
  destruct s as [|y s].
  { split; [by destruct x; [destruct l|]|]. intros [|(l0 & s1 & E1 & E2 & _)]; [done|].
    destruct (Hno _ _ E1 E2) as (_ & _ & _ & ? & ? & _). done. }
  apply Forall_cons in Hs as [Hy Hs]. destruct (decide (y :: s = [""])) as [[= -> ->]|Hys].
  - cbn [final_slash]. split.
    + intros Hc. exfalso. destruct x as [|c x]; [destruct l; [done|]; done|]. cbn in Hc. apply andb_prop in Hc as [Hc _].
      apply bool_decide_eq_true in Hc. by rewrite Hc in Hx.
    + intros [|(l0 & s1 & E1 & E2 & Hs1)]; [congruence|].
      destruct (Hno _ _ E1 E2) as (l1 & -> & -> & s2 & [= <- <-] & E3). symmetry in E3. by apply app_eq_nil in E3 as [-> ->].
  - assert (final_slash (y :: s) = y :: final_slash s) as -> by (cbn; rewrite (unescape_plain _ Hy); by destruct y; [destruct s|]).
    assert (covers (x :: l) (y :: final_slash s) = bool_decide (x = y) && covers l (final_slash s)) as ->
      by (destruct x; [|done]; by destruct l).
    rewrite andb_true_iff, bool_decide_eq_true, (IH s Hs). split.
    + intros [-> [->|(l0 & s1 & -> & -> & ?)]]; [by left|]. right. by exists (y :: l0), s1.
    + intros [[= -> ->]|(l0 & s1 & E1 & E2 & ?)]; [by split; [|left]|].
      destruct (Hno _ _ E1 E2) as (l1 & -> & -> & s2 & [= <- <-] & ->). split; [done|]. right. by exists l1, s1.
Qed.

Lemma plain_covers r r' :
  contains_byte r' "%" = false →
  covers (split_slash r) (request_segments (String "/" r')) = true ↔
  String "/" r = String "/" r' ∨ subtree (String "/" r) (String "/" r').
Proof.
  intros Hr'. unfold request_segments. change (str_drop 1 (String "/" r')) with (str_drop 0 r'). rewrite str_drop_0.
  rewrite covers_request; [| |].
  - split.
    + intros [->%split_slash_inj|(l0 & s1 & E1 & E2 & Hs1)]; [by left|]. right.
      exists (join_slash ("" :: l0)), (join_slash s1).
      assert (Hp : String "/" r = join_slash ("" :: l0) +:+ "/").
      { rewrite <- (join_split (String "/" r)), split_slash_cons_slash, E1. by apply (join_slash_app ("" :: l0) [""]). }
      split; [exact Hp|]. rewrite Hp, str_app_assoc. change ("/" +:+ join_slash s1) with (String "/" (join_slash s1)).
      rewrite <- join_slash_app by done. by rewrite <- (join_split (String "/" r')), split_slash_cons_slash, E2.
    + intros [[= ->]|(p0 & t & E1 & E2)]; [by left|]. right.
      assert (Hs : split_slash (String "/" r) = split_slash p0 ++ [""]) by (rewrite E1; apply (split_slash_app p0 "")).
      assert (Hs' : split_slash (String "/" r') = split_slash p0 ++ split_slash t).
      { rewrite E2, E1, str_app_assoc. apply split_slash_app. }
      rewrite split_slash_cons_slash in Hs, Hs'. destruct (split_slash_nonempty p0) as (x & l0 & E). rewrite E in Hs, Hs'.
      injection Hs as <- Hs. injection Hs' as Hs'. exists l0, (split_slash t). split_and!; [done..|].
      destruct (split_slash_nonempty t) as (y & ys & ->). done.
  - eapply Forall_impl; [apply split_slash_parts|]. by intros x [? _].
  - eapply Forall_impl; [apply split_slash_parts|]. intros x [_ Hx]. by apply Hx.
Qed.

Lemma request_segments_nonempty r : request_segments (String "/" r) ≠ [].
Proof.
  unfold request_segments. change (str_drop 1 (String "/" r)) with (str_drop 0 r). rewrite str_drop_0.
  destruct (split_slash_nonempty r) as (x & xs & ->). destruct x; [destruct xs|]; done.
Qed.
Lemma request_literal r h :
  contains_byte r "%" = false → split_slash h = [h] → h ≠ "" →
  request_segments (String "/" r) = [h] ↔ r = h.
Proof.
  intros Hr Hh Hne. unfold request_segments. change (str_drop 1 (String "/" r)) with (str_drop 0 r). rewrite str_drop_0.
  pose proof (split_slash_parts r) as Hp. pose proof (split_slash_parts h) as Hph. rewrite Hh in Hph.
  apply Forall_cons in Hph as [[Hnoslash _] _].
  assert (Hu : ∀ x, x ∈ split_slash r → pathUnescape x = x).
  { intros x Hx. rewrite Forall_forall in Hp. by apply unescape_plain, Hp. }
  split; [|intros ->; rewrite Hh in *; cbn; destruct h; [done|]; by rewrite Hu by set_solver].
  intros E. apply split_slash_inj. rewrite Hh. destruct (split_slash r) as [|x [|y l]]; [done| |].
  - destruct x as [|c x]; [by injection E as <-|]. cbn [final_slash] in E. by rewrite Hu in E by set_solver.
  - destruct x, y, l; done.
Qed.
