(* ===== verification/Server.v ===== *)
(** * The metrics server ([internal/metrics/server.go] and [collectors.go])

    The endpoints NewServer registers on the multiplexer, the outcome of Run,
    and the collector of queue depths. *)

From S2P Require Export Metrics ServeMux.

(** The handlers given to the multiplexer; the first is the one of promhttp. *)
Inductive endpoint : Type := MetricsEndpoint | HealthzEndpoint | ReadyzEndpoint.

(** type Server struct *)
Record Server : Type := mkServer { s_addr : string; s_path : string; s_handler : mux endpoint }.

(** func NewServer(addr, path string, reg *Registry, log) *Server: Handle
    panics on a pattern it refuses.  The wrapper around the multiplexer is
    [Sentry.WrapHTTP]. *)
Definition NewServer `{UnicodeNames} (addr path : string) : result Server :=
  m1 ← Handle path MetricsEndpoint [];
  m2 ← Handle "/healthz" HealthzEndpoint m1;
  m3 ← Handle "/readyz" ReadyzEndpoint m2;
  Ok (mkServer addr path m3).

(** A request with a clean path; [metrics] is the reply of promhttp. *)
Definition serve (metrics : http_reply) (state : ReadinessState) (s : Server) (host method path : string)
    : option http_reply :=
  e ← mux_match (s_handler s) host method path;
  Some (match e with
        | MetricsEndpoint => metrics
        | HealthzEndpoint => healthzHandler
        | ReadyzEndpoint => readyzHandler state
        end).

(** func (s *Server) Run(ctx) error: what ListenAndServe returned, if it did,
    when the select runs, whether the context is done, and which ready case the
    select takes.  [None]: it waits.  The boolean of the result tells whether
    Shutdown was called. *)
Inductive listen_outcome : Type := ListenFails (e : goerror) | ServerClosed.
Definition listen_error (o : listen_outcome) : option goerror :=
  match o with ListenFails e => Some e | ServerClosed => None end.
Definition Server_Run (listening : option listen_outcome) (done take_error : bool) : option (option goerror * bool) :=
  match listening, done with
  | None, false => None
  | None, true => Some (None, true)
  | Some o, false => Some (listen_error o, false)
  | Some o, true => Some (if take_error then (listen_error o, false) else (None, true))
  end.

(** ** Queue depths *)

(** type QueueDepthCollector struct; the depth callbacks read the state of the
    queues, [S]. *)
Record queueRef (S : Type) : Type := mkQueueRef { q_name : string; q_depthFn : S → nat; q_capacity : nat }.
Arguments mkQueueRef {S}.
Arguments q_name {S}.
Arguments q_depthFn {S}.
Arguments q_capacity {S}.
Definition QueueDepthCollector (S : Type) : Type := list (queueRef S).
Definition NewQueueDepthCollector (S : Type) : QueueDepthCollector S := [].
Definition Add {S} (name : string) (depthFn : S → nat) (capacity : nat) (q : QueueDepthCollector S)
    : QueueDepthCollector S := q ++ [mkQueueRef name depthFn capacity].
Definition Describe {S} (q : QueueDepthCollector S) : list desc := queueDepthDescs.

(** The constant metrics of one scrape: descriptor, label, value. *)
Definition Collect {S} (q : QueueDepthCollector S) (st : S) : list (string * string * Z) :=
  mjoin ((λ r, [(rw "queue_depth", q_name r, Z.of_nat (q_depthFn r st));
                (rw "queue_capacity", q_name r, Z.of_nat (q_capacity r))]) <$> q).

(** Prometheus refuses a scrape where a metric appears twice. *)
Definition gathers (ms : list (string * string * Z)) : bool := bool_decide (NoDup (fst <$> ms)).

(** ** Lemmas *)

Section Routes.
Context `{UnicodeNames}.

(** The patterns NewServer leaves on the multiplexer. *)
Definition routes (segs : list segment) : mux endpoint :=
  [(mkPattern "" "" segs, MetricsEndpoint); (mkPattern "" "" [Lit "healthz"], HealthzEndpoint);
   (mkPattern "" "" [Lit "readyz"], ReadyzEndpoint)].

Lemma Handle_plain {A} r (a : A) m : plain (String "/" r) = true →
  Handle (String "/" r) a m =
    if existsb (λ x, conflictsWith (mkPattern "" "" (plain_segments (split_slash r))) x.1) m then Panics
    else Ok (m ++ [(mkPattern "" "" (plain_segments (split_slash r)), a)]).
Proof. intros Hp. unfold Handle. by rewrite (parsePattern_plain _ Hp). Qed.

Lemma NewServer_plain addr r : plain (String "/" r) = true →
  NewServer addr (String "/" r) =
    if decide (r = "healthz" ∨ r = "readyz") then Panics
    else Ok (mkServer addr (String "/" r) (routes (plain_segments (split_slash r)))).
Proof.
  intros Hp. unfold NewServer. rewrite (Handle_plain _ _ _ Hp). cbn [existsb mbind result_bind app].
  rewrite (Handle_plain "healthz") by done. cbn [existsb fst].
  change (plain_segments (split_slash "healthz")) with [Lit "healthz"]. rewrite conflicts_literal by done.
  destruct (decide (r = "healthz")) as [->|Hh]; [done|].
  rewrite bool_decide_false by (by intros E; apply Hh, split_slash_inj). cbn [orb mbind result_bind app].
  rewrite (Handle_plain "readyz") by done. cbn [existsb fst].
  change (plain_segments (split_slash "readyz")) with [Lit "readyz"]. rewrite conflicts_literal by done.
  destruct (decide (r = "readyz")) as [->|Hr]; [done|].
  rewrite bool_decide_false by (by intros E; apply Hr, split_slash_inj).
  rewrite decide_False by (by intros [|]). done.
Qed.

Lemma routes_match l host method q :
  no_gaps l = true → l ≠ ["healthz"] → l ≠ ["readyz"] → plain q = true →
  mux_match (routes (plain_segments l)) host method q =
    if decide (q = "/healthz") then Some HealthzEndpoint else if decide (q = "/readyz") then Some ReadyzEndpoint
    else if covers l (request_segments q) then Some MetricsEndpoint else None.
Proof.
  intros Hl Hh Hr (r & -> & _ & Hq & _)%plain_inv. rewrite contains_byte_cons in Hq. apply orb_false_iff in Hq as [_ Hq].
  rewrite match_anywhere by (by repeat constructor). cbn [fmap list_fmap routes p_segments fst snd].
  rewrite match_three by (done || apply request_segments_nonempty).
  assert (Hlit : ∀ h, split_slash h = [h] → h ≠ "" → request_segments (String "/" r) = [h] ↔ String "/" r = String "/" h).
  { intros h H1 H2. rewrite request_literal by done. split; [by intros ->|by intros [= ->]]. }
  destruct (decide (String "/" r = "/healthz")) as [E|E]; [rewrite decide_True; [done|by apply Hlit]|].
  rewrite decide_False by (by rewrite Hlit).
  destruct (decide (String "/" r = "/readyz")) as [E'|E']; [rewrite decide_True; [done|by apply Hlit]|].
  by rewrite decide_False by (by rewrite Hlit).
Qed.
End Routes.

Lemma Collect_names {S} (q : QueueDepthCollector S) st :
  gathers (Collect q st) = true ↔ NoDup (q_name <$> q).
Proof.
  unfold gathers, Collect. rewrite bool_decide_eq_true.
  induction q as [|r q IH]; [by split; intros _; constructor|].
  cbn [fmap list_fmap mjoin list_join]. rewrite fmap_app. cbn [fmap list_fmap fst app].
  rewrite !NoDup_cons, IH, elem_of_cons. clear IH.
  assert (Hin : ∀ d, (d = rw "queue_depth" ∨ d = rw "queue_capacity") →
    (d, q_name r) ∈ fst <$> mjoin ((λ r, [(rw "queue_depth", q_name r, Z.of_nat (q_depthFn r st));
      (rw "queue_capacity", q_name r, Z.of_nat (q_capacity r))]) <$> q) ↔ q_name r ∈ q_name <$> q).
  { intros d Hd. rewrite !list_elem_of_fmap. split.
    - intros (x & Ex & (l & Hx & (r' & -> & Hr')%list_elem_of_fmap)%list_elem_of_join). exists r'. split; [|done].
      rewrite !elem_of_cons in Hx. destruct Hx as [->|[->|Hx]]; [by injection Ex|by injection Ex|]. by apply not_elem_of_nil in Hx.
    - intros (r' & -> & Hr'). destruct Hd as [-> | ->]; eexists (_, _, _); (split; [reflexivity|]);
        apply list_elem_of_join; eexists; (split; [|apply list_elem_of_fmap; by exists r']); rewrite !elem_of_cons; auto. }
  rewrite !Hin by auto. naive_solver.
Qed.

(** ** Properties *)

(** C29: who answers -- on a server built with a plain path without double
    slashes, whatever the method and the host of the request, /healthz is always
    200 "ok", /readyz the readiness, and any other plain path the metrics
    exactly when it is the configured path, or, the configured path ending with
    a slash, one below it. *)
Theorem Server_routes `{UnicodeNames} (addr path : string) (s : Server) (metrics : http_reply)
    (state : ReadinessState) (host method : string) :
  plain path = true → no_gaps (split_slash (str_drop 1 path)) = true → NewServer addr path = Ok s →
  serve metrics state s host method "/healthz" = Some healthzHandler ∧
  serve metrics state s host method "/readyz" = Some (readyzHandler state) ∧
  (∀ q, plain q = true → q ≠ "/healthz" → q ≠ "/readyz" →
     serve metrics state s host method q = Some metrics ↔ q = path ∨ subtree path q).
Proof.
  intros Hp Hg. pose proof (plain_inv _ Hp) as (r & -> & _). rewrite NewServer_plain by done.
  change (str_drop 1 (String "/" r)) with (str_drop 0 r) in Hg. rewrite str_drop_0 in Hg.
  case_decide as Hr; [done|]. intros [= <-].
  assert (Hm : ∀ q, plain q = true → mux_match (routes (plain_segments (split_slash r))) host method q =
    if decide (q = "/healthz") then Some HealthzEndpoint else if decide (q = "/readyz") then Some ReadyzEndpoint
    else if covers (split_slash r) (request_segments q) then Some MetricsEndpoint else None).
  { intros q Hq. apply routes_match; try done; intros E; apply Hr; [left|right]; by apply split_slash_inj. }
  unfold serve. cbn [s_handler]. split_and!; [by rewrite Hm|by rewrite Hm|].
  intros q Hq Hh Hy. rewrite Hm, !decide_False by done. apply plain_inv in Hq as (r' & -> & _ & Hq & _).
  rewrite contains_byte_cons in Hq. apply orb_false_iff in Hq as [_ Hq]. pose proof (plain_covers r r' Hq) as Hc.
  rewrite (eq_comm (String "/" r')). rewrite <- Hc. by destruct (covers _ _).
Qed.

#[local] Instance example_names : UnicodeNames := λ _, false.
Lemma Server_routes_witness : ∃ s, NewServer ":9400" "/internal/" = Ok s ∧
  serve (mkReply 200 "text/plain" "x") (mkReadiness true true [] []) s "10.0.0.1" "GET" "/internal/metrics"
    = Some (mkReply 200 "text/plain" "x") ∧
  serve (mkReply 200 "text/plain" "x") (mkReadiness true true [] []) s "10.0.0.1" "GET" "/healthz" = Some healthzHandler.
Proof.
  destruct (NewServer ":9400" "/internal/") as [s| |] eqn:E; [|vm_compute in E; discriminate E..].
  exists s. split; [reflexivity|].
  destruct (Server_routes ":9400" "/internal/" s (mkReply 200 "text/plain" "x") (mkReadiness true true [] [])
    "10.0.0.1" "GET" eq_refl eq_refl E) as (Hh & _ & Hq). split; [|exact Hh].
  apply Hq; [reflexivity|discriminate|discriminate|]. right. by exists "/internal", "metrics".
Defined.

(** Patterns the multiplexer takes that are not plain paths: a method or a
    wildcard may take requests from the health endpoints. *)
Lemma method_pattern_shadows :
  (λ s, serve (mkReply 200 "" "metrics") (mkReadiness true true [] []) s "" "GET" "/healthz")
    <$> match NewServer ":9400" "GET /healthz" with Ok s => Some s | _ => None end = Some (Some (mkReply 200 "" "metrics")).
Proof. vm_compute. reflexivity. Qed.
Lemma wildcard_pattern_yields :
  (λ s, serve (mkReply 200 "" "metrics") (mkReadiness true true [] []) s "" "GET" "/healthz")
    <$> match NewServer ":9400" "/{any}" with Ok s => Some s | _ => None end = Some (Some healthzHandler).
Proof. vm_compute. reflexivity. Qed.
