(* ===== verification/GoDuration.v ===== *)
(** * Parsing of durations and booleans (packages [time] and [strconv])

    [time.ParseDuration] and [strconv.ParseBool], which the environment
    overrides of the configuration go through.  The fraction of a duration goes
    through a float64 in Go; it is computed here with the IEEE 754
    specification of the standard library. *)

From Stdlib Require Import SpecFloat.
From S2P Require Export GoStrings.

Local Open Scope Z_scope.

(** func ParseBool(str string) (bool, error) *)
Definition ParseBool (s : string) : option bool :=
  if decide (s ∈ ["1"; "t"; "T"; "true"; "TRUE"; "True"]) then Some true
  else if decide (s ∈ ["0"; "f"; "F"; "false"; "FALSE"; "False"]) then Some false
  else None.

(** ** float64 arithmetic *)

Definition f64_of_Z (z : Z) : spec_float := binary_normalize 53 1024 z 0 false.
Definition f64_mul (a b : spec_float) : spec_float := SFmul 53 1024 a b.
Definition f64_div (a b : spec_float) : spec_float := SFdiv 53 1024 a b.

(** The conversion of a non-negative value to an integer truncates. *)
Definition f64_trunc (f : spec_float) : Z :=
  match f with
  | S754_finite false m e => if 0 <=? e then Z.pos m * 2 ^ e else Z.pos m / 2 ^ (- e)
  | _ => 0
  end.

(** ** ParseDuration *)

Definition digit (c : ascii) : option Z :=
  let v := byte_val c in if (48 <=? v) && (v <=? 57) then Some (v - 48) else None.

(** func leadingInt(s): [None] on overflow. *)
Fixpoint leadingInt (x : Z) (s : string) : option (Z * string) :=
  match s with
  | String c s' =>
      match digit c with
      | Some d =>
          if 2 ^ 63 / 10 <? x then None
          else let x := x * 10 + d in if 2 ^ 63 <? x then None else leadingInt x s'
      | None => Some (x, s)
      end
  | EmptyString => Some (x, s)
  end.

(** func leadingFraction(s): digits past an overflow are read and ignored. *)
Fixpoint leadingFraction (x : Z) (scale : spec_float) (overflow : bool) (s : string)
    : Z * spec_float * string :=
  match s with
  | String c s' =>
      match digit c with
      | Some d =>
          if overflow then leadingFraction x scale true s'
          else if (2 ^ 63 - 1) / 10 <? x then leadingFraction x scale true s'
          else let y := x * 10 + d in
               if 2 ^ 63 <? y then leadingFraction x scale true s'
               else leadingFraction y (f64_mul scale (f64_of_Z 10)) false s'
      | None => (x, scale, s)
      end
  | EmptyString => (x, scale, s)
  end.

(** The unit name: up to a dot or a digit. *)
Fixpoint unit_name (s : string) : string * string :=
  match s with
  | String c s' =>
      if bool_decide (c = "."%char) || bool_decide (is_Some (digit c)) then ("", s)
      else let '(u, r) := unit_name s' in (String c u, r)
  | EmptyString => ("", "")
  end.

Definition micro_sign : string := String "194" (String "181" "").   (* U+00B5 *)
Definition greek_mu : string := String "206" (String "188" "").     (* U+03BC *)

Definition unitMap (u : string) : option Z :=
  if decide (u = "ns") then Some 1
  else if decide (u = "us" ∨ u = micro_sign +:+ "s" ∨ u = greek_mu +:+ "s") then Some 1000
  else if decide (u = "ms") then Some Millisecond
  else if decide (u = "s") then Some Second
  else if decide (u = "m") then Some Minute
  else if decide (u = "h") then Some (60 * Minute)
  else None.

(** One term of a duration: its value in nanoseconds and the rest. *)
Definition duration_term (s : string) : option (Z * string) :=
  match s with
  | EmptyString => None
  | String c _ =>
      if negb (bool_decide (c = "."%char) || bool_decide (is_Some (digit c))) then None
      else
        '(v, s1) ← leadingInt 0 s;
        let pre := negb (len s =? len s1)%nat in
        let '(f, scale, s2, post) :=
          match s1 with
          | String "." s1' =>
              let '(f, scale, s2) := leadingFraction 0 (f64_of_Z 1) false s1' in
              (f, scale, s2, negb (len s1' =? len s2)%nat)
          | _ => (0, f64_of_Z 1, s1, false)
          end in
        if negb (pre || post) then None
        else
          let '(u, rest) := unit_name s2 in
          unit ← unitMap u;
          if 2 ^ 63 / unit <? v then None
          else
            let v := v * unit in
            if 0 <? f then
              let v := v + f64_trunc (f64_mul (f64_of_Z f) (f64_div (f64_of_Z unit) scale)) in
              if 2 ^ 63 <? v then None else Some (v, rest)
            else Some (v, rest)
  end.

(** Each term takes at least one byte; the sum is a uint64. *)
Fixpoint duration_terms (fuel : nat) (d : Z) (s : string) : option Z :=
  match s, fuel with
  | EmptyString, _ => Some d
  | _, O => None
  | _, S fuel' =>
      '(v, rest) ← duration_term s;
      let d := (d + v) mod 2 ^ 64 in
      if 2 ^ 63 <? d then None else duration_terms fuel' d rest
  end.

(** func ParseDuration(s string) (Duration, error) *)
Definition ParseDuration (s : string) : option duration :=
  let '(neg, s) :=
    match s with
    | String "-" s' => (true, s')
    | String "+" s' => (false, s')
    | _ => (false, s)
    end in
  if decide (s = "0") then Some 0
  else if decide (s = "") then None
  else
    d ← duration_terms (len s) 0 s;
    if neg then Some (- d) else if 2 ^ 63 - 1 <? d then None else Some d.

Example ParseDuration_500ms : ParseDuration "500ms" = Some 500000000.
Proof. reflexivity. Qed.
Example ParseDuration_fraction : ParseDuration "1.5h0.25s" = Some 5400250000000.
Proof. vm_compute. reflexivity. Qed.
Example ParseDuration_max : ParseDuration "2562047h47m16.854775807s" = Some (2 ^ 63 - 1).
Proof. vm_compute. reflexivity. Qed.
Example ParseDuration_errors :
  ParseDuration <$> [""; "3"; "ms"; "1.s."; "-"; "9223372036854775808ns"; "1 s"]
  = [None; None; None; None; None; None; None].
Proof. vm_compute. reflexivity. Qed.
Example ParseDuration_min : ParseDuration "-9223372036854775808ns" = Some (- 2 ^ 63).
Proof. vm_compute. reflexivity. Qed.
