(* ===== verification/Config.v ===== *)
(** * Configuration ([internal/config/config.go])

    The configuration tree, its defaults, its validation -- which both rejects
    and normalises -- and its overrides from the environment.  The YAML decoder,
    the file system and the environment are parameters. *)

From Stdlib Require Import SpecFloat.
From S2P Require Export GoDuration.

(** A float64 is kept as its IEEE 754 value. *)
Abbreviation float64 := spec_float (only parsing).
Definition f_zero : float64 := S754_zero false.
Definition f_one : float64 := S754_finite false 4503599627370496 (-52).

(** ** The tree *)

Record RedisConfig : Type := mkRedis {
  Redis_Network : string; Redis_Address : string; Redis_Username : string; Redis_Password : string;
  Redis_DialTimeout : duration; Redis_ReadTimeout : duration;
  Redis_BackoffMin : duration; Redis_BackoffMax : duration
}.
Record LogConfig : Type := mkLogConfig { Log_Level : string; Log_Format : string; Log_File : string }.
Record FilterConfig : Type := mkFilter { Filter_IgnoredCommands : list string }.
Record RoleCheckConfig : Type := mkRoleCheck {
  RoleCheck_Enabled : bool; RoleCheck_Interval : duration; RoleCheck_DialTimeout : duration;
  RoleCheck_ReadTimeout : duration; RoleCheck_AllowReplica : bool
}.
Record RotationConfig : Type := mkRotation {
  Rotation_MaxSizeMB : Z; Rotation_MaxBackups : Z; Rotation_MaxAgeDays : Z;
  Rotation_Compress : bool; Rotation_LocalTime : bool
}.
Record OutputConfig : Type := mkOutput {
  Output_Type : string; Output_Enabled : bool; Output_Format : string; Output_Path : string;
  Output_Address : string; Output_Timeout : duration; Output_Keepalive : duration;
  Output_Rotation : RotationConfig
}.
Record MetricsConfig : Type := mkMetrics {
  Metrics_Enabled : bool; Metrics_Address : string; Metrics_Path : string;
  Metrics_IgnoredCommands : list string; Metrics_TrackSourceIP : bool
}.
Record RateLimitConfig : Type := mkRateLimit {
  RateLimit_Enabled : bool; RateLimit_Window : duration; RateLimit_MaxAlerts : Z
}.
Record RetryConfig : Type := mkRetry {
  Retry_MaxAttempts : Z; Retry_InitialBackoff : duration; Retry_MaxBackoff : duration
}.
Record TelegramConfig : Type := mkTelegramConfig {
  Telegram_Enabled : bool; Telegram_Endpoint : string; Telegram_BotToken : string;
  Telegram_ChatID : string; Telegram_ThreadID : Z; Telegram_Timeout : duration
}.
Record WebhookConfig : Type := mkWebhookConfig {
  Webhook_Enabled : bool; Webhook_URL : string; Webhook_Method : string;
  Webhook_Timeout : duration; Webhook_Headers : gmap string string
}.
Record PushgatewayConfig : Type := mkPushgatewayConfig {
  Pushgateway_Enabled : bool; Pushgateway_URLs : list string; Pushgateway_Username : string;
  Pushgateway_Password : string; Pushgateway_Job : string; Pushgateway_Timeout : duration;
  Pushgateway_Labels : gmap string string
}.
Record AlertsConfig : Type := mkAlerts {
  Alerts_Enabled : bool; Alerts_SuspiciousCommands : list string; Alerts_Patterns : list string;
  Alerts_IgnoredSourceIPs : list string; Alerts_RateLimit : RateLimitConfig;
  Alerts_Retry : RetryConfig; Alerts_Telegram : TelegramConfig; Alerts_Webhook : WebhookConfig;
  Alerts_Pushgateway : PushgatewayConfig
}.
Record SentryConfig : Type := mkSentry {
  Sentry_Enabled : bool; Sentry_DSN : string; Sentry_Environment : string; Sentry_Release : string;
  Sentry_SampleRate : float64; Sentry_TracesSampleRate : float64; Sentry_AttachStacktrace : bool
}.
Record PipelineConfig : Type := mkPipeline {
  Pipeline_EventBuffer : Z; Pipeline_ConsumerBuffer : Z; Pipeline_DropOnFull : bool
}.
Record Config : Type := mkConfig {
  Redis : RedisConfig; Log : LogConfig; Filter : FilterConfig; RoleCheck : RoleCheckConfig;
  Outputs : list OutputConfig; Metrics : MetricsConfig; Alerts : AlertsConfig;
  Sentry : SentryConfig; Pipeline : PipelineConfig
}.

(** func Default() *Config; what the source leaves out is the zero value. *)
Definition Default : Config :=
  mkConfig
    (mkRedis "unix" "/var/run/redis/redis.sock" "" "" (5 * Second) 0 (1 * Second) (30 * Second))
    (mkLogConfig "info" "json" "")
    (mkFilter [])
    (mkRoleCheck true (5 * Second) (3 * Second) (3 * Second) false)
    []
    (mkMetrics true ":9100" "/metrics" [] true)
    (mkAlerts false [] [] [] (mkRateLimit true (60 * Second) 5)
       (mkRetry 3 (500 * Millisecond) (5 * Second))
       (mkTelegramConfig false "" "" "" 0 0) (mkWebhookConfig false "" "" 0 ∅)
       (mkPushgatewayConfig false [] "" "" "" 0 ∅))
    (mkSentry false "" "production" "" f_one f_zero true)
    (mkPipeline 10000 2000 true).

(** func (f FilterConfig) IgnoredSet() map[string]struct\{\} *)
Definition IgnoredSet `{UnicodeCase} (f : FilterConfig) : gset string :=
  list_to_set (filter (λ c, c ≠ "") ((λ c, ToUpper (TrimSpace c)) <$> Filter_IgnoredCommands f)).

(** ** Validation *)

(** [if bad { return errors.New(...) }] *)
Definition reject (bad : bool) (e : goerror) : result unit := if bad then Err e else Ok ().
Definition is_empty (s : string) : bool := bool_decide (s = "").

(** func (r *RetryConfig) validate() error *)
Definition Retry_validate (r : RetryConfig) : result RetryConfig :=
  let attempts := if (Retry_MaxAttempts r <=? 0)%Z then 1%Z else Retry_MaxAttempts r in
  _ ← reject (Retry_InitialBackoff r <? 0)%Z (Errorf "alerts.retry.initial_backoff must be >= 0" []);
  _ ← reject (Retry_MaxBackoff r <? 0)%Z (Errorf "alerts.retry.max_backoff must be >= 0" []);
  _ ← reject ((0 <? Retry_MaxBackoff r) && (Retry_MaxBackoff r <? Retry_InitialBackoff r))%Z
        (Errorf "alerts.retry.initial_backoff must be <= alerts.retry.max_backoff" []);
  Ok (mkRetry attempts (Retry_InitialBackoff r) (Retry_MaxBackoff r)).

Definition validate_redis (r : RedisConfig) : result RedisConfig :=
  _ ← reject (negb (bool_decide (Redis_Network r = "unix")) && negb (bool_decide (Redis_Network r = "tcp")))
        (Errorf "redis.network must be 'unix' or 'tcp', got %q" [Redis_Network r]);
  _ ← reject (is_empty (Redis_Address r)) (Errorf "redis.address is required" []);
  let bmin := if (Redis_BackoffMin r <=? 0)%Z then Second else Redis_BackoffMin r in
  let bmax := if (Redis_BackoffMax r <? bmin)%Z then bmin else Redis_BackoffMax r in
  Ok (mkRedis (Redis_Network r) (Redis_Address r) (Redis_Username r) (Redis_Password r)
        (Redis_DialTimeout r) (Redis_ReadTimeout r) bmin bmax).

Definition log_levels : list string := ["debug"; "info"; "warn"; "warning"; "error"].
Definition log_formats : list string := [""; "json"; "text"].

Definition validate_log `{UnicodeCase} (l : LogConfig) : result unit :=
  _ ← reject (negb (bool_decide (ToLower (Log_Level l) ∈ log_levels)))
        (Errorf "log.level invalid: %q" [Log_Level l]);
  reject (negb (bool_decide (ToLower (Log_Format l) ∈ log_formats)))
    (Errorf "log.format invalid: %q" [Log_Format l]).

(** The cases of the type switch: what is required, then the defaults. *)
Definition validate_output_type (i : Z) (o : OutputConfig) : result OutputConfig :=
  let set_rotation r := mkOutput (Output_Type o) (Output_Enabled o) (Output_Format o) (Output_Path o)
                          (Output_Address o) (Output_Timeout o) (Output_Keepalive o) r in
  let set_timeout t := mkOutput (Output_Type o) (Output_Enabled o) (Output_Format o) (Output_Path o)
                          (Output_Address o) t (Output_Keepalive o) (Output_Rotation o) in
  if bool_decide (Output_Type o = "stdout") then Ok o
  else if bool_decide (Output_Type o = "file") then
    _ ← reject (is_empty (Output_Path o)) (Errorf "outputs[%d]: file path is required" [Itoa i]);
    let r := Output_Rotation o in
    Ok (set_rotation (if (Rotation_MaxSizeMB r =? 0)%Z
                      then mkRotation 100 (Rotation_MaxBackups r) (Rotation_MaxAgeDays r)
                             (Rotation_Compress r) (Rotation_LocalTime r)
                      else r))
  else if bool_decide (Output_Type o = "udp") || bool_decide (Output_Type o = "tcp") then
    _ ← reject (is_empty (Output_Address o))
          (Errorf "outputs[%d]: address is required for %s" [Itoa i; Output_Type o]);
    Ok (set_timeout (if (Output_Timeout o =? 0)%Z then (5 * Second)%Z else Output_Timeout o))
  else Err (Errorf "outputs[%d]: unknown type %q" [Itoa i; Output_Type o]).

(** One iteration of the loop over the outputs. *)
Definition validate_output (i : Z) (o : OutputConfig) : result OutputConfig :=
  if negb (Output_Enabled o) then Ok o
  else
    o ← validate_output_type i o;
    let format := if is_empty (Output_Format o) then "json" else Output_Format o in
    _ ← reject (negb (bool_decide (format = "json")) && negb (bool_decide (format = "text")))
          (Errorf "outputs[%d]: format must be json or text" [Itoa i]);
    Ok (mkOutput (Output_Type o) (Output_Enabled o) format (Output_Path o) (Output_Address o)
          (Output_Timeout o) (Output_Keepalive o) (Output_Rotation o)).

Fixpoint validate_outputs (i : Z) (os : list OutputConfig) : result (list OutputConfig) :=
  match os with
  | [] => Ok []
  | o :: os' =>
      o ← validate_output i o;
      os' ← validate_outputs (i + 1) os';
      Ok (o :: os')
  end.

Definition validate_metrics (m : MetricsConfig) : result MetricsConfig :=
  _ ← reject (Metrics_Enabled m && is_empty (Metrics_Address m))
        (Errorf "metrics.address is required when metrics.enabled" []);
  Ok (mkMetrics (Metrics_Enabled m) (Metrics_Address m)
        (if is_empty (Metrics_Path m) then "/metrics" else Metrics_Path m)
        (Metrics_IgnoredCommands m) (Metrics_TrackSourceIP m)).

Fixpoint validate_urls (i : Z) (us : list string) : result unit :=
  match us with
  | [] => Ok ()
  | u :: us' =>
      _ ← reject (is_empty (TrimSpace u)) (Errorf "alerts.pushgateway.urls[%d] is empty" [Itoa i]);
      validate_urls (i + 1) us'
  end.

Definition validate_alerts (a : AlertsConfig) : result AlertsConfig :=
  if negb (Alerts_Enabled a) then Ok a
  else
    let t := Alerts_Telegram a in
    let w := Alerts_Webhook a in
    let p := Alerts_Pushgateway a in
    _ ← reject (Telegram_Enabled t && (is_empty (Telegram_BotToken t) || is_empty (Telegram_ChatID t)))
          (Errorf "alerts.telegram requires bot_token and chat_id" []);
    _ ← reject (Webhook_Enabled w && is_empty (Webhook_URL w)) (Errorf "alerts.webhook requires url" []);
    _ ← (if Pushgateway_Enabled p then
           _ ← reject (length (Pushgateway_URLs p) =? 0)%nat
                 (Errorf "alerts.pushgateway requires at least one url in `urls`" []);
           validate_urls 0 (Pushgateway_URLs p)
         else Ok ());
    let w := if Webhook_Enabled w && is_empty (Webhook_Method w)
             then mkWebhookConfig (Webhook_Enabled w) (Webhook_URL w) "POST" (Webhook_Timeout w) (Webhook_Headers w)
             else w in
    r ← Retry_validate (Alerts_Retry a);
    Ok (mkAlerts (Alerts_Enabled a) (Alerts_SuspiciousCommands a) (Alerts_Patterns a)
          (Alerts_IgnoredSourceIPs a) (Alerts_RateLimit a) r t w p).

Definition validate_sentry (s : SentryConfig) : result unit :=
  reject (Sentry_Enabled s && is_empty (Sentry_DSN s))
    (Errorf "sentry.dsn is required when sentry.enabled" []).

Definition normalise_pipeline (p : PipelineConfig) : PipelineConfig :=
  mkPipeline (if (Pipeline_EventBuffer p <=? 0)%Z then 10000%Z else Pipeline_EventBuffer p)
    (if (Pipeline_ConsumerBuffer p <=? 0)%Z then 2000%Z else Pipeline_ConsumerBuffer p)
    (Pipeline_DropOnFull p).

Definition positive_or (d t : duration) : duration := if (t <=? 0)%Z then d else t.
Definition normalise_role_check (r : RoleCheckConfig) : RoleCheckConfig :=
  if RoleCheck_Enabled r then
    mkRoleCheck true (positive_or (5 * Second) (RoleCheck_Interval r))
      (positive_or (3 * Second) (RoleCheck_DialTimeout r))
      (positive_or (3 * Second) (RoleCheck_ReadTimeout r)) (RoleCheck_AllowReplica r)
  else r.

(** func (c *Config) Validate() error: the configuration as it leaves it, which
    the caller uses only when there is no error. *)
Definition Validate `{UnicodeCase} (c : Config) : result Config :=
  redis ← validate_redis (Redis c);
  _ ← validate_log (Log c);
  outputs ← validate_outputs 0 (Outputs c);
  metrics ← validate_metrics (Metrics c);
  alerts ← validate_alerts (Alerts c);
  _ ← validate_sentry (Sentry c);
  Ok (mkConfig redis (Log c) (Filter c) (normalise_role_check (RoleCheck c)) outputs metrics alerts
        (Sentry c) (normalise_pipeline (Pipeline c))).

(** ** Overrides from the environment *)

Section Env.
Context `{UnicodeCase}.
(** [os.LookupEnv] *)
Variable LookupEnv : string → option string.

Definition envPrefix : string := "REDIS_WATCHER_".
Definition lookup_env (key : string) : option string := LookupEnv (envPrefix +:+ key).

(** The closures of applyEnv: the new value of the destination. *)
Definition str (key dst : string) : string := default dst (lookup_env key).
Definition boolVar (key : string) (dst : bool) : bool := default dst (lookup_env key ≫= ParseBool).
Definition intVar (key : string) (dst : Z) : Z :=
  match lookup_env key with
  | Some v => match Atoi v with Ok n => n | _ => dst end
  | None => dst
  end.
Definition sliceVar (key : string) (dst : list string) : list string :=
  match lookup_env key with
  | Some v => filter (λ s, s ≠ "") (TrimSpace <$> Split v ",")
  | None => dst
  end.
Definition durVar (key : string) (dst : duration) : duration := default dst (lookup_env key ≫= ParseDuration).

(** func applyEnv(c *Config) *)
Definition applyEnv (c : Config) : Config :=
  let r := Redis c in
  let l := Log c in
  let m := Metrics c in
  let s := Sentry c in
  let a := Alerts c in
  let t := Alerts_Telegram a in
  let w := Alerts_Webhook a in
  let p := Alerts_Pushgateway a in
  let y := Alerts_Retry a in
  mkConfig
    (mkRedis (str "REDIS_NETWORK" (Redis_Network r)) (str "REDIS_ADDRESS" (Redis_Address r))
       (str "REDIS_USERNAME" (Redis_Username r)) (str "REDIS_PASSWORD" (Redis_Password r))
       (Redis_DialTimeout r) (Redis_ReadTimeout r) (Redis_BackoffMin r) (Redis_BackoffMax r))
    (mkLogConfig (str "LOG_LEVEL" (Log_Level l)) (str "LOG_FORMAT" (Log_Format l)) (Log_File l))
    (Filter c) (RoleCheck c) (Outputs c)
    (mkMetrics (Metrics_Enabled m) (str "METRICS_ADDRESS" (Metrics_Address m)) (Metrics_Path m)
       (Metrics_IgnoredCommands m) (Metrics_TrackSourceIP m))
    (mkAlerts (Alerts_Enabled a) (Alerts_SuspiciousCommands a) (Alerts_Patterns a)
       (Alerts_IgnoredSourceIPs a) (Alerts_RateLimit a)
       (mkRetry (intVar "ALERTS_RETRY_MAX_ATTEMPTS" (Retry_MaxAttempts y))
          (durVar "ALERTS_RETRY_INITIAL_BACKOFF" (Retry_InitialBackoff y))
          (durVar "ALERTS_RETRY_MAX_BACKOFF" (Retry_MaxBackoff y)))
       (mkTelegramConfig (Telegram_Enabled t) (str "ALERTS_TELEGRAM_ENDPOINT" (Telegram_Endpoint t))
          (str "ALERTS_TELEGRAM_BOT_TOKEN" (Telegram_BotToken t))
          (str "ALERTS_TELEGRAM_CHAT_ID" (Telegram_ChatID t))
          (intVar "ALERTS_TELEGRAM_THREAD_ID" (Telegram_ThreadID t)) (Telegram_Timeout t))
       (mkWebhookConfig (Webhook_Enabled w) (str "ALERTS_WEBHOOK_URL" (Webhook_URL w)) (Webhook_Method w)
          (Webhook_Timeout w) (Webhook_Headers w))
       (mkPushgatewayConfig (Pushgateway_Enabled p)
          (sliceVar "ALERTS_PUSHGATEWAY_URLS" (Pushgateway_URLs p))
          (str "ALERTS_PUSHGATEWAY_USERNAME" (Pushgateway_Username p))
          (str "ALERTS_PUSHGATEWAY_PASSWORD" (Pushgateway_Password p))
          (Pushgateway_Job p) (Pushgateway_Timeout p) (Pushgateway_Labels p)))
    (mkSentry (boolVar "SENTRY_ENABLED" (Sentry_Enabled s)) (str "SENTRY_DSN" (Sentry_DSN s))
       (str "SENTRY_ENVIRONMENT" (Sentry_Environment s)) (str "SENTRY_RELEASE" (Sentry_Release s))
       (Sentry_SampleRate s) (Sentry_TracesSampleRate s) (Sentry_AttachStacktrace s))
    (Pipeline c).

(** [os.ReadFile] and the strict YAML decoder, which fills a configuration. *)
Variable ReadFile : string → result string.
Variable yaml_Decode : string → Config → result Config.

(** func Load(path string) ( *Config, error) *)
Definition Load (path : string) : result Config :=
  cfg ←
    (if decide (path = "") then Ok Default
     else
       data ← wrapf "read config %q: %w" [path] (ReadFile path);
       wrapf "parse config %q: %w" [path] (yaml_Decode data Default));
  Validate (applyEnv cfg).
End Env.

(** ** Well-formed configurations *)

Definition output_wf (o : OutputConfig) : Prop :=
  Output_Enabled o = true →
  (Output_Type o = "stdout" ∨
   Output_Type o = "file" ∧ Output_Path o ≠ "" ∧ Rotation_MaxSizeMB (Output_Rotation o) ≠ 0%Z ∨
   (Output_Type o = "udp" ∨ Output_Type o = "tcp") ∧ Output_Address o ≠ "" ∧ Output_Timeout o ≠ 0%Z) ∧
  (Output_Format o = "json" ∨ Output_Format o = "text").

Definition retry_wf (r : RetryConfig) : Prop :=
  (1 ≤ Retry_MaxAttempts r)%Z ∧ (0 ≤ Retry_InitialBackoff r)%Z ∧ (0 ≤ Retry_MaxBackoff r)%Z ∧
  ((0 < Retry_MaxBackoff r)%Z → (Retry_InitialBackoff r ≤ Retry_MaxBackoff r)%Z).

Definition alerts_wf (a : AlertsConfig) : Prop :=
  Alerts_Enabled a = true →
  (Telegram_Enabled (Alerts_Telegram a) = true →
     Telegram_BotToken (Alerts_Telegram a) ≠ "" ∧ Telegram_ChatID (Alerts_Telegram a) ≠ "") ∧
  (Webhook_Enabled (Alerts_Webhook a) = true →
     Webhook_URL (Alerts_Webhook a) ≠ "" ∧ Webhook_Method (Alerts_Webhook a) ≠ "") ∧
  (Pushgateway_Enabled (Alerts_Pushgateway a) = true →
     Pushgateway_URLs (Alerts_Pushgateway a) ≠ [] ∧
     Forall (λ u, TrimSpace u ≠ "") (Pushgateway_URLs (Alerts_Pushgateway a))) ∧
  retry_wf (Alerts_Retry a).

Definition redis_wf (r : RedisConfig) : Prop :=
  (Redis_Network r = "unix" ∨ Redis_Network r = "tcp") ∧ Redis_Address r ≠ "" ∧
  (0 < Redis_BackoffMin r ≤ Redis_BackoffMax r)%Z.

Definition role_check_wf (r : RoleCheckConfig) : Prop :=
  RoleCheck_Enabled r = true →
  (0 < RoleCheck_Interval r)%Z ∧ (0 < RoleCheck_DialTimeout r)%Z ∧ (0 < RoleCheck_ReadTimeout r)%Z.

(** What the rest of the program relies on. *)
Definition config_wf `{UnicodeCase} (c : Config) : Prop :=
  redis_wf (Redis c) ∧
  ToLower (Log_Level (Log c)) ∈ log_levels ∧ ToLower (Log_Format (Log c)) ∈ log_formats ∧
  Forall output_wf (Outputs c) ∧
  (Metrics_Enabled (Metrics c) = true → Metrics_Address (Metrics c) ≠ "") ∧ Metrics_Path (Metrics c) ≠ "" ∧
  alerts_wf (Alerts c) ∧
  (Sentry_Enabled (Sentry c) = true → Sentry_DSN (Sentry c) ≠ "") ∧
  (0 < Pipeline_EventBuffer (Pipeline c))%Z ∧ (0 < Pipeline_ConsumerBuffer (Pipeline c))%Z ∧
  role_check_wf (RoleCheck c).

(** ** Lemmas *)

Lemma reject_Ok bad e u : reject bad e = Ok u ↔ bad = false.
Proof. unfold reject. destruct u, bad; split; done. Qed.
Lemma reject_bind {A} bad e (k : unit → result A) : bad = false → mbind k (reject bad e) = k ().
Proof. by intros ->. Qed.
Lemma is_empty_false s : is_empty s = false ↔ s ≠ "".
Proof. apply bool_decide_eq_false. Qed.

Ltac validate_inv :=
  repeat match goal with
  | H : mbind _ ?m = Ok _ |- _ =>
      let E := fresh "E" in
      destruct m eqn:E; [cbn [mbind result_bind] in H | discriminate H | discriminate H]
  | H : reject _ _ = Ok _ |- _ => apply reject_Ok in H
  | H : Ok _ = Ok _ |- _ => injection H as H; subst
  | H : Err _ = Ok _ |- _ => discriminate H
  | H : _ || _ = false |- _ => apply orb_false_iff in H as [? ?]
  | H : _ && _ = false |- _ => apply andb_false_iff in H
  | H : negb _ = false |- _ => apply negb_false_iff in H
  | H : is_empty _ = false |- _ => apply is_empty_false in H
  | H : bool_decide _ = true |- _ => apply bool_decide_eq_true in H
  | H : bool_decide _ = false |- _ => apply bool_decide_eq_false in H
  end.

Lemma validate_redis_spec r r' : validate_redis r = Ok r' → redis_wf r' ∧ validate_redis r' = Ok r'.
Proof.
  unfold validate_redis. intros H. validate_inv. unfold redis_wf. cbn.
  assert (Hn : Redis_Network r = "unix" ∨ Redis_Network r = "tcp")
    by (destruct E as [E|E]; validate_inv; auto).
  set (bmin := if (Redis_BackoffMin r <=? 0)%Z then Second else Redis_BackoffMin r).
  assert (0 < bmin)%Z by (unfold bmin, Second; destruct (Z.leb_spec (Redis_BackoffMin r) 0); lia).
  set (bmax := if (Redis_BackoffMax r <? bmin)%Z then bmin else Redis_BackoffMax r).
  assert (bmin ≤ bmax)%Z by (unfold bmax; destruct (Z.ltb_spec (Redis_BackoffMax r) bmin); lia).
  split; [split_and!; (done || lia)|].
  rewrite reject_bind by (destruct Hn as [->| ->]; done). rewrite reject_bind by (by apply is_empty_false).
  rewrite (proj2 (Z.leb_gt bmin 0)) by lia. by rewrite (proj2 (Z.ltb_ge bmax bmin)) by lia.
Qed.

(** The part of [output_wf] about the type. *)
Definition output_typed (o : OutputConfig) : Prop :=
  Output_Type o = "stdout" ∨
  Output_Type o = "file" ∧ Output_Path o ≠ "" ∧ Rotation_MaxSizeMB (Output_Rotation o) ≠ 0%Z ∨
  (Output_Type o = "udp" ∨ Output_Type o = "tcp") ∧ Output_Address o ≠ "" ∧ Output_Timeout o ≠ 0%Z.

Definition with_format (f : string) (o : OutputConfig) : OutputConfig :=
  mkOutput (Output_Type o) (Output_Enabled o) f (Output_Path o) (Output_Address o)
    (Output_Timeout o) (Output_Keepalive o) (Output_Rotation o).

Lemma validate_output_type_typed i o o1 :
  validate_output_type i o = Ok o1 →
  output_typed o1 ∧ Output_Enabled o1 = Output_Enabled o ∧ Output_Format o1 = Output_Format o.
Proof.
  unfold validate_output_type, output_typed.
  destruct (bool_decide (Output_Type o = "stdout")) eqn:E1; [intros H; validate_inv; auto|].
  destruct (bool_decide (Output_Type o = "file")) eqn:E2.
  - intros H. validate_inv. cbn. split; [|done]. right; left. split_and!; [done..|].
    destruct (Z.eqb_spec (Rotation_MaxSizeMB (Output_Rotation o)) 0); done.
  - destruct (bool_decide (Output_Type o = "udp") || bool_decide (Output_Type o = "tcp")) eqn:E3; [|done].
    intros H. validate_inv. cbn. split; [|done]. right; right. split_and!; [|done|].
    + apply orb_true_iff in E3 as [E3|E3]; apply bool_decide_eq_true in E3; auto.
    + destruct (Z.eqb_spec (Output_Timeout o) 0); done.
Qed.

Lemma validate_output_type_id i o : output_typed o → validate_output_type i o = Ok o.
Proof.
  unfold output_typed, validate_output_type. destruct o as [ty en fo pa ad ti ke r]. cbn.
  intros [->|[(-> & Hp%is_empty_false & Hm%Z.eqb_neq)|([->| ->] & Ha%is_empty_false & Ht%Z.eqb_neq)]].
  - done.
  - rewrite Hp, Hm. done.
  - rewrite Ha, Ht. done.
  - rewrite Ha, Ht. done.
Qed.

Lemma validate_output_spec i o o' : validate_output i o = Ok o' → output_wf o' ∧ validate_output i o' = Ok o'.
Proof.
  unfold validate_output. destruct (Output_Enabled o) eqn:Ee; cbn [negb].
  2:{ intros [= <-]. split; [intros H; congruence|]. by rewrite Ee. }
  intros H. destruct (validate_output_type i o) as [o1| |] eqn:Et; [|done..].
  cbn [mbind result_bind] in H. apply validate_output_type_typed in Et as (Ht & He1 & _). validate_inv.
  set (format := if is_empty (Output_Format o1) then "json" else Output_Format o1) in *.
  assert (Hf : format = "json" ∨ format = "text") by (destruct E as [E|E]; validate_inv; auto).
  change (mkOutput _ _ format _ _ _ _ _) with (with_format format o1).
  assert (Ht' : output_typed (with_format format o1)) by done.
  split; [by intros _|]. change (Output_Enabled (with_format format o1)) with (Output_Enabled o1).
  rewrite He1, Ee. cbn [negb]. rewrite (validate_output_type_id i _ Ht'). cbn [mbind result_bind].
  change (Output_Format (with_format format o1)) with format.
  destruct Hf as [->| ->]; done.
Qed.

Lemma validate_outputs_spec os : ∀ i os',
  validate_outputs i os = Ok os' → Forall output_wf os' ∧ validate_outputs i os' = Ok os'.
Proof.
  induction os as [|o os IH]; intros i os' H; cbn [validate_outputs] in H; validate_inv; [by split|].
  apply validate_output_spec in E as [Hw Hi]. apply IH in E0 as [Hws His].
  split; [by constructor|]. cbn [validate_outputs]. rewrite Hi. cbn [mbind result_bind]. by rewrite His.
Qed.

Lemma validate_urls_spec us : ∀ i, validate_urls i us = Ok () → Forall (λ u, TrimSpace u ≠ "") us.
Proof.
  induction us as [|u us IH]; intros i H; cbn [validate_urls] in H; [constructor|]. validate_inv.
  constructor; [done|by eapply IH].
Qed.

Lemma Retry_validate_spec r r' : Retry_validate r = Ok r' → retry_wf r' ∧ Retry_validate r' = Ok r'.
Proof.
  unfold Retry_validate. intros H. validate_inv. unfold retry_wf. cbn.
  set (n := if (Retry_MaxAttempts r <=? 0)%Z then 1%Z else Retry_MaxAttempts r).
  assert (1 ≤ n)%Z by (unfold n; destruct (Z.leb_spec (Retry_MaxAttempts r) 0); lia).
  rewrite (proj2 (Z.leb_gt n 0)) by lia.
  split; [|rewrite E, E0; cbn [reject mbind result_bind]; rewrite reject_bind; [done|by apply andb_false_iff]].
  apply Z.ltb_ge in E, E0. split_and!; [lia..|]. intros Hp. destruct E1 as [E1|E1]; apply Z.ltb_ge in E1; lia.
Qed.

Lemma validate_alerts_spec a a' : validate_alerts a = Ok a' → alerts_wf a' ∧ validate_alerts a' = Ok a'.
Proof.
  unfold validate_alerts. destruct (Alerts_Enabled a) eqn:Ee; cbn [negb].
  2:{ intros [= <-]. split; [intros H; congruence|]. by rewrite Ee. }
  intros H. validate_inv. apply Retry_validate_spec in E2 as [Hr Hi].
  set (w := if Webhook_Enabled (Alerts_Webhook a) && is_empty (Webhook_Method (Alerts_Webhook a))
            then mkWebhookConfig (Webhook_Enabled (Alerts_Webhook a)) (Webhook_URL (Alerts_Webhook a)) "POST"
                   (Webhook_Timeout (Alerts_Webhook a)) (Webhook_Headers (Alerts_Webhook a))
            else Alerts_Webhook a) in *. cbn [Alerts_Enabled Alerts_Telegram Alerts_Webhook
    Alerts_Pushgateway Alerts_Retry Alerts_SuspiciousCommands Alerts_Patterns Alerts_IgnoredSourceIPs Alerts_RateLimit].
  assert (Hw : (Webhook_Enabled w = true → Webhook_URL w ≠ "" ∧ Webhook_Method w ≠ "") ∧
               Webhook_Enabled w && is_empty (Webhook_URL w) = false ∧
               Webhook_Enabled w && is_empty (Webhook_Method w) = false).
  { unfold w. destruct (Webhook_Enabled (Alerts_Webhook a)) eqn:Ew; cbn [andb] in *.
    - destruct E0 as [|E0]; [done|]. apply is_empty_false in E0.
      destruct (is_empty (Webhook_Method (Alerts_Webhook a))) eqn:Em; cbn; rewrite ?Ew; cbn;
        rewrite (proj2 (is_empty_false _) E0); split_and!; try done.
      by apply is_empty_false in Em.
    - rewrite Ew. split_and!; try done. }
  destruct Hw as (Hw1 & Hw2 & Hw3).
  assert (Ht : Telegram_Enabled (Alerts_Telegram a) &&
    (is_empty (Telegram_BotToken (Alerts_Telegram a)) || is_empty (Telegram_ChatID (Alerts_Telegram a))) = false)
    by (by apply andb_false_iff).
  rewrite (reject_bind _ _ _ Ht), (reject_bind _ _ _ Hw2), Hw3, E1. cbn [mbind result_bind]. rewrite Hi.
  split; [|done]. intros _. cbn. split_and!; [|done| |done].
  - intros He. rewrite He in Ht. cbn [andb] in Ht. validate_inv. done.
  - intros He. rewrite He in E1. validate_inv. split.
    + intros Hn. by rewrite Hn in E2.
    + match goal with H : validate_urls _ _ = Ok ?u |- _ => destruct u; by eapply validate_urls_spec end.
Qed.

Lemma validate_metrics_spec m m' :
  validate_metrics m = Ok m' →
  ((Metrics_Enabled m' = true → Metrics_Address m' ≠ "") ∧ Metrics_Path m' ≠ "") ∧ validate_metrics m' = Ok m'.
Proof.
  unfold validate_metrics. intros H. validate_inv. cbn.
  assert (Hp : is_empty (if is_empty (Metrics_Path m) then "/metrics" else Metrics_Path m) = false)
    by (by destruct (is_empty (Metrics_Path m)) eqn:Ep).
  rewrite Hp, reject_bind by (by apply andb_false_iff). split; [|done]. split; [|by apply is_empty_false].
  intros He. rewrite He in E. destruct E as [|E]; [done|]. by apply is_empty_false.
Qed.

Lemma normalise_pipeline_spec p :
  (0 < Pipeline_EventBuffer (normalise_pipeline p))%Z ∧ (0 < Pipeline_ConsumerBuffer (normalise_pipeline p))%Z ∧
  normalise_pipeline (normalise_pipeline p) = normalise_pipeline p.
Proof.
  unfold normalise_pipeline. destruct p as [e c d]. cbn.
  destruct (Z.leb_spec e 0), (Z.leb_spec c 0); cbn; rewrite ?(proj2 (Z.leb_gt e 0)), ?(proj2 (Z.leb_gt c 0)) by lia;
    split_and!; (done || lia).
Qed.

Lemma positive_or_pos d t : (0 < d)%Z → (0 < positive_or d t)%Z ∧ positive_or d (positive_or d t) = positive_or d t.
Proof.
  unfold positive_or. intros Hd. destruct (Z.leb_spec t 0).
  - by rewrite (proj2 (Z.leb_gt d 0)) by lia.
  - by rewrite (proj2 (Z.leb_gt t 0)) by lia.
Qed.

Lemma normalise_role_check_spec r :
  role_check_wf (normalise_role_check r) ∧
  normalise_role_check (normalise_role_check r) = normalise_role_check r.
Proof.
  unfold normalise_role_check, role_check_wf. destruct (RoleCheck_Enabled r) eqn:E; [|by rewrite E].
  cbn [RoleCheck_Enabled RoleCheck_Interval RoleCheck_DialTimeout RoleCheck_ReadTimeout RoleCheck_AllowReplica].
  destruct (positive_or_pos (5 * Second) (RoleCheck_Interval r) ltac:(done)) as [H1 ->].
  destruct (positive_or_pos (3 * Second) (RoleCheck_DialTimeout r) ltac:(done)) as [H2 ->].
  destruct (positive_or_pos (3 * Second) (RoleCheck_ReadTimeout r) ltac:(done)) as [H3 ->]. done.
Qed.

Lemma Validate_spec `{UnicodeCase} (c c' : Config) :
  Validate c = Ok c' → config_wf c' ∧ Validate c' = Ok c'.
Proof.
  unfold Validate. intros H0. validate_inv.
  match goal with H1 : validate_redis _ = _, H2 : validate_outputs _ _ = _, H3 : validate_metrics _ = _,
    H4 : validate_alerts _ = _ |- _ =>
    apply validate_redis_spec in H1 as [Hr Hr']; apply validate_outputs_spec in H2 as [Ho Ho'];
    apply validate_metrics_spec in H3 as [Hm Hm']; apply validate_alerts_spec in H4 as [Ha Ha'] end.
  destruct (normalise_pipeline_spec (Pipeline c)) as (Hp1 & Hp2 & Hp3).
  destruct (normalise_role_check_spec (RoleCheck c)) as [Hc1 Hc2].
  split.
  - unfold config_wf. cbn [Redis Log Filter RoleCheck Outputs Metrics Alerts Sentry Pipeline].
    match goal with H1 : validate_log _ = _, H2 : validate_sentry _ = _ |- _ =>
      unfold validate_log in H1; unfold validate_sentry in H2 end. validate_inv.
    split_and!; try done; try apply Hm.
    intros He. match goal with Hs : _ ∨ is_empty (Sentry_DSN _) = false |- _ => rewrite He in Hs;
      destruct Hs as [|Hs]; [done|by apply is_empty_false] end.
  - cbn [Redis Log Filter RoleCheck Outputs Metrics Alerts Sentry Pipeline].
    rewrite Hr'. cbn [mbind result_bind].
    match goal with H1 : validate_log _ = _ |- _ => rewrite H1 end. cbn [mbind result_bind].
    rewrite Ho'. cbn [mbind result_bind]. rewrite Hm'. cbn [mbind result_bind]. rewrite Ha'. cbn [mbind result_bind].
    match goal with H1 : validate_sentry _ = _ |- _ => rewrite H1 end. cbn [mbind result_bind].
    by rewrite Hp3, Hc2.
Qed.

(** ** Properties *)

(** C14: validation establishes what the program relies on, and is a fixed point
    of itself -- a configuration that Validate accepts leaves it well formed
    (networks and types known, everything required present, backoffs ordered,
    sizes and intervals positive), and validating it again changes nothing. *)
Theorem Validate_wf `{UnicodeCase} (c c' : Config) :
  Validate c = Ok c' → config_wf c' ∧ Validate c' = Ok c'.
Proof. apply Validate_spec. Qed.

Definition messy_config : Config :=
  mkConfig (mkRedis "tcp" "127.0.0.1:6379" "" "" 0 0 (5 * Second) Second) (mkLogConfig "WARN" "" "")
    (mkFilter ["ping "]) (mkRoleCheck true 0 0 0 false)
    [mkOutput "file" true "" "/var/log/audit.log" "" 0 0 (mkRotation 0 0 0 false false)]
    (mkMetrics true ":9100" "" [] false) (Alerts Default) (Sentry Default) (mkPipeline 0 (-1) false).

Lemma Validate_wf_witness :
  ∃ c', @Validate example_case messy_config = Ok c' ∧ @config_wf example_case c' ∧
        Redis_BackoffMax (Redis c') = (5 * Second)%Z.
Proof.
  destruct (@Validate example_case messy_config) as [c'| |] eqn:E; [|discriminate E..].
  exists c'. split; [reflexivity|]. split; [exact (proj1 (@Validate_wf example_case messy_config c' E))|].
  vm_compute in E. injection E as <-. reflexivity.
Defined.

(** C39: loading yields well-formed configurations only -- whatever the file
    says and whatever the environment overrides, a configuration that Load
    returns is well formed; with no path and none of the overrides set it is the
    default configuration, unchanged. *)
Theorem Load_wf `{UnicodeCase} (LookupEnv : string → option string) (ReadFile : string → result string)
    (yaml_Decode : string → Config → result Config) :
  (∀ path c, Load LookupEnv ReadFile yaml_Decode path = Ok c → config_wf c) ∧
  ((∀ key, LookupEnv (envPrefix +:+ key) = None) →
     Load LookupEnv ReadFile yaml_Decode "" = Ok Default).
Proof.
  split.
  - intros path c Hl. unfold Load in Hl. validate_inv. by apply Validate_spec in Hl as [? _].
  - intros He.
    assert (Ha : applyEnv LookupEnv Default = Default).
    { unfold applyEnv, str, boolVar, intVar, sliceVar, durVar, lookup_env. by rewrite !He. }
    assert (Hv : Validate Default = Ok Default).
    { unfold Validate. cbn -[ToLower TrimSpace Default].
      assert (validate_log (Log Default) = Ok ()) as Hl by reflexivity. rewrite Hl. reflexivity. }
    unfold Load. rewrite decide_True by done. cbn [mbind result_bind]. by rewrite Ha, Hv.
Qed.

Lemma Load_wf_witness :
  @Load example_case (λ _, None) (λ _, Err (NetError "no such file")) (λ _ c, Ok c) "" = Ok Default.
Proof.
  exact (proj2 (@Load_wf example_case (λ _, None) (λ _, Err (NetError "no such file")) (λ _ c, Ok c))
    (λ _, eq_refl)).
Defined.
