(* ===== verification/App.v ===== *)
(** * Wiring ([internal/app/app.go], [internal/logging], [cmd/redis-watcher],
    the set-up of [internal/sentryx])

    How a configuration becomes a logger, a Sentry client, outputs, an alert
    engine, a MONITOR client and a role checker, and how the dispatcher hands
    each event to metrics, outputs and alerts. *)

From Stdlib Require Import SpecFloat.
From S2P Require Export Config Channels Metrics.

(** ** logging.Build *)

Definition LevelDebug : Z := -4.
Definition LevelInfo : Z := 0.
Definition LevelWarn : Z := 4.
Definition LevelError : Z := 8.

(** func parseLevel(s string) (slog.Level, error) *)
Definition parseLevel `{UnicodeCase} (s : string) : result Z :=
  let l := ToLower s in
  if bool_decide (l ∈ [""; "info"]) then Ok LevelInfo
  else if bool_decide (l = "debug") then Ok LevelDebug
  else if bool_decide (l ∈ ["warn"; "warning"]) then Ok LevelWarn
  else if bool_decide (l = "error") then Ok LevelError
  else Err (Errorf "unknown log level %q" [s]).

Inductive log_handler : Type := TextHandler | JSONHandler.

(** A logger: where it writes (standard error, or a rotated file that is also
    the closer), its level and its handler. *)
Record logger : Type := mkLog_ {
  lg_file : option lumberjack_Logger;
  lg_level : Z;
  lg_handler : log_handler
}.

(** func Build(cfg config.LogConfig) ( *slog.Logger, io.Closer, error) *)
Definition logging_Build `{UnicodeCase} (cfg : LogConfig) : result logger :=
  let file := if is_empty (Log_File cfg) then None
              else Some (mkLogger (Log_File cfg) 50 5 14 true false) in
  level ← parseLevel (Log_Level cfg);
  let f := ToLower (Log_Format cfg) in
  if bool_decide (f = "text") then Ok (mkLog_ file level TextHandler)
  else if bool_decide (f ∈ [""; "json"]) then Ok (mkLog_ file level JSONHandler)
  else Err (Errorf "unknown log format %q" [Log_Format cfg]).

(** ** sentryx.Init *)

Record ClientOptions : Type := mkClientOptions {
  so_Dsn : string; so_Environment : string; so_Release : string; so_SampleRate : float64;
  so_TracesSampleRate : float64; so_EnableTracing : bool; so_AttachStacktrace : bool;
  so_ServerName : string
}.

(** func Init(cfg, version) (flush, err): the options the SDK is initialised
    with, or nothing when disabled.  [sdk_Init] is [sentry.Init]. *)
Definition sentryx_Init (sdk_Init : ClientOptions → option goerror) (cfg : SentryConfig) (version : string)
    : result (option ClientOptions) :=
  if negb (Sentry_Enabled cfg) then Ok None
  else if is_empty (Sentry_DSN cfg) then Err (Errorf "sentry: DSN required when enabled" [])
  else
    let release := if is_empty (Sentry_Release cfg) && negb (is_empty version)
                   then "redis-watcher@" +:+ version else Sentry_Release cfg in
    let opts := mkClientOptions (Sentry_DSN cfg) (Sentry_Environment cfg) release (Sentry_SampleRate cfg)
                  (Sentry_TracesSampleRate cfg) (SFltb f_zero (Sentry_TracesSampleRate cfg))
                  (Sentry_AttachStacktrace cfg) "redis-watcher" in
    match sdk_Init opts with Some e => Err e | None => Ok (Some opts) end.

(** ** Outputs *)

Section App.
Context `{UnicodeCase} {W : Type} `{WriteCloser W}.
(** Standard output, the writer lumberjack opens, and the networks of the
    network sinks, by address. *)
Variable stdout : W.
Variable open_file : lumberjack_Logger → W.
Variable net : string → nat → net_env.

Inductive any_sink : Type :=
| AStdout (s : @StdoutSink W)
| AFile (s : @FileSink W)
| ANet (s : NetSink).

(** The dynamic dispatch of the interface Sink. *)
#[export] Instance any_sink_Sink : Sink any_sink := {
  sink_Name s :=
    match s with AStdout s => sink_Name s | AFile s => sink_Name s | ANet s => ns_network s end;
  sink_Write ev s :=
    match s with
    | AStdout s => let '(e, s) := sink_Write ev s in (e, AStdout s)
    | AFile s => let '(e, s) := sink_Write ev s in (e, AFile s)
    | ANet s => let '(e, s) := NetSink_Write (net (ns_address s)) ev s in (e, ANet s)
    end;
  sink_Close s :=
    match s with
    | AStdout s => let '(e, s) := sink_Close s in (e, AStdout s)
    | AFile s => let '(e, s) := sink_Close s in (e, AFile s)
    | ANet s => let '(e, s) := NetSink_Close (net (ns_address s)) s in (e, ANet s)
    end
}.

(** The switch of buildOutputs. *)
Definition build_sink (o : OutputConfig) : result any_sink :=
  let r := Output_Rotation o in
  if bool_decide (Output_Type o = "stdout") then Ok (AStdout (NewStdoutSink stdout (Output_Format o)))
  else if bool_decide (Output_Type o = "file") then
    Ok (AFile (NewFileSink open_file (Output_Path o) (Rotation_MaxSizeMB r) (Rotation_MaxBackups r)
                 (Rotation_MaxAgeDays r) (Rotation_Compress r) (Rotation_LocalTime r) (Output_Format o)))
  else if bool_decide (Output_Type o = "udp") || bool_decide (Output_Type o = "tcp") then
    s ← NewNetSink (mkNetOptions (Output_Type o) (Output_Address o) (Output_Timeout o)
                      (Output_Keepalive o) (Output_Format o));
    Ok (ANet s)
  else Err (Errorf "unsupported output type %q" [Output_Type o]).

Fixpoint build_consumers (p : PipelineConfig) (os : list OutputConfig) : result (list (Consumer any_sink)) :=
  match os with
  | [] => Ok []
  | o :: os' =>
      if negb (Output_Enabled o) then build_consumers p os'
      else
        s ← build_sink o;
        c ← NewConsumer s (Pipeline_ConsumerBuffer p) (Pipeline_DropOnFull p);
        cs ← build_consumers p os';
        Ok (c :: cs)
  end.

(** func buildOutputs(cfg, log) ( *output.Manager, error) *)
Definition buildOutputs (cfg : Config) : result (option (list (Consumer any_sink))) :=
  cs ← build_consumers (Pipeline cfg) (Outputs cfg);
  Ok (match cs with [] => None | _ => Some cs end).

(** ** Alerts *)

Inductive alert_channel : Type :=
| ATelegram (t : TelegramChannel)
| AWebhook (w : WebhookChannel)
| APushgateway (p : PushgatewayChannel).

Definition channel_name (c : alert_channel) : string :=
  match c with ATelegram _ => "telegram" | AWebhook _ => "webhook" | APushgateway _ => "pushgateway" end.

(** Close of the three channels, and func (e *Engine) closeAll(): the channels
    whose Close failed, with the error. *)
Definition channel_Close (c : alert_channel) : option goerror :=
  match c with ATelegram _ => None | AWebhook _ => None | APushgateway _ => None end.
Definition closeAll (chs : list alert_channel) : list (string * goerror) :=
  omap (λ c, (channel_name c,.) <$> channel_Close c) chs.

Definition build_channels (a : AlertsConfig) : list alert_channel :=
  let t := Alerts_Telegram a in
  let w := Alerts_Webhook a in
  let p := Alerts_Pushgateway a in
  (if Telegram_Enabled t
   then [ATelegram (NewTelegramChannel (Telegram_Endpoint t) (Telegram_BotToken t) (Telegram_ChatID t)
                      (Telegram_ThreadID t) (Telegram_Timeout t))] else [])
  ++ (if Webhook_Enabled w
      then [AWebhook (NewWebhookChannel (Webhook_URL w) (Webhook_Method w) (Webhook_Headers w)
                        (Webhook_Timeout w))] else [])
  ++ (if Pushgateway_Enabled p
      then [APushgateway (NewPushgatewayChannel (Pushgateway_URLs p) (Pushgateway_Job p)
                            (Pushgateway_Username p) (Pushgateway_Password p) (Pushgateway_Labels p)
                            (Pushgateway_Timeout p))] else []).

Variable regexp_Compile : string → result regexp.

Definition engine_options (cfg : Config) (chs : list alert_channel) : Alert.Options :=
  let a := Alerts cfg in
  Alert.mkOptions (channel_name <$> chs) (Alerts_SuspiciousCommands a) (Alerts_Patterns a)
    (Alerts_IgnoredSourceIPs a) (RateLimit_Enabled (Alerts_RateLimit a)) (RateLimit_Window (Alerts_RateLimit a))
    (RateLimit_MaxAlerts (Alerts_RateLimit a)) (Retry_MaxAttempts (Alerts_Retry a))
    (Retry_InitialBackoff (Alerts_Retry a)) (Retry_MaxBackoff (Alerts_Retry a))
    (Pipeline_ConsumerBuffer (Pipeline cfg)) (Pipeline_DropOnFull (Pipeline cfg)) 0 FullReporter.

(** func buildAlertEngine(cfg, reg, log) ( *alert.Engine, error) *)
Definition buildAlertEngine (cfg : Config) : result (option (list alert_channel * Engine)) :=
  if negb (Alerts_Enabled (Alerts cfg)) then Ok None
  else
    match build_channels (Alerts cfg) with
    | [] => Ok None
    | chs => e ← Alert.New regexp_Compile (engine_options cfg chs); Ok (Some (chs, e))
    end.

(** ** MONITOR client and role checker *)

Definition buildMonitor (cfg : Config) : Client :=
  let r := Redis cfg in
  Monitor.New (Monitor.mkOptions (Redis_Network r) (Redis_Address r) (Redis_Username r) (Redis_Password r)
                 (Redis_DialTimeout r) (Redis_ReadTimeout r) (Redis_BackoffMin r) (Redis_BackoffMax r))
    (make_chan Event (Z.to_nat (Pipeline_EventBuffer (Pipeline cfg)))) (Pipeline_DropOnFull (Pipeline cfg)).

(** func buildRoleChecker(cfg, reg, mon, log) *role.Checker, which also installs
    the gate. *)
Definition buildRoleChecker (cfg : Config) (mon : Client) : option Checker * Client :=
  let r := Redis cfg in
  let rc := RoleCheck cfg in
  if negb (RoleCheck_Enabled rc) then (None, mon)
  else
    (Some (Role.New (Role.mkOptions (Redis_Network r) (Redis_Address r) (Redis_Username r) (Redis_Password r)
                       (RoleCheck_DialTimeout rc) (RoleCheck_ReadTimeout rc) (RoleCheck_Interval rc)
                       (RoleCheck_AllowReplica rc)) ProbeSink),
     SetGate true mon).

(** ** Queue depths *)

(** The queues added to the collector by wireMetrics, with their capacities. *)
Definition queues (mon : Client) (outs : option (list (Consumer any_sink)))
    (eng : option (list alert_channel * Engine)) : list (string * nat) :=
  [("events", QueueCapacity mon)]
  ++ match outs with
     | Some cs => (λ c, ("output:" +:+ Name c, Output.QueueCapacity c)) <$> cs
     | None => []
     end
  ++ match eng with Some (_, e) => [("alerts", ch_cap (e_in e))] | None => [] end.

(** [reg.RegisterCollector]: refused when a descriptor's name is taken. *)
Definition RegisterCollector (descs : list desc) : result unit :=
  if bool_decide (NoDup (d_name <$> registered ++ descs)) then Ok ()
  else Err (Errorf "duplicate metrics collector registration attempted" []).

(** func wireMetrics(reg, mon, outMgr, alertEngine) error *)
Definition wireMetrics (mon : Client) (outs : option (list (Consumer any_sink)))
    (eng : option (list alert_channel * Engine)) : result (list (string * nat)) :=
  _ ← wrapf "register queue depth collector: %w" [] (RegisterCollector queueDepthDescs);
  Ok (queues mon outs eng).

(** ** Run, up to the start of the goroutines *)

Variable sdk_Init : ClientOptions → option goerror.

Record daemon : Type := mkApp {
  app_log : logger;
  app_sentry : option ClientOptions;
  app_outputs : option (list (Consumer any_sink));
  app_engine : option (list alert_channel * Engine);
  app_monitor : Client;
  app_checker : option Checker;
  app_queues : list (string * nat);
  app_ignored : gset string
}.

(** func Run(ctx, configPath, info): the construction from the loaded
    configuration [load]. *)
Definition build (load : result Config) (version : string) : result daemon :=
  cfg ← wrapf "load config: %w" [] load;
  log ← wrapf "build logger: %w" [] (logging_Build (Log cfg));
  sentry ← wrapf "init sentry: %w" [] (sentryx_Init sdk_Init (Sentry cfg) version);
  outs ← wrapf "build outputs: %w" [] (buildOutputs cfg);
  eng ← wrapf "build alerts: %w" [] (buildAlertEngine cfg);
  let mon := buildMonitor cfg in
  qs ← wireMetrics mon outs eng;
  let '(rc, mon) := buildRoleChecker cfg mon in
  Ok (mkApp log sentry outs eng mon rc qs (IgnoredSet (Config.Filter cfg))).

(** ** The dispatcher *)

Record pipeline : Type := mkPipe {
  outputs : option (list (Consumer any_sink));
  alerts : option Engine;
  filtered : gset string
}.

(** The calls on the registry among the calls of an output or of the engine. *)
Definition output_metrics (tr : list out_action) : list registry_call :=
  omap (λ a, match a with Metric c => Some (OnOutput c) | SentryReport _ _ => None end) tr.
Definition alert_metrics (tr : list Retry.action) : list registry_call :=
  omap (λ a, match a with Retry.Report c => Some (OnAlert c) | _ => None end) tr.

(** One event in dispatcher.run: [None] when a full queue blocks it. *)
Definition dispatch_event (ev : Event) (p : pipeline) : option (list registry_call * pipeline) :=
  if decide (Command ev ∈ filtered p) then Some ([OnIgnored (Command ev)], p)
  else
    '(tr1, outs) ←
      match outputs p with
      | None => Some ([], None)
      | Some cs => '(tr, cs) ← Dispatch ev cs; Some (output_metrics tr, Some cs)
      end;
    '(tr2, eng) ←
      match alerts p with
      | None => Some ([], None)
      | Some e => '(e, tr) ← Alert.Submit ev e; Some (alert_metrics tr, Some e)
      end;
    Some ([OnEvent ev] ++ tr1 ++ tr2, mkPipe outs eng (filtered p)).

(** The events of dispatcher.run, in order. *)
Fixpoint dispatch_all (evs : list Event) (p : pipeline) : option (list registry_call * pipeline) :=
  match evs with
  | [] => Some ([], p)
  | ev :: evs' =>
      '(tr, p) ← dispatch_event ev p;
      '(tr', p) ← dispatch_all evs' p;
      Some (tr ++ tr', p)
  end.
End App.
Arguments any_sink W : clear implicits.
Arguments daemon W : clear implicits.
Arguments pipeline W : clear implicits.

(** ** The command line *)

(** func defaultConfigPath() string: [exists_] is [os.Stat] without error. *)
Definition defaultConfigPath (Getenv : string → string) (exists_ : string → bool) : string :=
  let p := Getenv "REDIS_WATCHER_CONFIG" in
  if negb (bool_decide (p = "")) then p
  else if exists_ "/etc/redis-watcher/config.yaml" then "/etc/redis-watcher/config.yaml"
  else "config.yaml".

(** func main(), the flags being parsed: what it prints, on standard output or
    standard error, and the exit status.  [run] is app.Run, the text of an error
    [error_text]. *)
Record BuildInfo : Type := mkBuildInfo { b_Version : string; b_Commit : string; b_Date : string }.
Definition main (error_text : goerror → string) (run : string → BuildInfo → option goerror) (info : BuildInfo)
    (configPath : string) (showVersion : bool) : string * string * Z :=
  if showVersion then
    ("redis-watcher " +:+ b_Version info +:+ " (commit " +:+ b_Commit info +:+ ", built " +:+ b_Date info +:+ ")" +:+ String LF "",
     "", 0%Z)
  else
    match run configPath info with
    | Some err => ("", "redis-watcher: " +:+ error_text err +:+ String LF "", 1%Z)
    | None => ("", "", 0%Z)
    end.

(** ** Lemmas *)

(** The text of a log level or format is accepted when it was validated. *)
Lemma parseLevel_ok `{UnicodeCase} s : ToLower s ∈ log_levels → is_Ok (parseLevel s).
Proof.
  unfold parseLevel, log_levels. generalize (ToLower s). intros l Hl.
  repeat (apply elem_of_cons in Hl as [->|Hl]; [vm_compute; eauto|]). by apply elem_of_nil in Hl.
Qed.

Lemma logging_Build_ok `{UnicodeCase} cfg :
  ToLower (Log_Level cfg) ∈ log_levels → ToLower (Log_Format cfg) ∈ log_formats → is_Ok (logging_Build cfg).
Proof.
  intros Hl Hf. unfold logging_Build. destruct (parseLevel_ok _ Hl) as [level ->]. cbn [mbind result_bind].
  revert Hf. unfold log_formats. generalize (ToLower (Log_Format cfg)). intros f Hf.
  repeat (apply elem_of_cons in Hf as [->|Hf]; [vm_compute; eauto|]). by apply elem_of_nil in Hf.
Qed.

Lemma sentryx_Init_ok sdk cfg version :
  (Sentry_Enabled cfg = true → Sentry_DSN cfg ≠ "") → (∀ o, sdk o = None) → is_Ok (sentryx_Init sdk cfg version).
Proof.
  intros Hd Hs. unfold sentryx_Init. destruct (Sentry_Enabled cfg); cbn [negb]; [|by eexists].
  rewrite (proj2 (is_empty_false _)) by auto. rewrite Hs. by eexists.
Qed.

(** ** What a configuration asks for

    Each part of the daemon, field by field, against the configuration. *)

(** The log: standard error, or the configured file. *)
Definition log_configured `{UnicodeCase} (c : LogConfig) (l : logger) : Prop :=
  lg_file l = (if decide (Log_File c = "") then None else Some (mkLogger (Log_File c) 50 5 14 true false)) ∧
  (lg_level l, ToLower (Log_Level c)) ∈
    [(LevelDebug, "debug"); (LevelInfo, ""); (LevelInfo, "info"); (LevelWarn, "warn"); (LevelWarn, "warning");
     (LevelError, "error")] ∧
  (lg_handler l, ToLower (Log_Format c)) ∈ [(TextHandler, "text"); (JSONHandler, ""); (JSONHandler, "json")].

(** The options of the SDK; the release falls back on the version. *)
Definition sentry_configured (c : SentryConfig) (version : string) (o : ClientOptions) : Prop :=
  so_Dsn o = Sentry_DSN c ∧ so_Environment o = Sentry_Environment c ∧
  so_Release o = (if decide (Sentry_Release c = "" ∧ version ≠ "") then "redis-watcher@" +:+ version else Sentry_Release c) ∧
  so_SampleRate o = Sentry_SampleRate c ∧ so_TracesSampleRate o = Sentry_TracesSampleRate c ∧
  so_EnableTracing o = SFltb f_zero (Sentry_TracesSampleRate c) ∧
  so_AttachStacktrace o = Sentry_AttachStacktrace c ∧ so_ServerName o = "redis-watcher".

(** The MONITOR client, with its empty queue and its counters at zero. *)
Definition client_configured (cfg : Config) (c : Client) : Prop :=
  let r := Redis cfg in
  let o := Monitor.opts c in
  Monitor.Network o = Redis_Network r ∧ Monitor.Address o = Redis_Address r ∧
  Monitor.Username o = Redis_Username r ∧ Monitor.Password o = Redis_Password r ∧
  Monitor.DialTimeout o = Redis_DialTimeout r ∧ Monitor.ReadTimeout o = Redis_ReadTimeout r ∧
  Monitor.BackoffMin o = Redis_BackoffMin r ∧ Monitor.BackoffMax o = Redis_BackoffMax r ∧
  ch_buf (out c) = [] ∧ Z.of_nat (ch_cap (out c)) = Pipeline_EventBuffer (Pipeline cfg) ∧
  Monitor.drop c = Pipeline_DropOnFull (Pipeline cfg) ∧ gated c = RoleCheck_Enabled (RoleCheck cfg) ∧
  stats c = mkStats 0 0 0.

(** The role checker, when there is one: no role is known yet. *)
Definition checker_configured (cfg : Config) (oc : option Checker) : Prop :=
  match oc with
  | None => RoleCheck_Enabled (RoleCheck cfg) = false
  | Some c =>
      let r := Redis cfg in
      let rc := RoleCheck cfg in
      let o := Role.opts c in
      RoleCheck_Enabled rc = true ∧
      o_Network o = Redis_Network r ∧ o_Address o = Redis_Address r ∧
      o_Username o = Redis_Username r ∧ o_Password o = Redis_Password r ∧
      o_DialTimeout o = RoleCheck_DialTimeout rc ∧ o_ReadTimeout o = RoleCheck_ReadTimeout rc ∧
      o_Interval o = RoleCheck_Interval rc ∧ o_AllowReplica o = RoleCheck_AllowReplica rc ∧
      Role.metrics c = ProbeSink ∧ CurrentRole c = RoleUnknown ∧ isMaster c = false
  end.

(** The channels of the alert engine. *)
Definition telegram_configured (c : TelegramConfig) (t : TelegramChannel) : Prop :=
  tg_botToken t = Telegram_BotToken c ∧ tg_chatID t = Telegram_ChatID c ∧ tg_threadID t = Telegram_ThreadID c ∧
  tg_timeout t = default_timeout (Telegram_Timeout c) ∧
  let endpoint := TrimRight (Telegram_Endpoint c) ["/"%char] in
  tg_endpoint t = (if decide (endpoint = "") then DefaultTelegramEndpoint else endpoint).
Definition webhook_configured `{UnicodeCase} (c : WebhookConfig) (w : WebhookChannel) : Prop :=
  wh_url w = Webhook_URL c ∧ wh_method w = ToUpper (Webhook_Method c) ∧ wh_headers w = Webhook_Headers c ∧
  wh_timeout w = default_timeout (Webhook_Timeout c).
Definition pushgateway_configured (c : PushgatewayConfig) (p : PushgatewayChannel) : Prop :=
  pg_urls p = Pushgateway_URLs c ∧ pg_job p = Pushgateway_Job c ∧ pg_username p = Pushgateway_Username c ∧
  pg_password p = Pushgateway_Password c ∧ pg_labels p = Pushgateway_Labels c ∧
  pg_timeout p = default_timeout (Pushgateway_Timeout c).

(** The part of a list that a flag enables: nothing, or one element. *)
Definition when {A} (enabled : bool) (P : A → Prop) (l : list A) : Prop :=
  if enabled then ∃ x, l = [x] ∧ P x else l = [].

Definition channels_configured `{UnicodeCase} (a : AlertsConfig) (chs : list alert_channel) : Prop :=
  ∃ ts ws ps, chs = (ATelegram <$> ts) ++ (AWebhook <$> ws) ++ (APushgateway <$> ps) ∧
    when (Telegram_Enabled (Alerts_Telegram a)) (telegram_configured (Alerts_Telegram a)) ts ∧
    when (Webhook_Enabled (Alerts_Webhook a)) (webhook_configured (Alerts_Webhook a)) ws ∧
    when (Pushgateway_Enabled (Alerts_Pushgateway a)) (pushgateway_configured (Alerts_Pushgateway a)) ps.

Definition wants_alerts (a : AlertsConfig) : bool :=
  Alerts_Enabled a &&
  (Telegram_Enabled (Alerts_Telegram a) || Webhook_Enabled (Alerts_Webhook a)
   || Pushgateway_Enabled (Alerts_Pushgateway a)).

(** The alert engine, when there is one: its rules, limits and queue. *)
Definition engine_configured `{UnicodeCase} (regexp_Compile : string → result regexp) (cfg : Config)
    (oe : option (list alert_channel * Engine)) : Prop :=
  let a := Alerts cfg in
  match oe with
  | None => wants_alerts a = false
  | Some (chs, e) =>
      wants_alerts a = true ∧ channels_configured a chs ∧ channels e = channel_name <$> chs ∧
      (∀ c, c ∈ commands e ↔ ∃ c0, c0 ∈ Alerts_SuspiciousCommands a ∧ c = ToUpper (TrimSpace c0)) ∧
      Forall2 (λ p re, regexp_Compile ("(?i)" +:+ p) = Ok re) (Alerts_Patterns a) (patterns e) ∧
      (∀ ip, ip ∈ ignoredIPs e ↔ ip ∈ Alerts_IgnoredSourceIPs a) ∧
      rateLimit (rate e) = RateLimit_Enabled (Alerts_RateLimit a) ∧
      rateWindow (rate e) = RateLimit_Window (Alerts_RateLimit a) ∧
      rateMaxAlerts (rate e) = RateLimit_MaxAlerts (Alerts_RateLimit a) ∧ rates e = ∅ ∧
      retryMax (retry e) = Retry_MaxAttempts (Alerts_Retry a) ∧
      retryInitialBackoff (retry e) = Retry_InitialBackoff (Alerts_Retry a) ∧
      retryMaxBackoff (retry e) = Retry_MaxBackoff (Alerts_Retry a) ∧
      ch_buf (e_in e) = [] ∧ Z.of_nat (ch_cap (e_in e)) = Pipeline_ConsumerBuffer (Pipeline cfg) ∧
      Alert.drop e = Pipeline_DropOnFull (Pipeline cfg) ∧ Alert.dropped e = 0%Z ∧ rep e = FullReporter ∧
      timeout e = (10 * Second)%Z
  end.

Section BuildLemmas.
Context `{UnicodeCase} {W : Type} `{WriteCloser W}.
Variable stdout : W.
Variable open_file : lumberjack_Logger → W.

(** The sink of an output: its destination, its format, and for a network
    sink no connection yet. *)
Definition sink_configured (o : OutputConfig) (s : any_sink W) : Prop :=
  match s with
  | AStdout s => Output_Type o = "stdout" ∧ so_w s = stdout ∧ so_format s = Output_Format o
  | AFile s =>
      let r := Output_Rotation o in
      Output_Type o = "file" ∧ fs_format s = Output_Format o ∧
      ∃ l, fs_w s = open_file l ∧ lj_Filename l = Output_Path o ∧
        lj_MaxSize l = (if (Rotation_MaxSizeMB r <=? 0)%Z then 100%Z else Rotation_MaxSizeMB r) ∧
        lj_MaxBackups l = Rotation_MaxBackups r ∧ lj_MaxAge l = Rotation_MaxAgeDays r ∧
        lj_Compress l = Rotation_Compress r ∧ lj_LocalTime l = Rotation_LocalTime r
  | ANet s =>
      (Output_Type o = "udp" ∨ Output_Type o = "tcp") ∧ ns_network s = Output_Type o ∧
      ns_address s = Output_Address o ∧ ns_keepalive s = Output_Keepalive o ∧ ns_format s = Output_Format o ∧
      ns_timeout s = (if (Output_Timeout o <=? 0)%Z then (5 * Second)%Z else Output_Timeout o) ∧
      net_inv s ∧ Sinks.conn s = false
  end.

(** A consumer as built for an output. *)
Definition built_for (p : PipelineConfig) (o : OutputConfig) (c : Consumer (any_sink W)) : Prop :=
  sink_configured o (sink c) ∧
  Z.of_nat (ch_cap (c_in c)) = Pipeline_ConsumerBuffer p ∧ ch_buf (c_in c) = [] ∧
  c_drop c = Pipeline_DropOnFull p ∧ counters_wf c ∧ failing c = false.

Lemma build_sink_ok o :
  output_wf o → Output_Enabled o = true → ∃ s, build_sink stdout open_file o = Ok s ∧ sink_configured o s.
Proof.
  intros Ho Ee. destruct (Ho Ee) as [[Ht|[(Ht & _)|(Ht & Ha & _)]] _]; unfold build_sink.
  - rewrite bool_decide_true by done. eexists. split; [reflexivity|]. by repeat split.
  - rewrite bool_decide_false by (by rewrite Ht). rewrite bool_decide_true by done. eexists. split; [reflexivity|].
    split; [done|]. split; [done|]. by eexists (file_logger _ _ _ _ _ _).
  - assert (Hn : bool_decide (Output_Type o = "stdout") = false ∧ bool_decide (Output_Type o = "file") = false
      ∧ bool_decide (Output_Type o = "udp") || bool_decide (Output_Type o = "tcp") = true)
      by (destruct Ht as [-> | ->]; done).
    destruct Hn as (-> & -> & ->). unfold NewNetSink. cbn [no_Network no_Address no_Timeout no_Keepalive no_Format].
    rewrite decide_False by (destruct Ht as [-> | ->]; intros []; done).
    rewrite decide_False by done. eexists. split; [reflexivity|]. by repeat split.
Qed.

Lemma NewConsumer_ok p o s :
  (0 < Pipeline_ConsumerBuffer p)%Z → sink_configured o s →
  ∃ c, NewConsumer s (Pipeline_ConsumerBuffer p) (Pipeline_DropOnFull p) = Ok c ∧ built_for p o c.
Proof.
  intros Hp Hs. unfold NewConsumer. rewrite (proj2 (Z.ltb_ge _ 0)) by lia. eexists. split; [reflexivity|].
  repeat split; cbn; try done. lia.
Qed.

Lemma build_consumers_ok p os :
  (0 < Pipeline_ConsumerBuffer p)%Z → Forall output_wf os →
  ∃ cs, build_consumers stdout open_file p os = Ok cs ∧
        Forall2 (built_for p) (List.filter Output_Enabled os) cs.
Proof.
  intros Hp. induction 1 as [|o os Ho Hos (cs & Hcs & Hall)]; [by eexists|].
  cbn [build_consumers List.filter]. destruct (Output_Enabled o) eqn:Ee; cbn [negb]; [|by eexists].
  destruct (build_sink_ok o Ho Ee) as (s & -> & Hs). destruct (NewConsumer_ok p o s Hp Hs) as (c & Hc & Hb).
  cbn [mbind result_bind]. rewrite Hc. cbn [mbind result_bind]. rewrite Hcs. cbn [mbind result_bind].
  eexists. split; [reflexivity|by constructor].
Qed.

Lemma built_for_name (net : string → nat → net_env) p o c :
  built_for p o c → @Name _ (any_sink_Sink net) c = Output_Type o.
Proof. unfold built_for, sink_configured, Name. intros (H1 & _). cbn. by destruct (sink c); destruct_and? H1. Qed.
End BuildLemmas.

Lemma compile_patterns_Ok (regexp_Compile : string → result regexp) ps rs :
  compile_patterns regexp_Compile ps = Ok rs ↔ Forall2 (λ p re, regexp_Compile ("(?i)" +:+ p) = Ok re) ps rs.
Proof.
  revert rs. induction ps as [|p ps IH]; intros rs; cbn [compile_patterns].
  { split; [intros [= <-]; constructor|]. by intros ->%Forall2_nil_inv_l. }
  destruct (regexp_Compile ("(?i)" +:+ p)) as [re| |] eqn:E; cbn [wrapf mbind result_bind].
  - destruct (compile_patterns regexp_Compile ps) as [l| |]; cbn [mbind result_bind].
    + split; [intros [= <-]; constructor; [done|by apply IH]|].
      intros (re' & l' & Hre & Hl & ->)%Forall2_cons_inv_l. apply IH in Hl as [= ->]. congruence.
    + split; [done|]. by intros (re' & l' & _ & Hl%IH & _)%Forall2_cons_inv_l.
    + split; [done|]. by intros (re' & l' & _ & Hl%IH & _)%Forall2_cons_inv_l.
  - split; [done|]. intros (re' & l' & Hre & _)%Forall2_cons_inv_l. congruence.
  - split; [done|]. intros (re' & l' & Hre & _)%Forall2_cons_inv_l. congruence.
Qed.

Lemma compile_patterns_is_Ok (regexp_Compile : string → result regexp) ps :
  is_Ok (compile_patterns regexp_Compile ps) ↔ Forall (λ p, is_ok (regexp_Compile ("(?i)" +:+ p)) = true) ps.
Proof.
  split.
  - intros [rs Hrs%compile_patterns_Ok]. induction Hrs as [|p re ps rs Hp _ IH]; constructor; [by rewrite Hp|done].
  - intros Hps. assert (∃ rs, Forall2 (λ p re, regexp_Compile ("(?i)" +:+ p) = Ok re) ps rs) as [rs Hrs].
    { induction Hps as [|p ps Hp _ [rs IH]]; [by eexists|].
      destruct (regexp_Compile ("(?i)" +:+ p)) as [re| |] eqn:E; [|done..]. exists (re :: rs). by constructor. }
    exists rs. by apply compile_patterns_Ok.
Qed.

(** What the dispatcher passes on. *)
Definition kept (ign : gset string) (evs : list Event) : list Event :=
  List.filter (λ ev, negb (bool_decide (Command ev ∈ ign))) evs.
Definition skipped (ign : gset string) (evs : list Event) : list Event :=
  List.filter (λ ev, bool_decide (Command ev ∈ ign)) evs.
Definition recorded (cs : list registry_call) : list Event :=
  omap (λ c, match c with OnEvent ev => Some ev | _ => None end) cs.
Definition ignored_calls (cs : list registry_call) : list string :=
  omap (λ c, match c with OnIgnored command => Some command | _ => None end) cs.

Lemma recorded_app a b : recorded (a ++ b) = recorded a ++ recorded b.
Proof. apply omap_app. Qed.
Lemma ignored_calls_app a b : ignored_calls (a ++ b) = ignored_calls a ++ ignored_calls b.
Proof. apply omap_app. Qed.

Lemma output_metrics_silent tr : recorded (output_metrics tr) = [] ∧ ignored_calls (output_metrics tr) = [].
Proof.
  unfold recorded, ignored_calls, output_metrics. induction tr as [|[c|err tags] tr [IH1 IH2]]; [done| |done].
  cbn. by rewrite IH1, IH2.
Qed.
Lemma alert_metrics_silent tr : recorded (alert_metrics tr) = [] ∧ ignored_calls (alert_metrics tr) = [].
Proof.
  unfold recorded, ignored_calls, alert_metrics. induction tr as [|[] tr [IH1 IH2]]; cbn; by rewrite ?IH1, ?IH2.
Qed.

Section DispatchAll.
Context `{UnicodeCase} {W : Type} `{WriteCloser W}.
Variable net : string → nat → net_env.
Existing Instance any_sink_Sink.

(** What submitting the events [evs] one by one makes of the outputs and of the
    engine. *)
Definition outputs_after (evs : list Event) (o o' : option (list (Consumer (any_sink W)))) : Prop :=
  match o, o' with
  | Some cs, Some cs' =>
      Forall2 (λ c c', ∃ tr, @consumer_run _ (any_sink_Sink net) (SubmitOp <$> evs) c = Some (tr, c')) cs cs'
  | None, None => True
  | _, _ => False
  end.
Definition alerts_after (evs : list Event) (a a' : option Engine) : Prop :=
  match a, a' with
  | Some e, Some e' => ∃ tr, engine_run (Alert.SubmitOp <$> evs) e = Some ([], tr, e')
  | None, None => True
  | _, _ => False
  end.

Lemma outputs_after_cons ev evs o cs1 tr1 o' :
  (∀ cs, o = Some cs → @Dispatch _ (any_sink_Sink net) ev cs = Some (tr1, cs1)) →
  outputs_after evs (match o with Some _ => Some cs1 | None => None end) o' →
  outputs_after (ev :: evs) o o'.
Proof.
  destruct o as [cs|], o' as [cs'|]; cbn [outputs_after]; try done. intros Hd Hall.
  specialize (Hd cs eq_refl). apply (@Dispatch_spec _ (any_sink_Sink net) ev cs) in Hd. revert cs' Hall.
  induction Hd as [|c c1 cs cs1 Hc Hcs IH]; intros cs' Hall; inversion Hall as [|? c' ? cs'' Hr Hrs]; subst; constructor; auto.
  cbn [fmap list_fmap consumer_run]. destruct Hr as [tr Hr].
  destruct (@Submit _ (any_sink_Sink net) ev c) as [[tr0 c0]|]; [|discriminate Hc].
  injection Hc as ->. cbn [mbind option_bind]. rewrite Hr. by eexists.
Qed.

Lemma alerts_after_cons ev evs a a' e1 tr1 :
  (∀ e, a = Some e → Alert.Submit ev e = Some (e1, tr1)) →
  alerts_after evs (match a with Some _ => Some e1 | None => None end) a' →
  alerts_after (ev :: evs) a a'.
Proof.
  destruct a as [e|], a' as [e'|]; cbn [alerts_after]; try done. intros Hd [tr Hr].
  cbn [fmap list_fmap engine_run]. rewrite (Hd e eq_refl). cbn [mbind option_bind]. rewrite Hr. by eexists.
Qed.

Definition pipeline_drops (p : pipeline W) : Prop :=
  (∀ cs, outputs p = Some cs → Forall (λ c, c_drop c = true) cs) ∧ (∀ e, alerts p = Some e → Alert.drop e = true).

(** Handing the event to the outputs, when they all drop. *)
Lemma outputs_step_drops ev (o : option (list (Consumer (any_sink W)))) :
  (∀ cs, o = Some cs → Forall (λ c, c_drop c = true) cs) →
  ∃ tr outs,
    match o with
    | None => Some ([], None)
    | Some cs => '(tr, cs) ← @Dispatch _ (any_sink_Sink net) ev cs; Some (output_metrics tr, Some cs)
    end = Some (tr, outs) ∧ recorded tr = [] ∧ ignored_calls tr = [] ∧
    (∀ cs, outs = Some cs → Forall (λ c, c_drop c = true) cs) ∧
    ∀ evs o'', outputs_after evs outs o'' → outputs_after (ev :: evs) o o''.
Proof.
  intros Ho. destruct o as [cs|]; [|by exists [], None]. specialize (Ho cs eq_refl).
  destruct (proj1 (@Dispatch_spec _ (any_sink_Sink net) ev cs) Ho) as [[tr cs1] Hd].
  rewrite Hd. cbn [mbind option_bind]. exists (output_metrics tr), (Some cs1).
  destruct (output_metrics_silent tr) as [-> ->]. split_and!; [done..| |].
  - intros cs' [= <-]. apply (@Dispatch_spec _ (any_sink_Sink net) ev cs) in Hd.
    induction Hd as [|c c1 cs cs1 Hc Hcs IH]; [constructor|].
    apply Forall_cons in Ho as [Hdr Ho]. constructor; [|by apply IH].
    unfold Submit in Hc. rewrite Hdr in Hc. destruct (chan_send _ _); injection Hc as <-; done.
  - intros evs o'' Hafter. apply (outputs_after_cons ev evs (Some cs) cs1 tr); [|done].
    by intros cs' [= <-].
Qed.

(** Handing the event to the alert engine, when it drops. *)
Lemma alerts_step_drops ev (a : option Engine) :
  (∀ e, a = Some e → Alert.drop e = true) →
  ∃ tr eng,
    match a with
    | None => Some ([], None)
    | Some e => '(e, tr) ← Alert.Submit ev e; Some (alert_metrics tr, Some e)
    end = Some (tr, eng) ∧ recorded tr = [] ∧ ignored_calls tr = [] ∧
    (∀ e, eng = Some e → Alert.drop e = true) ∧
    ∀ evs a'', alerts_after evs eng a'' → alerts_after (ev :: evs) a a''.
Proof.
  intros Ha. destruct a as [e|]; [|by exists [], None]. specialize (Ha e eq_refl).
  assert (∃ e1 tr, Alert.Submit ev e = Some (e1, tr) ∧ Alert.drop e1 = true) as (e1 & tr & Hs & Hd1).
  { unfold Alert.Submit. rewrite Ha. destruct (chan_send ev (e_in e)); do 2 eexists; split; (reflexivity || done). }
  rewrite Hs. cbn [mbind option_bind]. exists (alert_metrics tr), (Some e1).
  destruct (alert_metrics_silent tr) as [-> ->]. split_and!; [done..|by intros e' [= <-]|].
  intros evs a'' Hafter. apply (alerts_after_cons ev evs (Some e) a'' e1 tr); [|done]. by intros e' [= <-].
Qed.

Lemma dispatch_event_drops ev p :
  pipeline_drops p → Command ev ∉ filtered p →
  ∃ tr p', dispatch_event net ev p = Some (OnEvent ev :: tr, p') ∧ recorded tr = [] ∧ ignored_calls tr = [] ∧
    pipeline_drops p' ∧ filtered p' = filtered p ∧
    (∀ evs (p'' : pipeline W), outputs_after evs (outputs p') (outputs p'') → outputs_after (ev :: evs) (outputs p) (outputs p'')) ∧
    (∀ evs (p'' : pipeline W), alerts_after evs (alerts p') (alerts p'') → alerts_after (ev :: evs) (alerts p) (alerts p'')).
Proof.
  intros [Ho Ha] Hf. unfold dispatch_event. rewrite decide_False by done.
  destruct (outputs_step_drops ev (outputs p) Ho) as (tr1 & outs & -> & Hr1 & Hi1 & Hdr1 & Hafter1).
  destruct (alerts_step_drops ev (alerts p) Ha) as (tr2 & eng & Hal & Hr2 & Hi2 & Hdr2 & Hafter2).
  cbn [mbind option_bind]. rewrite Hal. cbn [mbind option_bind].
  exists (tr1 ++ tr2), (mkPipe outs eng (filtered p)). rewrite recorded_app, ignored_calls_app, Hr1, Hr2, Hi1, Hi2.
  split_and!; try done; intros evs p''; cbn [outputs alerts]; auto.
Qed.
End DispatchAll.

(** *** Each part is built as configured *)

Lemma logging_Build_configured `{UnicodeCase} c l : logging_Build c = Ok l → log_configured c l.
Proof.
  unfold logging_Build, parseLevel, log_configured, is_empty. generalize (ToLower (Log_Level c)), (ToLower (Log_Format c)).
  intros lv f.
  assert (Hfile : (if bool_decide (Log_File c = "") then None else Some (mkLogger (Log_File c) 50 5 14 true false))
                  = if decide (Log_File c = "") then None else Some (mkLogger (Log_File c) 50 5 14 true false))
    by (by repeat case_decide).
  rewrite Hfile. clear Hfile.
  repeat case_bool_decide; cbn [mbind result_bind]; try done; intros [= <-]; cbn [lg_file lg_level lg_handler];
    subst; (split; [done|split]); set_solver.
Qed.

Lemma sentryx_Init_Ok sdk c version o :
  sentryx_Init sdk c version = Ok o ↔
  if Sentry_Enabled c
  then Sentry_DSN c ≠ "" ∧ ∃ opts, o = Some opts ∧ sentry_configured c version opts ∧ sdk opts = None
  else o = None.
Proof.
  unfold sentryx_Init. destruct (Sentry_Enabled c); cbn [negb]; [|split; [by intros [= <-]|by intros ->]].
  destruct (is_empty (Sentry_DSN c)) eqn:Ed; [by split; [|intros []; apply bool_decide_eq_true in Ed]|].
  apply is_empty_false in Ed. cbn zeta.
  set (opts := mkClientOptions _ _ _ _ _ _ _ _).
  assert (Hc : sentry_configured c version opts).
  { repeat split. cbn. unfold is_empty. by repeat (case_bool_decide || case_decide); naive_solver. }
  assert (Hu : ∀ o', sentry_configured c version o' → o' = opts).
  { revert Hc. unfold sentry_configured. intros Hc o' Ho'. destruct opts, o'. cbn in *. destruct_and?. congruence. }
  destruct (sdk opts) as [e|] eqn:Es.
  - split; [done|]. intros (_ & o' & _ & Ho' & Hs). rewrite (Hu _ Ho') in Hs. congruence.
  - split; [intros [= <-]; split; [done|]; by exists opts|]. intros (_ & o' & -> & Ho' & _). by rewrite (Hu _ Ho').
Qed.

(** The SDK takes the options of the configuration. *)
Definition sdk_accepts (sdk : ClientOptions → option goerror) (c : SentryConfig) (version : string) : Prop :=
  Sentry_Enabled c = true → ∃ opts, sentry_configured c version opts ∧ sdk opts = None.

Lemma sentryx_Init_is_Ok sdk c version :
  (Sentry_Enabled c = true → Sentry_DSN c ≠ "") →
  (is_Ok (sentryx_Init sdk c version) ↔ sdk_accepts sdk c version).
Proof.
  intros Hd. unfold sdk_accepts. split.
  - intros [o Ho%sentryx_Init_Ok]. intros E. rewrite E in Ho. destruct Ho as (_ & opts & _ & ? & ?). by exists opts.
  - intros Hs. destruct (Sentry_Enabled c) eqn:E.
    + destruct Hs as (opts & ? & ?); [done|]. exists (Some opts). apply sentryx_Init_Ok. rewrite E.
      split; [by apply Hd|]. by exists opts.
    + exists None. apply sentryx_Init_Ok. by rewrite E.
Qed.

Lemma build_channels_configured `{UnicodeCase} a :
  (Webhook_Enabled (Alerts_Webhook a) = true → Webhook_Method (Alerts_Webhook a) ≠ "") →
  channels_configured a (build_channels a).
Proof.
  intros Hm. unfold channels_configured, build_channels.
  set (t := NewTelegramChannel _ _ _ _ _). set (w := NewWebhookChannel _ _ _ _). set (p := NewPushgatewayChannel _ _ _ _ _ _).
  exists (if Telegram_Enabled (Alerts_Telegram a) then [t] else []),
    (if Webhook_Enabled (Alerts_Webhook a) then [w] else []),
    (if Pushgateway_Enabled (Alerts_Pushgateway a) then [p] else []).
  split; [by repeat case_match|]. unfold when. split_and!.
  - case_match; [|done]. exists t. by repeat split.
  - case_match; [|done]. exists w. repeat split. cbn. by rewrite decide_False by auto.
  - case_match; [|done]. exists p. by repeat split.
Qed.

Lemma build_channels_nil `{UnicodeCase} a : Alerts_Enabled a = true → (build_channels a = [] ↔ wants_alerts a = false).
Proof. unfold wants_alerts, build_channels. intros ->. by repeat case_match. Qed.

Lemma buildAlertEngine_is_Ok `{UnicodeCase} (regexp_Compile : string → result regexp) cfg :
  is_Ok (buildAlertEngine regexp_Compile cfg) ↔
  (wants_alerts (Alerts cfg) = true →
     Forall (λ p, is_ok (regexp_Compile ("(?i)" +:+ p)) = true) (Alerts_Patterns (Alerts cfg))).
Proof.
  unfold buildAlertEngine. destruct (Alerts_Enabled (Alerts cfg)) eqn:Ea; cbn [negb].
  - destruct (build_channels (Alerts cfg)) as [|ch chs] eqn:Ec.
    { apply build_channels_nil in Ec; [|done]. rewrite Ec. split; [done|by eexists]. }
    assert (wants_alerts (Alerts cfg) = true) as ->.
    { destruct (wants_alerts (Alerts cfg)) eqn:E; [done|]. apply build_channels_nil in E; [|done]. congruence. }
    rewrite <- compile_patterns_is_Ok. unfold Alert.New. cbn [engine_options o_Patterns].
    destruct (compile_patterns _ _) as [rs| |]; cbn [mbind result_bind]; (split; [intros Hx|intros Hx; specialize (Hx eq_refl)]).
    all: try (by eexists); try (by destruct Hx); by intros _; eexists.
  - unfold wants_alerts. rewrite Ea. split; [done|by eexists].
Qed.

Lemma buildAlertEngine_configured `{UnicodeCase} (regexp_Compile : string → result regexp) cfg oe :
  config_wf cfg → buildAlertEngine regexp_Compile cfg = Ok oe → engine_configured regexp_Compile cfg oe.
Proof.
  intros (_ & _ & _ & _ & _ & _ & Ha & _ & _ & Hp & _) He. unfold buildAlertEngine in He.
  destruct (Alerts_Enabled (Alerts cfg)) eqn:Ea; cbn [negb] in He.
  2: { injection He as <-. unfold engine_configured, wants_alerts. by rewrite Ea. }
  destruct (Ha Ea) as (_ & Hw & _ & Hr1 & Hr2 & Hr3 & Hr4).
  destruct (build_channels (Alerts cfg)) as [|ch chs] eqn:Ec.
  { injection He as <-. by apply build_channels_nil in Ec. }
  rewrite <- Ec in He. unfold Alert.New in He. cbn [engine_options o_Patterns] in He.
  destruct (compile_patterns _ _) as [rs| |] eqn:Er; cbn [mbind result_bind] in He; [|done..].
  injection He as <-. apply compile_patterns_Ok in Er. cbn. split_and!; try done.
  - destruct (wants_alerts (Alerts cfg)) eqn:E; [done|]. apply build_channels_nil in E; [|done]. congruence.
  - apply build_channels_configured. intros E. by apply Hw.
  - intros c. rewrite elem_of_list_to_set, list_elem_of_fmap. split; intros (c0 & H1 & H2); eauto.
  - intros ip. by rewrite elem_of_list_to_set.
  - destruct (Z.leb_spec (Retry_MaxAttempts (Alerts_Retry (Alerts cfg))) 0); [lia|done].
  - destruct (Z.ltb_spec (Retry_InitialBackoff (Alerts_Retry (Alerts cfg))) 0); [lia|].
    destruct (Z.ltb_spec 0 (Retry_MaxBackoff (Alerts_Retry (Alerts cfg)))); cbn [andb]; [|done].
    by rewrite (proj2 (Z.ltb_ge _ _)) by lia.
  - destruct (Z.leb_spec (Pipeline_ConsumerBuffer (Pipeline cfg)) 0); lia.
Qed.

Lemma buildRoleChecker_configured cfg rc mon :
  redis_wf (Redis cfg) → role_check_wf (RoleCheck cfg) → (0 < Pipeline_EventBuffer (Pipeline cfg))%Z →
  buildRoleChecker cfg (buildMonitor cfg) = (rc, mon) → client_configured cfg mon ∧ checker_configured cfg rc.
Proof.
  intros (_ & _ & Hb) Hr Hp He. unfold buildRoleChecker, buildMonitor, Monitor.New in He. cbn in He.
  rewrite (proj2 (Z.leb_gt _ _)) in He by lia. rewrite (proj2 (Z.ltb_ge _ _)) in He by lia.
  destruct (RoleCheck_Enabled (RoleCheck cfg)) eqn:E; cbn [negb] in He; injection He as <- <-;
    unfold client_configured, checker_configured; cbn; rewrite E; split; try done; [split_and!; try done; lia| |split_and!; try done; lia].
  destruct (Hr E) as (H1 & H2 & H3). unfold default_to. by rewrite !(proj2 (Z.leb_gt _ _)) by lia.
Qed.

Section BuildInv.
Context `{UnicodeCase} {W : Type} `{WriteCloser W}.
Variables (stdout : W) (open_file : lumberjack_Logger → W) (net : string → nat → net_env).
Variables (regexp_Compile : string → result regexp) (sdk_Init : ClientOptions → option goerror).

(** What Run builds, part by part. *)
Lemma build_inv load version a :
  build stdout open_file net regexp_Compile sdk_Init load version = Ok a →
  ∃ cfg, load = Ok cfg ∧
    build_consumers stdout open_file (Pipeline cfg) (Outputs cfg) = Ok (default [] (app_outputs a)) ∧
    buildAlertEngine regexp_Compile cfg = Ok (app_engine a) ∧
    buildRoleChecker cfg (buildMonitor cfg) = (app_checker a, app_monitor a) ∧
    app_queues a = queues net (buildMonitor cfg) (app_outputs a) (app_engine a) ∧
    app_outputs a ≠ Some [] ∧ logging_Build (Log cfg) = Ok (app_log a) ∧
    sentryx_Init sdk_Init (Sentry cfg) version = Ok (app_sentry a) ∧
    app_ignored a = IgnoredSet (Config.Filter cfg).
Proof.
  unfold build. destruct load as [cfg| |]; [|done..]. cbn [wrapf mbind result_bind].
  destruct (logging_Build (Log cfg)) as [log| |] eqn:El; [|done..]. cbn [wrapf mbind result_bind].
  destruct (sentryx_Init sdk_Init (Sentry cfg) version) as [se| |] eqn:Es; [|done..]. cbn [wrapf mbind result_bind].
  unfold buildOutputs. destruct (build_consumers stdout open_file (Pipeline cfg) (Outputs cfg)) as [cs| |] eqn:Ec;
    [|done..]. cbn [wrapf mbind result_bind].
  destruct (buildAlertEngine regexp_Compile cfg) as [eng| |] eqn:Ee; [|done..]. cbn [wrapf mbind result_bind].
  unfold wireMetrics. destruct (wrapf _ _ (RegisterCollector _)) as [u| |]; [|done..]. cbn [mbind result_bind].
  destruct (buildRoleChecker cfg (buildMonitor cfg)) as [rc mon] eqn:Er. intros [= <-]. exists cfg.
  cbn [app_monitor app_outputs app_engine app_checker app_queues app_log app_sentry app_ignored].
  split; [done|]. split; [rewrite Ec; by destruct cs|]. split; [exact Ee|]. split; [exact Er|]. split; [done|].
  split; [by destruct cs|]. split; [exact El|]. by split.
Qed.

(** The construction succeeds when the log, the SDK and the engine do. *)
Lemma build_is_Ok cfg version :
  config_wf cfg →
  (is_Ok (build stdout open_file net regexp_Compile sdk_Init (Ok cfg) version) ↔
   is_Ok (sentryx_Init sdk_Init (Sentry cfg) version) ∧ is_Ok (buildAlertEngine regexp_Compile cfg)).
Proof.
  intros (_ & Hl & Hf & Ho & _ & _ & _ & _ & _ & Hp & _). split.
  - intros [a (cfg' & [= <-] & _ & Ee & _ & _ & _ & _ & Es & _)%build_inv]. split; by eexists.
  - intros [[se Es] [eng Ee]]. unfold build. cbn [wrapf mbind result_bind].
    destruct (logging_Build_ok _ Hl Hf) as [log ->]. rewrite Es. cbn [wrapf mbind result_bind].
    unfold buildOutputs. destruct (build_consumers_ok stdout open_file (Pipeline cfg) (Outputs cfg) Hp Ho)
      as (cs & -> & _). cbn [wrapf mbind result_bind]. rewrite Ee. cbn [wrapf mbind result_bind].
    unfold wireMetrics. assert (RegisterCollector queueDepthDescs = Ok ()) as -> by (vm_compute; reflexivity).
    cbn [wrapf mbind result_bind]. destruct (buildRoleChecker cfg (buildMonitor cfg)) as [rc mon]. by eexists.
Qed.

(** Its outputs are those of the configuration. *)
Lemma build_outputs cfg version a :
  config_wf cfg → build stdout open_file net regexp_Compile sdk_Init (Ok cfg) version = Ok a →
  Forall2 (built_for stdout open_file (Pipeline cfg)) (List.filter Output_Enabled (Outputs cfg))
    (default [] (app_outputs a)).
Proof.
  intros (_ & _ & _ & Ho & _ & _ & _ & _ & _ & Hp & _) (cfg' & [= <-] & Ec & _)%build_inv.
  destruct (build_consumers_ok stdout open_file (Pipeline cfg) (Outputs cfg) Hp Ho) as (cs & Hcs & Hall).
  rewrite Ec in Hcs. by injection Hcs as ->.
Qed.

(** The construction from a validated configuration. *)
Lemma build_ok cfg version :
  config_wf cfg → (∀ o, sdk_Init o = None) →
  Forall (λ p, is_ok (regexp_Compile ("(?i)" +:+ p)) = true) (Alerts_Patterns (Alerts cfg)) →
  is_Ok (build stdout open_file net regexp_Compile sdk_Init (Ok cfg) version).
Proof.
  intros Hwf Hsdk Hpat. apply build_is_Ok; [done|]. split.
  - apply sentryx_Init_ok; [apply Hwf|done].
  - by apply buildAlertEngine_is_Ok.
Qed.
End BuildInv.

(** The queue metrics are distinct exactly when the outputs are -- for a
    validated configuration, the labels of the queue-depth series repeat iff two
    enabled outputs have the same type; nothing in the validation excludes
    it. *)
Theorem queue_names_distinct_iff `{UnicodeCase} {W : Type} `{WriteCloser W} (stdout : W)
    (open_file : lumberjack_Logger → W) (net : string → nat → net_env) (cfg : Config)
    (eng : option (list alert_channel * Engine)) :
  config_wf cfg →
  ∃ outs, buildOutputs stdout open_file cfg = Ok outs ∧
    (NoDup (queues net (buildMonitor cfg) outs eng).*1 ↔
     NoDup (Output_Type <$> List.filter Output_Enabled (Outputs cfg))).
Proof.
  intros (_ & _ & _ & Ho & _ & _ & _ & _ & _ & Hp & _). unfold buildOutputs.
  destruct (build_consumers_ok stdout open_file (Pipeline cfg) (Outputs cfg) Hp Ho) as (cs & -> & Hcs).
  cbn [mbind result_bind]. eexists. split; [reflexivity|].
  assert (Hnames : (queues net (buildMonitor cfg) (match cs with [] => None | _ => Some cs end) eng).*1
    = "events" :: ((λ t, "output:" +:+ t) <$> (Output_Type <$> List.filter Output_Enabled (Outputs cfg)))
      ++ match eng with Some _ => ["alerts"] | None => [] end).
  { unfold queues. rewrite !fmap_app. cbn [fmap list_fmap app]. f_equal. f_equal.
    - transitivity ((λ c, "output:" +:+ @Name _ (any_sink_Sink net) c) <$> cs).
      { destruct cs; [done|]. by rewrite <- list_fmap_compose. }
      clear -Hcs. induction Hcs as [|o c os cs Hc Hcs IH]; [done|]. cbn [fmap list_fmap].
      rewrite IH. by rewrite (built_for_name _ _ net _ _ _ Hc).
    - by destruct eng as [[? ?]|]. }
  rewrite Hnames. set (l := Output_Type <$> _). clear.
  assert (Hinj : NoDup ((λ t : string, "output:" +:+ t) <$> l) ↔ NoDup l).
  { apply NoDup_fmap. intros x y Hxy. by apply str_app_inj_l in Hxy. }
  rewrite NoDup_cons, NoDup_app, Hinj. split; [by intros (_ & ? & _)|].
  intros Hl. split_and!; [|done| |by destruct eng; [apply NoDup_singleton|constructor]].
  - rewrite elem_of_app, list_elem_of_fmap. intros [(t & Ht & _)|Ht]; [discriminate Ht|].
    destruct eng; set_solver.
  - intros x (t & -> & _)%list_elem_of_fmap Hx. destruct eng; [|set_solver].
    apply list_elem_of_singleton in Hx. discriminate Hx.
Qed.

(** Everything the daemon is made of. *)
Definition daemon_configured `{UnicodeCase} {W : Type} (stdout : W) (open_file : lumberjack_Logger → W)
    (regexp_Compile : string → result regexp) (cfg : Config) (version : string) (a : daemon W) : Prop :=
  log_configured (Log cfg) (app_log a) ∧
  match app_sentry a with
  | None => Sentry_Enabled (Sentry cfg) = false
  | Some o => Sentry_Enabled (Sentry cfg) = true ∧ sentry_configured (Sentry cfg) version o
  end ∧
  Forall2 (built_for stdout open_file (Pipeline cfg)) (List.filter Output_Enabled (Outputs cfg))
    (default [] (app_outputs a)) ∧
  app_outputs a ≠ Some [] ∧
  engine_configured regexp_Compile cfg (app_engine a) ∧
  client_configured cfg (app_monitor a) ∧
  checker_configured cfg (app_checker a) ∧
  (∀ c, c ∈ app_ignored a ↔ c ≠ "" ∧ ∃ c0, c0 ∈ Filter_IgnoredCommands (Config.Filter cfg) ∧ c = ToUpper (TrimSpace c0)).

(** ** Properties *)

(** C25: the construction does what the configuration says -- from a
    configuration that Validate accepted, every step of Run up to its first
    goroutine succeeds exactly when the Sentry SDK, if it is enabled, takes its
    options and the alert patterns compile, if alerts have a channel to go to;
    and then every part of what is built is the configured one, field by field:
    the log, the options of the SDK, one output per enabled entry, in order,
    with its destination, format and queue, the alert engine (there is one iff
    alerts and a channel are enabled) with its channels and their credentials,
    its rules, limits, retries and queue, the MONITOR client with its
    credentials, timeouts and backoffs, gated iff the role check is enabled,
    the role checker, and the commands the dispatcher ignores.  The registry of
    the metrics is created apart; what the metrics server makes of its path is
    the subject of [Startup.start_panics_iff]. *)
Theorem build_as_configured `{UnicodeCase} {W : Type} `{WriteCloser W} (stdout : W)
    (open_file : lumberjack_Logger → W) (net : string → nat → net_env)
    (regexp_Compile : string → result regexp) (sdk_Init : ClientOptions → option goerror)
    (cfg : Config) (version : string) :
  config_wf cfg →
  let built := build stdout open_file net regexp_Compile sdk_Init (Ok cfg) version in
  (is_Ok built ↔
     sdk_accepts sdk_Init (Sentry cfg) version ∧
     (wants_alerts (Alerts cfg) = true →
        Forall (λ p, is_ok (regexp_Compile ("(?i)" +:+ p)) = true) (Alerts_Patterns (Alerts cfg)))) ∧
  ∀ a, built = Ok a → daemon_configured stdout open_file regexp_Compile cfg version a.
Proof.
  intros Hwf built. split.
  - unfold built. rewrite build_is_Ok by done. rewrite buildAlertEngine_is_Ok. by rewrite sentryx_Init_is_Ok by apply Hwf.
  - intros a Hb. pose proof (build_outputs _ _ _ _ _ _ _ _ Hwf Hb) as Ho.
    apply build_inv in Hb as (cfg' & [= <-] & _ & Ee & Er & _ & Hne & El & Es & Ei).
    apply buildRoleChecker_configured in Er as [Hm Hr]; [|apply Hwf..].
    split; [by apply logging_Build_configured|]. split.
    { apply sentryx_Init_Ok in Es. destruct (Sentry_Enabled (Sentry cfg)); [|by rewrite Es].
      destruct Es as (_ & o & -> & ? & _). by split. }
    split; [exact Ho|]. split; [exact Hne|]. split; [by apply buildAlertEngine_configured|].
    split; [exact Hm|]. split; [exact Hr|]. intros c. rewrite Ei. unfold IgnoredSet.
    rewrite elem_of_list_to_set, list_elem_of_filter, list_elem_of_fmap.
    split; (intros [? (c0 & ? & ?)]; split; eauto).
Qed.

(** A writer that keeps what it is given. *)
Definition memory_writer : WriteCloser string :=
  {| io_Write buf w := (None, w +:+ buf); io_Close w := (None, w) |}.
Definition any_regexp (p : string) : result regexp := Ok (mkRegexp p (λ _, false)).

(** A configuration with credentials, a role check and one alert channel. *)
Definition example_full : Config :=
  mkConfig (mkRedis "tcp" "10.0.0.1:6379" "watcher" "secret" Second Second Second (30 * Second))
    (Log Default) (mkFilter [" ping "])
    (mkRoleCheck true Second Second Second false)
    [mkOutput "tcp" true "json" "" "10.0.0.2:5170" Second Second (mkRotation 0 0 0 false false)]
    (Metrics Default)
    (mkAlerts true ["flushall"] [] [] (Alerts_RateLimit (Alerts Default)) (mkRetry 3 Second (10 * Second))
       (mkTelegramConfig true "" "token" "chat" 0 Second) (Alerts_Webhook (Alerts Default))
       (Alerts_Pushgateway (Alerts Default)))
    (Sentry Default) (Pipeline Default).

Lemma build_as_configured_witness :
  ∃ a, @build example_case string memory_writer "" (λ _, "") (λ _ _, mkNetEnv None None None) any_regexp
         (λ _, None) (Ok example_full) "1.0" = Ok a ∧
    Monitor.Username (Monitor.opts (app_monitor a)) = "watcher" ∧
    Monitor.Password (Monitor.opts (app_monitor a)) = "secret" ∧ is_Some (app_engine a).
Proof.
  destruct (@build_as_configured example_case string memory_writer "" (λ _, "") (λ _ _, mkNetEnv None None None)
    any_regexp (λ _, None) example_full "1.0") as [Hok Hconf].
  - destruct (@Validate_spec example_case example_full example_full eq_refl) as [Hw _]. exact Hw.
  - destruct Hok as [_ [a Ha]]; [split; [intros [=]|intros _; constructor]|].
    exists a. split; [exact Ha|]. destruct (Hconf a Ha) as (_ & _ & _ & _ & He & Hm & _).
    split; [apply Hm|]. split; [apply Hm|]. destruct (app_engine a); [by eexists|discriminate He].
Defined.

(** C15: the dispatcher fans out -- when the queues drop rather than block, any
    sequence of events is dispatched to the end; the events whose command is
    filtered only count as ignored, and every other event is recorded in the
    metrics once and in order, and submitted, in order, to every output and to
    the alert engine, each of which ends as if it had been fed alone. *)
Theorem dispatch_all_fans_out `{UnicodeCase} {W : Type} `{WriteCloser W} (net : string → nat → net_env)
    (evs : list Event) (p : pipeline W) :
  pipeline_drops p →
  ∃ calls p', dispatch_all net evs p = Some (calls, p') ∧ filtered p' = filtered p ∧
    recorded calls = kept (filtered p) evs ∧
    ignored_calls calls = Command <$> skipped (filtered p) evs ∧
    outputs_after net (kept (filtered p) evs) (outputs p) (outputs p') ∧
    alerts_after (kept (filtered p) evs) (alerts p) (alerts p').
Proof.
  revert p. induction evs as [|ev evs IH]; intros p Hd.
  - exists [], p. split_and!; try done.
    + unfold outputs_after. destruct (outputs p) as [cs|]; [|done]. clear.
      induction cs as [|c cs IH]; constructor; [by eexists|exact IH].
    + unfold alerts_after. destruct (alerts p); [by eexists|done].
  - cbn [dispatch_all]. destruct (decide (Command ev ∈ filtered p)) as [Hf|Hf].
    + unfold dispatch_event. rewrite decide_True by done. cbn [mbind option_bind].
      destruct (IH p Hd) as (calls & p' & -> & H1 & H2 & H3 & H4). cbn [mbind option_bind].
      exists ([OnIgnored (Command ev)] ++ calls), p'. unfold kept, skipped in *. cbn [List.filter].
      rewrite bool_decide_true by done. cbn [negb]. rewrite recorded_app, ignored_calls_app, H2, H3. done.
    + destruct (dispatch_event_drops net ev p Hd Hf) as (tr & p1 & -> & Hr & Hi & Hd1 & Hf1 & Ho & Ha).
      cbn [mbind option_bind]. destruct (IH p1 Hd1) as (calls & p' & -> & H1 & H2 & H3 & H4 & H5).
      cbn [mbind option_bind]. exists ((OnEvent ev :: tr) ++ calls), p'. rewrite Hf1 in *.
      unfold kept, skipped in *. cbn [List.filter]. rewrite bool_decide_false by done. cbn [negb].
      rewrite recorded_app, ignored_calls_app, H2, H3. unfold recorded, ignored_calls in *. cbn [omap list_omap].
      rewrite Hr, Hi. split_and!; try done; auto.
Qed.

Definition example_pipeline : pipeline string :=
  mkPipe (Some [mkConsumer (AStdout (mkStdout "" "json")) (make_chan Event 1) 0 0 0 false true])
    (Some example_engine) {["PING"]}.

Lemma dispatch_all_fans_out_witness :
  ∃ calls p', @dispatch_all example_case string memory_writer (λ _ _, mkNetEnv None None None)
      [example_net_event; example_event; example_event] example_pipeline = Some (calls, p') ∧
    recorded calls = [example_event; example_event] ∧ ignored_calls calls = ["PING"].
Proof.
  destruct (@dispatch_all_fans_out example_case string memory_writer (λ _ _, mkNetEnv None None None)
    [example_net_event; example_event; example_event] example_pipeline) as (calls & p' & H1 & _ & H2 & H3 & _).
  - split; [intros cs [= <-]; repeat constructor|intros e [= <-]; reflexivity].
  - exists calls, p'. split_and!; [exact H1|rewrite H2|rewrite H3]; vm_compute; reflexivity.
Defined.

Definition twin_config : Config :=
  mkConfig (Redis Default) (Log Default) (Config.Filter Default) (RoleCheck Default)
    [mkOutput "tcp" true "json" "" "10.0.0.1:5170" Second 0 (mkRotation 0 0 0 false false);
     mkOutput "tcp" true "json" "" "10.0.0.2:5170" Second 0 (mkRotation 0 0 0 false false)]
    (Metrics Default) (Alerts Default) (Sentry Default) (Pipeline Default).

Lemma queue_names_distinct_iff_witness :
  ∃ outs, @buildOutputs string "" (λ _, "") twin_config = Ok outs ∧
    ¬ NoDup (@queues example_case string memory_writer (λ _ _, mkNetEnv None None None)
               (buildMonitor twin_config) outs None).*1.
Proof.
  destruct (@queue_names_distinct_iff example_case string memory_writer "" (λ _, "")
    (λ _ _, mkNetEnv None None None) twin_config None) as (outs & H1 & H2).
  - destruct (@Validate_spec example_case twin_config twin_config eq_refl) as [Hw _]. exact Hw.
  - exists outs. split; [exact H1|]. rewrite H2. apply (bool_decide_unpack _). vm_compute. exact I.
Defined.
