(* ===== verification/Lifecycle.v ===== *)
(** * The daemon at run time ([Run], [dispatcher.run] and
    [installSignalHandlers] of [internal/app/app.go], [Manager.Run] and
    [Consumer.Run] of [internal/output/output.go], [Engine.Run] of
    [internal/alert/alert.go])

    The goroutines Run starts, one atomic step at a time, over the components
    the construction of App yields: the MONITOR client, the dispatcher, one
    writer per output, the alert engine, the role checker, the metrics server,
    the signal handler, and Run itself, which waits for the context and then for
    all the others.  Whatever the interleaving, each component goes through a
    sequence of its own operations on exactly the events the registry recorded
    (Refinement), and a shutdown ends within a number of steps bounded by what is
    queued, unless a queue was configured to block (Shutdown). *)

From S2P Require Export App.

(** ** Goroutines *)

(** Run of the MONITOR client: anywhere but in the select that sends an event
    on the source channel, in that select, on its way out after the select took
    the context, or returned. *)
Inductive monitor_pc : Type := MonReading | MonSending (ev : Event) | MonStopping | MonDone.

(** dispatcher.run: in its select, submitting an event to the [k]-th output,
    submitting it to the alert engine, or returned. *)
Inductive dispatcher_pc : Type :=
| DispSelect
| DispOutputs (ev : Event) (k : nat)
| DispAlerts (ev : Event)
| DispDone.

(** Run of a consumer: its loop, the drain after the shutdown, returned. *)
Inductive consumer_pc : Type := ConsRunning | ConsDraining | ConsDone.

(** func Run: waiting for the context, waiting for the goroutines, returned. *)
Inductive main_pc : Type := MainWaiting | MainJoining | MainReturned.

(** The steps of a consumer: an event written in the loop, the context taken,
    one iteration of the drain ([expired]: the select takes the deadline, which
    it may when an event is queued as well). *)
Inductive consumer_label : Type :=
| ConsWrite (d : duration)
| ConsStop
| ConsDrain (expired : bool) (d : duration).

(** The steps of the client: a line parsed, any other call on its sink, the
    select with the channel or its default case, the select with the context,
    the return of Run. *)
Inductive client_label : Type :=
| ClFrame (ev : Event)
| ClCall (c : monitor_call)
| ClSend
| ClGiveUp
| ClReturn.

(** The counters go with the calls. *)
Definition count_call (call : monitor_call) (c : Client) : Client :=
  match call with
  | IncrParseError => add_parse_error c
  | IncrReconnect => add_reconnection c
  | _ => c
  end.

(** Run may return an error whenever it is not sending.  With drop_on_full an
    event that finds the channel full is dropped, without it the select waits
    for room or for the context. *)
Definition client_step (cancelled : bool) (l : client_label) (x : monitor_pc * Client)
    : option (list monitor_call * (monitor_pc * Client)) :=
  let '(pc, c) := x in
  match pc, l with
  | MonReading, ClFrame ev => Some ([ObserveLastEvent (Timestamp ev)], (MonSending ev, c))
  | (MonReading | MonStopping), ClCall call =>
      match call with
      | ObserveLastEvent _ | IncrMonitorDropped => None
      | _ => Some ([call], (pc, count_call call c))
      end
  | MonSending ev, ClSend =>
      match chan_send ev (out c) with
      | Some ch => Some ([], (MonReading, set_out ch c))
      | None =>
          if Monitor.drop c then Some ([IncrMonitorDropped], (MonReading, add_dropped c)) else None
      end
  | MonSending ev, ClGiveUp =>
      if negb (Monitor.drop c) && cancelled then Some ([], (MonStopping, c)) else None
  | (MonReading | MonStopping), ClReturn => Some ([], (MonDone, c))
  | _, _ => None
  end.

Section Consumer.
Context {S : Type} `{Sink S}.

(** The return of Run, with its deferred close. *)
Definition consumer_return (tr : list out_action) (c : Consumer S) : list out_action * (consumer_pc * Consumer S) :=
  let '(tr', c') := close_sink c in (tr ++ tr', (ConsDone, c')).

Definition consumer_step (cancelled : bool) (l : consumer_label) (x : consumer_pc * Consumer S)
    : option (list out_action * (consumer_pc * Consumer S)) :=
  let '(pc, c) := x in
  match pc, l with
  | ConsRunning, ConsWrite d =>
      '(ev, ch) ← chan_recv (c_in c);
      let '(tr, c') := writeOne d ev (with_in c ch) in
      Some (tr, (ConsRunning, c'))
  | ConsRunning, ConsStop => if cancelled then Some ([], (ConsDraining, c)) else None
  | ConsDraining, ConsDrain expired d =>
      match chan_recv (c_in c) with
      | None => Some (consumer_return [] c)
      | Some (ev, ch) =>
          if expired then Some (consumer_return [] c)
          else
            match write_event "output.write.shutdown" d ev (with_in c ch) with
            | (tr, Some _, c') => Some (consumer_return tr c')
            | (tr, None, c') => Some (tr, (ConsDraining, c'))
            end
      end
  | _, _ => None
  end.

(** Several steps of one consumer, its queue being left alone by the others. *)
Fixpoint consumer_steps (cancelled : bool) (ls : list consumer_label) (x : consumer_pc * Consumer S)
    : option (list out_action * (consumer_pc * Consumer S)) :=
  match ls with
  | [] => Some ([], x)
  | l :: ls' =>
      '(tr, x) ← consumer_step cancelled l x;
      '(tr', x) ← consumer_steps cancelled ls' x;
      Some (tr ++ tr', x)
  end.
End Consumer.

(** ** The whole program *)

(** The shared state and where every goroutine stands.  [w_calls] is the
    history of the calls on the registry.  A component that is not configured
    has no goroutine. *)
Record world (W : Type) : Type := mkWorld {
  w_cancelled : bool;                                       (* runCtx is done *)
  w_signals : nat;                                          (* signals received *)
  w_exited : bool;                                          (* os.Exit(1) *)
  w_main : main_pc;
  w_mon : monitor_pc * Client;                              (* its queue is the source *)
  w_disp : dispatcher_pc;
  w_ignored : gset string;
  w_outs : list (consumer_pc * Consumer (any_sink W));
  w_engine : option (bool * Engine);                        (* bool: running *)
  w_checker : option (bool * Checker);
  w_server : option bool;
  w_calls : list registry_call
}.
Arguments mkWorld {W}.
Arguments w_cancelled {W}.
Arguments w_signals {W}.
Arguments w_exited {W}.
Arguments w_main {W}.
Arguments w_mon {W}.
Arguments w_disp {W}.
Arguments w_ignored {W}.
Arguments w_outs {W}.
Arguments w_engine {W}.
Arguments w_checker {W}.
Arguments w_server {W}.
Arguments w_calls {W}.

(** A step of a goroutine, with what the environment decides. *)
Inductive label : Type :=
| LSignal
| LClient (l : client_label)
| LTake
| LDispatch
| LDispatchStop
| LConsumer (i : nat) (l : consumer_label)
| LHandle (now : Z) (env : string → Alert → Z → attempt_env)
| LEngineStop
| LProbe (dial : result conn) (dur : duration) (now : Z)
| LCheckerStop
| LServerFail
| LServerStop
| LMainJoin
| LMainReturn.

Section World.
Context `{UnicodeCase} {W : Type} `{WriteCloser W}.
Variable net : string → nat → net_env.
#[local] Instance world_sink : Sink (any_sink W) := any_sink_Sink net.
Implicit Types w : world W.

Definition cancel w : world W :=
  mkWorld true (w_signals w) (w_exited w) (w_main w) (w_mon w) (w_disp w) (w_ignored w) (w_outs w)
    (w_engine w) (w_checker w) (w_server w) (w_calls w).
Definition emit (cs : list registry_call) w : world W :=
  mkWorld (w_cancelled w) (w_signals w) (w_exited w) (w_main w) (w_mon w) (w_disp w) (w_ignored w) (w_outs w)
    (w_engine w) (w_checker w) (w_server w) (w_calls w ++ cs).
Definition set_main x w : world W :=
  mkWorld (w_cancelled w) (w_signals w) (w_exited w) x (w_mon w) (w_disp w) (w_ignored w) (w_outs w)
    (w_engine w) (w_checker w) (w_server w) (w_calls w).
Definition set_mon x w : world W :=
  mkWorld (w_cancelled w) (w_signals w) (w_exited w) (w_main w) x (w_disp w) (w_ignored w) (w_outs w)
    (w_engine w) (w_checker w) (w_server w) (w_calls w).
Definition set_disp x w : world W :=
  mkWorld (w_cancelled w) (w_signals w) (w_exited w) (w_main w) (w_mon w) x (w_ignored w) (w_outs w)
    (w_engine w) (w_checker w) (w_server w) (w_calls w).
Definition set_consumer (i : nat) x w : world W :=
  mkWorld (w_cancelled w) (w_signals w) (w_exited w) (w_main w) (w_mon w) (w_disp w) (w_ignored w)
    (<[i := x]> (w_outs w)) (w_engine w) (w_checker w) (w_server w) (w_calls w).
Definition set_engine x w : world W :=
  mkWorld (w_cancelled w) (w_signals w) (w_exited w) (w_main w) (w_mon w) (w_disp w) (w_ignored w) (w_outs w)
    (Some x) (w_checker w) (w_server w) (w_calls w).
Definition set_checker x w : world W :=
  mkWorld (w_cancelled w) (w_signals w) (w_exited w) (w_main w) (w_mon w) (w_disp w) (w_ignored w) (w_outs w)
    (w_engine w) (Some x) (w_server w) (w_calls w).
Definition set_server x w : world W :=
  mkWorld (w_cancelled w) (w_signals w) (w_exited w) (w_main w) (w_mon w) (w_disp w) (w_ignored w) (w_outs w)
    (w_engine w) (w_checker w) (Some x) (w_calls w).
Definition set_signals n x w : world W :=
  mkWorld (w_cancelled w) n x (w_main w) (w_mon w) (w_disp w) (w_ignored w) (w_outs w)
    (w_engine w) (w_checker w) (w_server w) (w_calls w).

(** The goroutine of installSignalHandlers: the first signal cancels, the
    second exits. *)
Definition signal_step w : option (world W) :=
  match w_signals w with
  | O => Some (set_signals 1 false (cancel w))
  | S O => Some (set_signals 2 true w)
  | _ => None
  end.

(** The goroutine of the MONITOR client: it cancels the context when Run
    returns. *)
Definition monitor_step (l : client_label) w : option (world W) :=
  '(cs, x) ← client_step (w_cancelled w) l (w_mon w);
  let w := emit (OnMonitor <$> cs) (set_mon x w) in
  Some (match l with ClReturn => cancel w | _ => w end).

(** dispatcher.run *)
Definition dispatcher_take w : option (world W) :=
  match w_disp w with
  | DispSelect =>
      '(ev, ch) ← chan_recv (out (w_mon w).2);
      let w := set_mon ((w_mon w).1, set_out ch (w_mon w).2) w in
      if decide (Command ev ∈ w_ignored w) then Some (emit [OnIgnored (Command ev)] w)
      else Some (emit [OnEvent ev] (set_disp (DispOutputs ev 0) w))
  | _ => None
  end.
Definition dispatcher_step w : option (world W) :=
  match w_disp w with
  | DispOutputs ev k =>
      match w_outs w !! k with
      | Some (pc, c) =>
          '(tr, c') ← Submit ev c;
          Some (emit (output_metrics tr) (set_disp (DispOutputs ev (S k)) (set_consumer k (pc, c') w)))
      | None =>
          Some (set_disp (match w_engine w with Some _ => DispAlerts ev | None => DispSelect end) w)
      end
  | DispAlerts ev =>
      match w_engine w with
      | Some (r, e) =>
          '(e', tr) ← Alert.Submit ev e;
          Some (emit (alert_metrics tr) (set_disp DispSelect (set_engine (r, e') w)))
      | None => None
      end
  | _ => None
  end.
Definition dispatcher_stop w : option (world W) :=
  match w_disp w with
  | DispSelect => if w_cancelled w then Some (set_disp DispDone w) else None
  | _ => None
  end.

(** Run of the [i]-th consumer. *)
Definition outputs_step (i : nat) (l : consumer_label) w : option (world W) :=
  x ← w_outs w !! i;
  '(tr, x') ← consumer_step (w_cancelled w) l x;
  Some (emit (output_metrics tr) (set_consumer i x' w)).

(** Run of the alert engine; its channels' Close does nothing. *)
Definition engine_handle (now : Z) (env : string → Alert → Z → attempt_env) w : option (world W) :=
  match w_engine w with
  | Some (true, e) =>
      '(tr, e') ← run_step e now env;
      Some (emit (alert_metrics tr) (set_engine (true, e') w))
  | _ => None
  end.
Definition engine_stop w : option (world W) :=
  match w_engine w with
  | Some (true, e) => if w_cancelled w then Some (set_engine (false, e) w) else None
  | _ => None
  end.

(** Run of the role checker. *)
Definition role_metrics (now : Z) (tr : list role_action) : list registry_call :=
  omap (λ a, match a with RoleMetric c => Some (OnRole now c) | _ => None end) tr.
Definition checker_probe (dial : result conn) (dur : duration) (now : Z) w : option (world W) :=
  match w_checker w with
  | Some (true, c) =>
      match probeOnce dial dur c with
      | Ok (tr, c') => Some (emit (role_metrics now tr) (set_checker (true, c') w))
      | _ => None
      end
  | _ => None
  end.
Definition checker_stop w : option (world W) :=
  match w_checker w with
  | Some (true, c) => if w_cancelled w then Some (set_checker (false, c) w) else None
  | _ => None
  end.

(** Run of the metrics server: a listener that fails ends it, without
    cancelling anything. *)
Definition server_fail w : option (world W) :=
  match w_server w with Some true => Some (set_server false w) | _ => None end.
Definition server_stop w : option (world W) :=
  match w_server w with
  | Some true => if w_cancelled w then Some (set_server false w) else None
  | _ => None
  end.

(** Whether wg.Wait() returns. *)
Definition joined w : bool :=
  match (w_mon w).1 with MonDone => true | _ => false end
  && match w_disp w with DispDone => true | _ => false end
  && forallb (λ x, match x.1 with ConsDone => true | _ => false end) (w_outs w)
  && match w_engine w with Some (r, _) => negb r | None => true end
  && match w_checker w with Some (r, _) => negb r | None => true end
  && match w_server w with Some r => negb r | None => true end.
Definition main_join w : option (world W) :=
  match w_main w with
  | MainWaiting => if w_cancelled w then Some (set_main MainJoining w) else None
  | _ => None
  end.
Definition main_return w : option (world W) :=
  match w_main w with
  | MainJoining => if joined w then Some (set_main MainReturned w) else None
  | _ => None
  end.

(** The process is over when Run has returned or a second signal came. *)
Definition over w : bool := match w_main w with MainReturned => true | _ => w_exited w end.

Definition exec (l : label) w : option (world W) :=
  if over w then None
  else
    match l with
    | LSignal => signal_step w
    | LClient l => monitor_step l w
    | LTake => dispatcher_take w
    | LDispatch => dispatcher_step w
    | LDispatchStop => dispatcher_stop w
    | LConsumer i l => outputs_step i l w
    | LHandle now env => engine_handle now env w
    | LEngineStop => engine_stop w
    | LProbe dial dur now => checker_probe dial dur now w
    | LCheckerStop => checker_stop w
    | LServerFail => server_fail w
    | LServerStop => server_stop w
    | LMainJoin => main_join w
    | LMainReturn => main_return w
    end.

Definition step w w' : Prop := ∃ l, exec l w = Some w'.

Fixpoint exec_all (ls : list label) w : option (world W) :=
  match ls with [] => Some w | l :: ls' => w' ← exec l w; exec_all ls' w' end.

Lemma exec_all_rtc ls : ∀ w w', exec_all ls w = Some w' → rtc step w w'.
Proof.
  induction ls as [|l ls IH]; intros w w'; cbn [exec_all]; [intros [= ->]; apply rtc_refl|].
  destruct (exec l w) as [w1|] eqn:E; [|done]. cbn [mbind option_bind]. intros Hw.
  apply (rtc_l _ _ w1); [by exists l|by apply IH].
Qed.

(** func Run from the point where the components are built: the goroutines it
    starts.  [metrics] tells whether the server is enabled. *)
Definition launch (a : daemon W) (metrics : bool) : world W :=
  mkWorld false 0 false MainWaiting (MonReading, app_monitor a) DispSelect (app_ignored a)
    ((λ c, (ConsRunning, c)) <$> default [] (app_outputs a))
    ((λ x, (true, x.2)) <$> app_engine a) ((λ c, (true, c)) <$> app_checker a)
    (if metrics then Some true else None) [].
End World.
