(* ===== verification/Session.v ===== *)
(** * The client of Lifecycle and the one of Monitor

    Lifecycle reduces the MONITOR client to what its goroutine does to the
    source channel and the registry; Monitor has its sessions, handshakes, read
    loop and backoff.  Every behaviour of the latter is one of the former: a
    sequence of atomic steps of the client, between which the dispatcher
    receives.  What such a sequence has done with the events, and what the
    statistics of the client count, are the accounts at the end. *)

From S2P Require Export Lifecycle.

(** What happens to the client: a step of its own, or the dispatcher receiving
    from its channel. *)
Inductive client_event : Type := OwnStep (l : client_label) | Received.

Section Session.
(** Whether the context is done. *)
Variable cancelled : bool.

Fixpoint client_run (es : list client_event) (x : monitor_pc * Client)
    : option (list monitor_call * list Event * (monitor_pc * Client)) :=
  match es with
  | [] => Some ([], [], x)
  | OwnStep l :: es' =>
      '(cs, x) ← client_step cancelled l x;
      '(cs', evs, x) ← client_run es' x;
      Some (cs ++ cs', evs, x)
  | Received :: es' =>
      '(ev, ch) ← chan_recv (out x.2);
      '(cs, evs, x) ← client_run es' (x.1, set_out ch x.2);
      Some (cs, ev :: evs, x)
  end.

(** The calls on the registry among the actions of the client. *)
Definition mon_calls (tr : list mon_action) : list monitor_call :=
  omap (λ a, match a with MonMetric c => Some c | _ => None end) tr.

Definition reaches (x : monitor_pc * Client) (cs : list monitor_call) (evs : list Event) (x' : monitor_pc * Client) : Prop :=
  ∃ es, client_run es x = Some (cs, evs, x').

(** The context ends the selects of a session only when it is done, and with its
    own error. *)
Definition session_ctx (env : session_env) : Prop :=
  ∀ i ce, select_done env i = Some ce →
    cancelled = true ∧ errors_Is ce Canceled || errors_Is ce DeadlineExceeded = true.

(** ** Lemmas *)

Lemma mon_calls_app a b : mon_calls (a ++ b) = mon_calls a ++ mon_calls b.
Proof. apply omap_app. Qed.

Lemma reaches_refl x : reaches x [] [] x.
Proof. by exists []. Qed.

Lemma reaches_step l x cs x1 cs' evs x2 :
  client_step cancelled l x = Some (cs, x1) → reaches x1 cs' evs x2 → reaches x (cs ++ cs') evs x2.
Proof. intros Hs [es Hr]. exists (OwnStep l :: es). cbn [client_run]. rewrite Hs. cbn. by rewrite Hr. Qed.

Lemma reaches_received pc c ev ch cs evs x :
  chan_recv (out c) = Some (ev, ch) → reaches (pc, set_out ch c) cs evs x → reaches (pc, c) cs (ev :: evs) x.
Proof. intros Hr [es He]. exists (Received :: es). cbn. rewrite Hr. cbn. by rewrite He. Qed.

Lemma reaches_trans x cs1 evs1 x1 cs2 evs2 x2 :
  reaches x cs1 evs1 x1 → reaches x1 cs2 evs2 x2 → reaches x (cs1 ++ cs2) (evs1 ++ evs2) x2.
Proof.
  intros [es1 H1] [es2 H2]. exists (es1 ++ es2). revert x cs1 evs1 H1.
  induction es1 as [|e es1 IH]; intros x cs1 evs1; cbn [app client_run]; [by intros [= <- <- ->]|]. destruct e as [l|].
  - destruct (client_step cancelled l x) as [[cs x3]|]; [|done]. cbn [mbind option_bind].
    destruct (client_run es1 x3) as [[[cs' evs'] x4]|] eqn:E; [|done]. intros [= <- <- ->].
    rewrite (IH _ _ _ E). cbn. by rewrite app_assoc.
  - destruct (chan_recv (out x.2)) as [[ev ch]|]; [|done]. cbn [mbind option_bind].
    destruct (client_run es1 _) as [[[cs' evs'] x4]|] eqn:E; [|done]. intros [= <- <- ->]. by rewrite (IH _ _ _ E).
Qed.

Lemma reaches_receive pc c n evs ch : receive n (out c) = (evs, ch) → reaches (pc, c) [] evs (pc, set_out ch c).
Proof.
  revert c evs. induction n as [|n IH]; intros c evs; cbn [receive].
  - intros [= <- <-]. exists []. by destruct c.
  - destruct (chan_recv (out c)) as [[ev ch1]|] eqn:E.
    + destruct (receive n ch1) as [evs1 ch2] eqn:Er. intros [= <- <-]. eapply reaches_received; [done|].
      exact (IH (set_out ch1 c) evs1 Er).
    + intros [= <- <-]. exists []. by destruct c.
Qed.

Lemma reaches_call call pc c : pc = MonReading ∨ pc = MonStopping →
  match call with ObserveLastEvent _ | IncrMonitorDropped => False | _ => True end →
  reaches (pc, c) [call] [] (pc, count_call call c).
Proof.
  intros Hpc Hcall. change [call] with ([call] ++ []). eapply (reaches_step (ClCall call)); [|apply reaches_refl].
  destruct Hpc as [-> | ->]; by destruct call.
Qed.

(** Where a session leaves the client. *)
Definition left_at (env : session_env) (e : loop_end) (pc : monitor_pc) : Prop :=
  match e with
  | Blocked => ∃ ev, pc = MonSending ev
  | Ended err => pc = MonReading ∨ pc = MonStopping ∧ ∃ i, select_done env i = Some err
  end.

Context `{UnicodeCase}.

Lemma read_loop_reaches fuel env : session_ctx env → ∀ i r c tr evs e c',
  read_loop fuel env i r c = Some (tr, evs, e, c') →
  ∃ pc, reaches (MonReading, c) (mon_calls tr) evs (pc, c') ∧ left_at env e pc.
Proof.
  intros Hctx. induction fuel as [|fuel IH]; intros i r c tr evs e c'; cbn [read_loop]; [done|].
  destruct (ReadString LF r) as [[line r1]|err|]; [| |done].
  2: { intros [= <- <- <- <-]. exists MonReading. split; [apply reaches_refl|by left]. }
  destruct (negb (HasPrefix line "+")).
  { destruct (HasPrefix line "-"); [|apply IH]. intros [= <- <- <- <-]. exists MonReading. split; [apply reaches_refl|by left]. }
  destruct (Parse line) as [ev|perr|]; [| |done].
  2: { destruct (read_loop fuel env i r1 (add_parse_error c)) as [[[[tr1 evs1] e1] c1]|] eqn:E; [|done].
       intros [= <- <- <- <-]. destruct (IH _ _ _ _ _ _ _ E) as (pc & Hr & Hl). exists pc. split; [|done].
       apply (reaches_trans _ [IncrParseError] [] (MonReading, add_parse_error c)); [|exact Hr].
       apply reaches_call; [by left|done]. }
  destruct (receive (received env i) (out c)) as [evs0 ch] eqn:Er.
  assert (Hsel : reaches (MonReading, c) [ObserveLastEvent (Timestamp ev)] evs0 (MonSending ev, set_out ch c)).
  { apply (reaches_trans _ [_] [] (MonSending ev, c) []); [|by eapply reaches_receive].
    change [ObserveLastEvent (Timestamp ev)] with ([ObserveLastEvent (Timestamp ev)] ++ []).
    by eapply (reaches_step (ClFrame ev)); [|apply reaches_refl]. }
  destruct (if drop c then None else select_done env i) as [ce|] eqn:Ed.
  { intros [= <- <- <- <-]. destruct (drop c) eqn:Edr; [done|]. exists MonStopping. destruct (Hctx i ce Ed) as [Hca _].
    split; [|right; split; [done|by exists i]].
    change (mon_calls _) with ([ObserveLastEvent (Timestamp ev)] ++ []). rewrite <- (app_nil_r evs0).
    eapply reaches_trans; [exact Hsel|]. change (@nil monitor_call) with (@nil monitor_call ++ []).
    eapply (reaches_step ClGiveUp); [|apply reaches_refl]. cbn. by rewrite Edr, Hca. }
  destruct (chan_send ev ch) as [ch1|] eqn:Es; [|destruct (drop c) eqn:Edr].
  - destruct (read_loop fuel env (S i) r1 (set_out ch1 c)) as [[[[tr1 evs1] e1] c1]|] eqn:E; [|done].
    intros [= <- <- <- <-]. destruct (IH _ _ _ _ _ _ _ E) as (pc & Hr & Hl). exists pc. split; [|done].
    change (mon_calls _) with ([ObserveLastEvent (Timestamp ev)] ++ mon_calls tr1). eapply reaches_trans; [exact Hsel|].
    change (mon_calls tr1) with ([] ++ mon_calls tr1). eapply (reaches_step ClSend); [|exact Hr]. cbn. by rewrite Es.
  - destruct (read_loop fuel env (S i) r1 (add_dropped (set_out ch c))) as [[[[tr1 evs1] e1] c1]|] eqn:E; [|done].
    intros [= <- <- <- <-]. destruct (IH _ _ _ _ _ _ _ E) as (pc & Hr & Hl). exists pc. split; [|done].
    change (mon_calls _) with ([ObserveLastEvent (Timestamp ev)] ++ [IncrMonitorDropped] ++ mon_calls tr1).
    eapply reaches_trans; [exact Hsel|]. eapply (reaches_step ClSend); [|exact Hr]. cbn. by rewrite Es, Edr.
  - intros [= <- <- <- <-]. exists (MonSending ev). split; [exact Hsel|by eexists].
Qed.

Lemma runOnce_reaches dial env c tr evs e c' : session_ctx env →
  runOnce dial env c = Some (tr, evs, e, c') →
  ∃ pc, reaches (MonReading, c) (mon_calls tr) evs (pc, c') ∧ left_at env e pc.
Proof.
  intros Hctx. unfold runOnce. destruct (cn ← _; handshake (opts c) cn) as [cn|err|]; [| |done].
  2: { intros [= <- <- <- <-]. exists MonReading. split; [apply reaches_refl|by left]. }
  unfold readLoop. destruct (read_loop _ env 0 (c_reader cn) c) as [[[[tr1 evs1] e1] c1]|] eqn:E; [|done].
  cbn [mbind option_bind]. intros [= <- <- <- <-]. destruct (read_loop_reaches _ _ Hctx _ _ _ _ _ _ _ E) as (pc & Hr & Hl).
  exists pc. split; [|done]. match goal with |- context [MonMetric (SetMonitorConnected true) :: ?t] =>
    change (MonMetric (SetMonitorConnected true) :: t) with ([MonMetric (SetMonitorConnected true)] ++ t) end.
  rewrite !mon_calls_app.
  apply (reaches_trans _ [SetMonitorConnected true] [] (MonReading, c)); [by apply reaches_call; [left|]|].
  rewrite <- (app_nil_r evs1). eapply reaches_trans; [exact Hr|].
  destruct e1 as [err|]; [|apply reaches_refl]. assert (Hpc : pc = MonReading ∨ pc = MonStopping) by (destruct Hl as [?|[? _]]; auto).
  apply (reaches_trans _ [SetMonitorConnected false] [] (pc, c1) [ObserveMonitorSession (lifetime env)]); by apply reaches_call.
Qed.

(** Where the loop of Run leaves the client. *)
Definition run_at (st : run_state) (pc : monitor_pc) : Prop :=
  match st with
  | Returned _ => pc = MonDone
  | StillRunning _ _ => pc = MonReading
  | Stuck => ∃ ev, pc = MonSending ev
  end.

Lemma reaches_return pc c : pc = MonReading ∨ pc = MonStopping → reaches (pc, c) [] [] (MonDone, c).
Proof. intros Hpc. exists [OwnStep ClReturn]. by destruct Hpc as [-> | ->]. Qed.

Lemma Run_reaches rounds : Forall (λ rd, session_ctx (rd_session rd)) rounds → ∀ backoff first c tr evs st c',
  Monitor.Run rounds backoff first c = Some (tr, evs, st, c') →
  ∃ pc, reaches (MonReading, c) (mon_calls tr) evs (pc, c') ∧ run_at st pc.
Proof.
  induction 1 as [|rd rounds Hctx _ IH]; intros backoff first c tr evs st c'; cbn [Monitor.Run].
  { intros [= <- <- <- <-]. exists MonReading. split; [apply reaches_refl|done]. }
  destruct (rd_ctx rd) as [err|]; [intros [= <- <- <- <-]; exists MonDone; split; [apply reaches_return; by left|done]|].
  destruct (if _ : bool then rd_wait rd else None) as [err|];
    [intros [= <- <- <- <-]; exists MonDone; split; [apply reaches_return; by left|done]|].
  set (backoff1 := if _ : bool then _ else backoff). clearbody backoff1.
  destruct (if first then ([], c) else ([MonMetric IncrReconnect], add_reconnection c)) as [tr0 c0] eqn:E0.
  assert (H0 : reaches (MonReading, c) (mon_calls tr0) [] (MonReading, c0)).
  { destruct first; injection E0 as <- <-; [apply reaches_refl|by apply reaches_call; [left|]]. }
  destruct (runOnce (rd_dial rd) (rd_session rd) c0) as [[[[tr1 evs1] e1] c1]|] eqn:E1; [|done]. cbn [mbind option_bind].
  destruct (runOnce_reaches _ _ _ _ _ _ _ Hctx E1) as (pc1 & Hr1 & Hl1).
  assert (H1 : reaches (MonReading, c) (mon_calls (tr0 ++ tr1)) evs1 (pc1, c1))
    by (rewrite mon_calls_app; exact (reaches_trans _ _ [] _ _ _ _ H0 Hr1)).
  destruct e1 as [err|]; [|intros [= <- <- <- <-]; by exists pc1].
  assert (Hpc : pc1 = MonReading ∨ pc1 = MonStopping) by (destruct Hl1 as [?|[? _]]; auto).
  destruct (errors_Is err Canceled || errors_Is err DeadlineExceeded) eqn:Ec.
  { intros [= <- <- <- <-]. exists MonDone. split; [|done]. rewrite <- (app_nil_r (mon_calls _)), <- (app_nil_r evs1).
    eapply reaches_trans; [exact H1|by apply reaches_return]. }
  assert (pc1 = MonReading) as ->.
  { destruct Hl1 as [?|[_ [i Hi]]]; [done|]. destruct (Hctx i err Hi) as [_ Hc]. congruence. }
  clear Hpc Hl1. destruct (gated c1 && negb (rd_active_after rd)).
  - destruct (Monitor.Run rounds backoff1 false c1) as [[[[tr2 evs2] st2] c2]|] eqn:E2; [|done].
    intros [= <- <- <- <-]. destruct (IH _ _ _ _ _ _ _ E2) as (pc & Hr & Hat). exists pc. split; [|done].
    rewrite app_assoc, mon_calls_app. by eapply reaches_trans.
  - destruct (rd_sleep rd) as [ce|].
    + intros [= <- <- <- <-]. exists MonDone. split; [|done]. rewrite app_assoc, mon_calls_app.
      rewrite <- (app_nil_r evs1). eapply reaches_trans; [exact H1|]. by apply reaches_return; left.
    + destruct (Monitor.Run rounds _ false c1) as [[[[tr2 evs2] st2] c2]|] eqn:E2; [|done].
      intros [= <- <- <- <-]. destruct (IH _ _ _ _ _ _ _ E2) as (pc & Hr & Hat). exists pc. split; [|done].
      rewrite app_assoc, mon_calls_app. eapply reaches_trans; [exact H1|exact Hr].
Qed.
End Session.

(** The calls of the client in the history of the registry. *)
Definition monitor_calls (cs : list registry_call) : list monitor_call :=
  omap (λ c, match c with OnMonitor c => Some c | _ => None end) cs.
Lemma monitor_calls_app a b : monitor_calls (a ++ b) = monitor_calls a ++ monitor_calls b.
Proof. apply omap_app. Qed.
Lemma monitor_calls_own cs : monitor_calls (OnMonitor <$> cs) = cs.
Proof. induction cs as [|c cs IH]; [done|]. cbn. by f_equal. Qed.

Lemma client_step_mono b b' l x r :
  (b = true → b' = true) → client_step b l x = Some r → client_step b' l x = Some r.
Proof. destruct x as [[] c], l; cbn; try done. destruct (Monitor.drop c), b; cbn; try done. by intros ->. Qed.

Lemma client_run_mono b b' es : (b = true → b' = true) → ∀ x r, client_run b es x = Some r → client_run b' es x = Some r.
Proof.
  intros Hb. induction es as [|[l|] es IH]; intros x r; cbn [client_run]; [done| |].
  - destruct (client_step b l x) as [[cs x1]|] eqn:Es; [|done]. cbn [mbind option_bind].
    rewrite (client_step_mono b b' l x _ Hb Es). cbn [mbind option_bind].
    destruct (client_run b es x1) as [r1|] eqn:E; [|done]. by rewrite (IH _ _ E).
  - destruct (chan_recv (out x.2)) as [[ev ch]|]; [|done]. cbn [mbind option_bind].
    destruct (client_run b es (x.1, set_out ch x.2)) as [r1|] eqn:E; [|done]. by rewrite (IH _ _ E).
Qed.

(** One more event. *)
Lemma client_run_own b es x cs evs x1 l cs' x2 :
  client_run b es x = Some (cs, evs, x1) → client_step b l x1 = Some (cs', x2) →
  client_run b (es ++ [OwnStep l]) x = Some (cs ++ cs', evs, x2).
Proof.
  revert x cs evs. induction es as [|[l1|] es IH]; intros x cs evs; cbn [app client_run].
  - intros [= <- <- ->] ->. cbn. by rewrite app_nil_r.
  - destruct (client_step b l1 x) as [[cs1 x3]|]; [|done]. cbn [mbind option_bind].
    destruct (client_run b es x3) as [[[cs2 evs2] x4]|] eqn:E; [|done]. intros [= <- <- ->] Hl.
    rewrite (IH _ _ _ E Hl). cbn. by rewrite app_assoc.
  - destruct (chan_recv (out x.2)) as [[ev ch]|]; [|done]. cbn [mbind option_bind].
    destruct (client_run b es _) as [[[cs2 evs2] x4]|] eqn:E; [|done]. intros [= <- <- ->] Hl. by rewrite (IH _ _ _ E Hl).
Qed.
Lemma client_run_received b es x cs evs pc c ev ch :
  client_run b es x = Some (cs, evs, (pc, c)) → chan_recv (out c) = Some (ev, ch) →
  client_run b (es ++ [Received]) x = Some (cs, evs ++ [ev], (pc, set_out ch c)).
Proof.
  revert x cs evs. induction es as [|[l1|] es IH]; intros x cs evs; cbn [app client_run].
  - intros [= <- <- ->]. cbn. by intros ->.
  - destruct (client_step b l1 x) as [[cs1 x3]|]; [|done]. cbn [mbind option_bind].
    destruct (client_run b es x3) as [[[cs2 evs2] x4]|] eqn:E; [|done]. intros [= <- <- ->] Hl. by rewrite (IH _ _ _ E Hl).
  - destruct (chan_recv (out x.2)) as [[ev1 ch1]|]; [|done]. cbn [mbind option_bind].
    destruct (client_run b es _) as [[[cs2 evs2] x4]|] eqn:E; [|done]. intros [= <- <- ->] Hl. by rewrite (IH _ _ _ E Hl).
Qed.

(** What a run of the client has done with the events: parsed, received,
    dropped, queued, or in its hands. *)
Definition is_last_event (c : monitor_call) : bool := match c with ObserveLastEvent _ => true | _ => false end.
Definition is_monitor_drop (c : monitor_call) : bool := match c with IncrMonitorDropped => true | _ => false end.
Definition is_parse_error (c : monitor_call) : bool := match c with IncrParseError => true | _ => false end.
Definition is_reconnect (c : monitor_call) : bool := match c with IncrReconnect => true | _ => false end.
Definition in_hand (pc : monitor_pc) (n : nat) : Prop :=
  match pc with MonReading => n = 0 | MonSending _ => n = 1 | MonStopping | MonDone => n ≤ 1 end.

Record client_accounts (x : monitor_pc * Client) (cs : list monitor_call) (evs : list Event)
    (x' : monitor_pc * Client) : Prop := {
  ca_events : ∀ n, in_hand x.1 n → ∃ n', in_hand x'.1 n' ∧
    count is_last_event cs + length (ch_buf (out x.2)) + n
    = length evs + count is_monitor_drop cs + length (ch_buf (out x'.2)) + n';
  ca_stats : ((Monitor.dropped x.2 + Z.of_nat (count is_monitor_drop cs)) mod 2 ^ 64 = Monitor.dropped x'.2 mod 2 ^ 64 ∧
    (parseEr x.2 + Z.of_nat (count is_parse_error cs)) mod 2 ^ 64 = parseEr x'.2 mod 2 ^ 64 ∧
    (recon x.2 + Z.of_nat (count is_reconnect cs)) mod 2 ^ 64 = recon x'.2 mod 2 ^ 64)%Z
}.

Lemma mod_add_trans a b c m n k : ((a + m) mod k = b mod k → (b + n) mod k = c mod k → (a + (m + n)) mod k = c mod k)%Z.
Proof. intros H1 H2. by rewrite Z.add_assoc, <- Zplus_mod_idemp_l, H1, Zplus_mod_idemp_l. Qed.

Lemma client_accounts_trans x cs1 evs1 x1 cs2 evs2 x2 :
  client_accounts x cs1 evs1 x1 → client_accounts x1 cs2 evs2 x2 →
  client_accounts x (cs1 ++ cs2) (evs1 ++ evs2) x2.
Proof.
  intros [He1 (Hd1 & Hp1 & Hr1)] [He2 (Hd2 & Hp2 & Hr2)]. constructor.
  - intros n Hn. destruct (He1 n Hn) as (n1 & Hn1 & E1). destruct (He2 n1 Hn1) as (n2 & Hn2 & E2).
    exists n2. split; [done|]. rewrite !count_app, length_app. lia.
  - rewrite !count_app, !Nat2Z.inj_add. split_and!; by eapply mod_add_trans.
Qed.

Lemma client_accounts_refl x : client_accounts x [] [] x.
Proof.
  constructor; [intros n Hn; exists n; split; [done|cbn; lia]|]. cbn. by rewrite !Z.add_0_r.
Qed.

Lemma client_accounts_received pc c ev ch :
  chan_recv (out c) = Some (ev, ch) → client_accounts (pc, c) [] [ev] (pc, set_out ch c).
Proof.
  intros (Eb & _)%chan_recv_Some. constructor; [|cbn; by rewrite !Z.add_0_r].
  intros n Hn. exists n. split; [done|]. cbn. rewrite Eb. cbn. lia.
Qed.

Lemma incr64_mod z : (Monitor.incr64 z mod 2 ^ 64 = (z + 1) mod 2 ^ 64)%Z.
Proof. unfold Monitor.incr64. by rewrite Z.mod_mod. Qed.

Lemma client_accounts_call call pc c :
  match call with ObserveLastEvent _ | IncrMonitorDropped => False | _ => True end →
  client_accounts (pc, c) [call] [] (pc, count_call call c).
Proof.
  intros Hc. constructor.
  - intros n Hn. exists n. split; [done|]. destruct call; try done; cbn; lia.
  - destruct call; try done; cbn -[Z.pow Z.modulo Monitor.incr64 Z.add]; by rewrite ?Z.add_0_r, ?incr64_mod.
Qed.

Lemma client_accounts_send b ev c cs x' :
  client_step b ClSend (MonSending ev, c) = Some (cs, x') → client_accounts (MonSending ev, c) cs [] x'.
Proof.
  cbn [client_step]. destruct (chan_send ev (out c)) as [ch|] eqn:E.
  - apply chan_send_Some in E as (Eb & _). intros [= <- <-]. constructor; [|cbn; by rewrite !Z.add_0_r].
    intros n Hn. cbn in Hn. exists 0. split; [done|]. cbn. rewrite Eb, length_app. cbn. lia.
  - destruct (Monitor.drop c); [|done]. intros [= <- <-]. constructor.
    + intros n Hn. cbn in Hn. exists 0. split; [done|]. cbn. lia.
    + cbn -[Z.pow Z.modulo Monitor.incr64 Z.add]. by rewrite !Z.add_0_r, incr64_mod.
Qed.

Lemma client_step_accounts b l x cs x' : client_step b l x = Some (cs, x') → client_accounts x cs [] x'.
Proof.
  destruct x as [pc c]. destruct pc as [|ev| |], l as [ev'|call| | |]; try done; try apply client_accounts_send; cbn [client_step].
  - intros [= <- <-]. constructor; [|cbn; by rewrite !Z.add_0_r]. intros n Hn. cbn in Hn. exists 1. split; [done|cbn; lia].
  - destruct call; try done; intros [= <- <-]; by apply client_accounts_call.
  - intros [= <- <-]. constructor; [|cbn; by rewrite !Z.add_0_r]. intros n Hn. cbn in Hn. exists n. split; cbn; lia.
  - destruct (negb (Monitor.drop c) && b); [|done]. intros [= <- <-]. constructor; [|cbn; by rewrite !Z.add_0_r].
    intros n Hn. cbn in Hn. exists n. split; cbn; lia.
  - destruct call; try done; intros [= <- <-]; by apply client_accounts_call.
  - intros [= <- <-]. constructor; [|cbn; by rewrite !Z.add_0_r]. intros n Hn. exists n. split; [done|cbn; lia].
Qed.

Lemma client_run_accounts b es : ∀ x cs evs x', client_run b es x = Some (cs, evs, x') → client_accounts x cs evs x'.
Proof.
  induction es as [|[l|] es IH]; intros x cs evs x'; cbn [client_run]; [intros [= <- <- <-]; apply client_accounts_refl| |].
  - destruct (client_step b l x) as [[cs1 x1]|] eqn:Es; [|done]. cbn [mbind option_bind].
    destruct (client_run b es x1) as [[[cs2 evs2] x2]|] eqn:E; [|done]. intros [= <- <- <-].
    exact (client_accounts_trans _ _ [] _ _ _ _ (client_step_accounts _ _ _ _ _ Es) (IH _ _ _ _ E)).
  - destruct x as [pc c]. cbn [fst snd]. destruct (chan_recv (out c)) as [[ev ch]|] eqn:Er; [|done]. cbn [mbind option_bind].
    destruct (client_run b es (pc, set_out ch c)) as [[[cs2 evs2] x2]|] eqn:E; [|done]. intros [= <- <- <-].
    exact (client_accounts_trans _ [] [ev] _ _ _ _ (client_accounts_received _ _ _ _ Er) (IH _ _ _ _ E)).
Qed.

(** ** Properties *)

(** C7: the client of the running program is the client of the sessions --
    whatever the dials, the streams, the gate and the waits, when the context
    ends the selects of a session only once it is done and with its own error,
    Run over any number of sessions is a sequence of atomic steps of the client
    and receptions from its channel: the same calls on the registry, the same
    events received and the same client, standing where Run does.  Over all the
    sessions together, every line parsed was received, dropped and counted, is
    in the queue, or is in the hands of the client, and the statistics count the
    calls. *)
Theorem client_runs_sessions `{UnicodeCase} (cancelled : bool) (rounds : list round) (c : Client)
    (tr : list mon_action) (evs : list Event) (st : run_state) (c' : Client) :
  Forall (λ rd, session_ctx cancelled (rd_session rd)) rounds →
  Monitor.start rounds c = Some (tr, evs, st, c') →
  ∃ es pc, client_run cancelled es (MonReading, c) = Some (mon_calls tr, evs, (pc, c')) ∧ run_at st pc ∧
    client_accounts (MonReading, c) (mon_calls tr) evs (pc, c').
Proof.
  intros Hctx Hr. destruct (Run_reaches cancelled rounds Hctx _ _ _ _ _ _ _ Hr) as (pc & [es Hes] & Hat).
  exists es, pc. split_and!; [done..|]. by eapply client_run_accounts.
Qed.

(** Two sessions on the example stream, the first of them refused by the
    server, with a queue of one event that nothing empties. *)
Definition example_rounds : list round :=
  [failed_round (NetError "connection refused");
   mkRound None true None
     (Ok (mkConn (mkReader ("+OK" +:+ CRLF +:+ r_buf example_stream) (Sentinel EOF)) (mkWriter "" None)))
     example_session true None].

Lemma client_runs_sessions_witness :
  ∃ tr evs st c' es, @Monitor.start example_case example_rounds example_client = Some (tr, evs, st, c') ∧
    client_run false es (MonReading, example_client) = Some (mon_calls tr, evs, (MonReading, c')) ∧
    stats c' = mkStats 1 1 1 ∧ length (ch_buf (out c')) = 1 ∧ count is_last_event (mon_calls tr) = 2.
Proof.
  destruct (@Monitor.start example_case example_rounds example_client) as [[[[tr evs] st] c']|] eqn:E; [|discriminate E].
  destruct (@client_runs_sessions example_case false example_rounds example_client tr evs st c') as (es & pc & Hes & Hat & _).
  { apply Forall_cons_2; [|apply Forall_cons_2; [|apply Forall_nil_2]]; intros i ce Hi; discriminate Hi. }
  { exact E. }
  exists tr, evs, st, c', es. vm_compute in E. injection E as <- <- <- <-. cbn in Hat. subst pc.
  split_and!; [reflexivity|exact Hes|reflexivity..].
Defined.
