(* ===== verification/Refinement.v ===== *)
(** * The daemon runs its components ([Run] and [dispatcher.run] of
    [internal/app/app.go])

    The program of Lifecycle against the components it is built from: whatever
    the interleaving, each one went through a sequence of its own sequential
    operations -- those its own file models and proves correct -- and was given
    exactly the events the registry recorded, in order.  What each component
    guarantees then holds of the whole program; the accounts of the events are
    drawn from it. *)

From S2P Require Export Session.

(** ** Lemmas: the components follow their own operations *)

Section Follows.
Context {S : Type} `{Sink S}.

Lemma consumer_run_app ops1 ops2 (c : Consumer S) :
  consumer_run (ops1 ++ ops2) c =
    ('(tr1, c1) ← consumer_run ops1 c; '(tr2, c2) ← consumer_run ops2 c1; Some (tr1 ++ tr2, c2)).
Proof.
  revert c. induction ops1 as [|op ops1 IH]; intros c; cbn [app consumer_run mbind option_bind].
  - by destruct (consumer_run ops2 c) as [[tr2 c2]|].
  - destruct op as [ev|d].
    + destruct (Submit ev c) as [[tr c1]|]; cbn [mbind option_bind]; [|done]. rewrite IH.
      destruct (consumer_run ops1 c1) as [[tr1 c2]|]; cbn [mbind option_bind]; [|done].
      destruct (consumer_run ops2 c2) as [[tr2 c3]|]; cbn [mbind option_bind]; [|done]. by rewrite app_assoc.
    + destruct (chan_recv (c_in c)) as [[ev ch]|]; [|apply IH].
      destruct (writeOne d ev (with_in c ch)) as [tr c1]. rewrite IH.
      destruct (consumer_run ops1 c1) as [[tr1 c2]|]; cbn [mbind option_bind]; [|done].
      destruct (consumer_run ops2 c2) as [[tr2 c3]|]; cbn [mbind option_bind]; [|done]. by rewrite app_assoc.
Qed.

(** The stage of a write only shows in what Sentry is told. *)
Lemma write_event_stage stage stage' d ev (c : Consumer S) :
  (write_event stage d ev c).2 = (write_event stage' d ev c).2.
Proof. unfold write_event. by destruct (sink_Write ev (sink c)) as [[e|] s]. Qed.

(** The consumer of a goroutine: [c1] once its sink is closed. *)
Definition closed (pc : consumer_pc) (c1 : Consumer S) : Consumer S :=
  match pc with ConsDone => (close_sink c1).2 | _ => c1 end.

(** The consumer went from [c0] through submissions of exactly [evs], in
    order, and writes, and was closed if its goroutine is done. *)
Definition consumer_follows (c0 : Consumer S) (evs : list Event) (x : consumer_pc * Consumer S) : Prop :=
  ∃ ops tr c1, consumer_run ops c0 = Some (tr, c1) ∧ x.2 = closed x.1 c1 ∧
    offers (consumer_chan_op <$> ops) = evs.

Lemma consumer_follows_submit c0 evs pc c ev tr c' :
  consumer_follows c0 evs (pc, c) → Submit ev c = Some (tr, c') → consumer_follows c0 (evs ++ [ev]) (pc, c').
Proof.
  intros (ops & tr0 & c1 & Hr & Hc & <-) Hs. cbn [fst snd] in *.
  assert (∃ c1' tr1, Submit ev c1 = Some (tr1, c1') ∧ c' = closed pc c1') as (c1' & tr1 & Hs1 & ->).
  { subst c. unfold closed in *. destruct pc; [by eauto..|]. unfold Submit, close_sink in *.
    destruct (sink_Close (sink c1)) as [err s] eqn:Ecl. cbn [snd c_in c_drop sink c_written c_dropped c_errors failing] in Hs.
    destruct (chan_send ev (c_in c1)) as [ch|]; [|destruct (c_drop c1); [|done]]; injection Hs as <- <-;
      do 2 eexists; (split; [reflexivity|]); cbn; by rewrite Ecl. }
  exists (ops ++ [SubmitOp ev]), (tr0 ++ tr1 ++ []), c1'. rewrite consumer_run_app, Hr. cbn. rewrite Hs1. cbn.
  split_and!; [done|done|]. unfold offers. by rewrite fmap_app, omap_app.
Qed.

Lemma consumer_follows_write c0 evs c stage d ev ch tr err c' :
  consumer_follows c0 evs (ConsRunning, c) → chan_recv (c_in c) = Some (ev, ch) →
  write_event stage d ev (with_in c ch) = (tr, err, c') → consumer_follows c0 evs (ConsRunning, c').
Proof.
  intros (ops & tr0 & c1 & Hr & Hc & <-) Hch Hw. cbn [fst snd closed] in *. subst c1.
  assert (Hc' : (writeOne d ev (with_in c ch)).2 = c').
  { unfold writeOne. pose proof (write_event_stage stage "output.write" d ev (with_in c ch)) as Hs.
    rewrite Hw in Hs. by destruct (write_event "output.write" d ev (with_in c ch)) as [[? ?] ?]. }
  destruct (writeOne d ev (with_in c ch)) as [tr1 c1] eqn:E. cbn [snd] in Hc'. subst c1.
  exists (ops ++ [WriteOp d]), (tr0 ++ tr1 ++ []), c'. rewrite consumer_run_app, Hr. cbn. rewrite Hch, E. cbn.
  split_and!; [done|done|]. unfold offers. by rewrite fmap_app, omap_app, app_nil_r.
Qed.

Lemma consumer_follows_return c0 evs c tr tr' x :
  consumer_follows c0 evs (ConsRunning, c) → Some (consumer_return tr c) = Some (tr', x) →
  consumer_follows c0 evs x.
Proof.
  intros (ops & tr0 & c1 & Hr & Hc & <-). cbn [fst snd closed] in *. subst c1.
  unfold consumer_return. destruct (close_sink c) as [tr1 c'] eqn:E. intros [= <- <-].
  exists ops, tr0, c. cbn [fst snd closed]. by rewrite E.
Qed.

Lemma consumer_follows_step c0 evs b l x tr x' :
  consumer_follows c0 evs x → consumer_step b l x = Some (tr, x') → consumer_follows c0 evs x'.
Proof.
  intros Hf. destruct x as [pc c]. destruct pc, l as [d| |expired d]; cbn [consumer_step]; try done.
  - destruct (chan_recv (c_in c)) as [[ev ch]|] eqn:Ech; [|done]. cbn [mbind option_bind]. unfold writeOne.
    destruct (write_event "output.write" d ev (with_in c ch)) as [[tr1 err] c1] eqn:Ew. intros [= <- <-].
    by eapply consumer_follows_write.
  - destruct b; [|done]. by intros [= <- <-].
  - destruct (chan_recv (c_in c)) as [[ev ch]|] eqn:Ech;
      [|by apply consumer_follows_return].
    destruct expired; [by apply consumer_follows_return|].
    destruct (write_event _ d ev (with_in c ch)) as [[tr1 [err|]] c1] eqn:Ew.
    + apply consumer_follows_return. by eapply consumer_follows_write.
    + intros [= <- <-]. by eapply consumer_follows_write.
Qed.
End Follows.

(** The alert engine went through submissions of exactly [evs]. *)
Definition engine_follows (e0 : Engine) (evs : list Event) (e : Engine) : Prop :=
  ∃ ops handled tr, engine_run ops e0 = Some (handled, tr, e) ∧ submitted ops = evs.

Lemma engine_run_app ops1 ops2 e :
  engine_run (ops1 ++ ops2) e =
    ('(h1, tr1, e1) ← engine_run ops1 e; '(h2, tr2, e2) ← engine_run ops2 e1; Some (h1 ++ h2, tr1 ++ tr2, e2)).
Proof.
  revert e. induction ops1 as [|op ops1 IH]; intros e; cbn [app engine_run mbind option_bind].
  - by destruct (engine_run ops2 e) as [[[h2 tr2] e2]|].
  - destruct op as [ev|now env].
    + destruct (Alert.Submit ev e) as [[e1 tr]|]; cbn [mbind option_bind]; [|done]. rewrite IH.
      destruct (engine_run ops1 e1) as [[[h1 tr1] e2]|]; cbn [mbind option_bind]; [|done].
      destruct (engine_run ops2 e2) as [[[h2 tr2] e3]|]; cbn [mbind option_bind]; [|done]. by rewrite app_assoc.
    + destruct (run_step e now env) as [[tr e1]|]; [destruct (ch_buf (e_in e))|];
        rewrite IH; [done| |done].
      destruct (engine_run ops1 e1) as [[[h1 tr1] e2]|]; cbn [mbind option_bind]; [|done].
      destruct (engine_run ops2 e2) as [[[h2 tr2] e3]|]; cbn [mbind option_bind]; [|done]. by rewrite app_assoc.
Qed.

Lemma engine_follows_submit e0 evs e ev e' tr :
  engine_follows e0 evs e → Alert.Submit ev e = Some (e', tr) → engine_follows e0 (evs ++ [ev]) e'.
Proof.
  intros (ops & h & tr0 & Hr & <-) Hs. exists (ops ++ [Alert.SubmitOp ev]), (h ++ []), (tr0 ++ tr ++ []).
  rewrite engine_run_app, Hr. cbn. rewrite Hs. cbn. split; [done|].
  unfold submitted, offers. by rewrite fmap_app, omap_app.
Qed.

Lemma engine_follows_handle e0 evs e now env tr e' :
  engine_follows e0 evs e → run_step e now env = Some (tr, e') → engine_follows e0 evs e'.
Proof.
  intros (ops & h & tr0 & Hr & <-) Hs.
  assert (∃ ev b, ch_buf (e_in e) = ev :: b) as (ev & b & Hb).
  { unfold run_step, chan_recv in Hs. destruct (ch_buf (e_in e)); [done|eauto]. }
  exists (ops ++ [HandleOp now env]), (h ++ [ev]), (tr0 ++ tr ++ []).
  rewrite engine_run_app, Hr. cbn. rewrite Hs, Hb. cbn. split; [done|].
  unfold submitted, offers. by rewrite fmap_app, omap_app, app_nil_r.
Qed.

Definition checker_follows (c0 c : Checker) : Prop := ∃ probes tr, Role.Run probes c0 = Ok (tr, c).

Lemma checker_follows_probe c0 c dial dur tr c' :
  checker_follows c0 c → probeOnce dial dur c = Ok (tr, c') → checker_follows c0 c'.
Proof.
  intros (probes & tr0 & Hr) Hp. exists (probes ++ [(dial, dur)]). revert c0 tr0 Hr.
  induction probes as [|[dl du] probes IH]; intros c0 tr0 Hr; cbn [app Role.Run] in *.
  - injection Hr as <- <-. rewrite Hp. by eexists.
  - destruct (probeOnce dl du c0) as [[tr1 c1]|e|]; cbn [mbind result_bind] in *; [|discriminate Hr..].
    destruct (Role.Run probes c1) as [[tr2 c2]|e|] eqn:E; cbn [mbind result_bind] in *; [|discriminate Hr..].
    injection Hr as <- <-. destruct (IH c1 tr2 E) as [tr3 ->]. by eexists.
Qed.

(** ** The invariant of the program *)

(** Calls that are neither of the dispatcher nor of the client. *)
Definition silent (cs : list registry_call) : Prop :=
  recorded cs = [] ∧ ignored_calls cs = [] ∧ monitor_calls cs = [].

Lemma silent_outputs tr : silent (output_metrics tr).
Proof.
  destruct (output_metrics_silent tr) as [H1 H2]. split_and!; [done..|]. clear.
  unfold monitor_calls, output_metrics. induction tr as [|[c|err tags] tr IH]; cbn; done.
Qed.
Lemma silent_alerts tr : silent (alert_metrics tr).
Proof.
  destruct (alert_metrics_silent tr) as [H1 H2]. split_and!; [done..|]. clear.
  unfold monitor_calls, alert_metrics. induction tr as [|[] tr IH]; cbn; done.
Qed.
Lemma silent_role now tr : silent (role_metrics now tr).
Proof.
  unfold silent, recorded, ignored_calls, monitor_calls, role_metrics.
  induction tr as [|[] tr (IH1 & IH2 & IH3)]; cbn; by rewrite ?IH1, ?IH2, ?IH3.
Qed.

Section Invariant.
Context `{UnicodeCase} {W : Type} `{WriteCloser W}.
Variable net : string → nat → net_env.
#[local] Existing Instance world_sink.
Implicit Types w : world W.

(** What the dispatcher has recorded but not yet submitted to output [i], or to
    the engine. *)
Definition pending_output (i : nat) w : list Event :=
  match w_disp w with DispOutputs ev k => if k <=? i then [ev] else [] | _ => [] end.
Definition pending_alert w : list Event :=
  match w_disp w with DispOutputs ev _ | DispAlerts ev => [ev] | _ => [] end.

(** The client took steps of its own, and the dispatcher received from its
    channel what it recorded or ignored. *)
Definition source_part (w0 w : world W) : Prop :=
  ∃ es evs, client_run (w_cancelled w) es (w_mon w0) = Some (monitor_calls (w_calls w), evs, w_mon w) ∧
    recorded (w_calls w) = kept (w_ignored w) evs ∧
    ignored_calls (w_calls w) = Command <$> skipped (w_ignored w) evs.

Definition outputs_part (w0 w : world W) : Prop :=
  length (w_outs w) = length (w_outs w0) ∧
  ∀ i x, w_outs w !! i = Some x → ∃ x0 evs, w_outs w0 !! i = Some x0 ∧
    @consumer_follows _ (world_sink net) x0.2 evs x ∧ evs ++ pending_output i w = recorded (w_calls w).

Definition engine_part (w0 w : world W) : Prop :=
  match w_engine w0, w_engine w with
  | Some (_, e0), Some (_, e) => ∃ evs, engine_follows e0 evs e ∧ evs ++ pending_alert w = recorded (w_calls w)
  | None, None => match w_disp w with DispAlerts _ => False | _ => True end
  | _, _ => False
  end.

Definition checker_part (w0 w : world W) : Prop :=
  match w_checker w0, w_checker w with
  | Some (_, c0), Some (_, c) => checker_follows c0 c
  | None, None => True
  | _, _ => False
  end.

Definition world_follows (w0 w : world W) : Prop :=
  source_part w0 w ∧ outputs_part w0 w ∧ engine_part w0 w ∧ checker_part w0 w ∧ w_ignored w = w_ignored w0.

(** Steps that leave what a part is about alone. *)
Definition same_history w w' : Prop :=
  recorded (w_calls w') = recorded (w_calls w) ∧ ignored_calls (w_calls w') = ignored_calls (w_calls w) ∧
  monitor_calls (w_calls w') = monitor_calls (w_calls w).

Lemma same_history_silent w w' cs : silent cs → w_calls w' = w_calls w ++ cs → same_history w w'.
Proof.
  intros (H1 & H2 & H3) Hc. unfold same_history.
  by rewrite Hc, recorded_app, ignored_calls_app, monitor_calls_app, H1, H2, H3, !app_nil_r.
Qed.

Lemma source_part_same w0 w w' :
  w_mon w' = w_mon w → w_ignored w' = w_ignored w → (w_cancelled w = true → w_cancelled w' = true) →
  same_history w w' → source_part w0 w → source_part w0 w'.
Proof.
  unfold source_part. intros -> -> Hc (-> & -> & ->) (es & evs & Hr & Hk & Hs). exists es, evs.
  split; [|done]. eapply client_run_mono; [exact Hc|exact Hr].
Qed.
Lemma outputs_part_same w0 w w' :
  w_outs w' = w_outs w → (∀ i, i < length (w_outs w) → pending_output i w' = pending_output i w) →
  same_history w w' → outputs_part w0 w → outputs_part w0 w'.
Proof.
  unfold outputs_part. intros -> Hp (-> & _ & _) [Hl Ho]. split; [done|]. intros i x Hx.
  destruct (Ho i x Hx) as (x0 & evs & ? & ? & ?). exists x0, evs.
  rewrite Hp by (by eapply lookup_lt_Some). done.
Qed.
Lemma engine_part_same w0 w w' :
  snd <$> w_engine w' = snd <$> w_engine w →
  (w_disp w' = w_disp w ∨ w_disp w = DispSelect ∧ w_disp w' = DispDone) →
  same_history w w' → engine_part w0 w → engine_part w0 w'.
Proof.
  unfold engine_part, pending_alert. intros He Hd (-> & _ & _).
  destruct (w_engine w) as [[r e]|], (w_engine w') as [[r' e']|]; cbn in He; simplify_eq; [|].
  - by destruct Hd as [->|[-> ->]].
  - by destruct Hd as [->|[-> ->]].
Qed.
Lemma checker_part_same w0 w w' :
  snd <$> w_checker w' = snd <$> w_checker w → checker_part w0 w → checker_part w0 w'.
Proof.
  unfold checker_part. intros He.
  by destruct (w_checker w) as [[r e]|], (w_checker w') as [[r' e']|]; cbn in He; simplify_eq.
Qed.

(** A step that only moves a goroutine, or only makes silent calls. *)
Lemma world_follows_frame w0 w w' :
  world_follows w0 w → same_history w w' → (w_cancelled w = true → w_cancelled w' = true) →
  w_mon w' = w_mon w → w_outs w' = w_outs w →
  w_ignored w' = w_ignored w → snd <$> w_engine w' = snd <$> w_engine w →
  snd <$> w_checker w' = snd <$> w_checker w →
  (w_disp w' = w_disp w ∨ w_disp w = DispSelect ∧ w_disp w' = DispDone) → world_follows w0 w'.
Proof.
  intros (Hs & Ho & He & Hc & Hi) Hh Hca Hm Hou Hig Hen Hch Hd. split_and!.
  - by apply (source_part_same w0 w).
  - apply (outputs_part_same w0 w); try done. intros i _. unfold pending_output.
    by destruct Hd as [->|[-> ->]].
  - by apply (engine_part_same w0 w).
  - by apply (checker_part_same w0 w).
  - congruence.
Qed.

Lemma own_calls_silent cs :
  recorded (OnMonitor <$> cs) = [] ∧ ignored_calls (OnMonitor <$> cs) = [].
Proof. induction cs as [|c cs [IH1 IH2]]; [done|]. by split. Qed.

Lemma monitor_step_follows w0 w w' l :
  world_follows w0 w → monitor_step l w = Some w' → world_follows w0 w'.
Proof.
  intros (Hs & Ho & He & Hc & Hi). unfold monitor_step.
  destruct (client_step (w_cancelled w) l (w_mon w)) as [[cs x]|] eqn:Es; [|done]. cbn [mbind option_bind].
  destruct (own_calls_silent cs) as [Hc1 Hc2].
  assert (Hw : world_follows w0 (emit (OnMonitor <$> cs) (set_mon x w))).
  { destruct Hs as (es & evs & Hr & Hk & Hg). split_and!; [| | |done|done].
    - exists (es ++ [OwnStep l]), evs. cbn [w_calls w_ignored w_mon w_cancelled emit set_mon].
      rewrite monitor_calls_app, monitor_calls_own, recorded_app, ignored_calls_app, Hc1, Hc2, !app_nil_r.
      split; [by eapply client_run_own|done].
    - unfold outputs_part in *. cbn [w_outs w_calls emit set_mon]. by rewrite recorded_app, Hc1, app_nil_r.
    - unfold engine_part in *. cbn [w_engine w_calls w_disp emit set_mon]. by rewrite recorded_app, Hc1, app_nil_r. }
  intros [= <-]. destruct l; [exact Hw..|]. by apply (world_follows_frame w0 _ _ Hw); auto.
Qed.

Lemma kept_snoc ign evs ev :
  kept ign (evs ++ [ev]) = kept ign evs ++ (if decide (Command ev ∈ ign) then [] else [ev]) ∧
  skipped ign (evs ++ [ev]) = skipped ign evs ++ (if decide (Command ev ∈ ign) then [ev] else []).
Proof.
  unfold kept, skipped. rewrite !List.filter_app. cbn [List.filter].
  destruct (decide (Command ev ∈ ign)) as [Hi|Hi].
  - by rewrite bool_decide_true.
  - by rewrite bool_decide_false.
Qed.

Lemma dispatcher_take_follows w0 w w' :
  world_follows w0 w → dispatcher_take w = Some w' → world_follows w0 w'.
Proof.
  intros (Hs & Ho & He & Hc & Hi). unfold dispatcher_take. destruct (w_disp w) eqn:Ed; [|done..].
  destruct (chan_recv (out (w_mon w).2)) as [[ev ch]|] eqn:Ech; [|done]. cbn [mbind option_bind].
  destruct Hs as (es & received & Hf & Hr & Hg). destruct (w_mon w) as [pc m] eqn:Em. cbn [fst snd] in *.
  pose proof (client_run_received _ _ _ _ _ _ _ _ _ Hf Ech) as Hf'.
  destruct (kept_snoc (w_ignored w) received ev) as [Hk Hsk].
  cbn [w_ignored set_mon]. destruct (decide (Command ev ∈ w_ignored w)) as [Hig|Hig]; intros [= <-].
  - assert (Hh : recorded (w_calls w ++ [OnIgnored (Command ev)]) = recorded (w_calls w))
      by (by rewrite recorded_app, app_nil_r).
    split_and!; [| | |done|done].
    + exists (es ++ [Received]), (received ++ [ev]). split_and!; cbn [w_calls w_ignored w_mon w_cancelled emit set_mon].
      * by rewrite monitor_calls_app, app_nil_r.
      * by rewrite Hh, Hk, app_nil_r.
      * by rewrite ignored_calls_app, Hsk, fmap_app, Hg.
    + unfold outputs_part, pending_output in *. cbn [w_outs w_calls w_disp emit set_mon]. by rewrite Hh, Ed in *.
    + unfold engine_part, pending_alert in *. cbn [w_engine w_calls w_disp emit set_mon]. by rewrite Hh, Ed in *.
  - assert (Hh : recorded (w_calls w ++ [OnEvent ev]) = recorded (w_calls w) ++ [ev])
      by (by rewrite recorded_app).
    split_and!; [| | |done|done].
    + exists (es ++ [Received]), (received ++ [ev]).
      split_and!; cbn [w_calls w_ignored w_mon w_cancelled emit set_mon set_disp].
      * by rewrite monitor_calls_app, app_nil_r.
      * by rewrite Hh, Hk, Hr.
      * by rewrite ignored_calls_app, Hsk, fmap_app, Hg.
    + destruct Ho as [Hlen Ho]. split; [done|]. intros i x Hx. cbn [w_outs w_calls emit set_mon set_disp] in *.
      destruct (Ho i x Hx) as (x0 & evs & Hx0 & Hfo & Hp). exists x0, evs. split_and!; [done..|].
      unfold pending_output in *. rewrite Ed in Hp. cbn. by rewrite Hh, <- Hp, app_nil_r.
    + unfold engine_part, pending_alert in *. cbn [w_engine w_calls w_disp emit set_mon set_disp]. rewrite Ed in He.
      destruct (w_engine w0) as [[r0 e0]|], (w_engine w) as [[r e]|]; try done.
      destruct He as (evs & He & Hp). exists evs. split; [done|]. by rewrite Hh, <- Hp, app_nil_r.
Qed.

Lemma dispatcher_step_follows w0 w w' :
  world_follows w0 w → dispatcher_step net w = Some w' → world_follows w0 w'.
Proof.
  intros (Hs & Ho & He & Hc & Hi). unfold dispatcher_step. destruct (w_disp w) as [|ev k|ev|] eqn:Ed; [done| | |done].
  - destruct (w_outs w !! k) as [[pc c]|] eqn:Ek.
    + destruct (Submit ev c) as [[tr c']|] eqn:Es; [|done]. cbn [mbind option_bind]. intros [= <-].
      assert (Hh : same_history w (emit (output_metrics tr)
        (set_disp (DispOutputs ev (S k)) (set_consumer k (pc, c') w))))
        by (apply (same_history_silent w _ (output_metrics tr)); [apply silent_outputs|done]).
      split_and!; [by apply (source_part_same w0 w)| | |done|done]; destruct Hh as (Hh1 & _ & _).
      * destruct Ho as [Hlen Ho]. split; [by cbn; rewrite length_insert|].
        intros i x Hx. rewrite Hh1. cbn [w_outs emit set_disp set_consumer] in Hx.
        apply list_lookup_insert_Some in Hx as [(<- & <- & Hk)|[Hne Hx]].
        -- destruct (Ho k _ Ek) as (x0 & evs & Hx0 & Hfo & Hp). exists x0, (evs ++ [ev]).
           split_and!; [done|by eapply consumer_follows_submit|].
           unfold pending_output in *. rewrite Ed in Hp. cbn [w_disp emit set_disp].
           rewrite Nat.leb_refl in Hp. by rewrite (proj2 (Nat.leb_gt _ _)), app_nil_r by lia.
        -- destruct (Ho i x Hx) as (x0 & evs & Hx0 & Hfo & Hp). exists x0, evs. split_and!; [done..|].
           unfold pending_output in *. rewrite Ed in Hp. cbn [w_disp emit set_disp].
           replace (S k <=? i) with (k <=? i); [done|].
           destruct (Nat.leb_spec k i), (Nat.leb_spec (S k) i); (done || lia).
      * unfold engine_part, pending_alert in *. rewrite Hh1. cbn [w_engine w_disp emit set_disp set_consumer].
        by rewrite Ed in He.
    + intros [= <-]. split_and!; [done| | |done|done].
      * apply (outputs_part_same w0 w); try done. intros i Hlt. unfold pending_output. cbn [w_disp set_disp].
        apply lookup_ge_None in Ek. rewrite Ed, (proj2 (Nat.leb_gt k i)) by lia. by destruct (w_engine w).
      * unfold engine_part, pending_alert in *. cbn [w_engine w_disp w_calls set_disp]. rewrite Ed in He.
        by destruct (w_engine w0) as [[r0 e0]|], (w_engine w) as [[r e]|].
  - destruct (w_engine w) as [[r e]|] eqn:Ee; [|done].
    destruct (Alert.Submit ev e) as [[e' tr]|] eqn:Es; [|done]. cbn [mbind option_bind]. intros [= <-].
    assert (Hh : same_history w (emit (alert_metrics tr) (set_disp DispSelect (set_engine (r, e') w))))
      by (apply (same_history_silent w _ (alert_metrics tr)); [apply silent_alerts|done]).
    split_and!; [by apply (source_part_same w0 w)| | |done|done].
    + apply (outputs_part_same w0 w); try done. intros i _. unfold pending_output. by rewrite Ed.
    + destruct Hh as (Hh1 & _ & _). unfold engine_part, pending_alert in *. rewrite Hh1.
      cbn [w_engine w_disp emit set_disp set_engine]. rewrite Ee, Ed in He.
      destruct (w_engine w0) as [[r0 e0]|]; [|done]. destruct He as (evs & He & Hp).
      exists (evs ++ [ev]). rewrite app_nil_r. split; [by eapply engine_follows_submit|done].
Qed.

Lemma outputs_step_follows w0 w w' i l :
  world_follows w0 w → outputs_step net i l w = Some w' → world_follows w0 w'.
Proof.
  intros (Hs & Ho & He & Hc & Hi). unfold outputs_step. destruct (w_outs w !! i) as [x|] eqn:Ex; [|done].
  cbn [mbind option_bind]. destruct (consumer_step (w_cancelled w) l x) as [[tr x']|] eqn:Est; [|done].
  cbn [mbind option_bind]. intros [= <-].
  assert (Hh : same_history w (emit (output_metrics tr) (set_consumer i x' w)))
    by (apply (same_history_silent w _ (output_metrics tr)); [apply silent_outputs|done]).
  split_and!; [by apply (source_part_same w0 w)| |apply (engine_part_same w0 w); auto|done|done].
  destruct Hh as (Hh1 & _ & _). destruct Ho as [Hlen Ho]. split; [by cbn; rewrite length_insert|].
  intros j y Hy. rewrite Hh1. cbn [w_outs emit set_consumer] in Hy.
  apply list_lookup_insert_Some in Hy as [(<- & <- & Hk)|[Hne Hy]]; [|by apply Ho].
  destruct (Ho i x Ex) as (x0 & evs & Hx0 & Hfo & Hp). exists x0, evs.
  split_and!; [done|by eapply consumer_follows_step|done].
Qed.

Lemma engine_handle_follows w0 w w' now env :
  world_follows w0 w → engine_handle now env w = Some w' → world_follows w0 w'.
Proof.
  intros (Hs & Ho & He & Hc & Hi). unfold engine_handle. destruct (w_engine w) as [[[] e]|] eqn:Ee; [|done..].
  destruct (run_step e now env) as [[tr e']|] eqn:Es; [|done]. cbn [mbind option_bind]. intros [= <-].
  assert (Hh : same_history w (emit (alert_metrics tr) (set_engine (true, e') w)))
    by (apply (same_history_silent w _ (alert_metrics tr)); [apply silent_alerts|done]).
  split_and!; [by apply (source_part_same w0 w)|by apply (outputs_part_same w0 w)| |done|done].
  destruct Hh as (Hh1 & _ & _). unfold engine_part, pending_alert in *. rewrite Hh1.
  cbn [w_engine w_disp emit set_engine]. rewrite Ee in He. destruct (w_engine w0) as [[r0 e0]|]; [|done].
  destruct He as (evs & He & Hp). exists evs. split; [by eapply engine_follows_handle|done].
Qed.

Lemma checker_probe_follows w0 w w' dial dur now :
  world_follows w0 w → checker_probe dial dur now w = Some w' → world_follows w0 w'.
Proof.
  intros (Hs & Ho & He & Hc & Hi). unfold checker_probe. destruct (w_checker w) as [[[] c]|] eqn:Ec; [|done..].
  destruct (probeOnce dial dur c) as [[tr c']|e|] eqn:Ep; [|done..]. intros [= <-].
  assert (Hh : same_history w (emit (role_metrics now tr) (set_checker (true, c') w)))
    by (apply (same_history_silent w _ (role_metrics now tr)); [apply silent_role|done]).
  split_and!; [by apply (source_part_same w0 w)|by apply (outputs_part_same w0 w)
    |apply (engine_part_same w0 w); auto| |done].
  unfold checker_part in *. cbn [w_checker emit set_checker]. rewrite Ec in Hc.
  destruct (w_checker w0) as [[r0 c0]|]; [|done]. by eapply checker_follows_probe.
Qed.

(** The other goroutines change nothing that the parts are about. *)
Lemma exec_follows w0 w w' l : world_follows w0 w → exec net l w = Some w' → world_follows w0 w'.
Proof.
  intros Hf. unfold exec. destruct (over w); [done|]. destruct l.
  - unfold signal_step. destruct (w_signals w) as [|[|n]]; [| |done]; intros [= <-];
      by apply (world_follows_frame w0 w); auto.
  - by apply monitor_step_follows.
  - by apply dispatcher_take_follows.
  - by apply dispatcher_step_follows.
  - unfold dispatcher_stop. destruct (w_disp w) eqn:Ed; [|done..]. destruct (w_cancelled w); [|done].
    intros [= <-]. apply (world_follows_frame w0 w); auto. done.
  - by apply outputs_step_follows.
  - by apply engine_handle_follows.
  - unfold engine_stop. destruct (w_engine w) as [[[] e]|] eqn:Ee; [|done..]. destruct (w_cancelled w); [|done].
    intros [= <-]. apply (world_follows_frame w0 w); auto; [done|]. by rewrite Ee.
  - by apply checker_probe_follows.
  - unfold checker_stop. destruct (w_checker w) as [[[] c]|] eqn:Ec; [|done..]. destruct (w_cancelled w); [|done].
    intros [= <-]. apply (world_follows_frame w0 w); auto; [done|]. by rewrite Ec.
  - unfold server_fail. destruct (w_server w) as [[]|]; [|done..]. intros [= <-].
    by apply (world_follows_frame w0 w); auto.
  - unfold server_stop. destruct (w_server w) as [[]|]; [|done..]. destruct (w_cancelled w); [|done].
    intros [= <-]. by apply (world_follows_frame w0 w); auto.
  - unfold main_join. destruct (w_main w); [|done..]. destruct (w_cancelled w); [|done].
    intros [= <-]. by apply (world_follows_frame w0 w); auto.
  - unfold main_return. destruct (w_main w); [done| |done]. destruct (joined w); [|done].
    intros [= <-]. by apply (world_follows_frame w0 w); auto.
Qed.

Lemma launch_follows (a : daemon W) (metrics : bool) : world_follows (launch a metrics) (launch a metrics).
Proof.
  split_and!; [| | | |done].
  - by exists [], [].
  - split; [done|]. intros i x Hx. exists x, []. split_and!; [done| |done].
    cbn [w_outs launch] in Hx. apply list_lookup_fmap_Some in Hx as (c & -> & Hc).
    exists [], [], c. by split_and!.
  - unfold engine_part. cbn. destruct (app_engine a) as [[chs e]|]; cbn; [|done].
    exists []. split; [|done]. by exists [], [], [].
  - unfold checker_part. cbn. destruct (app_checker a) as [c|]; cbn; [|done]. by exists [], [].
Qed.

Lemma reachable_follows (a : daemon W) (metrics : bool) w :
  rtc (step net) (launch a metrics) w → world_follows (launch a metrics) w.
Proof.
  intros Hr. assert (Hall : ∀ w1, world_follows (launch a metrics) w1 → rtc (step net) w1 w →
    world_follows (launch a metrics) w); [|by apply (Hall _ (launch_follows a metrics))].
  intros w1 Hw Hr1. induction Hr1 as [|w1 w2 w3 [l Hl] _ IH]; [done|]. apply IH; [done|]. by eapply exec_follows.
Qed.
End Invariant.

(** ** Lemmas: accounts *)

(** What a consumer has done with the events it was given, modulo the width of
    its counters. *)
Definition handled_total {S} (c : Consumer S) : Z :=
  (c_written c + c_errors c + c_dropped c + Z.of_nat (length (ch_buf (c_in c))))%Z.

Lemma mod_shift (q a b m : Z) : (a = b + q * m → a mod m = b mod m)%Z.
Proof. intros ->. apply Z_mod_plus_full. Qed.
Lemma incr64_shift z : ∃ q, (Output.incr64 z = z + 1 + q * 2 ^ 64)%Z.
Proof. exists (- ((z + 1) / 2 ^ 64))%Z. unfold Output.incr64. rewrite Z.mod_eq by done. lia. Qed.

(** One operation of a consumer: the total counts the submissions. *)
Lemma Submit_total {S} `{Sink S} ev (c : Consumer S) tr c' :
  Submit ev c = Some (tr, c') → (handled_total c' mod 2 ^ 64 = (handled_total c + 1) mod 2 ^ 64)%Z.
Proof.
  unfold Submit, handled_total. destruct (chan_send ev (c_in c)) as [ch|] eqn:Es.
  - intros [= <- <-]. apply chan_send_Some in Es as (Eb & _ & _). cbn [with_in c_written c_errors c_dropped c_in].
    rewrite Eb, length_app. cbn [length]. f_equal. lia.
  - destruct (c_drop c); [|done]. intros [= <- <-]. cbn [c_written c_errors c_dropped c_in].
    destruct (incr64_shift (c_dropped c)) as [q ->]. apply (mod_shift q). lia.
Qed.

Lemma write_event_total {S} `{Sink S} stage d ev ch (c : Consumer S) :
  chan_recv (c_in c) = Some (ev, ch) →
  (handled_total (write_event stage d ev (with_in c ch)).2 mod 2 ^ 64 = handled_total c mod 2 ^ 64)%Z.
Proof.
  intros [Eb _]%chan_recv_Some. unfold write_event, handled_total. cbn [with_in sink].
  destruct (sink_Write ev (sink c)) as [[e|] s]; cbn [snd c_written c_errors c_dropped c_in with_in];
    rewrite Eb; cbn [length].
  - destruct (incr64_shift (c_errors c)) as [q ->]. apply (mod_shift q). lia.
  - destruct (incr64_shift (c_written c)) as [q ->]. apply (mod_shift q). lia.
Qed.

Lemma consumer_run_total {S} `{Sink S} ops : ∀ (c : Consumer S) tr c',
  consumer_run ops c = Some (tr, c') →
  (handled_total c' mod 2 ^ 64
   = (handled_total c + Z.of_nat (length (offers (consumer_chan_op <$> ops)))) mod 2 ^ 64)%Z.
Proof.
  induction ops as [|[ev|d] ops IH]; intros c tr c'; cbn [consumer_run].
  - intros [= <- <-]. cbn. by rewrite Z.add_0_r.
  - destruct (Submit ev c) as [[tr1 c1]|] eqn:Es; [|done]. cbn [mbind option_bind].
    destruct (consumer_run ops c1) as [[tr2 c2]|] eqn:Er; [|done]. intros [= <- <-]. rewrite (IH _ _ _ Er).
    rewrite <- Zplus_mod_idemp_l, (Submit_total _ _ _ _ Es), Zplus_mod_idemp_l. f_equal.
    unfold offers. cbn [fmap list_fmap omap list_omap consumer_chan_op length]. lia.
  - destruct (chan_recv (c_in c)) as [[ev ch]|] eqn:Ec; [|apply IH]. unfold writeOne.
    pose proof (write_event_total "output.write" d ev ch c Ec) as Hw.
    destruct (write_event "output.write" d ev (with_in c ch)) as [[tr1 err] c1].
    destruct (consumer_run ops c1) as [[tr2 c2]|] eqn:Er; [|done]. intros [= <- <-]. rewrite (IH _ _ _ Er).
    rewrite <- Zplus_mod_idemp_l. cbn [snd] in Hw. by rewrite Hw, Zplus_mod_idemp_l.
Qed.

Lemma closed_total {S} `{Sink S} pc (c : Consumer S) : handled_total (closed pc c) = handled_total c.
Proof. destruct pc; [done..|]. unfold closed, close_sink. by destruct (sink_Close (sink c)). Qed.

Lemma kept_skipped_length ign evs : length (kept ign evs) + length (skipped ign evs) = length evs.
Proof.
  unfold kept, skipped. induction evs as [|ev evs IH]; [done|]. cbn [List.filter].
  destruct (bool_decide (Command ev ∈ ign)); cbn [negb length]; lia.
Qed.

Lemma incs_record_other n ign track ev : n ≠ rw "events_processed_total" → incs n [] (record_ops ign track ev) = 0.
Proof.
  intros Hn. unfold record_ops. rewrite incs_app, incs_cons, decide_False by congruence.
  case_decide; [done|]. rewrite incs_app, !incs_cons, !decide_False by congruence.
  destruct (track && _); [|done]. by rewrite incs_cons, decide_False by congruence.
Qed.

(** The counters of the registry that only the client advances. *)
Lemma monitor_counter `{PrometheusLaws M} (ignoredCommands : list string) (track : bool)
    (version commit : string) (start : Z) (cs : list registry_call) (name : string) (hits : monitor_call → bool) :
  (∀ ign c, incs name [] (call_ops ign track c) = match c with OnMonitor m => if hits m then 1 else 0 | _ => 0 end) →
  counter_value (prom (run_calls cs (Metrics.New (M := M) ignoredCommands track version commit start))) name []
  = Z.of_nat (count hits (monitor_calls cs)).
Proof.
  intros Hops.
  destruct (run_calls_prom cs (Metrics.New (M := M) ignoredCommands track version commit start)) as (_ & _ & ->).
  unfold Metrics.New. cbn [ignored trackSourceIP prom]. rewrite !prom_all_counter, counter_new, !incs_cons, !decide_False by done.
  cbn [incs]. change (Z.of_nat 0) with 0%Z. rewrite !Z.add_0_l. f_equal.
  unfold all_ops, monitor_calls. induction cs as [|c cs IH]; [done|]. cbn [mbind list_bind omap list_omap].
  rewrite incs_app, Hops. destruct c; try exact IH. unfold count in *. cbn [List.filter]. by destruct (hits _); cbn [length]; rewrite IH.
Qed.

Lemma monitor_counters `{PrometheusLaws M} (ignoredCommands : list string) (track : bool)
    (version commit : string) (start : Z) (cs : list registry_call) :
  let value name := counter_value (prom (run_calls cs (Metrics.New (M := M) ignoredCommands track version commit start)))
                      (rw name) [] in
  value "monitor_dropped_events_total" = Z.of_nat (count is_monitor_drop (monitor_calls cs)) ∧
  value "parse_errors_total" = Z.of_nat (count is_parse_error (monitor_calls cs)) ∧
  value "monitor_reconnects_total" = Z.of_nat (count is_reconnect (monitor_calls cs)).
Proof.
  split_and!; apply monitor_counter; try done; intros ign [ev|[]|[]|[]|now [| |[] ]|]; try done; apply incs_record_other; done.
Qed.

Section Fresh.
Context `{UnicodeCase} {W : Type} `{WriteCloser W}.
Variables (stdout : W) (open_file : lumberjack_Logger → W) (net : string → nat → net_env).
Variables (regexp_Compile : string → result regexp) (sdk_Init : ClientOptions → option goerror).

Lemma build_consumers_fresh p os : ∀ cs,
  build_consumers stdout open_file p os = Ok cs → Forall (λ c, handled_total c = 0%Z) cs.
Proof.
  induction os as [|o os IH]; intros cs; cbn [build_consumers]; [by intros [= <-]|].
  destruct (Output_Enabled o); cbn [negb]; [|apply IH].
  destruct (build_sink stdout open_file o) as [s|e|]; [|done..]. cbn [mbind result_bind]. unfold NewConsumer.
  destruct (Pipeline_ConsumerBuffer p <? 0)%Z; [done|]. cbn [mbind result_bind].
  destruct (build_consumers stdout open_file p os) as [cs'|e|]; [|done..]. cbn [mbind result_bind].
  intros [= <-]. constructor; [done|by apply IH].
Qed.

(** What Run builds has not seen an event. *)
Lemma build_fresh load version a :
  build stdout open_file net regexp_Compile sdk_Init load version = Ok a →
  stats (app_monitor a) = mkStats 0 0 0 ∧ ch_buf (out (app_monitor a)) = [] ∧
  Forall (λ c, handled_total c = 0%Z) (default [] (app_outputs a)).
Proof.
  intros (cfg & _ & Ec & _ & Er & _)%build_inv. apply build_consumers_fresh in Ec.
  unfold buildRoleChecker in Er. destruct (RoleCheck_Enabled (RoleCheck cfg)); cbn in Er; injection Er as _ <-; done.
Qed.

(** What an output has done with the recorded events, at any time. *)
Lemma output_accounts load version a metrics w i pc c :
  build stdout open_file net regexp_Compile sdk_Init load version = Ok a →
  rtc (step net) (launch a metrics) w → w_outs w !! i = Some (pc, c) →
  ((handled_total c + Z.of_nat (length (pending_output i w))) mod 2 ^ 64
   = Z.of_nat (length (recorded (w_calls w))) mod 2 ^ 64)%Z.
Proof.
  intros Hb Hr Hx. destruct (build_fresh _ _ _ Hb) as (_ & _ & Hfresh). rewrite Forall_lookup in Hfresh.
  apply (reachable_follows net a metrics) in Hr as (_ & [_ Ho] & _).
  destruct (Ho i _ Hx) as (x0 & evs & Hx0 & (ops & tr & c1 & Hrun & Hcl & <-) & <-).
  cbn [w_outs launch fst snd] in *. apply list_lookup_fmap_Some in Hx0 as (c0 & -> & Hc0).
  cbn [snd] in Hrun. apply consumer_run_total in Hrun. rewrite (Hfresh i c0 Hc0) in Hrun.
  subst c. rewrite closed_total, length_app, <- Zplus_mod_idemp_l, Hrun, Zplus_mod_idemp_l. f_equal. lia.
Qed.
End Fresh.

(** ** Properties *)

(** C3: every component runs as its own model says -- in any interleaving of
    the goroutines Run starts on its components, the client has gone through
    steps of its own and receptions of the dispatcher from its channel, the
    events received being recorded in the metrics, or counted as ignored when
    filtered; every output has gone through a sequence of its operations whose
    submissions are exactly the recorded events, in order (but for the one the
    dispatcher is handing over), and so has the alert engine; the role checker
    has gone through a sequence of probes. *)
Theorem daemon_runs_components `{UnicodeCase} {W : Type} `{WriteCloser W} (net : string → nat → net_env)
    (a : daemon W) (metrics : bool) (w : world W) :
  rtc (step net) (launch a metrics) w →
  (∃ es evs, client_run (w_cancelled w) es (MonReading, app_monitor a) = Some (monitor_calls (w_calls w), evs, w_mon w) ∧
     recorded (w_calls w) = kept (app_ignored a) evs ∧
     ignored_calls (w_calls w) = Command <$> skipped (app_ignored a) evs) ∧
  (∀ i pc c, w_outs w !! i = Some (pc, c) → ∃ c0 ops tr c1,
     default [] (app_outputs a) !! i = Some c0 ∧
     @consumer_run _ (world_sink net) ops c0 = Some (tr, c1) ∧ c = @closed _ (world_sink net) pc c1 ∧
     offers (consumer_chan_op <$> ops) ++ pending_output i w = recorded (w_calls w)) ∧
  (∀ r e, w_engine w = Some (r, e) → ∃ chs e0 ops handled tr,
     app_engine a = Some (chs, e0) ∧ engine_run ops e0 = Some (handled, tr, e) ∧
     submitted ops ++ pending_alert w = recorded (w_calls w)) ∧
  (∀ r c, w_checker w = Some (r, c) → ∃ c0 probes tr,
     app_checker a = Some c0 ∧ Role.Run probes c0 = Ok (tr, c)).
Proof.
  intros Hr. apply (reachable_follows net a metrics) in Hr as (Hs & [_ Ho] & He & Hc & Hi).
  split_and!.
  - unfold source_part in Hs. by rewrite Hi in Hs.
  - intros i pc c Hx. destruct (Ho i _ Hx) as (x0 & evs & Hx0 & (ops & tr & c1 & Hrun & Hcl & <-) & Hp).
    cbn [w_outs launch] in Hx0. apply list_lookup_fmap_Some in Hx0 as (c0 & -> & Hc0). by exists c0, ops, tr, c1.
  - intros r e Hx. unfold engine_part in He. rewrite Hx in He. cbn [w_engine launch] in He.
    destruct (app_engine a) as [[chs e0]|]; [|done]. destruct He as (evs & (ops & h & tr & Hrun & <-) & Hp).
    by exists chs, e0, ops, h, tr.
  - intros r c Hx. unfold checker_part in Hc. rewrite Hx in Hc. cbn [w_checker launch] in Hc.
    destruct (app_checker a) as [c0|]; [|done]. destruct Hc as (probes & tr & Hrun). by exists c0, probes, tr.
Qed.

(** C6: the accounts of the whole program -- in any interleaving: modulo the
    width of the counters, what an output has written, failed to write, dropped
    and still holds, with the event the dispatcher may be about to hand it, is
    the value of events_processed_total; the lines parsed are those processed,
    ignored, dropped before the dispatcher, still in the source channel, and at
    most one in the hands of the client; and the client's own statistics are the
    values of its counters in the registry, modulo their width. *)
Theorem daemon_accounts `{UnicodeCase} `{PrometheusLaws M} {W : Type} `{WriteCloser W} (stdout : W)
    (open_file : lumberjack_Logger → W) (net : string → nat → net_env)
    (regexp_Compile : string → result regexp) (sdk_Init : ClientOptions → option goerror)
    (load : result Config) (version : string) (a : daemon W) (metrics : bool) (w : world W)
    (ignoredCommands : list string) (track : bool) (commit : string) (start : Z) :
  build stdout open_file net regexp_Compile sdk_Init load version = Ok a →
  rtc (step net) (launch a metrics) w →
  let reg := run_calls (w_calls w) (Metrics.New (M := M) ignoredCommands track version commit start) in
  let value name := counter_value (prom reg) (rw name) [] in
  (∀ i pc c, w_outs w !! i = Some (pc, c) →
     (c_written c + c_errors c + c_dropped c + Z.of_nat (length (ch_buf (c_in c)))
      + Z.of_nat (length (pending_output i w))) mod 2 ^ 64 = value "events_processed_total" mod 2 ^ 64)%Z ∧
  (∃ unsent, (0 ≤ unsent ≤ 1)%Z ∧
     Z.of_nat (count is_last_event (monitor_calls (w_calls w)))
     = (value "events_processed_total" + Z.of_nat (length (ignored_calls (w_calls w)))
        + value "monitor_dropped_events_total" + Z.of_nat (length (ch_buf (out (w_mon w).2))) + unsent)%Z) ∧
  (Monitor.dropped (w_mon w).2 mod 2 ^ 64 = value "monitor_dropped_events_total" mod 2 ^ 64 ∧
   parseEr (w_mon w).2 mod 2 ^ 64 = value "parse_errors_total" mod 2 ^ 64 ∧
   recon (w_mon w).2 mod 2 ^ 64 = value "monitor_reconnects_total" mod 2 ^ 64)%Z.
Proof.
  intros Hb Hr reg value. destruct (build_fresh _ _ _ _ _ _ _ _ Hb) as (Hst & Hempty & _).
  pose proof (λ i pc c, output_accounts _ _ net _ _ _ _ a metrics w i pc c Hb Hr) as Hout.
  assert (Hp : value "events_processed_total" = Z.of_nat (length (recorded (w_calls w)))) by apply events_processed_counter.
  destruct (monitor_counters ignoredCommands track version commit start (w_calls w)) as (Hdv & Hpv & Hrv).
  apply (reachable_follows net a metrics) in Hr as ((es & evs & Hrun & Hrec & Hig) & _).
  apply client_run_accounts in Hrun as [Hev Hstats]. cbn [w_mon launch fst snd] in *. injection Hst as Hd1 Hp1 Hr1.
  split_and!; [|destruct (Hev 0 eq_refl) as (n & Hn & E)|..].
  - intros i pc c Hx. rewrite Hp. by apply (Hout i pc).
  - exists (Z.of_nat n). split; [destruct (w_mon w).1; cbn in Hn; lia|].
    rewrite Hp. unfold value, reg. rewrite Hdv, Hrec, Hig, length_fmap. rewrite Hempty in E. cbn [length] in E.
    pose proof (kept_skipped_length (w_ignored w) evs). lia.
  - rewrite Hd1 in Hstats. unfold value, reg. rewrite Hdv. symmetry. apply Hstats.
  - rewrite Hp1 in Hstats. unfold value, reg. rewrite Hpv. symmetry. apply Hstats.
  - rewrite Hr1 in Hstats. unfold value, reg. rewrite Hrv. symmetry. apply Hstats.
Qed.

Definition example_net : string → nat → net_env := λ _ _, mkNetEnv None None None.
(** Standard output and a webhook, with queues of one event. *)
Definition example_run_config (drop : bool) : Config :=
  mkConfig (Redis Default) (Log Default) (mkFilter ["PING"]) (RoleCheck Default)
    [mkOutput "stdout" true "json" "" "" 0 0 (mkRotation 0 0 0 false false)]
    (Metrics Default)
    (mkAlerts true ["FLUSHALL"] [] [] (mkRateLimit false 0 0) (mkRetry 1 0 0)
       (mkTelegramConfig false "" "" "" 0 0) (mkWebhookConfig true "https://example.org/hook" "POST" Second ∅)
       (mkPushgatewayConfig false [] "" "" "" 0 ∅))
    (Sentry Default) (mkPipeline 1 1 drop).
Definition example_build (drop : bool) : result (daemon string) :=
  @build example_case string memory_writer "" (λ _, "") example_net any_regexp (λ _, None)
    (Ok (example_run_config drop)) "1.0".
Definition example_trace : list label :=
  [LClient (ClFrame example_event); LClient ClSend; LClient (ClFrame example_net_event); LTake; LDispatch;
   LConsumer 0 (ConsWrite 5); LClient ClSend].

(** A run of it, from the labels of its steps. *)
Definition example_run (drop : bool) (ls : list label) : option (world string) :=
  match example_build drop with
  | Ok a => @exec_all example_case string memory_writer example_net ls (launch a true)
  | _ => None
  end.
Lemma example_run_inv drop ls w :
  example_run drop ls = Some w →
  ∃ a, example_build drop = Ok a ∧
    rtc (@step example_case string memory_writer example_net) (launch a true) w.
Proof.
  unfold example_run. destruct (example_build drop) as [a| |]; [|done..]. intros Hw. exists a.
  split; [done|by apply (exec_all_rtc _ ls)].
Qed.
Definition observed (w : world string) : dispatcher_pc * list consumer_pc * list Event :=
  (w_disp w, fst <$> w_outs w, recorded (w_calls w)).
Lemma example_observed :
  observed <$> example_run true example_trace = Some (DispOutputs example_event 1, [ConsRunning], [example_event]).
Proof. vm_compute. reflexivity. Qed.

Lemma daemon_runs_components_witness :
  ∃ a w c, example_run true example_trace = Some w ∧ w_outs w !! 0 = Some (ConsRunning, c) ∧
    ∃ c0 ops tr, default [] (app_outputs a) !! 0 = Some c0 ∧
      @consumer_run _ (@world_sink example_case string memory_writer example_net) ops c0 = Some (tr, c) ∧
      offers (consumer_chan_op <$> ops) = [example_event].
Proof.
  pose proof example_observed as Hobs. destruct (example_run true example_trace) as [w|] eqn:Ew; [|discriminate Hobs].
  injection Hobs as Hd Hpc Hrec. destruct (example_run_inv _ _ _ Ew) as (a & Ea & Hr).
  destruct (@daemon_runs_components example_case string memory_writer example_net a true w Hr) as (_ & Ho & _).
  destruct (w_outs w) as [|[pc c] [|]] eqn:Eo; [discriminate Hpc| |discriminate Hpc]. injection Hpc as ->.
  exists a, w, c. split_and!; [reflexivity|by rewrite Eo|].
  destruct (Ho 0 ConsRunning c) as (c0 & ops & tr & c1 & H1 & H2 & H3 & H4); [reflexivity|].
  cbn [closed] in H3. subst c1. exists c0, ops, tr. split_and!; [done..|].
  unfold pending_output in H4. rewrite Hd, Hrec in H4. cbn in H4. by rewrite app_nil_r in H4.
Defined.

Lemma daemon_accounts_witness :
  ∃ w c, example_run true example_trace = Some w ∧ w_outs w !! 0 = Some (ConsRunning, c) ∧
    ((c_written c + c_errors c + c_dropped c + Z.of_nat (length (ch_buf (c_in c))) + 0) mod 2 ^ 64 = 1)%Z.
Proof.
  pose proof example_observed as Hobs. destruct (example_run true example_trace) as [w|] eqn:Ew; [|discriminate Hobs].
  injection Hobs as Hd Hpc Hrec. destruct (example_run_inv _ _ _ Ew) as (a & Ea & Hr).
  destruct (@daemon_accounts example_case prom_maps _ _ string memory_writer "" (λ _, "") example_net any_regexp
    (λ _, None) (Ok (example_run_config true)) "1.0" a true w [] false "abc" 0 Ea Hr) as (Ho & _).
  destruct (w_outs w) as [|[pc c] [|]] eqn:Eo; [discriminate Hpc| |discriminate Hpc]. injection Hpc as ->.
  exists w, c. split_and!; [reflexivity|by rewrite Eo|].
  specialize (Ho 0 ConsRunning c eq_refl).
  unfold pending_output in Ho. rewrite Hd, events_processed_counter in Ho. fold (recorded (w_calls w)) in Ho.
  change (events_of (w_calls w)) with (recorded (w_calls w)) in Ho. rewrite Hrec in Ho. exact Ho.
Defined.
