(* ===== verification/Shutdown.v ===== *)
(** * Shutdown ([Run] of [internal/app/app.go], the drain of
    [internal/output/output.go])

    What is left to do once the context is cancelled, over the transition system
    of Lifecycle.  A measure of the events queued or in the hands of a goroutine
    decreases with every step but the inputs (a signal, a line read from the
    MONITOR connection, a role probe), so every run ends; when nothing can
    move, Run has returned, or the dispatcher is stuck on a full queue that
    nobody reads any more, which a configuration that drops excludes and one that
    blocks does not.  The drain of a consumer, one step per event: what it
    delivers, and that it is the loop of Output. *)

From S2P Require Export Refinement.

(** ** The drain, step by step *)

Section Drain.
Context {S : Type} `{Sink S}.
Implicit Types c : Consumer S.

(** The drain and the deferred close of Run. *)
Definition wind_down (expired : nat → bool) (d : nat → duration) c : list out_action * Consumer S :=
  let '(tr2, c2) := drainAfterShutdown expired d c in
  let '(tr3, c3) := close_sink c2 in (tr2 ++ tr3, c3).

Lemma with_in_self c : with_in c (mkChan (ch_buf (c_in c)) (ch_cap (c_in c))) = c.
Proof. by destruct c as [s [b n] ? ? ? ? ?]. Qed.

Lemma write_event_in stage d ev c : c_in (write_event stage d ev c).2 = c_in c.
Proof. unfold write_event. by destruct (sink_Write ev (sink c)) as [[err|] s]. Qed.
Lemma write_event_drop stage d ev c : c_drop (write_event stage d ev c).2 = c_drop c.
Proof. unfold write_event. by destruct (sink_Write ev (sink c)) as [[err|] s]. Qed.
Lemma close_sink_in c : c_in (close_sink c).2 = c_in c ∧ c_drop (close_sink c).2 = c_drop c.
Proof. unfold close_sink. by destruct (sink_Close (sink c)) as [err s]. Qed.

(** The clock of the iterations after the first. *)
Lemma drain_shift queue expired d : ∀ i c,
  drain queue (Datatypes.S i) expired d c
  = drain queue i (λ j, expired (Datatypes.S j)) (λ j, d (Datatypes.S j)) c.
Proof.
  induction queue as [|ev queue IH]; intros i c; cbn [drain]; [done|]. destruct (expired (Datatypes.S i)); [done|].
  destruct (write_event _ _ _ _) as [[tr [err|]] c2]; [done|]. by rewrite IH.
Qed.

(** One iteration. *)
Lemma wind_down_step expired d c :
  wind_down expired d c =
    match chan_recv (c_in c) with
    | None => close_sink c
    | Some (ev, ch) =>
        if expired 0 then close_sink c
        else match write_event "output.write.shutdown" (d 0) ev (with_in c ch) with
             | (tr, Some _, c') => let '(tr', c'') := close_sink c' in (tr ++ tr', c'')
             | (tr, None, c') =>
                 let '(tr', c'') := wind_down (λ j, expired (Datatypes.S j)) (λ j, d (Datatypes.S j)) c' in
                 (tr ++ tr', c'')
             end
    end.
Proof.
  unfold wind_down, drainAfterShutdown, chan_recv. pose proof (with_in_self c) as Hself.
  destruct (ch_buf (c_in c)) as [|ev queue] eqn:Eq; cbn [drain].
  - rewrite Hself. by destruct (close_sink c).
  - destruct (expired 0); [by destruct (close_sink c)|].
    pose proof (write_event_in "output.write.shutdown" (d 0) ev (with_in c (mkChan queue (ch_cap (c_in c))))) as Hin.
    destruct (write_event _ _ _ _) as [[tr [err|]] c2]; cbn [snd] in Hin; [done|].
    rewrite drain_shift, Hin. cbn [with_in c_in ch_buf].
    destruct (drain queue 0 _ _ c2) as [tr2 c3]. destruct (close_sink c3) as [tr3 c4]. by rewrite app_assoc.
Qed.

Lemma consumer_steps_done b ls c tr x :
  consumer_steps b ls (ConsDone, c) = Some (tr, x) → ls = [] ∧ tr = [] ∧ x = (ConsDone, c).
Proof. destruct ls as [|[]]; [|done..]. by intros [= <- <-]. Qed.

(** Nothing follows the return of Run. *)
Lemma return_steps cancelled ls tr0 c0 tr x :
  ('(tr1, x) ← Some (consumer_return tr0 c0); '(tr', x') ← consumer_steps cancelled ls x; Some (tr1 ++ tr', x'))
    = Some (tr, x) →
  ls = [] ∧ tr = tr0 ++ (close_sink c0).1 ∧ x = (ConsDone, (close_sink c0).2).
Proof.
  unfold consumer_return. destruct (close_sink c0) as [tr1 c1]. cbn [mbind option_bind fst snd].
  destruct (consumer_steps cancelled ls (ConsDone, c1)) as [[tr2 y]|] eqn:Es; [|done].
  apply consumer_steps_done in Es as (-> & -> & ->). cbn. intros [= <- <-]. by rewrite app_nil_r.
Qed.

Lemma drain_steps cancelled n : ∀ c expired d, n = length (ch_buf (c_in c)) →
  let '(tr, c') := wind_down expired d c in
  ∃ ls, length ls ≤ Datatypes.S n ∧ consumer_steps cancelled ls (ConsDraining, c) = Some (tr, (ConsDone, c')).
Proof.
  induction n as [|n IH]; intros c expired d En; rewrite wind_down_step.
  - rewrite (proj2 (chan_recv_None _)) by (by apply length_zero_iff_nil).
    destruct (close_sink c) as [tr c'] eqn:Ec. exists [ConsDrain false 0%Z]. split; [done|].
    cbn. rewrite (proj2 (chan_recv_None _)) by (by apply length_zero_iff_nil).
    unfold consumer_return. rewrite Ec. cbn. by rewrite app_nil_r.
  - destruct (chan_recv (c_in c)) as [[ev ch]|] eqn:Er;
      [|apply chan_recv_None in Er; by rewrite Er in En].
    pose proof (chan_recv_Some _ _ _ Er) as [Eb _]. rewrite Eb in En. cbn in En.
    destruct (expired 0) eqn:Ee.
    { destruct (close_sink c) as [tr c'] eqn:Ec. exists [ConsDrain true 0%Z]. split; [cbn; lia|].
      cbn. rewrite Er. unfold consumer_return. rewrite Ec. cbn. by rewrite app_nil_r. }
    destruct (write_event _ (d 0) ev (with_in c ch)) as [[tr [err|]] c2] eqn:Ew.
    + destruct (close_sink c2) as [tr' c'] eqn:Ec. exists [ConsDrain false (d 0)]. split; [cbn; lia|].
      cbn. rewrite Er, Ew. unfold consumer_return. rewrite Ec. cbn. by rewrite app_nil_r.
    + pose proof (write_event_in "output.write.shutdown" (d 0) ev (with_in c ch)) as Hin.
      rewrite Ew in Hin. cbn [snd with_in c_in] in Hin.
      specialize (IH c2 (λ j, expired (Datatypes.S j)) (λ j, d (Datatypes.S j)) ltac:(rewrite Hin; lia)).
      destruct (wind_down _ _ c2) as [tr' c']. destruct IH as (ls & Hl & Hs).
      exists (ConsDrain false (d 0) :: ls). split; [cbn; lia|]. cbn. rewrite Er, Ew. cbn. by rewrite Hs.
Qed.

Lemma steps_drain cancelled ls : ∀ c tr c',
  consumer_steps cancelled ls (ConsDraining, c) = Some (tr, (ConsDone, c')) →
  ∃ expired d, wind_down expired d c = (tr, c').
Proof.
  induction ls as [|l ls IH]; intros c tr c'; [done|]. cbn [consumer_steps].
  destruct l as [d| |e d]; [done..|]. cbn [consumer_step].
  destruct (chan_recv (c_in c)) as [[ev ch]|] eqn:Er.
  - destruct e.
    { intros (_ & -> & [= ->])%return_steps. exists (λ _, true), (λ _, d). rewrite wind_down_step, Er. by destruct (close_sink c). }
    destruct (write_event _ d ev (with_in c ch)) as [[tr1 [err|]] c2] eqn:Ew.
    + intros (_ & -> & [= ->])%return_steps. exists (λ _, false), (λ _, d). rewrite wind_down_step, Er, Ew. by destruct (close_sink c2).
    + cbn [mbind option_bind]. destruct (consumer_steps cancelled ls (ConsDraining, c2)) as [[tr2 x]|] eqn:Es; [|done].
      cbn. intros [= <- ->]. destruct (IH c2 tr2 c' Es) as (ex & ds & Hw).
      exists (λ j, match j with O => false | Datatypes.S j => ex j end),
        (λ j, match j with O => d | Datatypes.S j => ds j end).
      rewrite wind_down_step, Er, Ew. change (wind_down _ _ c2) with (wind_down ex ds c2). by rewrite Hw.
  - intros (_ & -> & [= ->])%return_steps. exists (λ _, false), (λ _, d). rewrite wind_down_step, Er. by destruct (close_sink c).
Qed.

(** The step-by-step drain of the transition system and the loop of
    drainAfterShutdown with the deferred close are the same: whatever the
    deadline and the clock, the loop is a sequence of steps that nobody
    interrupts, at most one per queued event and one to return; and any such
    sequence that ends is the loop, for some deadline and clock. *)
Lemma drain_step_by_step (cancelled : bool) c :
  (∀ expired d, let '(tr, c') := wind_down expired d c in
     ∃ ls, length ls ≤ Datatypes.S (length (ch_buf (c_in c))) ∧
       consumer_steps cancelled ls (ConsDraining, c) = Some (tr, (ConsDone, c'))) ∧
  (∀ ls tr c', consumer_steps cancelled ls (ConsDraining, c) = Some (tr, (ConsDone, c')) →
     ∃ expired d, wind_down expired d c = (tr, c')).
Proof.
  split; [|by intros ls tr c' ?%steps_drain].
  intros expired d. pose proof (drain_steps cancelled _ c expired d eq_refl) as Hd. by destruct (wind_down expired d c).
Qed.

(** What a drain that returned has done with the queue: it gave [written] to
    the sink, all but possibly the last with success, and left the rest. *)
Definition drained_to (ls : list consumer_label) c (tr : list out_action) (c' : Consumer S) : Prop :=
  ∃ c1 tr1 written left n,
    ch_buf (c_in c) = written ++ left ∧ ch_buf (c_in c') = left ∧
    tr = tr1 ++ (close_sink c1).1 ∧ c' = (close_sink c1).2 ∧ sink c1 = sink_after written (sink c) ∧
    ((write_failures written (sink c) = replicate n false ∧ advanced c c1 tr1 n 0 0 ∧
      (left = [] ∨ ∃ d, List.last ls ConsStop = ConsDrain true d)) ∨
     (write_failures written (sink c) = replicate n false ++ [true] ∧ advanced c c1 tr1 n 1 0)).

(** A write of the drain that succeeds, before the rest of it. *)
Lemma drained_to_cons d ev ch tr1 c2 ls tr2 c' c :
  counters_wf c → chan_recv (c_in c) = Some (ev, ch) →
  write_event "output.write.shutdown" d ev (with_in c ch) = (tr1, None, c2) → ls ≠ [] →
  drained_to ls c2 tr2 c' → drained_to (ConsDrain false d :: ls) c (tr1 ++ tr2) c'.
Proof.
  intros Hwf [Eq _]%chan_recv_Some Ew Hls (c1 & tr & written & left & n & Hq & Hl & -> & Hc & Hs & Hd).
  pose proof (write_event_spec "output.write.shutdown" d ev (with_in c ch) Hwf) as Hw. rewrite Ew in Hw.
  destruct Hw as (He & Hs2 & Hi & _ & _ & Ha & _). cbn [with_in sink c_in] in *. rewrite <- He in Ha.
  rewrite bool_decide_false in Ha by (by intros [? ?]). rewrite Hi in Hq.
  exists c1, (tr1 ++ tr), (ev :: written), left, (Datatypes.S n). cbn [write_failures sink_after foldl replicate app].
  rewrite <- He, <- Hs2, bool_decide_false by (by intros [? ?]). rewrite Eq, Hq.
  split; [done|]. split; [done|]. split; [by rewrite app_assoc|]. split; [done|]. split; [done|].
  destruct Hd as [(-> & Hadv & Hend)|(-> & Hadv)]; [left|right].
  - split; [done|]. split; [exact (advanced_trans _ _ _ _ _ _ _ _ _ _ _ Ha Hadv)|]. by destruct ls.
  - split; [done|]. exact (advanced_trans _ _ _ _ _ _ _ _ _ _ _ Ha Hadv).
Qed.

(** The step after which the drain returns. *)
Lemma drained_to_return ls c tr0 c0 written left n :
  ch_buf (c_in c) = written ++ left → ch_buf (c_in c0) = left → sink c0 = sink_after written (sink c) →
  ((write_failures written (sink c) = replicate n false ∧ advanced c c0 tr0 n 0 0 ∧
      (left = [] ∨ ∃ d, List.last ls ConsStop = ConsDrain true d)) ∨
   (write_failures written (sink c) = replicate n false ++ [true] ∧ advanced c c0 tr0 n 1 0)) →
  drained_to ls c (tr0 ++ (close_sink c0).1) (close_sink c0).2.
Proof.
  intros Hq Hl Hs Hd. exists c0, tr0, written, left, n. pose proof (close_sink_in c0) as [-> _]. by split_and!.
Qed.

Lemma steps_drained cancelled ls : ∀ c tr c', counters_wf c →
  consumer_steps cancelled ls (ConsDraining, c) = Some (tr, (ConsDone, c')) → drained_to ls c tr c'.
Proof.
  induction ls as [|l ls IH]; intros c tr c' Hwf; [done|]. cbn [consumer_steps].
  destruct l as [d| |e d]; [done..|]. cbn [consumer_step].
  destruct (chan_recv (c_in c)) as [[ev ch]|] eqn:Er.
  - pose proof (chan_recv_Some _ _ _ Er) as [Eq _]. destruct e.
    { intros (-> & -> & [= ->])%return_steps. apply (drained_to_return _ _ _ _ [] (ev :: ch_buf ch) 0); [done..|].
      left. split; [done|]. split; [by apply advanced_refl|]. right. by exists d. }
    destruct (write_event _ d ev (with_in c ch)) as [[tr1 [err|]] c2] eqn:Ew.
    + intros (-> & -> & [= ->])%return_steps. pose proof (write_event_spec "output.write.shutdown" d ev (with_in c ch) Hwf) as Hw.
      rewrite Ew in Hw. destruct Hw as (He & Hs2 & Hi & _ & _ & Ha & _). cbn [with_in sink c_in] in *.
      rewrite <- He in Ha. rewrite bool_decide_true in Ha by eauto.
      apply (drained_to_return _ _ _ _ [ev] (ch_buf ch) 0); [done|by rewrite Hi|done|]. right.
      split; [|done]. cbn. by rewrite <- He, bool_decide_true by eauto.
    + cbn [mbind option_bind]. destruct (consumer_steps cancelled ls (ConsDraining, c2)) as [[tr2 x]|] eqn:Es; [|done].
      cbn. intros [= <- ->]. eapply drained_to_cons; [done..| |].
      * by intros ->.
      * apply IH; [|done]. pose proof (write_event_spec "output.write.shutdown" d ev (with_in c ch) Hwf) as Hw.
        rewrite Ew in Hw. destruct Hw as (_ & _ & _ & _ & _ & Ha & _). by eapply advanced_wf.
  - intros (-> & -> & [= ->])%return_steps. apply chan_recv_None in Er.
    apply (drained_to_return _ _ _ _ [] [] 0); [done..|]. left. split; [done|]. split; [by apply advanced_refl|by left].
Qed.

(** A drain takes at most one step per event queued and one to return, and can
    always take the next. *)
Lemma steps_bounded cancelled ls : ∀ c tr x,
  consumer_steps cancelled ls (ConsDraining, c) = Some (tr, x) →
  length ls ≤ Datatypes.S (length (ch_buf (c_in c))) ∧
  (x.1 = ConsDraining ∧ length ls ≤ length (ch_buf (c_in c)) ∨ x.1 = ConsDone).
Proof.
  induction ls as [|l ls IH]; intros c tr x; cbn [consumer_steps].
  { intros [= <- <-]. cbn. split; [lia|left]. split; [done|lia]. }
  destruct l as [d| |e d]; [done..|]. cbn [consumer_step].
  destruct (chan_recv (c_in c)) as [[ev ch]|] eqn:Er.
  - pose proof (chan_recv_Some _ _ _ Er) as [Eq _]. rewrite Eq. cbn [length].
    destruct e; [intros (-> & _ & ->)%return_steps; cbn; split; [lia|by right]|].
    pose proof (write_event_in "output.write.shutdown" d ev (with_in c ch)) as Hi.
    destruct (write_event _ d ev (with_in c ch)) as [[tr1 [err|]] c2];
      [intros (-> & _ & ->)%return_steps; cbn; split; [lia|by right]|].
    cbn [mbind option_bind snd with_in c_in] in *.
    destruct (consumer_steps cancelled ls (ConsDraining, c2)) as [[tr2 y]|] eqn:Es; [|done].
    intros [= _ <-]. apply IH in Es. rewrite Hi in Es. intuition lia.
  - intros (-> & _ & ->)%return_steps. cbn. split; [lia|by right].
Qed.

(** C31: the drain of an output delivers its queue -- in the transition system,
    an output that drains can always take its next step, whether or not the
    deadline is taken, and returns after at most one step per queued event and
    one more; when it has returned it has given the sink the first events of its
    queue, in order and each once, every write but possibly the last
    succeeding, and then closed it, with the counters and the metrics saying
    so; the rest stays in the queue, and there is a rest only when the last
    write failed or the last step took the deadline. *)
Theorem drain_delivers (cancelled : bool) c : counters_wf c →
  (∀ ls tr x, consumer_steps cancelled ls (ConsDraining, c) = Some (tr, x) →
     length ls ≤ Datatypes.S (length (ch_buf (c_in c))) ∧
     (x.1 = ConsDraining → ∀ expired d, is_Some (consumer_step cancelled (ConsDrain expired d) x)) ∧
     (length ls = Datatypes.S (length (ch_buf (c_in c))) → x.1 = ConsDone)) ∧
  (∀ ls tr c', consumer_steps cancelled ls (ConsDraining, c) = Some (tr, (ConsDone, c')) →
     ∃ c1 tr1 written left n,
       ch_buf (c_in c) = written ++ left ∧ ch_buf (c_in c') = left ∧
       tr = tr1 ++ (close_sink c1).1 ∧ c' = (close_sink c1).2 ∧ sink c1 = sink_after written (sink c) ∧
       ((write_failures written (sink c) = replicate n false ∧ advanced c c1 tr1 n 0 0 ∧
         (left = [] ∨ ∃ d, List.last ls ConsStop = ConsDrain true d)) ∨
        (write_failures written (sink c) = replicate n false ++ [true] ∧ advanced c c1 tr1 n 1 0))).
Proof.
  intros Hwf. split; [|by intros ls tr c' ?%steps_drained].
  intros ls tr x Hs. pose proof (steps_bounded _ _ _ _ _ Hs) as [Hl Hx]. split; [done|]. split.
  - destruct x as [pc y]. cbn. intros -> e d. cbn. destruct (chan_recv (c_in y)) as [[ev ch]|]; [|by eexists].
    destruct e; [by eexists|]. by destruct (write_event _ d ev (with_in y ch)) as [[? [?|]] ?]; eexists.
  - intros Hn. destruct Hx as [[_ Hx]|Hx]; [lia|done].
Qed.
End Drain.

(** ** The work left *)

(** What the environment decides to give the program. *)
Definition input (l : label) : bool :=
  match l with LSignal | LClient (ClFrame _ | ClCall _) | LProbe _ _ _ => true | _ => false end.

Definition running_work (r : bool) : nat := if r then 1 else 0.
Definition consumer_work {S} (x : consumer_pc * Consumer S) : nat :=
  match x.1 with ConsRunning => 2 | ConsDraining => 1 | ConsDone => 0 end + length (ch_buf (c_in x.2)).
Definition engine_work (x : bool * Engine) : nat := running_work x.1 + length (ch_buf (e_in x.2)).

(** An event on its way through [n] outputs and the alert engine. *)
Definition event_work (n : nat) : nat := 2 * n + 4.
Definition monitor_work (n : nat) (x : monitor_pc * Client) : nat :=
  match x.1 with MonReading | MonStopping => 1 | MonSending _ => 2 + event_work n | MonDone => 0 end
  + length (ch_buf (out x.2)) * event_work n.
Definition dispatcher_work (n : nat) (d : dispatcher_pc) : nat :=
  match d with
  | DispSelect => 1
  | DispOutputs _ k => event_work (n - k)
  | DispAlerts _ => 3
  | DispDone => 0
  end.
Definition main_work (m : main_pc) : nat :=
  match m with MainWaiting => 2 | MainJoining => 1 | MainReturned => 0 end.

Definition work {W} (w : world W) : nat :=
  let n := length (w_outs w) in
  monitor_work n (w_mon w) + dispatcher_work n (w_disp w) + sum_list_with consumer_work (w_outs w)
  + from_option engine_work 0 (w_engine w) + from_option (running_work ∘ fst) 0 (w_checker w)
  + from_option running_work 0 (w_server w) + main_work (w_main w).

Lemma sum_list_with_insert {A} (f : A → nat) (l : list A) i x y :
  l !! i = Some x → sum_list_with f (<[i := y]> l) + f x = sum_list_with f l + f y.
Proof.
  revert i. induction l as [|z l IH]; intros [|i] Hx; cbn in *; [done|done| |].
  { injection Hx as ->. lia. }
  rewrite <- !Nat.add_assoc. f_equal. exact (IH i Hx).
Qed.

Section ConsumerWork.
Context {S : Type} `{Sink S}.

Lemma consumer_work_submit ev (c : Consumer S) tr c' pc :
  Submit ev c = Some (tr, c') → consumer_work (pc, c') ≤ Datatypes.S (consumer_work (pc, c)).
Proof.
  unfold Submit, consumer_work. destruct (chan_send ev (c_in c)) as [ch|] eqn:E.
  - intros [= _ <-]. apply chan_send_Some in E as (Eb & _). cbn. rewrite Eb, length_app. cbn. lia.
  - destruct (c_drop c); [|done]. intros [= _ <-]. cbn. lia.
Qed.

Lemma consumer_work_return tr0 (c : Consumer S) tr x :
  Some (consumer_return tr0 c) = Some (tr, x) → consumer_work x = length (ch_buf (c_in c)).
Proof.
  unfold consumer_return. pose proof (close_sink_in c) as [Hin _]. destruct (close_sink c) as [tr1 c1].
  intros [= _ <-]. cbn in *. by rewrite Hin.
Qed.

Lemma consumer_work_step b l (x : consumer_pc * Consumer S) tr x' :
  consumer_step b l x = Some (tr, x') → consumer_work x' < consumer_work x.
Proof.
  destruct x as [pc c]. destruct pc, l as [d| |e d]; cbn [consumer_step]; try done.
  - destruct (chan_recv (c_in c)) as [[ev ch]|] eqn:E; [|done]. apply chan_recv_Some in E as [Eb _].
    cbn [mbind option_bind]. unfold writeOne.
    pose proof (write_event_in "output.write" d ev (with_in c ch)) as Hin.
    destruct (write_event _ d ev (with_in c ch)) as [[tr1 err] c1]. intros [= _ <-].
    unfold consumer_work. cbn in *. rewrite Hin, Eb. cbn. lia.
  - destruct b; [|done]. intros [= _ <-]. unfold consumer_work. cbn. lia.
  - destruct (chan_recv (c_in c)) as [[ev ch]|] eqn:E.
    + apply chan_recv_Some in E as [Eb _].
      destruct e; [intros ->%consumer_work_return; unfold consumer_work; cbn; lia|].
      pose proof (write_event_in "output.write.shutdown" d ev (with_in c ch)) as Hin.
      destruct (write_event _ d ev (with_in c ch)) as [[tr1 [err|]] c1]; cbn [snd with_in c_in] in Hin.
      * intros ->%consumer_work_return. unfold consumer_work. cbn. rewrite Hin, Eb. cbn. lia.
      * intros [= _ <-]. unfold consumer_work. cbn. rewrite Hin, Eb. cbn. lia.
    + intros ->%consumer_work_return. unfold consumer_work. cbn. lia.
Qed.

End ConsumerWork.

Lemma engine_work_submit ev e e' tr r :
  Alert.Submit ev e = Some (e', tr) → engine_work (r, e') ≤ S (engine_work (r, e)) ∧ Alert.drop e' = Alert.drop e.
Proof.
  unfold Alert.Submit, engine_work. destruct (chan_send ev (e_in e)) as [ch|] eqn:E.
  - intros [= <- _]. apply chan_send_Some in E as (Eb & _). cbn. rewrite Eb, length_app. cbn. split; [lia|done].
  - destruct (Alert.drop e) eqn:Ed; [|done]. intros [= <- _]. cbn. split; [lia|done].
Qed.

Lemma engine_work_handle e now env tr e' r :
  run_step e now env = Some (tr, e') → engine_work (r, e') < engine_work (r, e) ∧ Alert.drop e' = Alert.drop e.
Proof.
  unfold run_step. destruct (chan_recv (e_in e)) as [[ev ch]|] eqn:E; [|done]. apply chan_recv_Some in E as [Eb _].
  intros [= Hh]. match type of Hh with handle ?e1 _ _ _ = _ => pose proof (handle_keeps e1 now env ev) as (Hin & Hd & _) end.
  rewrite Hh in Hin, Hd. cbn [snd e_in Alert.drop] in Hin, Hd. unfold engine_work. cbn. rewrite Hin, Eb. cbn. split; [lia|done].
Qed.
Section Termination.
Context `{UnicodeCase} {W : Type} `{WriteCloser W}.
Variable net : string → nat → net_env.
#[local] Existing Instance world_sink.
Implicit Types w : world W.

Lemma client_work_step n b l x cs x' :
  client_step b l x = Some (cs, x') → input (LClient l) = false → monitor_work n x' < monitor_work n x.
Proof.
  destruct x as [pc c]. destruct pc as [|ev| |], l; cbn [client_step]; try done; intros Hs _.
  - injection Hs as _ <-. unfold monitor_work. cbn. lia.
  - destruct (chan_send ev (out c)) as [ch|] eqn:E; [|destruct (Monitor.drop c); [|done]]; injection Hs as _ <-;
      unfold monitor_work, event_work; cbn; [|lia].
    apply chan_send_Some in E as (-> & _). rewrite length_app. cbn. nia.
  - destruct (negb (Monitor.drop c) && b); [|done]. injection Hs as _ <-. unfold monitor_work, event_work. cbn. lia.
  - injection Hs as _ <-. unfold monitor_work. cbn. lia.
Qed.

Lemma monitor_step_work l w w' : monitor_step l w = Some w' → input (LClient l) = false → work w' < work w.
Proof.
  unfold monitor_step. intros Hw Hl.
  destruct (client_step (w_cancelled w) l (w_mon w)) as [[cs x]|] eqn:Es; [|done]. cbn [mbind option_bind] in Hw.
  apply (client_work_step (length (w_outs w))) in Es; [|done]. injection Hw as <-. destruct l; unfold work; cbn; lia.
Qed.

Lemma dispatcher_take_work w w' : dispatcher_take w = Some w' → work w' < work w.
Proof.
  unfold dispatcher_take. destruct (w_disp w) eqn:Ed; [|done..].
  destruct (chan_recv (out (w_mon w).2)) as [[ev ch]|] eqn:E; [|done]. apply chan_recv_Some in E as [Eb _].
  cbn [mbind option_bind].
  destruct (decide _); intros [= <-]; unfold work, monitor_work; cbn; rewrite Ed, Eb, ?Nat.sub_0_r; cbn; unfold event_work; lia.
Qed.

Lemma dispatcher_step_work w w' : dispatcher_step net w = Some w' → work w' < work w.
Proof.
  unfold dispatcher_step. destruct (w_disp w) as [|ev k|ev|] eqn:Ed; [done| | |done].
  - destruct (w_outs w !! k) as [[pc c]|] eqn:Ek.
    + destruct (Submit ev c) as [[tr c']|] eqn:Es; [|done]. cbn [mbind option_bind]. intros [= <-].
      apply (consumer_work_submit _ _ _ _ pc) in Es. apply lookup_lt_Some in Ek as Hlt.
      pose proof (sum_list_with_insert consumer_work _ _ _ (pc, c') Ek). unfold work. cbn.
      rewrite length_insert, Ed. cbn. unfold event_work. lia.
    + apply lookup_ge_None in Ek. intros [= <-]. unfold work. cbn. rewrite Ed. cbn.
      rewrite (proj2 (Nat.sub_0_le _ _) Ek). unfold event_work.
      destruct (w_engine w); cbn; lia.
  - destruct (w_engine w) as [[r e]|] eqn:Ee; [|done].
    destruct (Alert.Submit ev e) as [[e' tr]|] eqn:Es; [|done]. cbn [mbind option_bind]. intros [= <-].
    apply (engine_work_submit _ _ _ _ r) in Es as [Es _]. unfold work. cbn. rewrite Ed, Ee. cbn. lia.
Qed.

Lemma outputs_step_work i l w w' : outputs_step net i l w = Some w' → work w' < work w.
Proof.
  unfold outputs_step. destruct (w_outs w !! i) as [x|] eqn:Ei; [|done]. cbn [mbind option_bind].
  destruct (consumer_step (w_cancelled w) l x) as [[tr x']|] eqn:Es; [|done]. cbn [mbind option_bind]. intros [= <-].
  apply consumer_work_step in Es. pose proof (sum_list_with_insert consumer_work _ _ _ x' Ei).
  unfold work. cbn. rewrite length_insert. lia.
Qed.

Lemma engine_handle_work now env w w' : engine_handle now env w = Some w' → work w' < work w.
Proof.
  unfold engine_handle. destruct (w_engine w) as [[[|] e]|] eqn:Ee; [|done..].
  destruct (run_step e now env) as [[tr e']|] eqn:Es; [|done]. cbn [mbind option_bind]. intros [= <-].
  apply (engine_work_handle _ _ _ _ _ true) in Es as [Es _]. unfold work. cbn [w_engine set_engine emit]. rewrite Ee. cbn in *. lia.
Qed.

(** Every step but the inputs uses work up. *)
Lemma exec_work l w w' : exec net l w = Some w' → input l = false → work w' < work w.
Proof.
  unfold exec. destruct (over w); [done|]. destruct l; intros Hw Hi; try discriminate Hi.
  - by eapply monitor_step_work.
  - by apply dispatcher_take_work.
  - by apply dispatcher_step_work.
  - unfold dispatcher_stop in Hw. destruct (w_disp w) eqn:Ed; [|done..]. destruct (w_cancelled w); [|done].
    injection Hw as <-. unfold work. cbn. rewrite Ed. cbn. lia.
  - by eapply outputs_step_work.
  - by eapply engine_handle_work.
  - unfold engine_stop in Hw. destruct (w_engine w) as [[[|] e]|] eqn:Ee; [|done..]. destruct (w_cancelled w); [|done].
    injection Hw as <-. unfold work. cbn. rewrite Ee. cbn. unfold engine_work, running_work. cbn. lia.
  - unfold checker_stop in Hw. destruct (w_checker w) as [[[|] e]|] eqn:Ee; [|done..]. destruct (w_cancelled w); [|done].
    injection Hw as <-. unfold work. cbn. rewrite Ee. cbn. lia.
  - unfold server_fail in Hw. destruct (w_server w) as [[|]|] eqn:Ee; [|done..].
    injection Hw as <-. unfold work. cbn. rewrite Ee. cbn. lia.
  - unfold server_stop in Hw. destruct (w_server w) as [[|]|] eqn:Ee; [|done..]. destruct (w_cancelled w); [|done].
    injection Hw as <-. unfold work. cbn. rewrite Ee. cbn. lia.
  - unfold main_join in Hw. destruct (w_main w) eqn:Ee; [|done..]. destruct (w_cancelled w); [|done].
    injection Hw as <-. unfold work. cbn. rewrite Ee. cbn. lia.
  - unfold main_return in Hw. destruct (w_main w) eqn:Ee; [done| |done]. destruct (joined w); [|done].
    injection Hw as <-. unfold work. cbn. rewrite Ee. cbn. lia.
Qed.

Lemma exec_all_work ls : ∀ w w', exec_all net ls w = Some w' → forallb (negb ∘ input) ls = true → length ls + work w' ≤ work w.
Proof.
  induction ls as [|l ls IH]; intros w w'; cbn [exec_all forallb]; [intros [= ->]; cbn; lia|].
  destruct (exec net l w) as [w1|] eqn:E; [|done]. cbn [mbind option_bind]. intros Hw [Hl Hls]%andb_prop.
  apply negb_true_iff in Hl. apply exec_work in E; [|done]. specialize (IH w1 w' Hw Hls). cbn [length]. lia.
Qed.

(** ** What can still move *)

(** The dispatcher waits for room in a queue whose reader has returned. *)
Definition hung w : Prop :=
  match w_disp w with
  | DispOutputs ev k =>
      ∃ c, w_outs w !! k = Some (ConsDone, c) ∧ c_drop c = false ∧ chan_send ev (c_in c) = None
  | DispAlerts ev => ∃ e, w_engine w = Some (false, e) ∧ Alert.drop e = false ∧ chan_send ev (e_in e) = None
  | _ => False
  end.

Definition can_move w : Prop := ∃ l, input l = false ∧ is_Some (exec net l w).

(** The engine the dispatcher submits to is there. *)
Definition alerts_wired w : Prop := match w_disp w, w_engine w with DispAlerts _, None => False | _, _ => True end.

Lemma forallb_false_lookup {A} (f : A → bool) (l : list A) :
  forallb f l = false → ∃ i x, l !! i = Some x ∧ f x = false.
Proof.
  induction l as [|x l IH]; cbn [forallb]; [done|]. destruct (f x) eqn:E; [|by exists 0, x].
  intros (i & y & ? & ?)%IH. by exists (S i), y.
Qed.

Lemma monitor_moves w : over w = false → w_cancelled w = true → (w_mon w).1 ≠ MonDone → can_move w.
Proof.
  intros Ho Hc. unfold can_move, exec, monitor_step. rewrite Ho, Hc. destruct (w_mon w) as [[|ev| |] c] eqn:Em; intros Hd; [| | |done].
  - exists (LClient ClReturn). by split; [|eexists].
  - destruct (chan_send ev (out c)) as [ch|] eqn:Es; [|destruct (Monitor.drop c) eqn:Ed].
    + exists (LClient ClSend). cbn. rewrite Es. by split; [|eexists].
    + exists (LClient ClSend). cbn. rewrite Es, Ed. by split; [|eexists].
    + exists (LClient ClGiveUp). cbn. rewrite Ed. by split; [|eexists].
  - exists (LClient ClReturn). by split; [|eexists].
Qed.

Lemma outputs_move w :
  over w = false → w_cancelled w = true →
  forallb (λ x : consumer_pc * Consumer (any_sink W), match x.1 with ConsDone => true | _ => false end) (w_outs w) = false →
  can_move w.
Proof.
  intros Ho Hc (i & [pc c] & Hi & Hx)%forallb_false_lookup. unfold can_move, exec. rewrite Ho.
  destruct pc; [| |done].
  - exists (LConsumer i ConsStop). unfold outputs_step. rewrite Hi, Hc. cbn. by split; [|eexists].
  - exists (LConsumer i (ConsDrain true 0%Z)). unfold outputs_step. rewrite Hi. cbn.
    split; [done|]. unfold consumer_return.
    destruct (chan_recv (c_in c)) as [[ev ch]|]; destruct (@close_sink _ (world_sink net) c) as [tr c']; cbn; by eexists.
Qed.

(** Everybody else having returned, the dispatcher moves unless it hangs. *)
Lemma dispatcher_moves w :
  over w = false → w_cancelled w = true → alerts_wired w → w_disp w ≠ DispDone →
  forallb (λ x : consumer_pc * Consumer (any_sink W), match x.1 with ConsDone => true | _ => false end) (w_outs w) = true →
  match w_engine w with Some (r, _) => negb r | None => true end = true →
  can_move w ∨ hung w.
Proof.
  intros Ho Hc Hw Hd Hall He. unfold can_move, exec, hung, alerts_wired in *. rewrite Ho.
  destruct (w_disp w) as [|ev k|ev|] eqn:Ed; [| | |done].
  - left. exists LDispatchStop. unfold dispatcher_stop. rewrite Ed, Hc. by split; [|eexists].
  - destruct (w_outs w !! k) as [[pc c]|] eqn:Ek.
    + assert (pc = ConsDone) as ->.
      { rewrite forallb_forall in Hall. specialize (Hall (pc, c) (proj1 (list_elem_of_In _ _) (list_elem_of_lookup_2 _ _ _ Ek))).
        by destruct pc. }
      destruct (@Submit _ (world_sink net) ev c) as [[tr c']|] eqn:Es.
      * left. exists LDispatch. unfold dispatcher_step. rewrite Ed, Ek, Es. by split; [|eexists].
      * right. exists c. unfold Submit in Es. destruct (chan_send ev (c_in c)) eqn:E; [done|].
        by destruct (c_drop c).
    + left. exists LDispatch. unfold dispatcher_step. rewrite Ed, Ek. by split; [|eexists].
  - destruct (w_engine w) as [[r e]|] eqn:Ee; [|done]. apply negb_true_iff in He as ->.
    destruct (Alert.Submit ev e) as [[e' tr]|] eqn:Es.
    + left. exists LDispatch. unfold dispatcher_step. rewrite Ed, Ee, Es. by split; [|eexists].
    + right. exists e. unfold Alert.Submit in Es. destruct (chan_send ev (e_in e)) eqn:E; [done|].
      by destruct (Alert.drop e).
Qed.

Lemma cancelled_moves w :
  over w = false → w_cancelled w = true → alerts_wired w → can_move w ∨ hung w.
Proof.
  intros Ho Hc Hw. destruct (joined w) eqn:Hj.
  - left. unfold can_move, exec. rewrite Ho. unfold over in Ho. destruct (w_main w) eqn:Em; [| |done].
    + exists LMainJoin. unfold main_join. rewrite Em, Hc. by split; [|eexists].
    + exists LMainReturn. unfold main_return. rewrite Em, Hj. by split; [|eexists].
  - unfold joined in Hj. destruct (w_mon w).1 eqn:Em;
      [left; apply monitor_moves; congruence..|].
    destruct (w_engine w) as [[[|] e]|] eqn:Ee;
      [left; exists LEngineStop; unfold exec, engine_stop; rewrite Ho, Ee, Hc; by split; [|eexists]|..];
    (destruct (w_checker w) as [[[|] c]|] eqn:Ec;
      [left; exists LCheckerStop; unfold exec, checker_stop; rewrite Ho, Ec, Hc; by split; [|eexists]|..]);
    (destruct (w_server w) as [[|]|] eqn:Es;
      [left; exists LServerStop; unfold exec, server_stop; rewrite Ho, Es, Hc; by split; [|eexists]|..]);
    (destruct (forallb _ (w_outs w)) eqn:Eo; [|left; by apply outputs_move]);
    (apply dispatcher_moves; try done; [intros Ed; by rewrite Ed in Hj|by rewrite Ee]).
Qed.

(** ** What a shutdown keeps *)

Lemma exec_flags l w w' :
  exec net l w = Some w' → w_cancelled w = true →
  w_cancelled w' = true ∧ (input l = false → w_exited w' = w_exited w).
Proof.
  unfold exec. destruct (over w); [done|]. intros Hw Hc. destruct l; revert Hw.
  - unfold signal_step. destruct (w_signals w) as [|[|n]]; by intros [= <-].
  - unfold monitor_step. destruct (client_step _ l (w_mon w)) as [[cs x]|]; [|done]. destruct l; by intros [= <-].
  - unfold dispatcher_take. destruct (w_disp w); try done. destruct (chan_recv _) as [[ev ch]|]; [|done]. cbn.
    destruct (decide _); by intros [= <-].
  - unfold dispatcher_step. destruct (w_disp w) as [|ev k|ev|]; try done.
    + destruct (w_outs w !! k) as [[pc c]|]; [destruct (Submit ev c) as [[tr c']|]|]; by intros [= <-].
    + destruct (w_engine w) as [[r e]|]; [destruct (Alert.Submit ev e) as [[e' tr]|]|]; by intros [= <-].
  - unfold dispatcher_stop. destruct (w_disp w); rewrite ?Hc; by intros [= <-].
  - unfold outputs_step. destruct (w_outs w !! i) as [x|]; [|done]. cbn [mbind option_bind].
    destruct (consumer_step _ l x) as [[tr x']|]; by intros [= <-].
  - unfold engine_handle. destruct (w_engine w) as [[[] e]|]; try done. destruct (run_step e now env) as [[tr e']|]; by intros [= <-].
  - unfold engine_stop. destruct (w_engine w) as [[[] e]|]; rewrite ?Hc; by intros [= <-].
  - unfold checker_probe. destruct (w_checker w) as [[[] c]|]; try done. destruct (probeOnce dial dur c) as [[tr c']| |]; by intros [= <-].
  - unfold checker_stop. destruct (w_checker w) as [[[] e]|]; rewrite ?Hc; by intros [= <-].
  - unfold server_fail. destruct (w_server w) as [[]|]; by intros [= <-].
  - unfold server_stop. destruct (w_server w) as [[]|]; rewrite ?Hc; by intros [= <-].
  - unfold main_join. destruct (w_main w); rewrite ?Hc; by intros [= <-].
  - unfold main_return. destruct (w_main w), (joined w); by intros [= <-].
Qed.

Lemma exec_all_flags ls : ∀ w w',
  exec_all net ls w = Some w' → forallb (negb ∘ input) ls = true → w_cancelled w = true →
  w_cancelled w' = true ∧ w_exited w' = w_exited w.
Proof.
  induction ls as [|l ls IH]; intros w w'; cbn [exec_all forallb]; [by intros [= ->]|].
  destruct (exec net l w) as [w1|] eqn:E; [|done]. cbn [mbind option_bind]. intros Hw [Hl Hls]%andb_prop Hc.
  apply negb_true_iff in Hl. destruct (exec_flags l w w1 E Hc) as [Hc1 Hx1].
  destruct (IH w1 w' Hw Hls Hc1) as [Hc2 Hx2]. by rewrite Hx2, Hx1.
Qed.
End Termination.

(** ** The queues keep the policy of the configuration *)

Lemma consumer_run_drop {S} `{Sink S} ops : ∀ (c : Consumer S) tr c',
  consumer_run ops c = Some (tr, c') → c_drop c' = c_drop c.
Proof.
  induction ops as [|[ev|d] ops IH]; intros c tr c'; cbn [consumer_run]; [by intros [= _ <-]| |].
  - destruct (Submit ev c) as [[tr1 c1]|] eqn:Es; [|done]. cbn [mbind option_bind].
    destruct (consumer_run ops c1) as [[tr2 c2]|] eqn:E; [|done]. intros [= _ <-]. rewrite (IH _ _ _ E).
    unfold Submit in Es. destruct (chan_send ev (c_in c)); [by injection Es as _ <-|].
    destruct (c_drop c) eqn:Ed; [|done]. by injection Es as _ <-.
  - destruct (chan_recv (c_in c)) as [[ev ch]|] eqn:Ech; [|apply IH].
    pose proof (write_event_drop "output.write" d ev (with_in c ch)) as Hd. unfold writeOne.
    destruct (write_event _ d ev (with_in c ch)) as [[tr1 err] c1]. cbn [snd with_in c_drop] in Hd.
    destruct (consumer_run ops c1) as [[tr2 c2]|] eqn:E; [|done]. intros [= _ <-]. by rewrite (IH _ _ _ E).
Qed.

Lemma closed_drop {S} `{Sink S} pc (c : Consumer S) : c_drop (closed pc c) = c_drop c.
Proof. destruct pc; cbn; [done..|apply close_sink_in]. Qed.

Lemma engine_run_drop ops : ∀ e h tr e', engine_run ops e = Some (h, tr, e') → Alert.drop e' = Alert.drop e.
Proof.
  induction ops as [|[ev|now env] ops IH]; intros e h tr e'; cbn [engine_run]; [by intros [= _ _ <-]| |].
  - destruct (Alert.Submit ev e) as [[e1 tr1]|] eqn:Es; [|done]. cbn [mbind option_bind].
    destruct (engine_run ops e1) as [[[h2 tr2] e2]|] eqn:E; [|done]. intros [= _ _ <-]. rewrite (IH _ _ _ _ E).
    by apply (engine_work_submit _ _ _ _ true) in Es as [_ ->].
  - destruct (run_step e now env) as [[tr1 e1]|] eqn:Es; [|apply IH].
    apply (engine_work_handle _ _ _ _ _ true) in Es as [_ Hd]. destruct (ch_buf (e_in e)); [apply IH|].
    destruct (engine_run ops e1) as [[[h2 tr2] e2]|] eqn:E; [|done]. intros [= _ _ <-]. by rewrite (IH _ _ _ _ E).
Qed.

Section Policy.
Context `{UnicodeCase} {W : Type} `{WriteCloser W}.
Variables (stdout : W) (open_file : lumberjack_Logger → W) (net : string → nat → net_env).
Variables (regexp_Compile : string → result regexp) (sdk_Init : ClientOptions → option goerror).
#[local] Existing Instance world_sink.

Lemma build_consumers_drop p os : ∀ cs,
  build_consumers stdout open_file p os = Ok cs → Forall (λ c, c_drop c = Pipeline_DropOnFull p) cs.
Proof.
  induction os as [|o os IH]; intros cs; cbn [build_consumers]; [by intros [= <-]|].
  destruct (Output_Enabled o); cbn [negb]; [|apply IH].
  destruct (build_sink stdout open_file o) as [s|e|]; [|done..]. cbn [mbind result_bind]. unfold NewConsumer.
  destruct (Pipeline_ConsumerBuffer p <? 0)%Z; [done|]. cbn [mbind result_bind].
  destruct (build_consumers stdout open_file p os) as [cs'|e|]; [|done..]. cbn [mbind result_bind].
  intros [= <-]. constructor; [done|by apply IH].
Qed.

Lemma buildAlertEngine_drop cfg chs e :
  buildAlertEngine regexp_Compile cfg = Ok (Some (chs, e)) → Alert.drop e = Pipeline_DropOnFull (Pipeline cfg).
Proof.
  unfold buildAlertEngine, Alert.New. destruct (negb _); [done|]. destruct (build_channels _); [done|].
  destruct (compile_patterns _ _) as [l0| |]; [|done..]. by intros [= _ <-].
Qed.

(** A queue the dispatcher waits on was configured to block. *)
Lemma hung_blocks cfg version (a : daemon W) metrics w :
  build stdout open_file net regexp_Compile sdk_Init (Ok cfg) version = Ok a →
  rtc (step net) (launch a metrics) w → hung w → Pipeline_DropOnFull (Pipeline cfg) = false.
Proof.
  intros Hb Hr. apply build_inv in Hb as (cfg' & [= <-] & Ec & Ee & _).
  apply (reachable_follows net a metrics) in Hr as (_ & [_ Ho] & He & _).
  unfold hung. destruct (w_disp w) as [|ev k|ev|]; try done.
  - intros (c & Hk & Hdr & _). destruct (Ho k _ Hk) as (x0 & evs & Hx0 & (ops & tr & c1 & Hrun & Hcl & _) & _).
    cbn [w_outs launch snd fst] in *. apply list_lookup_fmap_Some in Hx0 as (c0 & -> & Hc0).
    apply build_consumers_drop in Ec. rewrite Forall_lookup in Ec. rewrite <- (Ec k c0 Hc0), <- Hdr, Hcl, closed_drop.
    symmetry. by eapply consumer_run_drop.
  - intros (e & Hk & Hdr & _). unfold engine_part in He. rewrite Hk in He. cbn [w_engine launch] in He.
    destruct (app_engine a) as [[chs e0]|]; [|done]. destruct He as (evs & (ops & h & tr & Hrun & _) & _).
    apply engine_run_drop in Hrun. rewrite <- (buildAlertEngine_drop _ _ _ Ee). cbn in Hrun. congruence.
Qed.

Lemma reachable_wired (a : daemon W) metrics w :
  rtc (step net) (launch a metrics) w → alerts_wired w.
Proof.
  intros Hr. apply (reachable_follows net a metrics) in Hr as (_ & _ & He & _).
  unfold engine_part, alerts_wired in *. destruct (w_engine w) as [[r e]|], (w_engine (launch a metrics)) as [[r0 e0]|];
    try done; by destruct (w_disp w).
Qed.
End Policy.

(** Where everybody stands. *)
Definition standing {W} (w : world W) :=
  (w_cancelled w, w_signals w, w_exited w, w_main w, (w_mon w).1, w_disp w, fst <$> w_outs w,
   (λ x, (x.1, e_in x.2, Alert.drop x.2)) <$> w_engine w, fst <$> w_checker w, w_server w).

(** Everybody but the dispatcher and Run has returned, and the dispatcher
    waits for room in the queue of the engine. *)
Lemma stuck_on_alerts `{UnicodeCase} {W : Type} `{WriteCloser W} (net : string → nat → net_env) (w : world W) ev pcs ch checker server :
  standing w = (true, 1, false, MainJoining, MonDone, DispAlerts ev, pcs, Some (false, ch, false), checker, server) →
  Forall (λ pc, pc = ConsDone) pcs → chan_send ev ch = None → checker ≠ Some true → server ≠ Some true →
  hung w ∧ ∀ l, is_Some (exec net l w) → l = LSignal.
Proof.
  intros [= Hc Hsig Hx Hm Hmon Hd Ho He Hck Hsv] Hall Hfull Hck' Hsv'.
  destruct (w_engine w) as [[r e]|] eqn:Ee; [|discriminate He]. injection He as -> Hch Hdrop.
  assert (Hs : Alert.Submit ev e = None) by (unfold Alert.Submit; by rewrite Hch, Hfull, Hdrop).
  split; [unfold hung; rewrite Hd, Ee; exists e; by rewrite Hch|].
  intros l. unfold exec, over. rewrite Hm, Hx. destruct (w_mon w) as [pc mc] eqn:Em. cbn in Hmon. subst pc.
  destruct l; intros [w' Hw]; [done|exfalso; revert Hw..].
  - unfold monitor_step. rewrite Em. by destruct l.
  - unfold dispatcher_take. by rewrite Hd.
  - unfold dispatcher_step. by rewrite Hd, Ee, Hs.
  - unfold dispatcher_stop. by rewrite Hd.
  - unfold outputs_step. destruct (w_outs w !! i) as [[pc c]|] eqn:Ei; [|done]. rewrite Forall_lookup in Hall.
    rewrite (Hall i pc); [by destruct l|]. by rewrite <- Ho, list_lookup_fmap, Ei.
  - unfold engine_handle. by rewrite Ee.
  - unfold engine_stop. by rewrite Ee.
  - unfold checker_probe. destruct (w_checker w) as [[[] c]|]; cbn in Hck; congruence.
  - unfold checker_stop. destruct (w_checker w) as [[[] c]|]; cbn in Hck; congruence.
  - unfold server_fail. destruct (w_server w) as [[]|]; congruence.
  - unfold server_stop. destruct (w_server w) as [[]|]; congruence.
  - unfold main_join. by rewrite Hm.
  - unfold main_return, joined. by rewrite Hm, Em, Hd.
Qed.

(** Two events, a signal between the second being taken and being handed to the
    alert engine, whose queue still holds the first when its goroutine returns. *)
Definition hang_trace : list label :=
  [LClient (ClFrame example_event); LClient ClSend; LTake; LDispatch; LDispatch; LDispatch; LClient (ClFrame example_event); LClient ClSend; LTake;
   LSignal; LConsumer 0 ConsStop; LConsumer 0 (ConsDrain false 5); LConsumer 0 (ConsDrain false 5); LDispatch; LDispatch;
   LEngineStop; LCheckerStop; LServerStop; LClient ClReturn; LMainJoin].
Lemma hang_standing :
  standing <$> example_run false hang_trace =
    Some (true, 1, false, MainJoining, MonDone, DispAlerts example_event, [ConsDone],
          Some (false, mkChan [example_event] 1, false), Some false, Some false).
Proof. vm_compute. reflexivity. Qed.

(** ** Properties *)

(** C4: shutdowns end -- once the context is cancelled, and as long as no input
    comes, the goroutines take at most [work w] steps, and at every point of
    the way Run has returned, or some goroutine can move, or the dispatcher
    waits for room in a queue whose reader has returned, which takes a
    configuration with drop_on_full=false: with it true, no maximal run fails
    to end with the return of Run. *)
Theorem shutdown_terminates `{UnicodeCase} {W : Type} `{WriteCloser W} (stdout : W)
    (open_file : lumberjack_Logger → W) (net : string → nat → net_env)
    (regexp_Compile : string → result regexp) (sdk_Init : ClientOptions → option goerror)
    (cfg : Config) (version : string) (a : daemon W) (metrics : bool) (w w' : world W) (ls : list label) :
  build stdout open_file net regexp_Compile sdk_Init (Ok cfg) version = Ok a →
  rtc (step net) (launch a metrics) w → w_cancelled w = true → w_exited w = false →
  exec_all net ls w = Some w' → forallb (negb ∘ input) ls = true →
  length ls + work w' ≤ work w ∧
  (w_main w' = MainReturned ∨ (∃ l, input l = false ∧ is_Some (exec net l w')) ∨
   (hung w' ∧ Pipeline_DropOnFull (Pipeline cfg) = false)).
Proof.
  intros Hb Hr Hc Hx Hls Hin. split; [by apply (exec_all_work net)|].
  destruct (exec_all_flags net _ _ _ Hls Hin Hc) as [Hc' Hx']. rewrite Hx in Hx'.
  assert (Hr' : rtc (step net) (launch a metrics) w') by (etrans; [done|by eapply exec_all_rtc]).
  destruct (over w') eqn:Ho.
  { left. unfold over in Ho. destruct (w_main w'); congruence. }
  destruct (cancelled_moves net w' Ho Hc') as [Hm|Hh]; [by eapply reachable_wired|by right; left|].
  right; right. split; [done|by eapply hung_blocks].
Qed.

(** C9: with drop_on_full=false a shutdown may never end -- a run of a daemon
    with such a configuration reaches a state, after the first signal, where the
    dispatcher waits for room in the queue of the alert engine, whose goroutine
    has returned: Run waits for the dispatcher, no step is left but a second
    signal, and that one exits with status 1. *)
Theorem shutdown_hangs : ∃ cfg (a : daemon string) w,
  Pipeline_DropOnFull (Pipeline cfg) = false ∧
  @build example_case string memory_writer "" (λ _, "") example_net any_regexp (λ _, None) (Ok cfg) "1.0" = Ok a ∧
  rtc (@step example_case string memory_writer example_net) (launch a true) w ∧
  w_cancelled w = true ∧ w_main w = MainJoining ∧ hung w ∧
  (∀ l, is_Some (@exec example_case string memory_writer example_net l w) → l = LSignal) ∧
  (∀ w', @exec example_case string memory_writer example_net LSignal w = Some w' → w_exited w' = true).
Proof.
  pose proof hang_standing as Hs. destruct (example_run false hang_trace) as [w|] eqn:Ew; [|discriminate Hs].
  apply (inj Some) in Hs. destruct (example_run_inv _ _ _ Ew) as (a & Ea & Hr).
  destruct (@stuck_on_alerts example_case string memory_writer example_net w _ _ _ _ _ Hs) as [Hh Hl];
    [by repeat constructor|done..|].
  injection Hs as Hc Hsig Hx Hm _ _ _ _ _ _. exists (example_run_config false), a, w.
  split_and!; [reflexivity|exact Ea|exact Hr|exact Hc|exact Hm|exact Hh|exact Hl|].
  intros w'. unfold exec, over, signal_step. rewrite Hm, Hx, Hsig. by intros [= <-].
Qed.

(** Signalled while an event is on its way: the whole shutdown. *)
Definition cancel_trace : list label := [LClient (ClFrame example_event); LClient ClSend; LTake; LDispatch; LSignal].
Definition stop_trace : list label :=
  [LMainJoin; LClient ClReturn; LConsumer 0 ConsStop; LDispatch; LConsumer 0 (ConsDrain false 5); LConsumer 0 (ConsDrain false 5);
   LEngineStop; LDispatch; LDispatchStop; LCheckerStop; LServerStop; LMainReturn].
Definition example_stop (w : world string) : option (world string) :=
  @exec_all example_case string memory_writer example_net stop_trace w.
Lemma example_cancelled :
  (λ w, (w_cancelled w, w_exited w, work w)) <$> example_run true cancel_trace = Some (true, false, 13).
Proof. vm_compute. reflexivity. Qed.
Lemma example_stopped :
  (λ w, (w_main w, work w)) <$> (example_run true cancel_trace ≫= example_stop) = Some (MainReturned, 1).
Proof. vm_compute. reflexivity. Qed.

Lemma shutdown_terminates_witness :
  ∃ w w', example_run true cancel_trace = Some w ∧ example_stop w = Some w' ∧ w_main w' = MainReturned ∧
    length stop_trace + work w' ≤ work w.
Proof.
  pose proof example_cancelled as Hc. pose proof example_stopped as Hs.
  destruct (example_run true cancel_trace) as [w|] eqn:Ew; [|discriminate Hc].
  injection Hc as Hc Hx _. cbn [mbind option_bind] in Hs.
  destruct (example_stop w) as [w'|] eqn:Ew'; [|discriminate Hs]. injection Hs as Hm _.
  destruct (example_run_inv _ _ _ Ew) as (a & Ea & Hr). exists w, w'.
  destruct (@shutdown_terminates example_case string memory_writer "" (λ _, "") example_net any_regexp
    (λ _, None) (example_run_config true) "1.0" a true w w' stop_trace Ea Hr Hc Hx Ew' eq_refl) as [Hb _].
  split_and!; [reflexivity|exact Ew'|exact Hm|exact Hb].
Defined.

(** A consumer with two events queued, the deadline passing before the second. *)
Definition example_left : Consumer (any_sink string) :=
  mkConsumer (AStdout (NewStdoutSink "" "json")) (mkChan [example_event; example_net_event] 4) 0 0 0 false true.
Lemma drain_delivers_witness :
  ∃ tr c', @consumer_steps _ (@world_sink example_case string memory_writer example_net) true
      [ConsDrain false 5%Z; ConsDrain true 0%Z] (ConsDraining, example_left) = Some (tr, (ConsDone, c')) ∧
    ch_buf (c_in c') = [example_net_event] ∧
    ∃ c1 tr1 written, [example_event; example_net_event] = written ++ [example_net_event] ∧
      tr = tr1 ++ (@close_sink _ (@world_sink example_case string memory_writer example_net) c1).1 ∧
      sink c1 = @sink_after _ (@world_sink example_case string memory_writer example_net) written (sink example_left).
Proof.
  destruct (@drain_delivers _ (@world_sink example_case string memory_writer example_net) true example_left) as [_ Hd];
    [repeat split; vm_compute; done|].
  destruct (@consumer_steps _ (@world_sink example_case string memory_writer example_net) true
    [ConsDrain false 5%Z; ConsDrain true 0%Z] (ConsDraining, example_left)) as [[tr [pc c']]|] eqn:E;
    [|vm_compute in E; discriminate E].
  assert (Hp : pc = ConsDone ∧ ch_buf (c_in c') = [example_net_event]) by (vm_compute in E; injection E as <- <- <-; done).
  destruct Hp as [-> Hw]. destruct (Hd _ _ _ E) as (c1 & tr1 & written & left & n & H1 & H2 & H3 & H4 & H5 & _).
  exists tr, c'. split; [reflexivity|]. split; [exact Hw|]. rewrite Hw in H2. subst left.
  exists c1, tr1, written. split; [exact H1|]. split; [exact H3|exact H5].
Defined.
