(* ===== verification/Delivery.v ===== *)
(** * What a shutdown delivers ([drainAfterShutdown] of
    [internal/output/output.go] under [Run] of [internal/app/app.go])

    An output drains its queue when the context is done and returns as soon as
    it finds it empty; the dispatcher returns when its select takes the context.
    Nothing orders the two.  When the dispatcher returns first, an output that
    drains loses nothing but what a failing write or the deadline leaves; when
    it does not, an event may reach a queue that nobody reads any more. *)

From S2P Require Export Shutdown.

(** ** Lemmas: outputs once the dispatcher has returned *)

Section Drained.
Context {S : Type} `{Sink S}.

(** The drain has emptied the queue, or a write of it failed. *)
Definition drained (x : consumer_pc * Consumer S) : Prop :=
  x.1 = ConsDone → ch_buf (c_in x.2) = [] ∨ failing x.2 = true.

Lemma close_sink_failing (c : Consumer S) : failing (close_sink c).2 = failing c.
Proof. unfold close_sink. by destruct (sink_Close (sink c)). Qed.

Lemma consumer_step_drained b l x tr x' :
  (∀ d, l ≠ ConsDrain true d) → consumer_step b l x = Some (tr, x') → drained x'.
Proof.
  intros Hl. destruct x as [pc c]. destruct pc, l as [d| |e d]; try done; cbn [consumer_step].
  - destruct (chan_recv (c_in c)) as [[ev ch]|]; [|done]. cbn [mbind option_bind].
    destruct (writeOne d ev (with_in c ch)) as [tr1 c1]. by intros [= <- <-].
  - destruct b; [|done]. by intros [= <- <-].
  - unfold consumer_return. destruct (chan_recv (c_in c)) as [[ev ch]|] eqn:Er.
    + destruct e; [by destruct (Hl d)|].
      destruct (write_event _ d ev (with_in c ch)) as [[tr1 [err|]] c1] eqn:Ew; [|by intros [= <- <-]].
      pose proof (close_sink_failing c1) as Hf. destruct (close_sink c1) as [tr2 c2]. intros [= <- <-] _. right.
      cbn [fst snd] in *. rewrite Hf. unfold write_event in Ew. destruct (sink_Write ev _) as [[e|] s]; [|done].
      by injection Ew as _ _ <-.
    + pose proof (close_sink_in c) as Hin. destruct (close_sink c) as [tr2 c2]. intros [= <- <-] _. left.
      cbn [fst snd] in *. rewrite (proj1 Hin). unfold chan_recv in Er. by destruct (ch_buf (c_in c)).
Qed.
End Drained.

Section Orderly.
Context `{UnicodeCase} {W : Type} `{WriteCloser W}.
Variable net : string → nat → net_env.
#[local] Existing Instance world_sink.
Implicit Types w : world W.

(** The select of a drain of output [i] never takes the deadline. *)
Definition patient (i : nat) (l : label) : Prop := ∀ d, l ≠ LConsumer i (ConsDrain true d).

(** Only its own goroutine still touches an output. *)
Lemma exec_dispatched l w w' i (x : consumer_pc * Consumer (any_sink W)) :
  exec net l w = Some w' → w_disp w = DispDone → w_outs w !! i = Some x →
  w_disp w' = DispDone ∧ ∃ x', w_outs w' !! i = Some x' ∧
    (x' = x ∨ ∃ cl tr, l = LConsumer i cl ∧ @consumer_step _ (world_sink net) (w_cancelled w) cl x = Some (tr, x')).
Proof.
  unfold exec. intros He Hd Hx. destruct (over w); [done|].
  assert (Hkeep : w_disp w' = w_disp w → w_outs w' = w_outs w → w_disp w' = DispDone ∧ ∃ x', w_outs w' !! i = Some x' ∧
    (x' = x ∨ ∃ cl tr, l = LConsumer i cl ∧ @consumer_step _ (world_sink net) (w_cancelled w) cl x = Some (tr, x'))).
  { intros -> ->. split; [done|]. exists x. auto. }
  destruct l as [|l| | | |j cl|now env| |dial dur now| | | | |].
  - unfold signal_step in He. destruct (w_signals w) as [|[|n]]; [| |done]; injection He as <-; by apply Hkeep.
  - unfold monitor_step in He. destruct (client_step _ l _) as [[cs y]|]; [|done]. injection He as <-.
    apply Hkeep; by destruct l.
  - unfold dispatcher_take in He. by rewrite Hd in He.
  - unfold dispatcher_step in He. by rewrite Hd in He.
  - unfold dispatcher_stop in He. by rewrite Hd in He.
  - unfold outputs_step in He. destruct (w_outs w !! j) as [y|] eqn:Ey; [|done]. cbn [mbind option_bind] in He.
    destruct (consumer_step (w_cancelled w) cl y) as [[tr y']|] eqn:Es; [|done]. injection He as <-.
    split; [done|]. cbn [w_outs emit set_consumer]. destruct (decide (j = i)) as [->|Hne].
    + rewrite Hx in Ey. injection Ey as <-. exists y'. rewrite list_lookup_insert_eq by (by eapply lookup_lt_Some).
      split; [done|]. right. by exists cl, tr.
    + exists x. rewrite list_lookup_insert_ne by done. auto.
  - unfold engine_handle in He. destruct (w_engine w) as [[[] e]|]; [|done..].
    destruct (run_step e now env) as [[tr e']|]; [|done]. injection He as <-. by apply Hkeep.
  - unfold engine_stop in He. destruct (w_engine w) as [[[] e]|]; [|done..]. destruct (w_cancelled w); [|done].
    injection He as <-. by apply Hkeep.
  - unfold checker_probe in He. destruct (w_checker w) as [[[] c]|]; [|done..].
    destruct (probeOnce dial dur c) as [[tr c']|e|]; [|done..]. injection He as <-. by apply Hkeep.
  - unfold checker_stop in He. destruct (w_checker w) as [[[] c]|]; [|done..]. destruct (w_cancelled w); [|done].
    injection He as <-. by apply Hkeep.
  - unfold server_fail in He. destruct (w_server w) as [[]|]; [|done..]. injection He as <-. by apply Hkeep.
  - unfold server_stop in He. destruct (w_server w) as [[]|]; [|done..]. destruct (w_cancelled w); [|done].
    injection He as <-. by apply Hkeep.
  - unfold main_join in He. destruct (w_main w); [|done..]. destruct (w_cancelled w); [|done].
    injection He as <-. by apply Hkeep.
  - unfold main_return in He. destruct (w_main w); [done| |done]. destruct (joined w); [|done].
    injection He as <-. by apply Hkeep.
Qed.

Lemma exec_all_drained ls : ∀ w w' i (x : consumer_pc * Consumer (any_sink W)),
  exec_all net ls w = Some w' → w_disp w = DispDone → w_outs w !! i = Some x → drained x → Forall (patient i) ls →
  w_disp w' = DispDone ∧ ∃ x', w_outs w' !! i = Some x' ∧ drained x'.
Proof.
  induction ls as [|l ls IH]; intros w w' i x; cbn [exec_all]; [intros [= <-]; eauto|].
  destruct (exec net l w) as [w1|] eqn:El; [|done]. cbn [mbind option_bind]. intros Hw Hd Hx Hdr [Hp Hps]%Forall_cons.
  destruct (exec_dispatched l w w1 i x El Hd Hx) as (Hd1 & x1 & Hx1 & Hx1').
  apply (IH w1 w' i x1); try done. destruct Hx1' as [->|(cl & tr & -> & Hs)]; [done|].
  apply (consumer_step_drained _ _ _ _ _ (λ d Hcl, Hp d (f_equal (LConsumer i) Hcl)) Hs).
Qed.
End Orderly.

(** ** Properties *)

(** C8: an orderly shutdown loses nothing -- in any interleaving, when the
    dispatcher has returned before the goroutine of an output, and no drain of
    the output gives up on its deadline, the output ends with every event
    processed written, counted as an error or counted as dropped, unless the
    last of its writes failed. *)
Theorem orderly_shutdown `{UnicodeCase} `{PrometheusLaws M} {W : Type} `{WriteCloser W} (stdout : W)
    (open_file : lumberjack_Logger → W) (net : string → nat → net_env)
    (regexp_Compile : string → result regexp) (sdk_Init : ClientOptions → option goerror)
    (load : result Config) (version : string) (a : daemon W) (metrics : bool) (w w' : world W) (ls : list label)
    (i : nat) (pc : consumer_pc) (c c' : Consumer (any_sink W))
    (ignoredCommands : list string) (track : bool) (commit : string) (start : Z) :
  build stdout open_file net regexp_Compile sdk_Init load version = Ok a →
  rtc (step net) (launch a metrics) w → w_disp w = DispDone → w_outs w !! i = Some (pc, c) → pc ≠ ConsDone →
  exec_all net ls w = Some w' → Forall (patient i) ls → w_outs w' !! i = Some (ConsDone, c') →
  let reg := run_calls (w_calls w') (Metrics.New (M := M) ignoredCommands track version commit start) in
  failing c' = true ∨
  ch_buf (c_in c') = [] ∧
  ((c_written c' + c_errors c' + c_dropped c') mod 2 ^ 64
   = counter_value (prom reg) (rw "events_processed_total") [] mod 2 ^ 64)%Z.
Proof.
  intros Hb Hr Hd Hx Hpc Hls Hp Hx' reg.
  destruct (exec_all_drained net ls w w' i (pc, c) Hls Hd Hx ltac:(by intros ?) Hp) as (Hd' & x & Hx1 & Hdr).
  rewrite Hx' in Hx1. injection Hx1 as <-. destruct (Hdr eq_refl) as [Hq|Hf]; [right|by left]. split; [done|].
  unfold reg. rewrite events_processed_counter. change (events_of (w_calls w')) with (recorded (w_calls w')).
  assert (Hr' : rtc (step net) (launch a metrics) w') by (etrans; [done|by eapply exec_all_rtc]).
  pose proof (output_accounts _ _ net _ _ _ _ a metrics w' i _ c' Hb Hr' Hx') as Ha.
  unfold handled_total, pending_output in Ha. cbn [snd] in Hq. rewrite Hd', Hq in Ha. cbn [length] in Ha.
  rewrite !Z.add_0_r in Ha. done.
Qed.

(** The dispatcher submits and returns before the output sees the context. *)
Definition orderly_start : list label :=
  [LClient (ClFrame example_event); LClient ClSend; LTake; LSignal; LDispatch; LDispatch; LDispatch; LDispatchStop].
Definition orderly_end : list label :=
  [LConsumer 0 ConsStop; LConsumer 0 (ConsDrain false 5); LConsumer 0 (ConsDrain false 5)].
Definition example_end (w : world string) : option (world string) :=
  @exec_all example_case string memory_writer example_net orderly_end w.
Lemma example_orderly_start :
  (λ w, (w_disp w, fst <$> w_outs w)) <$> example_run true orderly_start = Some (DispDone, [ConsRunning]).
Proof. vm_compute. reflexivity. Qed.
Lemma example_orderly_end :
  (λ w, ((λ x, (x.1, failing x.2)) <$> w_outs w)) <$> (example_run true orderly_start ≫= example_end) = Some [(ConsDone, false)].
Proof. vm_compute. reflexivity. Qed.

Lemma orderly_shutdown_witness :
  ∃ w w' c', example_run true orderly_start = Some w ∧ example_end w = Some w' ∧ w_outs w' !! 0 = Some (ConsDone, c') ∧
    ((c_written c' + c_errors c' + c_dropped c') mod 2 ^ 64
     = counter_value (prom (run_calls (w_calls w') (Metrics.New (M := prom_maps) [] true "1.0" "abc" 0)))
         (rw "events_processed_total") [] mod 2 ^ 64)%Z.
Proof.
  pose proof example_orderly_start as Hs. pose proof example_orderly_end as He.
  destruct (example_run true orderly_start) as [w|] eqn:Ew; [|discriminate Hs]. cbn [mbind option_bind] in He.
  destruct (example_end w) as [w'|] eqn:Ew'; [|discriminate He].
  injection Hs as Hd Hpc. injection He as He. destruct (example_run_inv _ _ _ Ew) as (a & Ea & Hr).
  destruct (w_outs w) as [|[pc c] [|]] eqn:Eo; [discriminate Hpc| |discriminate Hpc]. injection Hpc as ->.
  destruct (w_outs w') as [|[pc' c'] [|]] eqn:Eo'; [discriminate He| |discriminate He]. injection He as Hpc' Hf'.
  cbn in Hpc', Hf'. subst pc'. exists w, w', c'. split_and!; [reflexivity|exact Ew'|by rewrite Eo'|].
  destruct (@orderly_shutdown example_case prom_maps _ _ string memory_writer "" (λ _, "") example_net any_regexp
    (λ _, None) (Ok (example_run_config true)) "1.0" a true w w' orderly_end 0 ConsRunning c c' [] true "abc" 0
    Ea Hr Hd) as [Hl|[_ Hl]].
  - by rewrite Eo.
  - discriminate.
  - exact Ew'.
  - repeat constructor; intros d Hl; discriminate Hl.
  - by rewrite Eo'.
  - congruence.
  - exact Hl.
Defined.

(** Without the order of the dispatcher and the drain an event is lost: there is
    a run, without a failing write, a drop or a deadline, in which Run has
    returned and an event counted by events_processed_total was neither written
    nor dropped by the output, nor looked at by the alert engine: both hold it
    in a queue nobody reads. *)
Theorem late_event_lost : ∃ (a : daemon string) w c r e,
  example_build true = Ok a ∧ rtc (@step example_case string memory_writer example_net) (launch a true) w ∧
  w_main w = MainReturned ∧ recorded (w_calls w) = [example_event] ∧
  w_outs w = [(ConsDone, c)] ∧ counters c = mkCounters 0 0 0 ∧ ch_buf (c_in c) = [example_event] ∧
  w_engine w = Some (r, e) ∧ ch_buf (e_in e) = [example_event].
Proof.
  pose (ls := [LClient (ClFrame example_event); LClient ClSend; LTake; LSignal; LConsumer 0 ConsStop;
    LConsumer 0 (ConsDrain false 5); LEngineStop; LDispatch; LDispatch; LDispatch; LDispatchStop; LClient ClReturn;
    LCheckerStop; LServerStop; LMainJoin; LMainReturn]).
  assert (Hs : (λ w, (w_main w, recorded (w_calls w), (λ x, (x.1, counters x.2, ch_buf (c_in x.2))) <$> w_outs w,
                 (λ x, ch_buf (e_in x.2)) <$> w_engine w)) <$> example_run true ls
    = Some (MainReturned, [example_event], [(ConsDone, mkCounters 0 0 0, [example_event])], Some [example_event]))
    by (vm_compute; reflexivity).
  destruct (example_run true ls) as [w|] eqn:Ew; [|discriminate Hs]. cbn [fmap option_fmap option_map] in Hs.
  destruct (example_run_inv _ _ _ Ew) as (a & Ea & Hr).
  destruct (w_outs w) as [|[pc c] [|]] eqn:Eo; [discriminate Hs| |discriminate Hs].
  destruct (w_engine w) as [[r e]|] eqn:Ee; [|discriminate Hs]. cbn [fmap list_fmap option_fmap option_map fst snd] in Hs.
  apply (inj Some) in Hs as [[[Hm Hrec]%pair_equal_spec Ho]%pair_equal_spec He]%pair_equal_spec.
  injection He as He.
  assert (Ho' : ((pc, counters c), ch_buf (c_in c)) = ((ConsDone, mkCounters 0 0 0), [example_event])) by congruence.
  apply pair_equal_spec in Ho' as [[-> Hcnt]%pair_equal_spec Hq]. exists a, w, c, r, e. by split_and!.
Qed.
