(* ===== verification/Startup.v ===== *)
(** * Startup and scrapes ([Run] and [wireMetrics] of [internal/app/app.go])

    From the configuration to the goroutines, the metrics server included; and
    what a scrape reads from the queues of the running program. *)

From S2P Require Export Shutdown Server.

Section Startup.
Context `{UnicodeCase} `{UnicodeNames} {W : Type} `{WriteCloser W}.
Variables (stdout : W) (open_file : lumberjack_Logger → W) (net : string → nat → net_env).
Variables (regexp_Compile : string → result regexp) (sdk_Init : ClientOptions → option goerror).
#[local] Instance startup_sink : Sink (any_sink W) := world_sink net.

(** [if cfg.Metrics.Enabled { srv := metrics.NewServer(...) }] *)
Definition start_server (cfg : Config) : result (option Server) :=
  let m := Metrics cfg in
  if Metrics_Enabled m then srv ← NewServer (Metrics_Address m) (Metrics_Path m); Ok (Some srv) else Ok None.

(** func Run(ctx, configPath, info) until its first wait. *)
Definition start (load : result Config) (version : string) : result (daemon W * option Server * world W) :=
  a ← build stdout open_file net regexp_Compile sdk_Init load version;
  cfg ← load;
  srv ← start_server cfg;
  Ok (a, srv, launch a (Metrics_Enabled (Metrics cfg))).

(** ** The queue-depth collector *)

(** The collector wireMetrics fills: its callbacks read the running program;
    the names and capacities are read once, from [w0]. *)
Definition output_queue (i : nat) (x : consumer_pc * Consumer (any_sink W)) : queueRef (world W) :=
  mkQueueRef ("output:" +:+ Output.Name x.2) (λ w : world W, from_option (λ y, Output.QueueDepth y.2) 0 (w_outs w !! i))
    (Output.QueueCapacity x.2).
Definition collector (w0 : world W) : QueueDepthCollector (world W) :=
  let q := Add "events" (λ w : world W, Monitor.QueueDepth (w_mon w).2) (Monitor.QueueCapacity (w_mon w0).2)
             (NewQueueDepthCollector (world W)) in
  let q := foldl (λ q r, Add (q_name r) (q_depthFn r) (q_capacity r) q) q (imap output_queue (w_outs w0)) in
  match w_engine w0 with
  | Some (_, e) => Add "alerts" (λ w : world W, from_option (λ y, Alert.QueueDepth y.2) 0 (w_engine w)) (Alert.QueueCapacity e) q
  | None => q
  end.

(** ** Lemmas *)

Lemma collector_refs w0 :
  collector w0 = [mkQueueRef "events" (λ w : world W, Monitor.QueueDepth (w_mon w).2) (Monitor.QueueCapacity (w_mon w0).2)]
    ++ imap output_queue (w_outs w0)
    ++ match w_engine w0 with
       | Some (_, e) => [mkQueueRef "alerts" (λ w : world W, from_option (λ y, Alert.QueueDepth y.2) 0 (w_engine w)) (Alert.QueueCapacity e)]
       | None => []
       end.
Proof.
  assert (Hf : ∀ (l : list (queueRef (world W))) q, foldl (λ q r, Add (q_name r) (q_depthFn r) (q_capacity r) q) q l = q ++ l).
  { induction l as [|r l IH]; intros q; cbn; [by rewrite app_nil_r|]. rewrite IH. unfold Add. rewrite <- app_assoc. by destruct r. }
  unfold collector. rewrite Hf. destruct (w_engine w0) as [[r e]|]; [|by rewrite app_nil_r]. by unfold Add; rewrite <- !app_assoc.
Qed.
End Startup.

(** Operations keep a queue within its capacity. *)
Definition same_room {A} (c c' : chan A) : Prop := ch_cap c' = ch_cap c ∧ (chan_wf c → chan_wf c').

Lemma same_room_refl {A} (c : chan A) : same_room c c.
Proof. done. Qed.
Lemma same_room_trans {A} (c1 c2 c3 : chan A) : same_room c1 c2 → same_room c2 c3 → same_room c1 c3.
Proof. intros [H1 H2] [H3 H4]. split; [congruence|auto]. Qed.
Lemma same_room_send {A} (x : A) c c' : chan_send x c = Some c' → same_room c c'.
Proof. intros E. split; [by apply chan_send_Some in E as (_ & ? & _)|intros _; by eapply chan_send_wf]. Qed.
Lemma same_room_recv {A} (x : A) c c' : chan_recv c = Some (x, c') → same_room c c'.
Proof. intros E. split; [by apply chan_recv_Some in E as (_ & ?)|intros Hc; by eapply chan_recv_wf]. Qed.
#[export] Hint Resolve same_room_refl same_room_send same_room_recv : watcher.

Lemma consumer_run_room {S} `{Sink S} ops : ∀ (c : Consumer S) tr c',
  consumer_run ops c = Some (tr, c') → same_room (c_in c) (c_in c').
Proof.
  induction ops as [|[ev|d] ops IH]; intros c tr c'; cbn [consumer_run]; [intros [= _ <-]; auto with watcher| |].
  - destruct (Submit ev c) as [[tr1 c1]|] eqn:Es; [|done]. cbn [mbind option_bind].
    destruct (consumer_run ops c1) as [[tr2 c2]|] eqn:E; [|done]. intros [= _ <-].
    eapply same_room_trans; [|by eapply IH]. unfold Submit in Es.
    destruct (chan_send ev (c_in c)) eqn:Ech; [injection Es as _ <-; eauto with watcher|].
    destruct (c_drop c); [|done]. injection Es as _ <-. auto with watcher.
  - destruct (chan_recv (c_in c)) as [[ev ch]|] eqn:Ech; [|apply IH].
    pose proof (write_event_in "output.write" d ev (with_in c ch)) as Hi. unfold writeOne.
    destruct (write_event _ d ev (with_in c ch)) as [[tr1 err] c1]. cbn [snd with_in c_in] in Hi.
    destruct (consumer_run ops c1) as [[tr2 c2]|] eqn:E; [|done]. intros [= _ <-].
    eapply same_room_trans; [by eapply same_room_recv|]. rewrite <- Hi. by eapply IH.
Qed.
Lemma closed_in {S} `{Sink S} pc (c : Consumer S) : c_in (closed pc c) = c_in c.
Proof. destruct pc; cbn; [done..|apply close_sink_in]. Qed.

Lemma engine_run_room ops : ∀ e h tr e', engine_run ops e = Some (h, tr, e') → same_room (e_in e) (e_in e').
Proof.
  induction ops as [|[ev|now env] ops IH]; intros e h tr e'; cbn [engine_run]; [intros [= _ _ <-]; auto with watcher| |].
  - destruct (Alert.Submit ev e) as [[e1 tr1]|] eqn:Es; [|done]. cbn [mbind option_bind].
    destruct (engine_run ops e1) as [[[h2 tr2] e2]|] eqn:E; [|done]. intros [= _ _ <-].
    eapply same_room_trans; [|by eapply IH]. unfold Alert.Submit in Es.
    destruct (chan_send ev (e_in e)) eqn:Ech; [injection Es as <- _; eauto with watcher|].
    destruct (Alert.drop e); [|done]. injection Es as <- _. auto with watcher.
  - unfold run_step. destruct (chan_recv (e_in e)) as [[ev ch]|] eqn:Ech; [|apply IH].
    destruct (handle _ now env ev) as [tr1 e1] eqn:Eh. destruct (ch_buf (e_in e)); [apply IH|].
    destruct (engine_run ops e1) as [[[h2 tr2] e2]|] eqn:E; [|done]. intros [= _ _ <-].
    eapply same_room_trans; [by eapply same_room_recv|].
    match type of Eh with handle ?e0 _ _ _ = _ => pose proof (handle_keeps e0 now env ev) as (Hi & _) end.
    rewrite Eh in Hi. cbn in Hi. rewrite <- Hi. by eapply IH.
Qed.

Lemma client_step_room b l x cs x' : client_step b l x = Some (cs, x') → same_room (out x.2) (out x'.2).
Proof.
  destruct x as [pc c]. destruct pc, l as [|call| | |]; try done; cbn [client_step];
    try (destruct call; try done); try (intros [= _ <-]; auto with watcher).
  - destruct (chan_send _ (out c)) eqn:Ech; [intros [= _ <-]; cbn; eauto with watcher|].
    destruct (Monitor.drop c); [|done]. intros [= _ <-]. auto with watcher.
  - destruct (_ && _); [|done]. intros [= _ <-]. auto with watcher.
Qed.
Lemma client_run_room b es : ∀ x cs evs x', client_run b es x = Some (cs, evs, x') → same_room (out x.2) (out x'.2).
Proof.
  induction es as [|[l|] es IH]; intros x cs evs x'; cbn [client_run]; [intros [= _ _ <-]; auto with watcher| |].
  - destruct (client_step b l x) as [[cs1 x1]|] eqn:Es; [|done]. cbn [mbind option_bind].
    destruct (client_run b es x1) as [[[cs2 evs2] x2]|] eqn:E; [|done]. intros [= _ _ <-].
    eapply same_room_trans; [by eapply client_step_room|by eapply IH].
  - destruct (chan_recv (out x.2)) as [[ev ch]|] eqn:Er; [|done]. cbn [mbind option_bind].
    destruct (client_run b es _) as [[[cs2 evs2] x2]|] eqn:E; [|done]. intros [= _ _ <-].
    eapply same_room_trans; [by eapply same_room_recv|]. exact (IH _ _ _ _ E).
Qed.

Section Scrape.
Context `{UnicodeCase} `{UnicodeNames} {W : Type} `{WriteCloser W}.
Variables (stdout : W) (open_file : lumberjack_Logger → W) (net : string → nat → net_env).
Variables (regexp_Compile : string → result regexp) (sdk_Init : ClientOptions → option goerror).

(** The queues of what Run builds are empty. *)
Lemma build_queues load version a :
  build stdout open_file net regexp_Compile sdk_Init load version = Ok a →
  chan_wf (out (app_monitor a)) ∧ Forall (λ c, chan_wf (c_in c)) (default [] (app_outputs a)) ∧
  match app_engine a with Some (_, e) => chan_wf (e_in e) | None => True end.
Proof.
  intros Hb. pose proof (build_fresh _ _ _ _ _ _ _ _ Hb) as (_ & Hm & _).
  apply build_inv in Hb as (cfg & _ & Ec & Ee & _). split_and!.
  - unfold chan_wf. rewrite Hm. cbn. lia.
  - clear -Ec. revert Ec. generalize (default [] (app_outputs a)). induction (Outputs cfg) as [|o os IH]; intros cs; cbn [build_consumers].
    + by intros [= <-].
    + destruct (Output_Enabled o); cbn [negb]; [|apply IH].
      destruct (build_sink stdout open_file o) as [s|e|]; [|done..]. cbn [mbind result_bind]. unfold NewConsumer.
      destruct (Pipeline_ConsumerBuffer (Pipeline cfg) <? 0)%Z; [done|]. cbn [mbind result_bind].
      destruct (build_consumers stdout open_file (Pipeline cfg) os) as [cs'|e|]; [|done..]. cbn [mbind result_bind].
      intros [= <-]. constructor; [apply make_chan_wf|by apply IH].
  - unfold buildAlertEngine, Alert.New in Ee. destruct (app_engine a) as [[chs e]|]; [|done].
    destruct (negb _); [done|]. destruct (build_channels _); [done|].
    destruct (compile_patterns _ _) as [l0| |]; [|done..]. injection Ee as _ <-. apply make_chan_wf.
Qed.
(** The queues wireMetrics adds are those of the collector. *)
Lemma collector_queues load version (a : daemon W) metrics :
  build stdout open_file net regexp_Compile sdk_Init load version = Ok a →
  (λ r, (q_name r, q_capacity r)) <$> collector net (launch a metrics) = app_queues a.
Proof.
  intros (cfg & _ & _ & _ & Er & -> & _)%build_inv. rewrite collector_refs. unfold queues. rewrite !fmap_app. f_equal; [|f_equal].
  - cbn. do 2 f_equal. unfold buildRoleChecker in Er.
    by destruct (RoleCheck_Enabled (RoleCheck cfg)); cbn in Er; injection Er as _ <-.
  - cbn [w_outs launch]. destruct (app_outputs a) as [cs|]; [|done]. cbn [default from_option id].
    apply list_eq. intros i. rewrite !list_lookup_fmap, list_lookup_imap, list_lookup_fmap. by destruct (cs !! i).
  - cbn [w_engine launch]. by destruct (app_engine a) as [[chs e]|].
Qed.

(** The queues of the outputs, of the engine and of the client, at any time. *)
Lemma outputs_bounded w0 w :
  outputs_part net w0 w → Forall (λ x, chan_wf (c_in x.2)) (w_outs w0) →
  Forall (λ r, q_depthFn r w ≤ q_capacity r) (imap (output_queue net) (w_outs w0)).
Proof.
  intros [_ Ho] Hq. rewrite Forall_lookup in Hq. rewrite Forall_lookup. intros i r. rewrite list_lookup_imap, fmap_Some.
  intros (x & Hx & ->). cbn [output_queue q_depthFn q_capacity]. destruct (w_outs w !! i) as [y|] eqn:Ey; [|cbn; lia].
  destruct (Ho i y Ey) as (x0 & evs & Hx0 & (ops & tr & c1 & Hrun & Hcl & _) & _).
  rewrite Hx in Hx0. injection Hx0 as <-. apply consumer_run_room in Hrun as [Hcap Hwf]. specialize (Hwf (Hq i x Hx)).
  unfold chan_wf in Hwf. cbn. unfold Output.QueueDepth, Output.QueueCapacity, chan_len. rewrite Hcl, closed_in. lia.
Qed.
Lemma engine_bounded (w0 w : world W) r0 e0 r e :
  engine_part w0 w → w_engine w0 = Some (r0, e0) → w_engine w = Some (r, e) → chan_wf (e_in e0) →
  Alert.QueueDepth e ≤ Alert.QueueCapacity e0.
Proof.
  unfold engine_part. intros He H0' Hw Hq. rewrite H0', Hw in He. destruct He as (evs & (ops & h & tr & Hrun & _) & _).
  apply engine_run_room in Hrun as [Hcap Hwf]. specialize (Hwf Hq). unfold chan_wf in Hwf.
  unfold Alert.QueueDepth, Alert.QueueCapacity, chan_len. lia.
Qed.
Lemma source_bounded (w0 w : world W) :
  source_part w0 w → chan_wf (out (w_mon w0).2) → Monitor.QueueDepth (w_mon w).2 ≤ Monitor.QueueCapacity (w_mon w0).2.
Proof.
  intros (es & evs & Hrun & _) Hq. apply client_run_room in Hrun as [Hcap Hwf]. specialize (Hwf Hq).
  unfold chan_wf in Hwf. unfold Monitor.QueueDepth, Monitor.QueueCapacity, chan_len. lia.
Qed.
End Scrape.

(** Everything the collector was given stays within its capacity. *)
Lemma collector_bounded `{UnicodeCase} {W : Type} `{WriteCloser W} (stdout : W)
    (open_file : lumberjack_Logger → W) (net : string → nat → net_env)
    (regexp_Compile : string → result regexp) (sdk_Init : ClientOptions → option goerror)
    load version (a : daemon W) metrics w :
  build stdout open_file net regexp_Compile sdk_Init load version = Ok a →
  rtc (step net) (launch a metrics) w →
  Forall (λ r, q_depthFn r w ≤ q_capacity r) (collector net (launch a metrics)).
Proof.
  intros Hb Hr. destruct (build_queues _ _ _ _ _ _ _ _ Hb) as (Hqm & Hqo & Hqe).
  apply (reachable_follows net a metrics) in Hr as (Hs & Ho & He & _ & _).
  rewrite collector_refs, !Forall_app. split_and!.
  - constructor; [|done]. by apply source_bounded.
  - apply outputs_bounded; [done|]. cbn [w_outs launch]. by apply Forall_fmap.
  - destruct (w_engine (launch a metrics)) as [[r0 e0]|] eqn:Ea; [|done]. constructor; [|done].
    cbn. destruct (w_engine w) as [[r e]|] eqn:Ee; [|cbn; lia].
    eapply engine_bounded; [done..|]. cbn in Ea. destruct (app_engine a) as [[chs e1]|]; [|done]. by injection Ea as _ <-.
Qed.

(** The two samples of a queue. *)
Lemma Collect_depth {S} (q : list (queueRef S)) st i :
  Collect q st !! (2 * i) = (λ r, (rw "queue_depth", q_name r, Z.of_nat (q_depthFn r st))) <$> q !! i.
Proof.
  revert i. unfold Collect. induction q as [|r q IH]; intros i; [by destruct i|]. destruct i as [|i]; [done|].
  replace (2 * Datatypes.S i) with (Datatypes.S (Datatypes.S (2 * i))) by lia. exact (IH i).
Qed.
Lemma Collect_capacity {S} (q : list (queueRef S)) st i :
  Collect q st !! Datatypes.S (2 * i) = (λ r, (rw "queue_capacity", q_name r, Z.of_nat (q_capacity r))) <$> q !! i.
Proof.
  revert i. unfold Collect. induction q as [|r q IH]; intros i; [by destruct i|]. destruct i as [|i]; [done|].
  replace (2 * Datatypes.S i) with (Datatypes.S (Datatypes.S (2 * i))) by lia. exact (IH i).
Qed.
Lemma Collect_app {S} (q q' : list (queueRef S)) st : Collect (q ++ q') st = Collect q st ++ Collect q' st.
Proof. unfold Collect. by rewrite fmap_app, join_app. Qed.

(** What a scrape says of a queue of the program with a configured buffer. *)
Definition series (queue : string) (c : chan Event) (buffer : Z) : list (string * string * Z) :=
  [(rw "queue_depth", queue, Z.of_nat (length (ch_buf c))); (rw "queue_capacity", queue, buffer)].

Section Samples.
Context `{UnicodeCase} {W : Type} `{WriteCloser W}.
Variables (stdout : W) (open_file : lumberjack_Logger → W) (net : string → nat → net_env).
Variables (regexp_Compile : string → result regexp) (sdk_Init : ClientOptions → option goerror).
Variables (cfg : Config) (version : string) (a : daemon W) (metrics : bool) (w : world W).
Hypothesis Hwf : config_wf cfg.
Hypothesis Hb : build stdout open_file net regexp_Compile sdk_Init (Ok cfg) version = Ok a.

(** The consumer of an enabled output, at the start and at any time. *)
Lemma output_refs i o :
  outputs_part net (launch a metrics) w → List.filter Output_Enabled (Outputs cfg) !! i = Some o →
  ∃ x y, w_outs (launch a metrics) !! i = Some x ∧ w_outs w !! i = Some y ∧
    @Output.Name _ (world_sink net) x.2 = Output_Type o ∧
    Z.of_nat (Output.QueueCapacity x.2) = Pipeline_ConsumerBuffer (Pipeline cfg).
Proof.
  intros [Hlen _] Hi. pose proof (build_outputs _ _ _ _ _ _ _ _ Hwf Hb) as Hout.
  destruct (Forall2_lookup_l _ _ _ _ _ Hout Hi) as (c & Hc & Hbf).
  assert (Hx : w_outs (launch a metrics) !! i = Some (ConsRunning, c)) by (cbn [w_outs launch]; by rewrite list_lookup_fmap, Hc).
  destruct (lookup_lt_is_Some_2 (w_outs w) i) as [y Hy].
  { rewrite Hlen. by eapply lookup_lt_Some. }
  exists (ConsRunning, c), y. split; [done|]. split; [done|]. split; [by apply (built_for_name _ _ net) in Hbf|].
  apply Hbf.
Qed.
Lemma outputs_length :
  outputs_part net (launch a metrics) w → length (w_outs w) = length (List.filter Output_Enabled (Outputs cfg)).
Proof.
  intros [-> _]. pose proof (build_outputs _ _ _ _ _ _ _ _ Hwf Hb) as Hout. cbn [w_outs launch].
  rewrite length_fmap. symmetry. by eapply Forall2_length.
Qed.

(** What the collector yields for the outputs. *)
Lemma output_samples :
  outputs_part net (launch a metrics) w →
  Collect (imap (output_queue net) (w_outs (launch a metrics))) w =
  mjoin (zip_with (λ o x, series ("output:" +:+ Output_Type o) (c_in x.2) (Pipeline_ConsumerBuffer (Pipeline cfg)))
           (List.filter Output_Enabled (Outputs cfg)) (w_outs w)).
Proof.
  intros Ho. unfold Collect. f_equal. apply list_eq. intros i.
  rewrite list_lookup_fmap, list_lookup_imap, lookup_zip_with.
  destruct (List.filter Output_Enabled (Outputs cfg) !! i) as [o|] eqn:Ei.
  - destruct (output_refs i o Ho Ei) as (x & y & -> & Hy & Hn & Hc). rewrite Hy.
    cbn [fmap option_fmap option_map mbind option_bind output_queue q_name q_depthFn q_capacity]. rewrite Hy.
    unfold series, startup_sink. cbn [from_option]. by rewrite Hn, Hc.
  - apply lookup_ge_None in Ei. rewrite <- (outputs_length Ho) in Ei. destruct Ho as [Hlen _].
    by rewrite (proj2 (lookup_ge_None (w_outs (launch a metrics)) i)) by lia.
Qed.

(** The engine is the one built, with its queue. *)
Lemma engine_samples :
  engine_part (launch a metrics) w →
  Collect match w_engine (launch a metrics) with
          | Some (_, e) => [mkQueueRef "alerts" (λ w : world W, from_option (λ y, Alert.QueueDepth y.2) 0 (w_engine w)) (Alert.QueueCapacity e)]
          | None => []
          end w
  = match w_engine w with Some (_, e) => series "alerts" (e_in e) (Pipeline_ConsumerBuffer (Pipeline cfg)) | None => [] end.
Proof.
  apply build_inv in Hb as (cfg' & [= <-] & _ & Ee & _). apply (buildAlertEngine_configured _ _ _ Hwf) in Ee.
  unfold engine_part. cbn [launch w_engine]. unfold engine_configured in Ee.
  destruct (app_engine a) as [[chs e0]|], (w_engine w) as [[r e]|] eqn:Ew; cbn; try done. intros _.
  rewrite Ew. unfold series, Alert.QueueCapacity. cbn. by destruct Ee as (_&_&_&_&_&_&_&_&_&_&_&_&_&_&->&_).
Qed.

Lemma collector_samples :
  outputs_part net (launch a metrics) w → engine_part (launch a metrics) w →
  Collect (collector net (launch a metrics)) w =
  series "events" (out (w_mon w).2) (Pipeline_EventBuffer (Pipeline cfg))
    ++ mjoin (zip_with (λ o x, series ("output:" +:+ Output_Type o) (c_in x.2) (Pipeline_ConsumerBuffer (Pipeline cfg)))
                (List.filter Output_Enabled (Outputs cfg)) (w_outs w))
    ++ match w_engine w with Some (_, e) => series "alerts" (e_in e) (Pipeline_ConsumerBuffer (Pipeline cfg)) | None => [] end.
Proof.
  intros Ho He. rewrite collector_refs, !Collect_app. rewrite (output_samples Ho).
  f_equal; [|f_equal; exact (engine_samples He)].
  apply build_inv in Hb as (cfg' & [= <-] & _ & _ & Er & _).
  destruct Hwf as (Hw1 & _ & _ & _ & _ & _ & _ & _ & Hw2 & _ & Hw3).
  apply buildRoleChecker_configured in Er as [Hm _]; [|done..]. unfold client_configured in Hm. unfold series.
  cbn. unfold Monitor.QueueCapacity. by destruct Hm as (_&_&_&_&_&_&_&_&_&->&_).
Qed.

(** The names of the queues are distinct exactly when the types of the outputs
    are. *)
Lemma collector_names :
  NoDup (q_name <$> collector net (launch a metrics)) ↔
  NoDup (Output_Type <$> List.filter Output_Enabled (Outputs cfg)).
Proof.
  assert (Hn : q_name <$> collector net (launch a metrics) = (app_queues a).*1).
  { rewrite <- (collector_queues _ _ net _ _ _ _ a metrics Hb), <- list_fmap_compose. done. }
  rewrite Hn. apply build_inv in Hb as (cfg' & [= <-] & Ec & _ & _ & -> & Hne & _).
  destruct (queue_names_distinct_iff stdout open_file net cfg (app_engine a) Hwf) as (outs & Houts & Hiff).
  assert (outs = app_outputs a) as ->; [|done]. unfold buildOutputs in Houts. rewrite Ec in Houts.
  injection Houts as <-. destruct (app_outputs a) as [[|c cs]|]; done.
Qed.
End Samples.

(** ** Properties *)

(** C30: what a scrape reads -- in any interleaving of the goroutines of a
    daemon built from a validated configuration, the queue-depth collector
    yields one depth and one capacity for the events channel, for each enabled
    output in order, under the type of the output, and for the alert engine when
    there is one: the depth is the number of events the queue holds at that
    moment, the capacity the configured buffer.  No depth is negative or above
    the capacity after it.  What an output has done with its events and the
    depth scraped for it add up to the events recorded, but for the one the
    dispatcher still has to offer it.  The scrape is refused, for duplicate
    series, exactly when two enabled outputs have the same type. *)
Theorem scrape_reads_queues `{UnicodeCase} {W : Type} `{WriteCloser W} (stdout : W)
    (open_file : lumberjack_Logger → W) (net : string → nat → net_env)
    (regexp_Compile : string → result regexp) (sdk_Init : ClientOptions → option goerror)
    (cfg : Config) (version : string) (a : daemon W) (metrics : bool) (w : world W) :
  config_wf cfg →
  build stdout open_file net regexp_Compile sdk_Init (Ok cfg) version = Ok a →
  rtc (step net) (launch a metrics) w →
  let p := Pipeline cfg in
  let os := List.filter Output_Enabled (Outputs cfg) in
  let samples := Collect (collector net (launch a metrics)) w in
  samples = series "events" (out (w_mon w).2) (Pipeline_EventBuffer p)
    ++ mjoin (zip_with (λ o x, series ("output:" +:+ Output_Type o) (c_in x.2) (Pipeline_ConsumerBuffer p)) os (w_outs w))
    ++ match w_engine w with Some (_, e) => series "alerts" (e_in e) (Pipeline_ConsumerBuffer p) | None => [] end ∧
  (∀ i q d, samples !! (2 * i) = Some (rw "queue_depth", q, d) →
     ∃ c, samples !! S (2 * i) = Some (rw "queue_capacity", q, c) ∧ (0 ≤ d ≤ c)%Z) ∧
  (∀ i o, os !! i = Some o → ∃ pc c d,
     w_outs w !! i = Some (pc, c) ∧
     samples !! (2 * S i) = Some (rw "queue_depth", "output:" +:+ Output_Type o, d) ∧
     ((c_written c + c_errors c + c_dropped c + d + Z.of_nat (length (pending_output i w))) mod 2 ^ 64
      = Z.of_nat (length (recorded (w_calls w))) mod 2 ^ 64)%Z) ∧
  (gathers samples = true ↔ NoDup (Output_Type <$> os)).
Proof.
  intros Hwf Hb Hr p os samples.
  pose proof (reachable_follows net a metrics w Hr) as (Hs & Ho & He & _ & _).
  split; [by eapply collector_samples|]. split; [|split].
  - intros i q d. unfold samples. rewrite Collect_depth, Collect_capacity.
    pose proof (collector_bounded _ _ _ _ _ _ _ _ metrics w Hb Hr) as Hall.
    destruct ((collector net (launch a metrics) : list (queueRef (world W))) !! i) as [r|] eqn:Ei; cbn; [|done]. intros [= <- <-]. eexists.
    split; [reflexivity|]. rewrite Forall_lookup in Hall. specialize (Hall i r Ei). lia.
  - intros i o Hi. destruct (output_refs _ _ net _ _ _ _ _ metrics w Hwf Hb i o Ho Hi) as (x & [pc c] & Hx & Hy & Hn & _).
    exists pc, c, (Z.of_nat (Output.QueueDepth c)). split; [done|]. split.
    + unfold samples. rewrite Collect_depth, collector_refs. rewrite lookup_app_r by (cbn; lia).
      cbn [length]. replace (Datatypes.S i - 1) with i by lia.
      rewrite lookup_app_l by (rewrite length_imap; by eapply lookup_lt_Some). rewrite list_lookup_imap, Hx.
      cbn [fmap option_fmap option_map output_queue q_name q_depthFn]. rewrite Hy. unfold startup_sink. by rewrite Hn.
    + pose proof (output_accounts _ _ _ _ _ _ _ _ _ _ _ _ _ Hb Hr Hy) as Hacc. exact Hacc.
  - unfold samples. rewrite Collect_names. by eapply collector_names.
Qed.

(** C28: what a validated configuration starts -- with patterns that compile, a
    Sentry SDK that takes its options and a plain metrics path, Run reaches its
    first wait unless the metrics server is enabled on the path of a health
    endpoint, and then it panics; it also panics when the path of an enabled
    server has no slash.  Validate accepts all of these. *)
Theorem start_panics_iff `{UnicodeCase} `{UnicodeNames} {W : Type} `{WriteCloser W} (stdout : W)
    (open_file : lumberjack_Logger → W) (net : string → nat → net_env)
    (regexp_Compile : string → result regexp) (sdk_Init : ClientOptions → option goerror)
    (cfg : Config) (version : string) :
  config_wf cfg → (∀ o, sdk_Init o = None) →
  Forall (λ p, is_ok (regexp_Compile ("(?i)" +:+ p)) = true) (Alerts_Patterns (Alerts cfg)) →
  let path := Metrics_Path (Metrics cfg) in
  let started := start stdout open_file net regexp_Compile sdk_Init (Ok cfg) version in
  (plain path = true →
     (started = Panics ↔ Metrics_Enabled (Metrics cfg) = true ∧ (path = "/healthz" ∨ path = "/readyz")) ∧
     (started ≠ Panics → ∃ a srv, started = Ok (a, srv, launch a (Metrics_Enabled (Metrics cfg))))) ∧
  (contains_byte path "/" = false → Metrics_Enabled (Metrics cfg) = true → started = Panics).
Proof.
  intros Hwf Hsdk Hpat path started.
  destruct (build_ok stdout open_file net regexp_Compile sdk_Init cfg version Hwf Hsdk Hpat) as [a Ha].
  unfold started, start, start_server. rewrite Ha. cbn [mbind result_bind]. fold path. split.
  - intros Hp. pose proof (plain_inv _ Hp) as (r & E & _). destruct (Metrics_Enabled (Metrics cfg)).
    + rewrite E in *. rewrite NewServer_plain by done. case_decide as Hr; cbn [mbind result_bind].
      * split; [|done]. split; [|done]. intros _. split; [done|]. destruct Hr as [-> | ->]; auto.
      * split; [|by eexists _, _]. split; [done|]. intros [_ [[= ->]|[= ->]]]; exfalso; auto.
    + cbn [mbind result_bind]. split; [split; [done|by intros [? _]]|by eexists _, _].
  - intros Hp ->. unfold NewServer, Handle. pose proof (parsePattern_no_slash path Hp) as Hq.
    by destruct (parsePattern path).
Qed.

(** The default configuration, with another path for the metrics. *)
Definition example_path (p : string) : Config :=
  mkConfig (Redis Default) (Log Default) (Config.Filter Default) (RoleCheck Default) (Outputs Default)
    (mkMetrics true ":9100" p [] true) (Alerts Default) (Sentry Default) (Pipeline Default).

Lemma start_panics_iff_witness :
  let started p := @start example_case (λ _, false) string memory_writer "" (λ _, "") Refinement.example_net any_regexp (λ _, None)
                     (Ok (example_path p)) "1.0" in
  @Validate example_case (example_path "/readyz") = Ok (example_path "/readyz") ∧
  started "/readyz" = Panics ∧ started "metrics" = Panics.
Proof.
  cbv zeta. split; [reflexivity|].
  assert (Hwf : ∀ p, @Validate example_case (example_path p) = Ok (example_path p) → @config_wf example_case (example_path p)).
  { intros p Hp. destruct (@Validate_spec example_case _ _ Hp) as [Hw _]. exact Hw. }
  split.
  - destruct (@start_panics_iff example_case (λ _, false) string memory_writer "" (λ _, "") Refinement.example_net any_regexp (λ _, None)
      (example_path "/readyz") "1.0" (Hwf "/readyz" eq_refl) (λ _, eq_refl) (Forall_nil_2 _)) as [Hp _].
    apply (Hp eq_refl). split; [reflexivity|]. by right.
  - destruct (@start_panics_iff example_case (λ _, false) string memory_writer "" (λ _, "") Refinement.example_net any_regexp (λ _, None)
      (example_path "metrics") "1.0" (Hwf "metrics" eq_refl) (λ _, eq_refl) (Forall_nil_2 _)) as [_ Hp].
    by apply Hp.
Defined.

(** The depths of the queues of a world. *)
Definition depths (w : world string) : nat * list nat * option nat :=
  (length (ch_buf (out (w_mon w).2)), (λ x, length (ch_buf (c_in x.2))) <$> w_outs w,
   (λ x, length (ch_buf (e_in x.2))) <$> w_engine w).
Lemma example_depths : depths <$> example_run true example_trace = Some (1, [0], Some 0).
Proof. vm_compute. reflexivity. Qed.

Lemma scrape_reads_queues_witness :
  ∃ a w, example_run true example_trace = Some w ∧
    Collect (@collector example_case string memory_writer Refinement.example_net (launch a true)) w =
      [("redis_watcher_queue_depth", "events", 1%Z); ("redis_watcher_queue_capacity", "events", 1%Z);
       ("redis_watcher_queue_depth", "output:stdout", 0%Z); ("redis_watcher_queue_capacity", "output:stdout", 1%Z);
       ("redis_watcher_queue_depth", "alerts", 0%Z); ("redis_watcher_queue_capacity", "alerts", 1%Z)] ∧
    gathers (Collect (@collector example_case string memory_writer Refinement.example_net (launch a true)) w) = true.
Proof.
  pose proof example_depths as Hd. destruct (example_run true example_trace) as [w|] eqn:Ew; [|discriminate Hd].
  injection Hd as Hm Ho He. destruct (example_run_inv _ _ _ Ew) as (a & Ea & Hr). exists a, w.
  destruct (@scrape_reads_queues example_case string memory_writer "" (λ _, "") Refinement.example_net any_regexp (λ _, None)
    (example_run_config true) "1.0" a true w) as (Hq & _ & _ & Hg); [|exact Ea|exact Hr|].
  - destruct (@Validate_spec example_case (example_run_config true) (example_run_config true) eq_refl) as [Hw _]. exact Hw.
  - split; [reflexivity|]. split; [|apply Hg; repeat constructor; apply not_elem_of_nil].
    rewrite Hq. unfold series. rewrite Hm. destruct (w_outs w) as [|x [|]]; [discriminate Ho| |discriminate Ho].
    injection Ho as Hx. destruct (w_engine w) as [[r e]|]; [|discriminate He]. injection He as He.
    cbn [snd fst] in *. rewrite He. cbn. rewrite Hx. reflexivity.
Defined.
